(** * MFAT: a shallow embedding of mfat.c and its verified properties

    The C translation unit keeps all of its state in one statically
    allocated context [s_ctx].  The embedding threads that context
    explicitly through a small state monad.  Unsigned 32-bit quantities
    are integers in [Z] with the wrap-around written out, buffers are
    lists of bytes, pointers into the context (cached blocks, file
    descriptors) are indices into the arrays they point into, and a
    computation has no result ([None]) exactly where the C program has
    no defined behaviour (division by zero, an access outside an array
    of the context, a call through a null callback) or where a loop
    does not finish.  Byte buffers are the one exception: a read past
    the end of a buffer yields zero (see [byte_at]). *)

From Stdlib Require Import ZArith Lia List Bool.
From Stdlib Require Import Strings.Byte.
From Stdlib Require Strings.String.
From stdpp Require Import list.
Import String.StringSyntax.

Open Scope Z_scope.

(* ------------------------------------------------------------------ *)
(** ** Machine integers and bytes *)

Definition u32 (x : Z) : Z := x mod 2 ^ 32.

Definition add32 (a b : Z) : Z := u32 (a + b).
Definition sub32 (a b : Z) : Z := u32 (a - b).
Definition mul32 (a b : Z) : Z := u32 (a * b).
Definition shl32 (a n : Z) : Z := u32 (Z.shiftl a n).

(** The value of a [uint8_t]. *)
Definition u8 (b : byte) : Z := Z.of_N (Byte.to_N b).

(** The conversion [(char)c] of an [int] holding a character code. *)
Definition byte_of_Z (z : Z) : byte :=
  match Byte.of_N (Z.to_N (z mod 256)) with
  | Some b => b
  | None => x00
  end.

(** [buf[i]]: the bytes past the end of a list read as zero (for a C
    string this is its terminator). *)
Definition byte_at (buf : list byte) (i : Z) : Z :=
  if i <? 0 then 0 else u8 (nth (Z.to_nat i) buf x00).

(* ------------------------------------------------------------------ *)
(** ** Configuration and constants *)

Definition MFAT_NUM_CACHED_BLOCKS : nat := 2.
Definition MFAT_NUM_FDS : nat := 4.
Definition MFAT_NUM_PARTITIONS : nat := 4.

Definition MFAT_BLOCK_SIZE : Z := 512.

Definition MFAT_O_RDONLY : Z := 1.
Definition MFAT_O_WRONLY : Z := 2.
Definition MFAT_O_RDWR : Z := Z.lor MFAT_O_RDONLY MFAT_O_WRONLY.
Definition MFAT_O_APPEND : Z := 4.
Definition MFAT_O_CREAT : Z := 8.
Definition MFAT_O_DIRECTORY : Z := 16.

Definition MFAT_SEEK_SET : Z := 0.
Definition MFAT_SEEK_CUR : Z := 1.
Definition MFAT_SEEK_END : Z := 2.

Definition MFAT_S_IFREG : Z := 0x8000.
Definition MFAT_S_IFDIR : Z := 0x4000.
Definition MFAT_S_IRUSR : Z := 0x0100.
Definition MFAT_S_IWUSR : Z := 0x0080.
Definition MFAT_S_IXUSR : Z := 0x0040.
Definition MFAT_S_IRGRP : Z := 0x0020.
Definition MFAT_S_IWGRP : Z := 0x0010.
Definition MFAT_S_IXGRP : Z := 0x0008.
Definition MFAT_S_IROTH : Z := 0x0004.
Definition MFAT_S_IWOTH : Z := 0x0002.
Definition MFAT_S_IXOTH : Z := 0x0001.

Definition MFAT_PART_ID_NONE : Z := 0x00.
Definition MFAT_PART_ID_FAT16_LT32GB : Z := 0x04.
Definition MFAT_PART_ID_FAT16_GT32GB : Z := 0x06.
Definition MFAT_PART_ID_FAT32 : Z := 0x0b.
Definition MFAT_PART_ID_FAT32_LBA : Z := 0x0c.
Definition MFAT_PART_ID_FAT16_GT32GB_LBA : Z := 0x0e.

Definition MFAT_ATTR_READ_ONLY : Z := 0x01.
Definition MFAT_ATTR_HIDDEN : Z := 0x02.
Definition MFAT_ATTR_SYSTEM : Z := 0x04.
Definition MFAT_ATTR_VOLUME_ID : Z := 0x08.
Definition MFAT_ATTR_DIRECTORY : Z := 0x10.
Definition MFAT_ATTR_ARCHIVE : Z := 0x20.
Definition MFAT_ATTR_LONG_NAME : Z := 0x0f.

(** [mfat_cached_block_t::state] *)
Definition MFAT_INVALID : Z := 0.
Definition MFAT_VALID : Z := 1.
Definition MFAT_DIRTY : Z := 2.

(** Cache classes (indices into [s_ctx.cache]). *)
Definition MFAT_CACHE_DATA : nat := 0.
Definition MFAT_CACHE_FAT : nat := 1.
Definition MFAT_NUM_CACHES : nat := 2.

(** [mfat_partition_t::type] *)
Definition MFAT_TYPE_UNKNOWN : Z := 0.
Definition MFAT_TYPE_FAT_UNDECIDED : Z := 1.
Definition MFAT_TYPE_FAT16 : Z := 2.
Definition MFAT_TYPE_FAT32 : Z := 3.

(* ------------------------------------------------------------------ *)
(** ** The data model *)

Record mfat_cluster_pos_t := mk_cpos {
  cluster_no : Z;
  block_in_cluster : Z;
  cluster_start_blk : Z
}.

Record mfat_partition_t := mk_partition {
  type : Z;
  first_block : Z;
  num_blocks : Z;
  blocks_per_cluster : Z;
  num_clusters : Z;
  blocks_per_fat : Z;
  num_fats : Z;
  num_reserved_blocks : Z;
  root_dir_block : Z;
  blocks_in_root_dir : Z;
  root_dir_cluster : Z;
  first_data_block : Z;
  boot : Z
}.

Record mfat_file_info_t := mk_file_info {
  part_no : Z;
  size : Z;
  first_cluster : Z;
  dir_entry_block : Z;
  dir_entry_offset : Z
}.

Record mfat_file_t := mk_file {
  open : Z;
  oflag : Z;
  offset : Z;
  current_cluster : Z;
  info : mfat_file_info_t
}.

Record mfat_cached_block_t := mk_cached_block {
  state : Z;
  blk_no : Z;
  buf : list byte
}.

Record mfat_cache_t := mk_cache {
  block : list mfat_cached_block_t;
  pri : list Z
}.

(** The block device callbacks, by their results: a read yields the 512
    bytes of a block or fails ([-1] in C); a write reports [0] or [-1]. *)
Definition mfat_read_block_fun_t : Type := Z -> option (list byte).
Definition mfat_write_block_fun_t : Type := list byte -> Z -> Z.

Record mfat_ctx_t := mk_ctx {
  initialized : Z;
  active_partition : Z;
  read : option mfat_read_block_fun_t;
  write : option mfat_write_block_fun_t;
  partition : list mfat_partition_t;
  file : list mfat_file_t;
  cache : list mfat_cache_t
}.

Definition set_initialized (v : Z) (c : mfat_ctx_t) : mfat_ctx_t :=
  mk_ctx v (active_partition c) (read c) (write c) (partition c) (file c) (cache c).
Definition set_active_partition (v : Z) (c : mfat_ctx_t) : mfat_ctx_t :=
  mk_ctx (initialized c) v (read c) (write c) (partition c) (file c) (cache c).
Definition set_partition (v : list mfat_partition_t) (c : mfat_ctx_t) : mfat_ctx_t :=
  mk_ctx (initialized c) (active_partition c) (read c) (write c) v (file c) (cache c).
Definition set_file (v : list mfat_file_t) (c : mfat_ctx_t) : mfat_ctx_t :=
  mk_ctx (initialized c) (active_partition c) (read c) (write c) (partition c) v (cache c).
Definition set_cache (v : list mfat_cache_t) (c : mfat_ctx_t) : mfat_ctx_t :=
  mk_ctx (initialized c) (active_partition c) (read c) (write c) (partition c) (file c) v.

(** A pointer to a cached block: the cache class and the slot index. *)
Definition block_ptr : Type := (nat * nat)%type.

(* ------------------------------------------------------------------ *)
(** ** The state monad of the translation unit *)

Definition M (A : Type) : Type := mfat_ctx_t -> option (A * mfat_ctx_t).

Definition ret {A} (a : A) : M A := fun s => Some (a, s).

Definition bind {A B} (m : M A) (k : A -> M B) : M B :=
  fun s => match m s with
           | Some (a, s') => k a s'
           | None => None
           end.

(** No defined behaviour. *)
Definition undefined {A} : M A := fun _ => None.

Definition get_ctx : M mfat_ctx_t := fun s => Some (s, s).
Definition modify (f : mfat_ctx_t -> mfat_ctx_t) : M unit := fun s => Some (tt, f s).

Notation "x <- m ;; k" := (bind m (fun x => k))
  (at level 100, m at next level, right associativity).
Notation "m ;;; k" := (bind m (fun _ => k))
  (at level 100, right associativity).

(** Array accesses: an index outside the array has no defined result. *)
Definition arr_get {A} (l : list A) (i : Z) : option A :=
  if i <? 0 then None else l !! Z.to_nat i.

Definition lift {A} (o : option A) : M A :=
  fun s => match o with Some a => Some (a, s) | None => None end.

Definition get_cache (cache_type : nat) : M mfat_cache_t :=
  fun s => match cache s !! cache_type with
           | Some c => Some (c, s)
           | None => None
           end.

Definition put_cache (cache_type : nat) (c : mfat_cache_t) : M unit :=
  modify (fun s => set_cache (<[cache_type := c]> (cache s)) s).

(** [*p] for a cached-block pointer. *)
Definition get_block (p : block_ptr) : M mfat_cached_block_t :=
  c <- get_cache (fst p) ;; lift (block c !! snd p).

Definition put_block (p : block_ptr) (cb : mfat_cached_block_t) : M unit :=
  c <- get_cache (fst p) ;;
  put_cache (fst p) (mk_cache (<[snd p := cb]> (block c)) (pri c)).

Definition get_partition (i : Z) : M mfat_partition_t :=
  fun s => match arr_get (partition s) i with
           | Some p => Some (p, s)
           | None => None
           end.

Definition put_partition (i : Z) (p : mfat_partition_t) : M unit :=
  modify (fun s => set_partition (<[Z.to_nat i := p]> (partition s)) s).

Definition get_file_at (fd : Z) : M mfat_file_t :=
  fun s => match arr_get (file s) fd with
           | Some f => Some (f, s)
           | None => None
           end.

Definition put_file (fd : Z) (f : mfat_file_t) : M unit :=
  modify (fun s => set_file (<[Z.to_nat fd := f]> (file s)) s).

(** Calls through the callback pointers; a call through a null pointer
    has no defined result. *)
Definition call_read (block_no : Z) : M (option (list byte)) :=
  fun s => match read s with
           | Some f => Some (f block_no, s)
           | None => None
           end.

Definition call_write (b : list byte) (block_no : Z) : M Z :=
  fun s => match write s with
           | Some f => Some (f b block_no, s)
           | None => None
           end.

(* ------------------------------------------------------------------ *)
(** ** Private functions: byte codec *)

Definition _mfat_min (a b : Z) : Z := if a <? b then a else b.

Definition _mfat_get_word (buf : list byte) (i : Z) : Z :=
  Z.lor (byte_at buf i) (Z.shiftl (byte_at buf (i + 1)) 8).

Definition _mfat_get_dword (buf : list byte) (i : Z) : Z :=
  Z.lor (Z.lor (Z.lor (byte_at buf i) (Z.shiftl (byte_at buf (i + 1)) 8))
               (Z.shiftl (byte_at buf (i + 2)) 16))
        (Z.shiftl (byte_at buf (i + 3)) 24).

(** [_mfat_cmpbuf(&a[ia], &b[ib], nbyte)] *)
Fixpoint cmpbuf_from (a : list byte) (ia : Z) (b : list byte) (ib : Z)
    (nbyte : nat) : bool :=
  match nbyte with
  | O => true
  | S n => if byte_at a ia =? byte_at b ib
           then cmpbuf_from a (ia + 1) b (ib + 1) n
           else false
  end.

Definition _mfat_cmpbuf (a : list byte) (ia : Z) (b : list byte) (ib : Z)
    (nbyte : nat) : bool :=
  cmpbuf_from a ia b ib nbyte.

Definition _mfat_is_fat_part_id (id : Z) : bool :=
  (id =? MFAT_PART_ID_FAT16_LT32GB) || (id =? MFAT_PART_ID_FAT16_GT32GB) ||
  (id =? MFAT_PART_ID_FAT16_GT32GB_LBA) || (id =? MFAT_PART_ID_FAT32) ||
  (id =? MFAT_PART_ID_FAT32_LBA).

Definition BDP_GUID : list byte :=
  map byte_of_Z [0xa2; 0xa0; 0xd0; 0xeb; 0xe5; 0xb9; 0x33; 0x44;
                 0x87; 0xc0; 0x68; 0xb6; 0xb7; 0x26; 0x99; 0xc7].

Definition _mfat_is_fat_part_guid (buf : list byte) (i : Z) : bool :=
  _mfat_cmpbuf buf i BDP_GUID 0 16.

Definition _mfat_is_valid_bpb (bpb_buf : list byte) : bool :=
  if negb (byte_at bpb_buf 510 =? 0x55) || negb (byte_at bpb_buf 511 =? 0xaa)
  then false
  else if negb (byte_at bpb_buf 0 =? 0xe9) &&
          negb ((byte_at bpb_buf 0 =? 0xeb) && (byte_at bpb_buf 2 =? 0x90))
  then false
  else
    let bps := _mfat_get_word bpb_buf 11 in
    if negb (bps =? 512) && negb (bps =? 1024) && negb (bps =? 2048) &&
       negb (bps =? 4096)
    then false
    else true.

(* ------------------------------------------------------------------ *)
(** ** Private functions: the block cache *)

(** The hit scan of [_mfat_get_cached_block]: the first slot that is not
    invalid and holds [blk].  The array [cache->block] has
    [MFAT_NUM_CACHED_BLOCKS] elements, so the loop over the indices is a
    recursion over the list. *)
Fixpoint find_hit (blocks : list mfat_cached_block_t) (blk : Z) (i : Z)
    : option Z :=
  match blocks with
  | [] => None
  | cb :: rest =>
      if negb (state cb =? MFAT_INVALID) && (blk_no cb =? blk)
      then Some i
      else find_hit rest blk (i + 1)
  end.

(** The move-to-front loop over [cache->pri]. *)
Fixpoint pri_promote (item_id prev_id : Z) (pri : list Z) : list Z :=
  match pri with
  | [] => []
  | this_id :: rest =>
      prev_id :: (if this_id =? item_id then rest
                  else pri_promote item_id this_id rest)
  end.

Definition _mfat_get_cached_block (blk : Z) (cache_type : nat)
    : M (option block_ptr) :=
  cache <- get_cache cache_type ;;
  lru <- lift (pri cache !! (MFAT_NUM_CACHED_BLOCKS - 1)%nat) ;;
  let item_id := match find_hit (block cache) blk 0 with
                 | Some i => i
                 | None => lru
                 end in
  put_cache cache_type
    (mk_cache (block cache) (pri_promote item_id item_id (pri cache))) ;;;
  cached_block <- lift (arr_get (block cache) item_id) ;;
  let p : block_ptr := (cache_type, Z.to_nat item_id) in
  if negb (blk_no cached_block =? blk) then
    flushed <- (if state cached_block =? MFAT_DIRTY
                then r <- call_write (buf cached_block) (blk_no cached_block) ;;
                     ret (negb (r =? -1))
                else ret true) ;;
    if flushed : bool then
      put_block p (mk_cached_block MFAT_INVALID blk (buf cached_block)) ;;;
      ret (Some p)
    else ret None
  else ret (Some p).

Definition _mfat_read_block (block_no : Z) (cache_type : nat)
    : M (option block_ptr) :=
  block <- _mfat_get_cached_block block_no cache_type ;;
  match block with
  | None => ret None
  | Some p =>
      cb <- get_block p ;;
      if state cb =? MFAT_INVALID then
        r <- call_read block_no ;;
        match r with
        | None => ret None
        | Some data =>
            put_block p (mk_cached_block MFAT_VALID (blk_no cb) data) ;;;
            ret (Some p)
        end
      else ret (Some p)
  end.

(* ------------------------------------------------------------------ *)
(** ** Private functions: the FAT chain and the cluster cursor *)

(** The FAT entry value, as [_mfat_next_cluster] decodes it from the
    block that holds it. *)
Definition fat_entry_value (part : mfat_partition_t) (buf : list byte)
    (fat_block_offset : Z) : Z :=
  if type part =? MFAT_TYPE_FAT32
  then Z.land (_mfat_get_dword buf fat_block_offset) 0x0fffffff
  else
    let next_cluster := _mfat_get_word buf fat_block_offset in
    if next_cluster >=? 0xfff7
    then Z.lor next_cluster 0x0fff0000
    else next_cluster.

Definition fat_block_of (part : mfat_partition_t) (cluster : Z) : Z :=
  let fat_entry_size := if type part =? MFAT_TYPE_FAT32 then 4 else 2 in
  let fat_offset := mul32 fat_entry_size cluster in
  add32 (add32 (first_block part) (num_reserved_blocks part))
        (fat_offset / MFAT_BLOCK_SIZE).

Definition fat_block_offset_of (part : mfat_partition_t) (cluster : Z) : Z :=
  let fat_entry_size := if type part =? MFAT_TYPE_FAT32 then 4 else 2 in
  let fat_offset := mul32 fat_entry_size cluster in
  fat_offset mod MFAT_BLOCK_SIZE.

(** Returns the next cluster, or [None] where the C function returns
    [false] (and leaves [*cluster] as it was). *)
Definition _mfat_next_cluster (part : mfat_partition_t) (cluster : Z)
    : M (option Z) :=
  let fat_block := fat_block_of part cluster in
  let fat_block_offset := fat_block_offset_of part cluster in
  block <- _mfat_read_block fat_block MFAT_CACHE_FAT ;;
  match block with
  | None => ret None
  | Some p =>
      cb <- get_block p ;;
      let next_cluster := fat_entry_value part (buf cb) fat_block_offset in
      if (next_cluster =? 0) || (next_cluster =? 0x0ffffff7)
      then ret None
      else ret (Some next_cluster)
  end.

Definition _mfat_first_block_of_cluster (part : mfat_partition_t)
    (cluster : Z) : Z :=
  add32 (first_data_block part)
        (mul32 (sub32 cluster 2) (blocks_per_cluster part)).

(** The remainder is taken by [blocks_per_cluster * 512]; with a divisor
    of zero the C expression has no defined result. *)
Definition _mfat_cluster_pos_init (part : mfat_partition_t)
    (cluster_no : Z) (offset : Z) : option mfat_cluster_pos_t :=
  let bytes_per_cluster := mul32 (blocks_per_cluster part) MFAT_BLOCK_SIZE in
  if bytes_per_cluster =? 0 then None
  else Some (mk_cpos cluster_no
                     ((offset mod bytes_per_cluster) / MFAT_BLOCK_SIZE)
                     (_mfat_first_block_of_cluster part cluster_no)).

Definition _mfat_cluster_pos_init_from_file (part : mfat_partition_t)
    (f : mfat_file_t) : option mfat_cluster_pos_t :=
  _mfat_cluster_pos_init part (current_cluster f) (offset f).

(** Returns the advanced cursor, or [None] where the C function returns
    [false]. *)
Definition _mfat_cluster_pos_advance (cpos : mfat_cluster_pos_t)
    (part : mfat_partition_t) : M (option mfat_cluster_pos_t) :=
  let bic := add32 (block_in_cluster cpos) 1 in
  if bic =? blocks_per_cluster part then
    r <- _mfat_next_cluster part (cluster_no cpos) ;;
    match r with
    | None => ret None
    | Some c =>
        ret (Some (mk_cpos c 0 (_mfat_first_block_of_cluster part c)))
    end
  else ret (Some (mk_cpos (cluster_no cpos) bic (cluster_start_blk cpos))).

Definition _mfat_cluster_pos_blk_no (cpos : mfat_cluster_pos_t) : Z :=
  add32 (cluster_start_blk cpos) (block_in_cluster cpos).

Definition _mfat_is_eoc (cluster : Z) : bool := cluster >=? 0x0ffffff8.

(* ------------------------------------------------------------------ *)
(** ** Loops *)

(** [loop_pow2 k body s] runs [body] from [s] until it yields a result
    ([inr]), at most [2 ^ k] times. *)
Fixpoint loop_pow2 {S R : Type} (k : nat) (body : S -> M (S + R)) (s : S)
    : M (S + R) :=
  match k with
  | O => body s
  | Datatypes.S k' =>
      r <- loop_pow2 k' body s ;;
      match r with
      | inl s' => loop_pow2 k' body s'
      | inr r => ret (inr r)
      end
  end.

(** A loop that has not produced a result after [2 ^ k] iterations has
    none. *)
Definition loop_upto {S R : Type} (k : nat) (body : S -> M (S + R)) (s : S)
    : M R :=
  r <- loop_pow2 k body s ;;
  match r with
  | inl _ => undefined
  | inr r => ret r
  end.

(** A loop over 32-bit counters. *)
Definition while_loop {S R : Type} (body : S -> M (S + R)) (s : S) : M R :=
  loop_upto 32 body s.

(* ------------------------------------------------------------------ *)
(** ** Private functions: the path resolver *)

(** The code of a character literal. *)
Definition chr (b : byte) : Z := u8 b.

Definition _mfat_canonicalize_char (c : Z) : Z :=
  if ((c >=? chr "A") && (c <=? chr "Z")) || ((c >=? chr "0") && (c <=? chr "9")) ||
     (c =? chr "$") || (c =? chr "%") || (c =? chr "-") || (c =? chr "_") ||
     (c =? chr "@") || (c =? chr "~") || (c =? chr "`") || (c =? chr "!") ||
     (c =? chr "(") || (c =? chr ")") || (c =? chr "{") || (c =? chr "}") ||
     (c =? chr "^") || (c =? chr "#") || (c =? chr "&")
  then c
  else if (c >=? chr "a") && (c <=? chr "z")
  then c - chr "a" + chr "A"
  else chr "!".

(** The first scanning loop of [_mfat_canonicalize_fname], over the path
    from [path[pos]] on ([s]); [name] holds the [npos] characters written
    so far.  Yields the character that stopped the scan, the position
    after it and the name. *)
Fixpoint name_part (s : list byte) (pos : Z) (name : list byte)
    : Z * Z * list byte :=
  match s with
  | [] => (0, pos + 1, name)
  | b :: rest =>
      let c := u8 b in
      if (c =? 0) || (c =? chr ".") || (c =? chr "/") || (c =? chr "\")
      then (c, pos + 1, name)
      else name_part rest (pos + 1)
             (if (length name <? 8)%nat
              then name ++ [byte_of_Z (_mfat_canonicalize_char c)]
              else name)
  end.

(** The second scanning loop (the extension). *)
Fixpoint ext_part (s : list byte) (pos : Z) (name : list byte)
    : Z * Z * list byte :=
  match s with
  | [] => (0, pos + 1, name)
  | b :: rest =>
      let c := u8 b in
      if (c =? 0) || (c =? chr "/") || (c =? chr "\")
      then (c, pos + 1, name)
      else ext_part rest (pos + 1)
             (if (length name <? 11)%nat
              then name ++ [byte_of_Z (_mfat_canonicalize_char c)]
              else name)
  end.

(** [for (; npos < n; ++npos) name[npos] = ' ';] *)
Definition space_fill (n : nat) (name : list byte) : list byte :=
  name ++ replicate (n - length name)%nat " "%byte.

Definition blank_name : list byte := replicate 11%nat " "%byte.

(** One pass of the [do ... while] body: the name (without its
    terminator [name[11] = 0]) and the new [next_idx]. *)
Definition canonicalize_pass (path : list byte) (next_idx : Z)
    : Z * list byte :=
  let pos := next_idx in
  let '(c, pos, name) := name_part (drop (Z.to_nat pos) path) pos [] in
  let name := space_fill 8 name in
  let '(c, pos, name) :=
    if c =? chr "."
    then ext_part (drop (Z.to_nat pos) path) pos name
    else (c, pos, name) in
  let name := space_fill 11 name in
  if ((c =? chr "/") || (c =? chr "\")) && negb (byte_at path pos =? 0)
  then (pos, name)
  else (-1, name).

Fixpoint canonicalize_loop (fuel : nat) (path : list byte) (next_idx : Z)
    : option (Z * list byte) :=
  match fuel with
  | O => None
  | S fuel' =>
      let '(next_idx, name) := canonicalize_pass path next_idx in
      if (next_idx >=? 0) && _mfat_cmpbuf name 0 blank_name 0 11
      then canonicalize_loop fuel' path next_idx
      else Some (next_idx, name)
  end.

(** Every pass consumes at least one character of the path, so
    [length path + 1] passes suffice (lemma [canonicalize_fname_total]). *)
Definition _mfat_canonicalize_fname (path : list byte)
    : option (Z * list byte) :=
  canonicalize_loop (S (length path)) path 0.

(** The scan of one directory block: the loop over the sixteen 32-byte
    entries, from offset [offs] with [n] entries left. *)
Inductive scan_result :=
| no_more_entries
| found_entry (offs : Z)
| not_in_block.

Fixpoint scan_dir_block (buf fname : list byte) (offs : Z) (n : nat)
    : scan_result :=
  match n with
  | O => not_in_block
  | S n' =>
      if byte_at buf offs =? 0x00 then no_more_entries
      else if _mfat_cmpbuf buf offs fname 0 11 then found_entry offs
      else scan_dir_block buf fname (offs + 32) n'
  end.

(** The local variables of [_mfat_find_file] that its loops update.
    [fs_file_entry] is the offset of the matched entry in the buffer of
    [fs_block]. *)
Record find_state := mk_find_state {
  fs_cpos : mfat_cluster_pos_t;
  fs_blocks_left : Z;
  fs_block : option block_ptr;
  fs_file_entry : option Z;
  fs_no_more_entries : bool
}.

Definition child_dir_cluster (buf : list byte) (entry : Z) : Z :=
  Z.lor (shl32 (_mfat_get_word buf (entry + 20)) 16)
        (_mfat_get_word buf (entry + 26)).

(** One iteration of the [for] loop over the blocks of a directory,
    starting with its condition.  [inr None] is [return false]; [inr
    (Some st)] leaves the loop. *)
Definition find_file_block_step (part : mfat_partition_t) (fname : list byte)
    (is_parent_dir : bool) (st : find_state)
    : M (find_state + option find_state) :=
  if negb (match fs_file_entry st with None => true | Some _ => false end &&
           negb (fs_no_more_entries st) && (fs_blocks_left st >? 0))
  then ret (inr (Some st))
  else
    block <- _mfat_read_block (_mfat_cluster_pos_blk_no (fs_cpos st))
                              MFAT_CACHE_DATA ;;
    match block with
    | None => ret (inr None)
    | Some p =>
        cb <- get_block p ;;
        let next_block (no_more : bool) : M (find_state + option find_state) :=
          if negb (cluster_no (fs_cpos st) =? 0) then
            r <- _mfat_cluster_pos_advance (fs_cpos st) part ;;
            match r with
            | None => ret (inr None)
            | Some cpos =>
                ret (inl (mk_find_state cpos (add32 (fs_blocks_left st) 1)
                                        (Some p) None no_more))
            end
          else
            ret (inl (mk_find_state
                        (mk_cpos (cluster_no (fs_cpos st))
                                 (add32 (block_in_cluster (fs_cpos st)) 1)
                                 (cluster_start_blk (fs_cpos st)))
                        (add32 (fs_blocks_left st) 1) (Some p) None no_more)) in
        match scan_dir_block (buf cb) fname 0 16 with
        | found_entry entry =>
            let attr := byte_at (buf cb) (entry + 11) in
            if is_parent_dir then
              if Z.land attr MFAT_ATTR_DIRECTORY =? 0 then ret (inr None)
              else
                cpos <- lift (_mfat_cluster_pos_init part
                                (child_dir_cluster (buf cb) entry) 0) ;;
                ret (inr (Some (mk_find_state cpos 0xffffffff (Some p) None
                                              false)))
            else
              ret (inr (Some (mk_find_state (fs_cpos st) (fs_blocks_left st)
                                            (Some p) (Some entry) false)))
        | no_more_entries => next_block true
        | not_in_block => next_block false
        end
    end.

(** One iteration of the [while (path_pos >= 0)] loop. *)
Definition find_file_path_step (part : mfat_partition_t) (path : list byte)
    (s : Z * find_state) : M ((Z * find_state) + option find_state) :=
  let '(path_pos, st) := s in
  if negb (path_pos >=? 0) then ret (inr (Some st))
  else
    r <- lift (_mfat_canonicalize_fname (drop (Z.to_nat path_pos) path)) ;;
    let '(name_pos, fname) := r in
    let is_parent_dir := name_pos >=? 0 in
    let path_pos := if is_parent_dir then path_pos + name_pos else -1 in
    let blocks_left := if negb (cluster_no (fs_cpos st) =? 0)
                       then 0xffffffff else fs_blocks_left st in
    r <- while_loop (find_file_block_step part fname is_parent_dir)
           (mk_find_state (fs_cpos st) blocks_left (fs_block st)
                          (fs_file_entry st) false) ;;
    match r with
    | None => ret (inr None)
    | Some st' =>
        if fs_no_more_entries st' then ret (inr (Some st'))
        else ret (inl (path_pos, st'))
    end.

(** Yields the file information, [is_dir] and [exists], or [None] where
    the C function returns [false]. *)
Definition _mfat_find_file (part_no : Z) (path : list byte)
    : M (option (mfat_file_info_t * Z * Z)) :=
  part <- get_partition part_no ;;
  start <- (if type part =? MFAT_TYPE_FAT32
            then cpos <- lift (_mfat_cluster_pos_init part (root_dir_cluster part) 0) ;;
                 ret (cpos, 0xffffffff)
            else ret (mk_cpos 0 0 (root_dir_block part), blocks_in_root_dir part)) ;;
  r <- while_loop (find_file_path_step part path)
         (0, mk_find_state (fst start) (snd start) None None false) ;;
  match r with
  | None => ret None
  | Some st =>
      match fs_file_entry st, fs_block st with
      | Some file_entry, Some p =>
          cb <- get_block p ;;
          let info := mk_file_info part_no
                        (_mfat_get_dword (buf cb) (file_entry + 28))
                        (child_dir_cluster (buf cb) file_entry)
                        (blk_no cb) file_entry in
          if negb (byte_at (buf cb) file_entry =? 0x00) &&
             negb (byte_at (buf cb) file_entry =? 0xe5)
          then
            let is_dir :=
              if negb (Z.land (byte_at (buf cb) (file_entry + 11))
                              MFAT_ATTR_DIRECTORY =? 0) then 1 else 0 in
            ret (Some (info, is_dir, 1))
          else ret (Some (info, 0, 0))
      | _, _ => ret None
      end
  end.

(* ------------------------------------------------------------------ *)
(** ** Private functions: partition tables and the BPB *)

Definition with_type (v : Z) (p : mfat_partition_t) : mfat_partition_t :=
  mk_partition v (first_block p) (num_blocks p) (blocks_per_cluster p)
    (num_clusters p) (blocks_per_fat p) (num_fats p) (num_reserved_blocks p)
    (root_dir_block p) (blocks_in_root_dir p) (root_dir_cluster p)
    (first_data_block p) (boot p).

Definition with_first_block (v : Z) (p : mfat_partition_t) : mfat_partition_t :=
  mk_partition (type p) v (num_blocks p) (blocks_per_cluster p)
    (num_clusters p) (blocks_per_fat p) (num_fats p) (num_reserved_blocks p)
    (root_dir_block p) (blocks_in_root_dir p) (root_dir_cluster p)
    (first_data_block p) (boot p).

Definition with_boot (v : Z) (p : mfat_partition_t) : mfat_partition_t :=
  mk_partition (type p) (first_block p) (num_blocks p) (blocks_per_cluster p)
    (num_clusters p) (blocks_per_fat p) (num_fats p) (num_reserved_blocks p)
    (root_dir_block p) (blocks_in_root_dir p) (root_dir_cluster p)
    (first_data_block p) v.

Definition with_num_clusters (v : Z) (p : mfat_partition_t) : mfat_partition_t :=
  mk_partition (type p) (first_block p) (num_blocks p) (blocks_per_cluster p)
    v (blocks_per_fat p) (num_fats p) (num_reserved_blocks p)
    (root_dir_block p) (blocks_in_root_dir p) (root_dir_cluster p)
    (first_data_block p) (boot p).

Definition with_root_dir_block (v : Z) (p : mfat_partition_t) : mfat_partition_t :=
  mk_partition (type p) (first_block p) (num_blocks p) (blocks_per_cluster p)
    (num_clusters p) (blocks_per_fat p) (num_fats p) (num_reserved_blocks p)
    v (blocks_in_root_dir p) (root_dir_cluster p)
    (first_data_block p) (boot p).

Definition with_root_dir_cluster (v : Z) (p : mfat_partition_t) : mfat_partition_t :=
  mk_partition (type p) (first_block p) (num_blocks p) (blocks_per_cluster p)
    (num_clusters p) (blocks_per_fat p) (num_fats p) (num_reserved_blocks p)
    (root_dir_block p) (blocks_in_root_dir p) v
    (first_data_block p) (boot p).

Definition zero_partition : mfat_partition_t :=
  mk_partition 0 0 0 0 0 0 0 0 0 0 0 0 0.

Definition bool_to_int (b : bool) : Z := if b then 1 else 0.

Definition gpt_sig : list byte :=
  map byte_of_Z [0x45; 0x46; 0x49; 0x20; 0x50; 0x41; 0x52; 0x54].

(** The loop over the GPT partition entries, with [n] iterations left
    before [i] reaches [MFAT_NUM_PARTITIONS].  [block] points at the
    cached block that [buf] points into.  An entry that does not lie
    within the 512 bytes of the buffer has no defined decoding. *)
Fixpoint decode_gpt_entries (n : nat) (i num_entries entry_size : Z)
    (entries_block entry_offs : Z) (block : block_ptr) : M bool :=
  match n with
  | O => ret true
  | S n' =>
      if negb (i <? num_entries) then ret true
      else
        r <- (if entry_offs mod MFAT_BLOCK_SIZE =? 0 then
                b <- _mfat_read_block entries_block MFAT_CACHE_DATA ;;
                match b with
                | None => ret None
                | Some p => ret (Some (p, add32 entries_block 1, 0))
                end
              else ret (Some (block, entries_block, entry_offs))) ;;
        match r with
        | None => ret false
        | Some (block, entries_block, entry_offs) =>
            cb <- get_block block ;;
            if negb (entry_offs + 48 <? MFAT_BLOCK_SIZE) then undefined
            else
              part <- get_partition i ;;
              let part := with_first_block
                            (_mfat_get_dword (buf cb) (entry_offs + 32)) part in
              let part := with_boot
                            (bool_to_int
                               (negb (Z.land (byte_at (buf cb) (entry_offs + 48))
                                             0x04 =? 0))) part in
              let part := if _mfat_is_fat_part_guid (buf cb) entry_offs
                          then with_type MFAT_TYPE_FAT_UNDECIDED part
                          else part in
              put_partition i part ;;;
              decode_gpt_entries n' (i + 1) num_entries entry_size
                entries_block (add32 entry_offs entry_size) block
        end
  end.

Definition _mfat_decode_gpt : M bool :=
  block <- _mfat_read_block 1 MFAT_CACHE_DATA ;;
  match block with
  | None => ret false
  | Some p =>
      cb <- get_block p ;;
      if negb (_mfat_cmpbuf (buf cb) 0 gpt_sig 0 8) then ret false
      else
        let entries_block := _mfat_get_dword (buf cb) 72 in
        let num_entries := _mfat_get_dword (buf cb) 80 in
        let entry_size := _mfat_get_dword (buf cb) 84 in
        decode_gpt_entries MFAT_NUM_PARTITIONS 0 num_entries entry_size
          entries_block 0 p
  end.

(** The loop over the four MBR partition entries. *)
Fixpoint decode_mbr_entries (n : nat) (i : Z) (buf : list byte)
    (found_valid_mbr : bool) : M bool :=
  match n with
  | O => ret found_valid_mbr
  | S n' =>
      let entry := 446 + 16 * i in
      part <- get_partition i ;;
      let part := with_boot
                    (bool_to_int (negb (Z.land (byte_at buf entry) 0x80 =? 0)))
                    part in
      let is_fat := _mfat_is_fat_part_id (byte_at buf (entry + 4)) in
      let part := if is_fat then with_type MFAT_TYPE_FAT_UNDECIDED part
                  else part in
      let part := with_first_block (_mfat_get_dword buf (entry + 8)) part in
      put_partition i part ;;;
      decode_mbr_entries n' (i + 1) buf (found_valid_mbr || is_fat)
  end.

Definition _mfat_decode_mbr : M bool :=
  block <- _mfat_read_block 0 MFAT_CACHE_DATA ;;
  match block with
  | None => ret false
  | Some p =>
      cb <- get_block p ;;
      if (byte_at (buf cb) 510 =? 0x55) && (byte_at (buf cb) 511 =? 0xaa)
      then decode_mbr_entries (Nat.min 4 MFAT_NUM_PARTITIONS) 0 (buf cb) false
      else ret false
  end.

Definition _mfat_decode_tableless : M unit :=
  modify (fun s =>
    set_partition
      (<[0%nat := with_type MFAT_TYPE_FAT_UNDECIDED zero_partition]>
         (replicate (length (partition s)) zero_partition)) s).

(** The body of the BPB loop for partition [i]: [Some part] is the
    partition record at the end of the iteration ([continue] included),
    [None] is [return false]. *)
Definition decode_bpb (i : Z) : M (option mfat_partition_t) :=
  part <- get_partition i ;;
  if type part =? MFAT_TYPE_UNKNOWN then ret (Some part)
  else
    block <- _mfat_read_block (first_block part) MFAT_CACHE_DATA ;;
    match block with
    | None => ret None
    | Some p =>
        cb <- get_block p ;;
        let buf := buf cb in
        if negb (_mfat_is_valid_bpb buf)
        then ret (Some (with_type MFAT_TYPE_UNKNOWN part))
        else
          let bytes_per_block := _mfat_get_word buf 11 in
          let blocks_per_cluster := byte_at buf 13 in
          let num_reserved_blocks := _mfat_get_word buf 14 in
          let num_fats := byte_at buf 16 in
          let tot_sectors_16 := _mfat_get_word buf 19 in
          let tot_sectors_32 := _mfat_get_dword buf 32 in
          let num_blocks := if negb (tot_sectors_16 =? 0)
                            then tot_sectors_16 else tot_sectors_32 in
          let blocks_per_fat_16 := _mfat_get_word buf 22 in
          let blocks_per_fat_32 := _mfat_get_dword buf 36 in
          let blocks_per_fat := if negb (blocks_per_fat_16 =? 0)
                                then blocks_per_fat_16 else blocks_per_fat_32 in
          let num_root_entries := _mfat_get_word buf 17 in
          let blocks_in_root_dir :=
            add32 (mul32 num_root_entries 32) (MFAT_BLOCK_SIZE - 1)
              / MFAT_BLOCK_SIZE in
          let first_data_block :=
            add32 (add32 (add32 (first_block part) num_reserved_blocks)
                         (mul32 num_fats blocks_per_fat))
                  blocks_in_root_dir in
          let part :=
            mk_partition (type part) (first_block part) num_blocks
              blocks_per_cluster (num_clusters part) blocks_per_fat num_fats
              num_reserved_blocks (root_dir_block part) blocks_in_root_dir
              (root_dir_cluster part) first_data_block (boot part) in
          if negb (bytes_per_block =? MFAT_BLOCK_SIZE)
          then ret (Some (with_type MFAT_TYPE_UNKNOWN part))
          else
            let root_ent_cnt := _mfat_get_word buf 17 in
            let root_dir_sectors :=
              add32 (mul32 root_ent_cnt 32) (MFAT_BLOCK_SIZE - 1)
                / MFAT_BLOCK_SIZE in
            let data_sectors :=
              sub32 num_blocks
                (add32 (add32 num_reserved_blocks
                              (mul32 num_fats blocks_per_fat))
                       root_dir_sectors) in
            if blocks_per_cluster =? 0 then undefined
            else
              let count_of_clusters := data_sectors / blocks_per_cluster in
              let part := with_num_clusters (add32 count_of_clusters 1) part in
              if count_of_clusters <? 4085
              then ret (Some (with_type MFAT_TYPE_UNKNOWN part))
              else
                let part := if count_of_clusters <? 65525
                            then with_type MFAT_TYPE_FAT16 part
                            else with_type MFAT_TYPE_FAT32 part in
                if type part =? MFAT_TYPE_FAT16
                then ret (Some (with_root_dir_block
                                  (sub32 first_data_block blocks_in_root_dir)
                                  part))
                else ret (Some (with_root_dir_cluster
                                  (_mfat_get_dword buf 44) part))
    end.

Fixpoint decode_bpbs (n : nat) (i : Z) : M bool :=
  match n with
  | O => ret true
  | S n' =>
      r <- decode_bpb i ;;
      match r with
      | None => ret false
      | Some part => put_partition i part ;;; decode_bpbs n' (i + 1)
      end
  end.

Definition _mfat_decode_partition_tables : M bool :=
  found_partition_table <- _mfat_decode_gpt ;;
  found_partition_table <-
    (if negb found_partition_table then _mfat_decode_mbr
     else ret found_partition_table) ;;
  (if negb found_partition_table then _mfat_decode_tableless else ret tt) ;;;
  decode_bpbs MFAT_NUM_PARTITIONS 0.

(* ------------------------------------------------------------------ *)
(** ** Private functions: the file-descriptor layer *)

Record mfat_time_t := mk_time {
  year : Z; month : Z; day : Z; hour : Z; minute : Z; second : Z
}.

Record mfat_stat_t := mk_stat {
  st_mode : Z;
  st_size : Z;
  st_mtim : mfat_time_t
}.

(** Returns the file pointer (its index), or [None] for [NULL]. *)
Definition _mfat_get_file (fd : Z) : M (option Z) :=
  if (fd <? 0) || (fd >=? Z.of_nat MFAT_NUM_FDS) then ret None
  else
    f <- get_file_at fd ;;
    if open f =? 0 then ret None else ret (Some fd).

Definition _mfat_dir_entry_to_stat (buf : list byte) (dir_entry : Z)
    : mfat_stat_t :=
  let attr := byte_at buf (dir_entry + 11) in
  let st_mode :=
    Z.lor (Z.lor (Z.lor (Z.lor (Z.lor MFAT_S_IRUSR MFAT_S_IRGRP) MFAT_S_IROTH)
                               MFAT_S_IXUSR) MFAT_S_IXGRP) MFAT_S_IXOTH in
  let st_mode :=
    if Z.land attr MFAT_ATTR_READ_ONLY =? 0
    then Z.lor st_mode (Z.lor (Z.lor MFAT_S_IWUSR MFAT_S_IWGRP) MFAT_S_IWOTH)
    else st_mode in
  let st_mode :=
    if negb (Z.land attr MFAT_ATTR_DIRECTORY =? 0)
    then Z.lor st_mode MFAT_S_IFDIR
    else Z.lor st_mode MFAT_S_IFREG in
  let time := _mfat_get_word buf (dir_entry + 22) in
  let date := _mfat_get_word buf (dir_entry + 24) in
  mk_stat st_mode (_mfat_get_dword buf (dir_entry + 28))
    (mk_time ((Z.shiftr date 9 + 1980) mod 2 ^ 16)
             (Z.land (Z.shiftr date 5) 15 mod 2 ^ 8)
             (Z.land date 31 mod 2 ^ 8)
             (Z.shiftr time 11 mod 2 ^ 8)
             (Z.land (Z.shiftr time 5) 63 mod 2 ^ 8)
             (Z.land time 31 * 2 mod 2 ^ 8)).

Fixpoint for_each {A : Type} (l : list A) (body : A -> M unit) : M unit :=
  match l with
  | [] => ret tt
  | x :: rest => body x ;;; for_each rest body
  end.

Definition _mfat_sync_impl : M unit :=
  for_each (seq 0 MFAT_NUM_CACHES) (fun j =>
    for_each (seq 0 MFAT_NUM_CACHED_BLOCKS) (fun i =>
      cb <- get_block (j, i) ;;
      if state cb =? MFAT_DIRTY then
        call_write (buf cb) (blk_no cb) ;;;
        put_block (j, i) (mk_cached_block MFAT_VALID (blk_no cb) (buf cb))
      else ret tt)).

Definition _mfat_fstat_impl (info : mfat_file_info_t)
    : M (Z * option mfat_stat_t) :=
  block <- _mfat_read_block (dir_entry_block info) MFAT_CACHE_DATA ;;
  match block with
  | None => ret (-1, None)
  | Some p =>
      cb <- get_block p ;;
      ret (0, Some (_mfat_dir_entry_to_stat (buf cb) (dir_entry_offset info)))
  end.

Definition _mfat_stat_impl (path : list byte) : M (Z * option mfat_stat_t) :=
  s <- get_ctx ;;
  r <- _mfat_find_file (active_partition s) path ;;
  match r with
  | None => ret (-1, None)
  | Some (info, _, exists_) =>
      if exists_ =? 0 then ret (-1, None) else _mfat_fstat_impl info
  end.

(** The scan for the lowest free descriptor. *)
Fixpoint find_free_fd (files : list mfat_file_t) (fd : Z) : Z :=
  match files with
  | [] => fd
  | f :: rest => if open f =? 0 then fd else find_free_fd rest (fd + 1)
  end.

Definition _mfat_open_impl (path : list byte) (flags : Z) : M Z :=
  s <- get_ctx ;;
  let fd := find_free_fd (file s) 0 in
  if fd >=? Z.of_nat MFAT_NUM_FDS then ret (-1)
  else
    r <- _mfat_find_file (active_partition s) path ;;
    match r with
    | None => ret (-1)
    | Some (info, is_dir, exists_) =>
        f <- get_file_at fd ;;
        let f := mk_file (open f) (oflag f) (offset f)
                         (current_cluster f) info in
        put_file fd f ;;;
        if negb (is_dir =? 0) then ret (-1)
        else if exists_ =? 0 then
          (if negb (Z.land flags MFAT_O_CREAT =? 0) then ret (-1) else ret (-1))
        else
          put_file fd (mk_file 1 flags 0 (first_cluster info) info) ;;;
          ret fd
    end.

Definition _mfat_close_impl (f : Z) : M Z :=
  file <- get_file_at f ;;
  (if negb (Z.land (oflag file) MFAT_O_WRONLY =? 0)
   then _mfat_sync_impl else ret tt) ;;;
  put_file f (mk_file 0 (oflag file) (offset file) (current_cluster file)
                      (info file)) ;;;
  ret 0.

(** [memcpy(dst, &src[off], n)]: the [n] bytes copied. *)
Definition copy_bytes (src : list byte) (off n : Z) : list byte :=
  take (Z.to_nat n) (drop (Z.to_nat off) src ++ replicate (Z.to_nat n) x00).

(** The locals of [_mfat_read_impl] that its phases update: the cursor,
    [bytes_read] and the bytes stored into the caller's buffer. *)
Definition read_state : Type := (mfat_cluster_pos_t * Z * list byte)%type.

(** One iteration of the loop over the aligned blocks.  [inr None] is
    [return -1]. *)
Definition read_body_step (part : mfat_partition_t) (nbyte : Z)
    (st : read_state) : M (read_state + option read_state) :=
  let '(cpos, bytes_read, data) := st in
  if negb (sub32 nbyte bytes_read >=? MFAT_BLOCK_SIZE) then ret (inr (Some st))
  else if _mfat_is_eoc (cluster_no cpos) then ret (inr None)
  else
    r <- call_read (_mfat_cluster_pos_blk_no cpos) ;;
    match r with
    | None => ret (inr None)
    | Some blk =>
        a <- _mfat_cluster_pos_advance cpos part ;;
        match a with
        | None => ret (inr None)
        | Some cpos' =>
            ret (inl (cpos', add32 bytes_read MFAT_BLOCK_SIZE,
                      data ++ copy_bytes blk 0 MFAT_BLOCK_SIZE))
        end
    end.

Definition read_head (part : mfat_partition_t) (f : mfat_file_t)
    (cpos : mfat_cluster_pos_t) (nbyte : Z) : M (option read_state) :=
  let block_offset := offset f mod MFAT_BLOCK_SIZE in
  if negb (block_offset =? 0) then
    block <- _mfat_read_block (_mfat_cluster_pos_blk_no cpos) MFAT_CACHE_DATA ;;
    match block with
    | None => ret None
    | Some p =>
        cb <- get_block p ;;
        let tail_bytes_in_block := sub32 MFAT_BLOCK_SIZE block_offset in
        let bytes_to_copy := _mfat_min tail_bytes_in_block nbyte in
        let data := copy_bytes (buf cb) block_offset bytes_to_copy in
        if bytes_to_copy =? tail_bytes_in_block then
          a <- _mfat_cluster_pos_advance cpos part ;;
          match a with
          | None => ret None
          | Some cpos' => ret (Some (cpos', bytes_to_copy, data))
          end
        else ret (Some (cpos, bytes_to_copy, data))
    end
  else ret (Some (cpos, 0, [])).

Definition read_tail (nbyte : Z) (st : read_state) : M (option read_state) :=
  let '(cpos, bytes_read, data) := st in
  if bytes_read <? nbyte then
    if _mfat_is_eoc (cluster_no cpos) then ret None
    else
      block <- _mfat_read_block (_mfat_cluster_pos_blk_no cpos) MFAT_CACHE_DATA ;;
      match block with
      | None => ret None
      | Some p =>
          cb <- get_block p ;;
          let bytes_to_copy := sub32 nbyte bytes_read in
          ret (Some (cpos, add32 bytes_read bytes_to_copy,
                     data ++ copy_bytes (buf cb) 0 bytes_to_copy))
      end
  else ret (Some st).

(** Returns the result and the bytes stored into the caller's buffer
    (on success, the bytes read). *)
Definition _mfat_read_impl (fd : Z) (nbyte : Z) : M (Z * list byte) :=
  f <- get_file_at fd ;;
  if Z.land (oflag f) MFAT_O_RDONLY =? 0 then ret (-1, [])
  else
    let nbyte := if nbyte >? sub32 (size (info f)) (offset f)
                 then sub32 (size (info f)) (offset f) else nbyte in
    if nbyte =? 0 then ret (0, [])
    else
      part <- get_partition (part_no (info f)) ;;
      cpos <- lift (_mfat_cluster_pos_init_from_file part f) ;;
      h <- read_head part f cpos nbyte ;;
      match h with
      | None => ret (-1, [])
      | Some st =>
          b <- while_loop (read_body_step part nbyte) st ;;
          match b with
          | None => ret (-1, [])
          | Some st =>
              t <- read_tail nbyte st ;;
              match t with
              | None => ret (-1, [])
              | Some (cpos, bytes_read, data) =>
                  put_file fd (mk_file (open f) (oflag f)
                                       (add32 (offset f) bytes_read)
                                       (cluster_no cpos) (info f)) ;;;
                  ret (bytes_read, data)
              end
          end
      end.

Definition _mfat_write_impl (fd : Z) (buf : list byte) (nbyte : Z) : M Z :=
  f <- get_file_at fd ;;
  if Z.land (oflag f) MFAT_O_WRONLY =? 0 then ret (-1)
  else ret (-1).

Definition in_int64 (x : Z) : bool := (- 2 ^ 63 <=? x) && (x <? 2 ^ 63).

(** One iteration of the cluster search of [_mfat_lseek_impl] over
    [(current_cluster, cluster_offset)].  [inr None] is [return -1]. *)
Definition lseek_step (part : mfat_partition_t)
    (target_offset bytes_per_cluster : Z) (st : Z * Z)
    : M ((Z * Z) + option (Z * Z)) :=
  let '(current_cluster, cluster_offset) := st in
  if negb (sub32 target_offset cluster_offset >=? bytes_per_cluster)
  then ret (inr (Some st))
  else if _mfat_is_eoc current_cluster then ret (inr None)
  else
    r <- _mfat_next_cluster part current_cluster ;;
    match r with
    | None => ret (inr None)
    | Some c => ret (inl (c, add32 cluster_offset bytes_per_cluster))
    end.

(** The offset argument is an [int64_t]; a sum that leaves its range has
    no defined value. *)
Definition _mfat_lseek_impl (fd : Z) (off : Z) (whence : Z) : M Z :=
  f <- get_file_at fd ;;
  let target :=
    if whence =? MFAT_SEEK_SET then Some off
    else if whence =? MFAT_SEEK_END then Some (size (info f) + off)
    else if whence =? MFAT_SEEK_CUR then Some (offset f + off)
    else None in
  match target with
  | None => ret (-1)
  | Some target_offset_64 =>
      if negb (in_int64 target_offset_64) then undefined
      else if target_offset_64 <? 0 then ret (-1)
      else if target_offset_64 >? size (info f) then ret (-1)
      else
        let target_offset := u32 target_offset_64 in
        part <- get_partition (part_no (info f)) ;;
        let bytes_per_cluster := mul32 (blocks_per_cluster part) MFAT_BLOCK_SIZE in
        if bytes_per_cluster =? 0 then undefined
        else
          let current_cluster := current_cluster f in
          let cluster_offset :=
            sub32 (offset f) (offset f mod bytes_per_cluster) in
          let start := if target_offset <? cluster_offset
                       then (first_cluster (info f), 0)
                       else (current_cluster, cluster_offset) in
          r <- while_loop (lseek_step part target_offset bytes_per_cluster) start ;;
          match r with
          | None => ret (-1)
          | Some (current_cluster, _) =>
              put_file fd (mk_file (open f) (oflag f) target_offset
                                   current_cluster (info f)) ;;;
              ret target_offset
          end
  end.

(* ------------------------------------------------------------------ *)
(** ** Public API functions *)

Definition zero_file : mfat_file_t := mk_file 0 0 0 0 (mk_file_info 0 0 0 0 0).

Definition zero_block : mfat_cached_block_t :=
  mk_cached_block 0 0 (replicate (Z.to_nat MFAT_BLOCK_SIZE) x00).

(** The context after [memset(&s_ctx, 0, sizeof(mfat_ctx_t))]. *)
Definition zero_ctx : mfat_ctx_t :=
  mk_ctx 0 0 None None
    (replicate MFAT_NUM_PARTITIONS zero_partition)
    (replicate MFAT_NUM_FDS zero_file)
    (replicate MFAT_NUM_CACHES
       (mk_cache (replicate MFAT_NUM_CACHED_BLOCKS zero_block)
                 (replicate MFAT_NUM_CACHED_BLOCKS 0))).

(** The selection loop of [mfat_mount] over the partitions from index
    [i] on; yields [first_boot_partition] and the active partition. *)
Fixpoint select_boot_partition (parts : list mfat_partition_t) (i : Z)
    (first_boot_partition active : Z) : Z * Z :=
  match parts with
  | [] => (first_boot_partition, active)
  | p :: rest =>
      if negb (type p =? MFAT_TYPE_UNKNOWN) then
        if negb (boot p =? 0) && (first_boot_partition <? 0)
        then select_boot_partition rest (i + 1) i i
        else if active <? 0
        then select_boot_partition rest (i + 1) first_boot_partition i
        else select_boot_partition rest (i + 1) first_boot_partition active
      else select_boot_partition rest (i + 1) first_boot_partition active
  end.

(** The context [mfat_mount] starts from: cleared, with the callbacks,
    no active partition and the priority queues [0; 1; ...]. *)
Definition mount_ctx (read_fun : option mfat_read_block_fun_t)
    (write_fun : option mfat_write_block_fun_t) : mfat_ctx_t :=
  mk_ctx 0 (-1) read_fun write_fun (partition zero_ctx) (file zero_ctx)
    (map (fun c => mk_cache (block c)
                     (map Z.of_nat (seq 0 MFAT_NUM_CACHED_BLOCKS)))
         (cache zero_ctx)).

Definition mfat_mount (read_fun : option mfat_read_block_fun_t)
    (write_fun : option mfat_write_block_fun_t) : M Z :=
  match read_fun, write_fun with
  | Some _, Some _ =>
      modify (fun _ => mount_ctx read_fun write_fun) ;;;
      ok <- _mfat_decode_partition_tables ;;
      if negb ok then ret (-1)
      else
        s <- get_ctx ;;
        let active :=
          snd (select_boot_partition (partition s) 0 (-1) (active_partition s)) in
        modify (set_active_partition active) ;;;
        if active <? 0 then ret (-1)
        else
          modify (set_initialized 1) ;;;
          ret 0
  | _, _ => ret (-1)
  end.

Definition mfat_unmount : M unit :=
  _mfat_sync_impl ;;;
  modify (set_initialized 0).

Definition mfat_select_partition (partition_no : Z) : M Z :=
  s <- get_ctx ;;
  if initialized s =? 0 then ret (-1)
  else if (partition_no <? 0) || (partition_no >=? Z.of_nat MFAT_NUM_PARTITIONS)
  then ret (-1)
  else
    part <- get_partition partition_no ;;
    if type part =? MFAT_TYPE_UNKNOWN then ret (-1)
    else
      modify (set_active_partition partition_no) ;;;
      ret 0.

Definition mfat_sync : M unit :=
  s <- get_ctx ;;
  if initialized s =? 0 then ret tt
  else _mfat_sync_impl.

(** The pointer argument [stat] is assumed valid here (the function
    does not test it); the result carries the structure written. *)
Definition mfat_fstat (fd : Z) : M (Z * option mfat_stat_t) :=
  s <- get_ctx ;;
  if initialized s =? 0 then ret (-1, None)
  else
    f <- _mfat_get_file fd ;;
    match f with
    | None => ret (-1, None)
    | Some f =>
        file <- get_file_at f ;;
        _mfat_fstat_impl (info file)
    end.

(** [path] is [None] for a null pointer; [stat_is_null] tells whether
    the [stat] argument is. *)
Definition mfat_stat (path : option (list byte)) (stat_is_null : bool)
    : M (Z * option mfat_stat_t) :=
  s <- get_ctx ;;
  if (initialized s =? 0) || (active_partition s <? 0) then ret (-1, None)
  else
    match path with
    | None => ret (-1, None)
    | Some path =>
        if stat_is_null then ret (-1, None)
        else _mfat_stat_impl path
    end.

Definition mfat_open (path : option (list byte)) (flags : Z) : M Z :=
  s <- get_ctx ;;
  if (initialized s =? 0) || (active_partition s <? 0) then ret (-1)
  else
    match path with
    | None => ret (-1)
    | Some path =>
        if Z.land flags MFAT_O_RDWR =? 0 then ret (-1)
        else _mfat_open_impl path flags
    end.

Definition mfat_close (fd : Z) : M Z :=
  s <- get_ctx ;;
  if initialized s =? 0 then ret (-1)
  else
    f <- _mfat_get_file fd ;;
    match f with
    | None => ret (-1)
    | Some f => _mfat_close_impl f
    end.

Definition mfat_read (fd : Z) (nbyte : Z) : M (Z * list byte) :=
  s <- get_ctx ;;
  if initialized s =? 0 then ret (-1, [])
  else
    f <- _mfat_get_file fd ;;
    match f with
    | None => ret (-1, [])
    | Some f => _mfat_read_impl f nbyte
    end.

Definition mfat_write (fd : Z) (buf : list byte) (nbyte : Z) : M Z :=
  s <- get_ctx ;;
  if initialized s =? 0 then ret (-1)
  else
    f <- _mfat_get_file fd ;;
    match f with
    | None => ret (-1)
    | Some f => _mfat_write_impl f buf nbyte
    end.

Definition mfat_lseek (fd : Z) (off : Z) (whence : Z) : M Z :=
  s <- get_ctx ;;
  if initialized s =? 0 then ret (-1)
  else
    f <- _mfat_get_file fd ;;
    match f with
    | None => ret (-1)
    | Some f => _mfat_lseek_impl f off whence
    end.

(* ------------------------------------------------------------------ *)
(** ** The public interface as a transition system *)

(** A call of the public API with its arguments. *)
Inductive api_call :=
| call_mount (read_fun : option mfat_read_block_fun_t)
             (write_fun : option mfat_write_block_fun_t)
| call_unmount
| call_select_partition (partition_no : Z)
| call_sync
| call_fstat (fd : Z)
| call_stat (path : option (list byte)) (stat_is_null : bool)
| call_open (path : option (list byte)) (flags : Z)
| call_close (fd : Z)
| call_read_file (fd : Z) (nbyte : Z)
| call_write_file (fd : Z) (buf : list byte) (nbyte : Z)
| call_lseek (fd : Z) (off : Z) (whence : Z).

(** The integer a call returns ([0] for the two [void] functions).  The
    byte counts of [mfat_read] and [mfat_write] are [uint32_t]
    parameters: the argument is converted on the way in. *)
Definition run_api (c : api_call) : M Z :=
  match c with
  | call_mount r w => mfat_mount r w
  | call_unmount => mfat_unmount ;;; ret 0
  | call_select_partition i => mfat_select_partition i
  | call_sync => mfat_sync ;;; ret 0
  | call_fstat fd => r <- mfat_fstat fd ;; ret (fst r)
  | call_stat p n => r <- mfat_stat p n ;; ret (fst r)
  | call_open p fl => mfat_open p fl
  | call_close fd => mfat_close fd
  | call_read_file fd n => r <- mfat_read fd (u32 n) ;; ret (fst r)
  | call_write_file fd b n => mfat_write fd b (u32 n)
  | call_lseek fd o w => mfat_lseek fd o w
  end.

(** The contexts of a mounted volume: those a successful [mfat_mount]
    leaves, and those any further call that is not [mfat_mount] leads
    to. *)
Inductive reachable : mfat_ctx_t -> Prop :=
| reachable_mount s0 r w s :
    mfat_mount r w s0 = Some (0, s) -> reachable s
| reachable_call s c ret_val s' :
    reachable s ->
    (forall r w, c <> call_mount r w) ->
    run_api c s = Some (ret_val, s') -> reachable s'.

(* ------------------------------------------------------------------ *)
(** ** State predicates *)

(** A state predicate holds after a computation whenever it held before. *)
Definition preserves (P : mfat_ctx_t -> Prop) {A : Type} (m : M A) : Prop :=
  forall s a s', P s -> m s = Some (a, s') -> P s'.

(** A computation that reads the context and leaves it as it is. *)
Definition read_only {A : Type} (m : M A) : Prop :=
  forall s a s', m s = Some (a, s') -> s' = s.

(** The priority list [0; 1; ...; N-1] that [mfat_mount] sets up. *)
Definition iota_pri : list Z := map Z.of_nat (seq 0 MFAT_NUM_CACHED_BLOCKS).

(** No two slots that are not invalid hold the same block number. *)
Definition distinct_valid (blocks : list mfat_cached_block_t) : Prop :=
  forall i j cb1 cb2,
    blocks !! i = Some cb1 -> blocks !! j = Some cb2 ->
    state cb1 <> MFAT_INVALID -> state cb2 <> MFAT_INVALID ->
    blk_no cb1 = blk_no cb2 -> i = j.

(** The invariant of one cache. *)
Definition cache_inv (c : mfat_cache_t) : Prop :=
  length (block c) = MFAT_NUM_CACHED_BLOCKS /\
  Permutation (pri c) iota_pri /\
  distinct_valid (block c).

(** The invariant of both caches of a context. *)
Definition caches_inv (s : mfat_ctx_t) : Prop :=
  length (cache s) = MFAT_NUM_CACHES /\
  forall ct c, cache s !! ct = Some c -> cache_inv c.

(** [s] and [s'] differ at most in their caches. *)
Definition same_but_caches (s s' : mfat_ctx_t) : Prop :=
  initialized s' = initialized s /\
  active_partition s' = active_partition s /\
  read s' = read s /\ write s' = write s /\
  partition s' = partition s /\ file s' = file s.


(** The slot [_mfat_get_cached_block] selects: the hit, else the least
    recently used one. *)
Definition selected_slot (c : mfat_cache_t) (blk : Z) : option Z :=
  match find_hit (block c) blk 0 with
  | Some i => Some i
  | None => pri c !! (MFAT_NUM_CACHED_BLOCKS - 1)%nat
  end.

(** What a slot handed out for block [blk] looks like: it holds [blk],
    and while it is invalid no valid slot of its cache does. *)
Definition slot_for (s : mfat_ctx_t) (ct : nat) (blk : Z) (p : block_ptr)
    : Prop :=
  fst p = ct /\
  exists c cb,
    cache s !! ct = Some c /\ block c !! snd p = Some cb /\
    blk_no cb = blk /\
    (state cb = MFAT_INVALID ->
     forall j cb2, block c !! j = Some cb2 -> state cb2 <> MFAT_INVALID ->
                   blk_no cb2 <> blk).

(** A slot returned by [_mfat_read_block]: it holds [blk] and is not
    invalid. *)
Definition loaded_slot (s : mfat_ctx_t) (ct : nat) (blk : Z) (p : block_ptr)
    : Prop :=
  fst p = ct /\
  exists c cb,
    cache s !! ct = Some c /\ block c !! snd p = Some cb /\
    blk_no cb = blk /\ state cb <> MFAT_INVALID.

(* ------------------------------------------------------------------ *)
(** ** Concrete volumes and contexts *)

(** [poke l off v]: the buffer [l] with the bytes [v] stored from offset
    [off] on. *)
Fixpoint poke (l : list byte) (off : nat) (v : list byte) : list byte :=
  match v with
  | [] => l
  | b :: rest => poke (<[off := b]> l) (S off) rest
  end.

(** A 512-byte block that is zero except for the given byte runs. *)
Definition block_with (parts : list (nat * list byte)) : list byte :=
  fold_left (fun l p => poke l (fst p) (snd p)) parts
            (replicate (Z.to_nat MFAT_BLOCK_SIZE) x00).

Definition bytes (l : list Z) : list byte := map byte_of_Z l.

Definition text (s : String.string) : list byte := String.list_byte_of_string s.
Arguments text s%_string_scope.

(** A FAT16 volume without a partition table: one reserved block (the
    BPB), one FAT of 20 blocks, a root directory of one block (block 21)
    and 4978 one-block clusters from block 22 on.  The root directory
    holds HELLO.TXT, 13 bytes, in cluster 2. *)
Definition hello_bpb : list byte :=
  block_with [(0%nat, bytes [0xeb; 0x3c; 0x90]);
              (11%nat, bytes [0x00; 0x02; 1; 1; 0; 1; 16; 0; 0x88; 0x13]);
              (22%nat, bytes [20; 0]);
              (510%nat, bytes [0x55; 0xaa])].

Definition hello_fat : list byte :=
  block_with [(0%nat, bytes [0xf8; 0xff; 0xff; 0xff; 0xff; 0xff])].

Definition hello_root : list byte :=
  block_with [(0%nat, text "HELLO   TXT"); (11%nat, bytes [0x20]);
              (26%nat, bytes [2; 0; 13; 0; 0; 0])].

Definition hello_data : list byte :=
  block_with [(0%nat, text "Hello, world!")].

Definition hello_disk : mfat_read_block_fun_t :=
  fun block_no =>
    if block_no =? 0 then Some hello_bpb
    else if block_no =? 1 then Some hello_fat
    else if block_no =? 21 then Some hello_root
    else if block_no =? 22 then Some hello_data
    else if (0 <=? block_no) && (block_no <? 5000) then Some (block_with [])
    else None.

Definition accept_writes : mfat_write_block_fun_t := fun _ _ => 0.
Definition failing_writes : mfat_write_block_fun_t := fun _ _ => -1.

(** The context after mounting [hello_disk]. *)
Definition hello_mounted : mfat_ctx_t :=
  match mfat_mount (Some hello_disk) (Some accept_writes) zero_ctx with
  | Some (_, s) => s
  | None => zero_ctx
  end.

(** A context whose data cache holds block 7 (valid, most recently
    used) and block 9 (dirty, least recently used), on a device that
    refuses writes. *)
Definition dirty_ctx : mfat_ctx_t :=
  mk_ctx 1 0 (Some hello_disk) (Some failing_writes)
    (partition zero_ctx) (file zero_ctx)
    [mk_cache [mk_cached_block MFAT_VALID 7 (block_with []);
               mk_cached_block MFAT_DIRTY 9 (block_with [])] [0; 1];
     mk_cache [zero_block; zero_block] [0; 1]].

(** The partition record of the mounted [hello_disk] volume. *)
Definition hello_part : mfat_partition_t :=
  match partition hello_mounted !! 0%nat with
  | Some p => p
  | None => zero_partition
  end.

(** The outcome of reading the FAT block that holds the entry of
    cluster 2 of [hello_part]: the slot, the context and the slot's
    contents. *)
Definition hello_fat_slot : block_ptr :=
  match _mfat_read_block (fat_block_of hello_part 2) MFAT_CACHE_FAT
          hello_mounted with
  | Some (Some p, _) => p
  | _ => (0%nat, 0%nat)
  end.

Definition hello_fat_ctx : mfat_ctx_t :=
  match _mfat_read_block (fat_block_of hello_part 2) MFAT_CACHE_FAT
          hello_mounted with
  | Some (_, s) => s
  | None => hello_mounted
  end.

Definition hello_fat_cb : mfat_cached_block_t :=
  match get_block hello_fat_slot hello_fat_ctx with
  | Some (cb, _) => cb
  | None => zero_block
  end.

(* ------------------------------------------------------------------ *)
(** ** Canonical names *)

Definition space : byte := " "%byte.

(** What [_mfat_canonicalize_fname] stores for the path character [b]. *)
Definition canon_byte (b : byte) : byte :=
  byte_of_Z (_mfat_canonicalize_char (u8 b)).

(** The bytes of a canonical name: a space, or a stored character. *)
Definition name_byte (b : byte) : Prop :=
  b = space \/ exists x, b = canon_byte x.

(** The second canonicalization of a name byte: spaces become ['!']. *)
Definition bang (b : byte) : byte :=
  if Byte.eqb b space then "!"%byte else b.

(** A root directory block whose first entry is a long-name entry
    (attribute [0x0F]): sequence byte [0x41], then the UCS-2 characters
    U+4141 ..., so that its first eleven bytes read AAAAAAAAAAA. *)
Definition lfn_root : list byte :=
  block_with [(0%nat, text "AAAAAAAAAAA"); (11%nat, bytes [0x0f])].

(** [hello_disk] with that root directory. *)
Definition lfn_disk : mfat_read_block_fun_t :=
  fun block_no => if block_no =? 21 then Some lfn_root else hello_disk block_no.

Definition lfn_mounted : mfat_ctx_t :=
  match mfat_mount (Some lfn_disk) (Some accept_writes) zero_ctx with
  | Some (_, s) => s
  | None => zero_ctx
  end.

(* ------------------------------------------------------------------ *)
(** ** The partition selection, as the specification words it *)

(** A partition of a supported FAT type. *)
Definition is_fat (p : mfat_partition_t) : bool :=
  negb (type p =? MFAT_TYPE_UNKNOWN).

(** A bootable partition of a supported FAT type. *)
Definition is_bootable_fat (p : mfat_partition_t) : bool :=
  is_fat p && negb (boot p =? 0).

(** The index of the first partition that satisfies [f], counting from
    [i] for the head of the list. *)
Fixpoint first_index (f : mfat_partition_t -> bool)
    (parts : list mfat_partition_t) (i : Z) : option Z :=
  match parts with
  | [] => None
  | p :: rest => if f p then Some i else first_index f rest (i + 1)
  end.

(** [hello_disk] with an unreadable data block. *)
Definition broken_disk : mfat_read_block_fun_t :=
  fun block_no => if block_no =? 22 then None else hello_disk block_no.

(** The context after mounting a disk and opening HELLO.TXT for
    reading. *)
Definition mount_and_open (disk : mfat_read_block_fun_t) : mfat_ctx_t :=
  match (mfat_mount (Some disk) (Some accept_writes) ;;;
         mfat_open (Some (text "/HELLO.TXT")) MFAT_O_RDONLY) zero_ctx with
  | Some (_, s) => s
  | None => zero_ctx
  end.

Definition hello_opened : mfat_ctx_t := mount_and_open hello_disk.
Definition broken_opened : mfat_ctx_t := mount_and_open broken_disk.

(* ------------------------------------------------------------------ *)
(** ** The FAT chain on the device, and the invariants of a mounted
       volume *)

(** The FAT entry of cluster [c] as the device holds it: the next
    cluster, or [None] when the block cannot be read or the entry is
    free or BAD. *)
Definition fat_next (dev : mfat_read_block_fun_t) (part : mfat_partition_t)
    (c : Z) : option Z :=
  match dev (fat_block_of part c) with
  | None => None
  | Some data =>
      let v := fat_entry_value part data (fat_block_offset_of part c) in
      if (v =? 0) || (v =? 0x0ffffff7) then None else Some v
  end.

(** The cluster reached from [c] by following the chain [n] times. *)
Fixpoint walk (dev : mfat_read_block_fun_t) (part : mfat_partition_t)
    (n : nat) (c : Z) : option Z :=
  match n with
  | O => Some c
  | S n' =>
      match walk dev part n' c with
      | Some c' => fat_next dev part c'
      | None => None
      end
  end.

(** Every cached block that is not invalid holds what the device holds
    for its block number. *)
Definition coherent (s : mfat_ctx_t) : Prop :=
  forall dev ct c i cb,
    read s = Some dev -> cache s !! ct = Some c -> block c !! i = Some cb ->
    state cb <> MFAT_INVALID -> dev (blk_no cb) = Some (buf cb).

Definition bytes_per_cluster (part : mfat_partition_t) : Z :=
  blocks_per_cluster part * MFAT_BLOCK_SIZE.

(** The invariant of an open file descriptor: the offset is within the
    file, and the current cluster is the first cluster walked
    [offset / bytes_per_cluster] times. *)
Definition fd_ok (s : mfat_ctx_t) (f : mfat_file_t) : Prop :=
  0 <= offset f <= size (info f) /\ size (info f) < 2 ^ 32 /\
  forall dev part,
    read s = Some dev ->
    arr_get (partition s) (part_no (info f)) = Some part ->
    walk dev part (Z.to_nat (offset f / bytes_per_cluster part))
         (first_cluster (info f)) = Some (current_cluster f).

Definition fds_inv (s : mfat_ctx_t) : Prop :=
  forall fd f, file s !! fd = Some f -> open f <> 0 -> fd_ok s f.

(** The cluster size of every partition record is a byte. *)
Definition parts_ok (s : mfat_ctx_t) : Prop :=
  forall i p, partition s !! i = Some p -> 0 <= blocks_per_cluster p < 256.

(** Both callbacks are present. *)
Definition callbacks_set (s : mfat_ctx_t) : Prop :=
  (exists dev, read s = Some dev) /\ (exists w, write s = Some w).

(** The cursor [cpos] stands at block [B] of the file whose chain starts
    at [first]: its cluster is the one [B / blocks_per_cluster] steps
    down the chain, and its block that many blocks into it. *)
Definition cursor_at (dev : mfat_read_block_fun_t) (part : mfat_partition_t)
    (first : Z) (cpos : mfat_cluster_pos_t) (B : Z) : Prop :=
  walk dev part (Z.to_nat (B / blocks_per_cluster part)) first
    = Some (cluster_no cpos) /\
  block_in_cluster cpos = B mod blocks_per_cluster part.

(** The invariant of the loops of [_mfat_read_impl] over [(cpos,
    bytes_read, data)], for a read of [n] bytes from offset [o]: the
    cursor stands at the block of byte [o + bytes_read], and that byte
    starts a block unless the read is complete. *)
Definition read_inv (dev : mfat_read_block_fun_t) (part : mfat_partition_t)
    (first o n : Z) (st : read_state) (s : mfat_ctx_t) : Prop :=
  let '(cpos, bytes_read, _) := st in
  coherent s /\ read s = Some dev /\
  0 <= bytes_read <= n /\
  cursor_at dev part first cpos ((o + bytes_read) / 512) /\
  ((o + bytes_read) mod 512 = 0 \/ bytes_read = n).

(** The invariant of the cluster search of [_mfat_lseek_impl] over
    [(current_cluster, cluster_offset)]: the offset is that of the
    start of a cluster, not past the target, and the cluster is the one
    the chain reaches there. *)
Definition lseek_inv (dev : mfat_read_block_fun_t) (part : mfat_partition_t)
    (first target : Z) (st : Z * Z) (s : mfat_ctx_t) : Prop :=
  coherent s /\ read s = Some dev /\
  exists k : Z,
    0 <= k /\ snd st = k * bytes_per_cluster part /\ snd st <= target /\
    walk dev part (Z.to_nat k) first = Some (fst st).

(** [s'] has the callbacks and the partition table of [s]. *)
Definition same_config (s s' : mfat_ctx_t) : Prop :=
  read s' = read s /\ write s' = write s /\ partition s' = partition s.

(** The invariant of a mounted volume. *)
Definition mounted_inv (s : mfat_ctx_t) : Prop :=
  caches_inv s /\ coherent s /\ callbacks_set s /\ parts_ok s /\ fds_inv s.

(** No file descriptor is open. *)
Definition all_closed (s : mfat_ctx_t) : Prop :=
  forall fd f, file s !! fd = Some f -> open f = 0.

Definition cluster_size_ok (p : mfat_partition_t) : Prop :=
  0 <= blocks_per_cluster p < 256.

(** [hello_disk] with a three-cluster chain: HELLO.TXT has 1300 bytes in
    the clusters 2, 3 and 4, and every block of the device can be
    read. *)
Definition chain_fat : list byte :=
  block_with [(0%nat, bytes [0xf8; 0xff; 0xff; 0xff; 3; 0; 4; 0; 0xff; 0xff])].

Definition chain_root : list byte :=
  block_with [(0%nat, text "HELLO   TXT"); (11%nat, bytes [0x20]);
              (26%nat, bytes [2; 0; 0x14; 0x05; 0; 0])].

Definition chain_disk : mfat_read_block_fun_t :=
  fun block_no =>
    if block_no =? 0 then Some hello_bpb
    else if block_no =? 1 then Some chain_fat
    else if block_no =? 21 then Some chain_root
    else if block_no =? 22 then Some hello_data
    else Some (block_with []).

Definition chain_mounted : mfat_ctx_t :=
  match mfat_mount (Some chain_disk) (Some accept_writes) zero_ctx with
  | Some (_, s) => s
  | None => zero_ctx
  end.

Definition chain_opened : mfat_ctx_t := mount_and_open chain_disk.

(** The context after reading 600 bytes of the file. *)
Definition chain_read : mfat_ctx_t :=
  match run_api (call_read_file 0 600) chain_opened with
  | Some (_, s) => s
  | None => zero_ctx
  end.

Definition chain_file : mfat_file_t :=
  match file chain_read !! 0%nat with
  | Some f => f
  | None => zero_file
  end.

Definition chain_part : mfat_partition_t :=
  match partition chain_read !! 0%nat with
  | Some p => p
  | None => zero_partition
  end.

(** The FAT chain that starts at [first] has a cluster for every byte
    of the range [o, o + n): each cluster index up to
    [(o + n) / bytes_per_cluster] is reached by the walk, and the
    clusters that hold a byte before [o + n] are not end-of-chain
    marks. *)
Definition chain_covers (dev : mfat_read_block_fun_t)
    (part : mfat_partition_t) (first o n : Z) : Prop :=
  forall k, 0 <= k -> k <= (o + n) / bytes_per_cluster part ->
    exists c, walk dev part (Z.to_nat k) first = Some c /\
              (k * bytes_per_cluster part < o + n -> _mfat_is_eoc c = false).

(** [chain_disk] with the FAT of [hello_disk]: the directory entry of
    HELLO.TXT still says 1300 bytes, but the chain ends after cluster
    2.  Every block of the device can be read. *)
Definition short_disk : mfat_read_block_fun_t :=
  fun block_no =>
    if block_no =? 1 then Some hello_fat else chain_disk block_no.

Definition short_mounted : mfat_ctx_t :=
  match mfat_mount (Some short_disk) (Some accept_writes) zero_ctx with
  | Some (_, s) => s
  | None => zero_ctx
  end.

Definition short_opened : mfat_ctx_t := mount_and_open short_disk.

Definition short_open_file : mfat_file_t :=
  match file short_opened !! 0%nat with
  | Some f => f
  | None => zero_file
  end.

(** A partition that the BPB decoding accepted: FAT16 or FAT32, with a
    cluster size of 1 to 255 blocks. *)
Definition fat_partition (p : mfat_partition_t) : Prop :=
  (type p = MFAT_TYPE_FAT16 \/ type p = MFAT_TYPE_FAT32) /\
  0 < blocks_per_cluster p < 256.

(** The type of a partition record is decided: unknown, or one of the
    supported FAT types, with a root directory size that is a 32-bit
    value. *)
Definition decoded (p : mfat_partition_t) : Prop :=
  type p = MFAT_TYPE_UNKNOWN \/
  (fat_partition p /\ 0 <= blocks_in_root_dir p < 2 ^ 32).

(** The partition table of a mounted volume: every record is decided,
    the active partition is a FAT partition, and so is the partition of
    every open file. *)
Definition volume_inv (s : mfat_ctx_t) : Prop :=
  (length (partition s) = MFAT_NUM_PARTITIONS /\
   forall i p, partition s !! i = Some p -> decoded p) /\
  (exists p, arr_get (partition s) (active_partition s) = Some p /\
             fat_partition p) /\
  (forall fd f, file s !! fd = Some f -> open f <> 0 ->
     exists p, arr_get (partition s) (part_no (info f)) = Some p /\
               fat_partition p).

(** Every open entry of the descriptor table of [s'] refers to the file
    an open entry of [s] referred to, or to a file that
    [_mfat_find_file] finds in [s] on the partition that is active
    there, existing and not a directory. *)
Definition files_track (s s' : mfat_ctx_t) : Prop :=
  forall fd f', file s' !! fd = Some f' -> open f' <> 0 ->
    (exists f, file s !! fd = Some f /\ open f <> 0 /\ info f = info f') \/
    (part_no (info f') = active_partition s /\
     exists path e s1,
       e <> 0 /\
       _mfat_find_file (active_partition s) path s
       = Some (Some (info f', 0, e), s1)).

(** No cached block is dirty: each one is invalid or valid. *)
Definition clean (s : mfat_ctx_t) : Prop :=
  forall ct c i cb, cache s !! ct = Some c -> block c !! i = Some cb ->
    state cb = MFAT_INVALID \/ state cb = MFAT_VALID.

(** The matched directory entry that [_mfat_find_file] carries in its
    locals, if any: it lies at a 32-byte boundary of the block in the
    slot, and starts neither with [0x00] nor with [0xE5]. *)
Definition entry_found (st : find_state) (s : mfat_ctx_t) : Prop :=
  forall e, fs_file_entry st = Some e ->
    exists p cb,
      fs_block st = Some p /\ get_block p s = Some (cb, s) /\
      byte_at (buf cb) e <> 0x00 /\ byte_at (buf cb) e <> 0xe5 /\
      0 <= e < 512 /\ e mod 32 = 0.

(** A FAT32 volume without a partition table: 70000 blocks, 32
    reserved blocks, one FAT of 547 blocks, one-block clusters from
    block 579 on, the root directory in the cluster chain 2, 3.  The
    first block of the root directory is full of other entries;
    HELLO.TXT is the first entry of the second block. *)
Definition fat32_bpb : list byte :=
  block_with [(0%nat, bytes [0xeb; 0x58; 0x90]);
              (11%nat, bytes [0x00; 0x02; 1; 32; 0; 1; 0; 0; 0; 0]);
              (32%nat, bytes [0x70; 0x11; 0x01; 0x00; 0x23; 0x02; 0; 0]);
              (44%nat, bytes [2; 0; 0; 0]);
              (510%nat, bytes [0x55; 0xaa])].

Definition fat32_fat : list byte :=
  block_with [(0%nat, bytes [0xf8; 0xff; 0xff; 0x0f; 0xff; 0xff; 0xff; 0x0f;
                             3; 0; 0; 0; 0xff; 0xff; 0xff; 0x0f])].

Definition filler_entries : list (nat * list byte) :=
  map (fun k => ((32 * k)%nat, text "FILLER  TXT")) (seq 0 16).

Definition fat32_root_first : list byte := block_with filler_entries.

Definition fat32_root_second : list byte :=
  block_with [(0%nat, text "HELLO   TXT"); (11%nat, bytes [0x20]);
              (26%nat, bytes [4; 0; 13; 0; 0; 0])].

Definition fat32_disk : mfat_read_block_fun_t :=
  fun block_no =>
    if block_no =? 0 then Some fat32_bpb
    else if block_no =? 32 then Some fat32_fat
    else if block_no =? 579 then Some fat32_root_first
    else if block_no =? 580 then Some fat32_root_second
    else Some (block_with []).

Definition fat32_mounted : mfat_ctx_t :=
  match mfat_mount (Some fat32_disk) (Some accept_writes) zero_ctx with
  | Some (_, s) => s
  | None => zero_ctx
  end.

Definition fat32_part : mfat_partition_t :=
  match partition fat32_mounted !! 0%nat with
  | Some p => p
  | None => zero_partition
  end.

(** The byte that the read cursor addresses for position [k] of a file
    whose cluster chain starts at [first]: the byte at [k mod 512] of
    block [(k / 512) mod blocks_per_cluster] of the cluster number that
    [walk] yields after [k / bytes_per_cluster] steps.  Like the code,
    [walk] follows every value the FAT holds, an End-of-Chain mark
    included, so that this need not be a byte of the file. *)
Definition cursor_byte (dev : mfat_read_block_fun_t) (part : mfat_partition_t)
    (first k : Z) : option Z :=
  match walk dev part (Z.to_nat (k / bytes_per_cluster part)) first with
  | Some c =>
      match dev (add32 (_mfat_first_block_of_cluster part c)
                       ((k / 512) mod blocks_per_cluster part)) with
      | Some data => Some (byte_at data (k mod 512))
      | None => None
      end
  | None => None
  end.

(** Cluster [n] of the file whose cluster chain starts at [c]: the
    chain ends at the first End-of-Chain value (a mark, not a cluster),
    at a free or bad entry, and where the FAT cannot be read. *)
Fixpoint chain_cluster (dev : mfat_read_block_fun_t) (part : mfat_partition_t)
    (n : nat) (c : Z) : option Z :=
  match n with
  | O => if _mfat_is_eoc c then None else Some c
  | S n' =>
      match chain_cluster dev part n' c with
      | Some c' =>
          match fat_next dev part c' with
          | Some c'' => if _mfat_is_eoc c'' then None else Some c''
          | None => None
          end
      | None => None
      end
  end.

(** Byte [k] of the file whose cluster chain starts at [first], as the
    device holds it: the byte at [k mod 512] of block
    [(k / 512) mod blocks_per_cluster] of cluster [k / bytes_per_cluster]
    of the chain.  There is no such byte beyond the end of the chain. *)
Definition file_byte (dev : mfat_read_block_fun_t) (part : mfat_partition_t)
    (first k : Z) : option Z :=
  match chain_cluster dev part (Z.to_nat (k / bytes_per_cluster part)) first with
  | Some c =>
      match dev (add32 (_mfat_first_block_of_cluster part c)
                       ((k / 512) mod blocks_per_cluster part)) with
      | Some data => Some (byte_at data (k mod 512))
      | None => None
      end
  | None => None
  end.

(** The cursor's first block is that of its cluster. *)
Definition cpos_start_ok (part : mfat_partition_t) (cpos : mfat_cluster_pos_t)
    : Prop :=
  cluster_start_blk cpos = _mfat_first_block_of_cluster part (cluster_no cpos).

(** The bytes stored so far by [_mfat_read_impl], for a read from offset
    [o]: as many as [bytes_read] says, and byte [j] is byte [o + j] of
    the file. *)
Definition read_data_inv (dev : mfat_read_block_fun_t)
    (part : mfat_partition_t) (first o : Z) (st : read_state) : Prop :=
  let '(cpos, bytes_read, data) := st in
  length data = Z.to_nat bytes_read /\ cpos_start_ok part cpos /\
  forall j, 0 <= j < bytes_read ->
    cursor_byte dev part first (o + j) = Some (byte_at data j).

(** The file information of every open descriptor was read off the
    directory entry it names: the size and the first cluster are the
    fields of the entry at [dir_entry_offset] of block
    [dir_entry_block] of the device, and the entry is not a
    directory. *)
Definition entry_on_device (dev : mfat_read_block_fun_t)
    (info : mfat_file_info_t) : Prop :=
  exists data,
    dev (dir_entry_block info) = Some data /\
    size info = _mfat_get_dword data (dir_entry_offset info + 28) /\
    first_cluster info = child_dir_cluster data (dir_entry_offset info).

Definition entries_inv (s : mfat_ctx_t) : Prop :=
  forall fd f dev, file s !! fd = Some f -> open f <> 0 ->
    read s = Some dev ->
    entry_on_device dev (info f) /\
    forall data, dev (dir_entry_block (info f)) = Some data ->
      Z.land (byte_at data (dir_entry_offset (info f) + 11))
             MFAT_ATTR_DIRECTORY = 0.

(** While [_mfat_find_file] holds a matched entry, the block it was
    found in is a cached copy of a block of the device. *)
Definition found_on_device (dev : mfat_read_block_fun_t) (st : find_state)
    (s : mfat_ctx_t) : Prop :=
  (caches_inv s /\ coherent s /\ read s = Some dev) /\
  forall e, fs_file_entry st = Some e ->
    exists p cb,
      fs_block st = Some p /\ get_block p s = Some (cb, s) /\
      dev (blk_no cb) = Some (buf cb).

(** A state whose caches are sound copies of the blocks of [dev], none
    of them dirty. *)
Definition device_cached (dev : mfat_read_block_fun_t) (s : mfat_ctx_t)
    : Prop :=
  caches_inv s /\ coherent s /\ clean s /\ read s = Some dev.

(** The FAT16 volume of [hello_disk] with a root directory that is full
    (its one block holds sixteen other entries) and a first data block
    (block 22, cluster 2) that holds a directory entry for HELLO.TXT. *)
Definition overrun_root : list byte := block_with filler_entries.

Definition overrun_data : list byte :=
  block_with [(0%nat, text "HELLO   TXT"); (11%nat, bytes [0x20]);
              (26%nat, bytes [3; 0; 13; 0; 0; 0])].

Definition overrun_disk : mfat_read_block_fun_t :=
  fun block_no =>
    if block_no =? 0 then Some hello_bpb
    else if block_no =? 1 then Some hello_fat
    else if block_no =? 21 then Some overrun_root
    else if block_no =? 22 then Some overrun_data
    else if (0 <=? block_no) && (block_no <? 5000) then Some (block_with [])
    else None.

Definition overrun_mounted : mfat_ctx_t :=
  match mfat_mount (Some overrun_disk) (Some accept_writes) zero_ctx with
  | Some (_, s) => s
  | None => zero_ctx
  end.

Definition overrun_part : mfat_partition_t :=
  match partition overrun_mounted !! 0%nat with
  | Some p => p
  | None => zero_partition
  end.

(** The block that follows [cpos] in its cluster chain on the device:
    the next block of the cluster or, after its last block, the first
    block of the cluster that the FAT names next. *)
Definition advanced (dev : mfat_read_block_fun_t) (part : mfat_partition_t)
    (cpos : mfat_cluster_pos_t) : option mfat_cluster_pos_t :=
  let bic := add32 (block_in_cluster cpos) 1 in
  if bic =? blocks_per_cluster part then
    match fat_next dev part (cluster_no cpos) with
    | Some c => Some (mk_cpos c 0 (_mfat_first_block_of_cluster part c))
    | None => None
    end
  else Some (mk_cpos (cluster_no cpos) bic (cluster_start_blk cpos)).

(** The BPB of [hello_disk] with a cluster size of zero blocks (byte 13),
    and a volume without partition table that starts with it. *)
Definition zero_cluster_bpb : list byte :=
  block_with [(0%nat, bytes [0xeb; 0x3c; 0x90]);
              (11%nat, bytes [0x00; 0x02; 0; 1; 0; 1; 16; 0; 0x88; 0x13]);
              (22%nat, bytes [20; 0]);
              (510%nat, bytes [0x55; 0xaa])].

Definition zero_cluster_disk : mfat_read_block_fun_t :=
  fun block_no =>
    if block_no =? 0 then Some zero_cluster_bpb else Some (block_with []).

(** A GPT header (block 1) that announces two partition entries of 500
    bytes each from block 2 on, and a device that holds it. *)
Definition wide_gpt_header : list byte :=
  block_with [(0%nat, bytes [0x45; 0x46; 0x49; 0x20; 0x50; 0x41; 0x52; 0x54]);
              (72%nat, bytes [2; 0; 0; 0]);
              (80%nat, bytes [2; 0; 0; 0]);
              (84%nat, bytes [0xf4; 0x01; 0; 0])].

Definition wide_gpt_disk : mfat_read_block_fun_t :=
  fun block_no =>
    if block_no =? 1 then Some wide_gpt_header else Some (block_with []).

(** The calls whose arguments are in range: any call but [mfat_mount],
    with a path of less than [2 ^ 31] characters (its positions are
    [int] values) and an offset that can be added to a 32-bit file
    position in an [int64_t]. *)
Definition call_in_range (c : api_call) : Prop :=
  match c with
  | call_mount _ _ => False
  | call_stat (Some p) _ | call_open (Some p) _ =>
      Z.of_nat (length p) < 2 ^ 31
  | call_lseek _ off _ => - 2 ^ 63 <= off < 2 ^ 63 - 2 ^ 32
  | _ => True
  end.

(** The device holds every block of the file that a read of the range
    [o, o + n) visits: for each block index [B] of the file from that of
    byte [o] to that of byte [o + n - 1], the block in the cluster that
    the chain reaches for [B] can be read. *)
Definition data_readable (dev : mfat_read_block_fun_t)
    (part : mfat_partition_t) (first o n : Z) : Prop :=
  forall B c, o / 512 <= B -> B * 512 < o + n ->
    walk dev part (Z.to_nat (B / blocks_per_cluster part)) first = Some c ->
    dev (add32 (_mfat_first_block_of_cluster part c)
               (B mod blocks_per_cluster part)) <> None.

(** The invariant of the three phases of [_mfat_read_impl] in a read that
    returns: the caches are in order and clean, the cursor stands at the
    block of byte [o + bytes_read], and its first block is that of its
    cluster. *)
Definition returns_inv (dev : mfat_read_block_fun_t)
    (part : mfat_partition_t) (first o n : Z) (st : read_state)
    (s : mfat_ctx_t) : Prop :=
  device_cached dev s /\ read_inv dev part first o n st s /\
  cpos_start_ok part (fst (fst st)).

(** [chain_disk] as a device of 5000 blocks: no block beyond them can be
    read. *)
Definition small_chain_disk : mfat_read_block_fun_t :=
  fun block_no =>
    if (0 <=? block_no) && (block_no <? 5000) then chain_disk block_no
    else None.

Definition small_chain_mounted : mfat_ctx_t :=
  match mfat_mount (Some small_chain_disk) (Some accept_writes) zero_ctx with
  | Some (_, s) => s
  | None => zero_ctx
  end.

Definition small_chain_opened : mfat_ctx_t := mount_and_open small_chain_disk.

Definition small_chain_file : mfat_file_t :=
  match file small_chain_opened !! 0%nat with
  | Some f => f
  | None => zero_file
  end.

Definition small_chain_part : mfat_partition_t :=
  match partition small_chain_opened !! 0%nat with
  | Some p => p
  | None => zero_partition
  end.

(** The cursor after the block at [cpos] in the loop of [_mfat_find_file]
    over the blocks of a directory: the next block of the cluster chain
    or, in the root directory of a FAT16 partition (cluster number 0),
    the next block of the device. *)
Definition next_dir_block (dev : mfat_read_block_fun_t)
    (part : mfat_partition_t) (cpos : mfat_cluster_pos_t)
    : option mfat_cluster_pos_t :=
  if negb (cluster_no cpos =? 0) then advanced dev part cpos
  else Some (mk_cpos (cluster_no cpos) (add32 (block_in_cluster cpos) 1)
                     (cluster_start_blk cpos)).

(** Where [_mfat_find_file] starts: the cursor at the first block of the
    root directory, and the number of blocks left. *)
Definition root_dir_start (part : mfat_partition_t)
    : option (mfat_cluster_pos_t * Z) :=
  if type part =? MFAT_TYPE_FAT32 then
    match _mfat_cluster_pos_init part (root_dir_cluster part) 0 with
    | Some cpos => Some (cpos, 0xffffffff)
    | None => None
    end
  else Some (mk_cpos 0 0 (root_dir_block part), blocks_in_root_dir part).

(** The context with the read callback answering as [v].  The callback
    is a function of the caller whose answers depend on the state of the
    device at the time of the call; the library never changes the pointer
    after [mfat_mount]. *)
Definition set_read (v : option mfat_read_block_fun_t) (c : mfat_ctx_t)
    : mfat_ctx_t :=
  mk_ctx (initialized c) (active_partition c) v (write c) (partition c)
         (file c) (cache c).

Definition short_part : mfat_partition_t :=
  match partition short_opened !! 0%nat with
  | Some p => p
  | None => zero_partition
  end.

(** The context after a seek to offset 600 in [short_opened]. *)
Definition short_seeked : mfat_ctx_t :=
  match mfat_lseek 0 600 MFAT_SEEK_SET short_opened with
  | Some (_, s) => s
  | None => zero_ctx
  end.

(* ================================================================== *)
(** * Verification *)

(* ------------------------------------------------------------------ *)
(** ** Reasoning about computations *)

Lemma bind_Some {A B} (m : M A) (k : A -> M B) s b s' :
  bind m k s = Some (b, s') ->
  exists a s1, m s = Some (a, s1) /\ k a s1 = Some (b, s').
Proof.
  unfold bind. destruct (m s) as [[a s1]|]; [|discriminate].
  intros H. exists a, s1. split; [reflexivity|exact H].
Qed.

Lemma ret_Some {A} (a b : A) s s' : ret a s = Some (b, s') -> b = a /\ s' = s.
Proof. unfold ret. intros H. inversion H. split; reflexivity. Qed.

Lemma lift_Some {A} (o : option A) a s s' :
  lift o s = Some (a, s') -> o = Some a /\ s' = s.
Proof. unfold lift. destruct o; intros H; inversion H. split; reflexivity. Qed.

Section Preserves.
Variable P : mfat_ctx_t -> Prop.

Lemma preserves_ret {A} (a : A) : preserves P (ret a).
Proof. intros s b s' HP H. apply ret_Some in H as [_ ->]. exact HP. Qed.

Lemma preserves_bind {A B} (m : M A) (k : A -> M B) :
  preserves P m -> (forall a, preserves P (k a)) -> preserves P (bind m k).
Proof.
  intros Hm Hk s b s' HP H. apply bind_Some in H as (a & s1 & H1 & H2).
  eapply Hk; [|exact H2]. eapply Hm; [exact HP|exact H1].
Qed.

Lemma preserves_undefined {A} : preserves P (@undefined A).
Proof. intros s a s' _ H. discriminate H. Qed.

Lemma preserves_read_only {A} (m : M A) : read_only m -> preserves P m.
Proof. intros Hm s a s' HP H. apply Hm in H. subst s'. exact HP. Qed.

Lemma preserves_modify (f : mfat_ctx_t -> mfat_ctx_t) :
  (forall s, P s -> P (f s)) -> preserves P (modify f).
Proof. intros Hf s a s' HP H. inversion H. apply Hf, HP. Qed.

Lemma preserves_loop_pow2 {S R} (body : S -> M (S + R)) k :
  (forall s, preserves P (body s)) ->
  forall s, preserves P (loop_pow2 k body s).
Proof.
  intros Hbody. induction k as [|k IH]; intros s; simpl.
  - apply Hbody.
  - apply preserves_bind; [apply IH|].
    intros [s1|r]; [apply IH|apply preserves_ret].
Qed.

Lemma preserves_loop_upto {S R} k (body : S -> M (S + R)) s :
  (forall s, preserves P (body s)) -> preserves P (loop_upto k body s).
Proof.
  intros Hbody. unfold loop_upto. apply preserves_bind.
  - apply preserves_loop_pow2, Hbody.
  - intros [s1|r]; [apply preserves_undefined|apply preserves_ret].
Qed.

Lemma preserves_while_loop {S R} (body : S -> M (S + R)) s :
  (forall s, preserves P (body s)) -> preserves P (while_loop body s).
Proof. apply preserves_loop_upto. Qed.

Lemma preserves_for_each {A} (l : list A) (body : A -> M unit) :
  (forall x, preserves P (body x)) -> preserves P (for_each l body).
Proof.
  intros Hbody. induction l as [|x l IH]; simpl.
  - apply preserves_ret.
  - apply preserves_bind; [apply Hbody|intros _; exact IH].
Qed.
End Preserves.

Lemma read_only_ret {A} (a : A) : read_only (ret a).
Proof. intros s b s' H. apply ret_Some in H as [_ ->]. reflexivity. Qed.

Lemma read_only_bind {A B} (m : M A) (k : A -> M B) :
  read_only m -> (forall a, read_only (k a)) -> read_only (bind m k).
Proof.
  intros Hm Hk s b s' H. apply bind_Some in H as (a & s1 & H1 & H2).
  apply Hm in H1. subst s1. eapply Hk, H2.
Qed.

Lemma read_only_lift {A} (o : option A) : read_only (lift o).
Proof. intros s a s' H. apply lift_Some in H as [_ ->]. reflexivity. Qed.

Lemma read_only_undefined {A} : read_only (@undefined A).
Proof. intros s a s' H. discriminate H. Qed.

Lemma read_only_get_ctx : read_only get_ctx.
Proof. intros s a s' H. inversion H. reflexivity. Qed.

Lemma read_only_get_cache ct : read_only (get_cache ct).
Proof.
  intros s a s' H. unfold get_cache in H.
  destruct (cache s !! ct); inversion H. reflexivity.
Qed.

Lemma read_only_get_block p : read_only (get_block p).
Proof.
  unfold get_block. apply read_only_bind; [apply read_only_get_cache|].
  intros c. apply read_only_lift.
Qed.

Lemma read_only_get_partition i : read_only (get_partition i).
Proof.
  intros s a s' H. unfold get_partition in H.
  destruct (arr_get (partition s) i); inversion H. reflexivity.
Qed.

Lemma read_only_get_file_at fd : read_only (get_file_at fd).
Proof.
  intros s a s' H. unfold get_file_at in H.
  destruct (arr_get (file s) fd); inversion H. reflexivity.
Qed.

Lemma read_only_call_read b : read_only (call_read b).
Proof.
  intros s a s' H. unfold call_read in H.
  destruct (read s); inversion H. reflexivity.
Qed.

Lemma read_only_call_write b n : read_only (call_write b n).
Proof.
  intros s a s' H. unfold call_write in H.
  destruct (write s); inversion H. reflexivity.
Qed.

Lemma read_only_get_file fd : read_only (_mfat_get_file fd).
Proof.
  unfold _mfat_get_file.
  destruct ((fd <? 0) || (fd >=? Z.of_nat MFAT_NUM_FDS)); [apply read_only_ret|].
  apply read_only_bind; [apply read_only_get_file_at|].
  intros f. destruct (open f =? 0); apply read_only_ret.
Qed.

Create HintDb pres.

#[export] Hint Resolve preserves_ret preserves_undefined : pres.
#[export] Hint Resolve read_only_lift read_only_get_ctx read_only_get_cache
  read_only_get_block read_only_get_partition read_only_get_file_at
  read_only_call_read read_only_call_write read_only_get_file
  read_only_ret read_only_undefined : pres.

(** Decompose a [preserves] goal along the structure of the computation:
    known facts first, then binds, loops and case distinctions. *)
Ltac pres_step :=
  match goal with
  | |- preserves _ _ => solve [eauto with pres]
  | |- preserves _ _ => solve [apply preserves_read_only; eauto with pres]
  | |- preserves _ (bind _ _) => apply preserves_bind; [|intros ?]
  | |- preserves _ (while_loop _ _) => apply preserves_while_loop; intros ?
  | |- preserves _ (for_each _ _) => apply preserves_for_each; intros ?
  | |- preserves _ (match ?x with _ => _ end) => destruct x
  | |- preserves _ (let (_, _) := ?x in _) => destruct x
  | |- preserves _ _ => progress cbv zeta
  end.

Ltac pres := repeat pres_step.


(* ------------------------------------------------------------------ *)
(** ** The block cache *)

Lemma pri_promote_cons item prev pri :
  In item pri ->
  Permutation (item :: pri_promote item prev pri) (prev :: pri).
Proof.
  revert prev. induction pri as [|this rest IH]; intros prev Hin.
  - destruct Hin.
  - simpl. destruct (Z.eqb_spec this item) as [->|Hne].
    + apply perm_swap.
    + destruct Hin as [Heq|Hin]; [contradiction|].
      etransitivity; [apply perm_swap|].
      apply perm_skip, IH, Hin.
Qed.

Lemma pri_promote_perm item pri :
  In item pri -> Permutation (pri_promote item item pri) pri.
Proof.
  intros Hin. eapply Permutation_cons_inv. apply pri_promote_cons, Hin.
Qed.

Lemma find_hit_Some blocks blk i0 i :
  find_hit blocks blk i0 = Some i ->
  i0 <= i /\
  exists cb, blocks !! Z.to_nat (i - i0) = Some cb /\
             state cb <> MFAT_INVALID /\ blk_no cb = blk.
Proof.
  revert i0. induction blocks as [|cb rest IH]; intros i0 H; simpl in H.
  - discriminate.
  - destruct (negb (state cb =? MFAT_INVALID) && (blk_no cb =? blk)) eqn:E.
    + inversion H; subst i. split; [lia|]. exists cb.
      apply andb_true_iff in E as [E1 E2].
      apply negb_true_iff, Z.eqb_neq in E1. apply Z.eqb_eq in E2.
      replace (i0 - i0) with 0 by lia. auto.
    + apply IH in H as (Hle & cb' & Hl & Hs & Hb). split; [lia|].
      exists cb'. split; [|auto].
      replace (Z.to_nat (i - i0)) with (S (Z.to_nat (i - (i0 + 1)))) by lia.
      exact Hl.
Qed.

Lemma find_hit_None blocks blk i0 :
  find_hit blocks blk i0 = None ->
  forall j cb, blocks !! j = Some cb -> state cb <> MFAT_INVALID ->
               blk_no cb <> blk.
Proof.
  revert i0. induction blocks as [|cb rest IH]; intros i0 H j cb' Hl Hs;
    simpl in H.
  - rewrite lookup_nil in Hl. discriminate.
  - destruct (negb (state cb =? MFAT_INVALID) && (blk_no cb =? blk)) eqn:E;
      [discriminate|].
    destruct j as [|j]; simpl in Hl.
    + inversion Hl; subst cb'. intros Hb.
      apply andb_false_iff in E as [E|E].
      * apply negb_false_iff, Z.eqb_eq in E. contradiction.
      * apply Z.eqb_neq in E. contradiction.
    + eapply IH; eauto.
Qed.

Lemma iota_pri_In i :
  In i iota_pri <-> 0 <= i < Z.of_nat MFAT_NUM_CACHED_BLOCKS.
Proof.
  unfold iota_pri. rewrite in_map_iff. split.
  - intros (n & <- & Hn). apply in_seq in Hn. lia.
  - intros H. exists (Z.to_nat i). split; [lia|]. apply in_seq. lia.
Qed.

Lemma selected_slot_In c blk item :
  cache_inv c -> selected_slot c blk = Some item -> In item (pri c).
Proof.
  intros (Hlen & Hperm & _) Hsel. unfold selected_slot in Hsel.
  destruct (find_hit (block c) blk 0) as [i|] eqn:E.
  - inversion Hsel; subst i.
    apply find_hit_Some in E as (Hle & cb & Hl & _).
    apply lookup_lt_Some in Hl.
    eapply Permutation_in; [symmetry; exact Hperm|].
    apply iota_pri_In. lia.
  - apply list_elem_of_In, list_elem_of_lookup. eauto.
Qed.

(** The result of [_mfat_get_cached_block], case by case. *)
Lemma get_cached_block_cases blk ct s r s' :
  _mfat_get_cached_block blk ct s = Some (r, s') ->
  exists c item cb,
    cache s !! ct = Some c /\
    selected_slot c blk = Some item /\
    arr_get (block c) item = Some cb /\
    let pri' := pri_promote item item (pri c) in
    let p := (ct, Z.to_nat item) in
    (blk_no cb = blk /\ r = Some p /\
     s' = set_cache (<[ct := mk_cache (block c) pri']> (cache s)) s) \/
    (blk_no cb <> blk /\ state cb = MFAT_DIRTY /\
     (exists w, write s = Some w /\ w (buf cb) (blk_no cb) = -1) /\
     r = None /\
     s' = set_cache (<[ct := mk_cache (block c) pri']> (cache s)) s) \/
    (blk_no cb <> blk /\
     (state cb = MFAT_DIRTY ->
      exists w, write s = Some w /\ w (buf cb) (blk_no cb) <> -1) /\
     r = Some p /\
     s' = set_cache
            (<[ct := mk_cache
                       (<[Z.to_nat item :=
                            mk_cached_block MFAT_INVALID blk (buf cb)]> (block c))
                       pri']> (cache s)) s).
Proof.
  unfold _mfat_get_cached_block, bind at 1, get_cache.
  destruct (cache s !! ct) as [c|] eqn:Hc; [|discriminate].
  unfold bind at 1, lift.
  destruct (pri c !! (MFAT_NUM_CACHED_BLOCKS - 1)%nat) as [lru|] eqn:Hlru;
    [|discriminate].
  set (item := match find_hit (block c) blk 0 with Some i => i | None => lru end).
  assert (Hsel : selected_slot c blk = Some item).
  { unfold selected_slot, item. destruct (find_hit (block c) blk 0); auto. }
  unfold bind at 1, put_cache, modify. cbn [block pri].
  unfold bind at 1.
  destruct (arr_get (block c) item) as [cb|] eqn:Hcb; [|discriminate].
  intros H. exists c, item, cb. repeat split; auto.
  cbn zeta.
  destruct (Z.eqb_spec (blk_no cb) blk) as [Heq|Hne]; cbn [negb] in H.
  - left. apply ret_Some in H as [-> ->]. auto.
  - right. apply bind_Some in H as (flushed & s1 & H1 & H2).
    destruct (Z.eqb_spec (state cb) MFAT_DIRTY) as [Hd|Hd].
    + apply bind_Some in H1 as (rv & s2 & H1 & H3).
      unfold call_write in H1. cbn [write set_cache] in H1.
      destruct (write s) as [w|] eqn:Hw; [|discriminate].
      inversion H1; subst rv s2; clear H1.
      apply ret_Some in H3 as [-> ->].
      destruct (Z.eqb_spec (w (buf cb) (blk_no cb)) (-1)) as [Hf|Hf];
        cbn [negb] in H2.
      * left. apply ret_Some in H2 as [-> ->]. repeat split; eauto.
      * right. apply bind_Some in H2 as (u & s3 & H2 & H3).
        apply ret_Some in H3 as [-> ->].
        unfold put_block, bind, get_cache, put_cache, modify in H2.
        cbn [fst snd cache set_cache] in H2.
        assert (Hct : (ct < length (cache s))%nat)
          by (eapply lookup_lt_Some; eauto).
        rewrite list_lookup_insert_eq in H2 by exact Hct.
        inversion H2; subst s3; clear H2. cbn [block pri].
        repeat split; eauto.
        unfold set_cache; cbn. rewrite list_insert_insert_eq. reflexivity.
    + right. apply ret_Some in H1 as [-> ->].
      apply bind_Some in H2 as (u & s3 & H2 & H3).
      apply ret_Some in H3 as [-> ->].
      unfold put_block, bind, get_cache, put_cache, modify in H2.
      cbn [fst snd cache set_cache] in H2.
      assert (Hct : (ct < length (cache s))%nat)
        by (eapply lookup_lt_Some; eauto).
      rewrite list_lookup_insert_eq in H2 by exact Hct.
      inversion H2; subst s3; clear H2. cbn [block pri].
      repeat split; eauto; [contradiction|].
      unfold set_cache; cbn. rewrite list_insert_insert_eq. reflexivity.
Qed.


Lemma distinct_valid_insert blocks i cb' :
  distinct_valid blocks ->
  (state cb' <> MFAT_INVALID ->
   forall j cb2, j <> i -> blocks !! j = Some cb2 ->
                 state cb2 <> MFAT_INVALID -> blk_no cb2 <> blk_no cb') ->
  distinct_valid (<[i := cb']> blocks).
Proof.
  intros Hd Hnew a b cb1 cb2 H1 H2 Hs1 Hs2 Hb.
  destruct (decide (a = b)) as [|Hab]; [assumption|exfalso].
  destruct (decide (a = i)) as [->|Ha], (decide (b = i)) as [->|Hb'].
  - contradiction.
  - rewrite list_lookup_insert_ne in H2 by auto.
    assert (i < length blocks)%nat.
    { apply lookup_lt_Some in H1. rewrite length_insert in H1. exact H1. }
    rewrite list_lookup_insert_eq in H1 by assumption.
    inversion H1; subst cb1. eapply Hnew; eauto.
  - rewrite list_lookup_insert_ne in H1 by auto.
    assert (i < length blocks)%nat.
    { apply lookup_lt_Some in H2. rewrite length_insert in H2. exact H2. }
    rewrite list_lookup_insert_eq in H2 by assumption.
    inversion H2; subst cb2. eapply Hnew; eauto.
  - rewrite list_lookup_insert_ne in H1, H2 by auto.
    apply Hab. eapply Hd; eauto.
Qed.

Lemma caches_inv_insert s ct c' :
  caches_inv s -> cache_inv c' ->
  caches_inv (set_cache (<[ct := c']> (cache s)) s).
Proof.
  intros [Hlen Hall] Hc'. split; cbn [cache set_cache].
  - rewrite length_insert. exact Hlen.
  - intros ct' c Hl. destruct (decide (ct = ct')) as [<-|Hne].
    + assert (ct < length (cache s))%nat.
      { apply lookup_lt_Some in Hl. rewrite length_insert in Hl. exact Hl. }
      rewrite list_lookup_insert_eq in Hl by assumption.
      inversion Hl; subst c. exact Hc'.
    + rewrite list_lookup_insert_ne in Hl by auto. eapply Hall, Hl.
Qed.

Lemma same_but_caches_refl s : same_but_caches s s.
Proof. unfold same_but_caches. auto 10. Qed.

Lemma same_but_caches_trans s1 s2 s3 :
  same_but_caches s1 s2 -> same_but_caches s2 s3 -> same_but_caches s1 s3.
Proof. unfold same_but_caches. intuition congruence. Qed.

Lemma same_but_caches_set_cache s v : same_but_caches s (set_cache v s).
Proof. unfold same_but_caches. cbn. auto 10. Qed.

Lemma selected_slot_miss c blk item cb :
  selected_slot c blk = Some item ->
  arr_get (block c) item = Some cb ->
  state cb = MFAT_INVALID \/ blk_no cb <> blk ->
  find_hit (block c) blk 0 = None.
Proof.
  intros Hsel Hcb Hor. unfold selected_slot in Hsel.
  destruct (find_hit (block c) blk 0) as [i|] eqn:E; [exfalso|reflexivity].
  inversion Hsel; subst i.
  apply find_hit_Some in E as (Hle & cb' & Hl & Hs & Hb).
  unfold arr_get in Hcb. destruct (item <? 0) eqn:E0; [discriminate|].
  replace (item - 0) with item in Hl by lia.
  rewrite Hl in Hcb. inversion Hcb; subst cb'. destruct Hor; contradiction.
Qed.

Lemma arr_get_lookup {A} (l : list A) i x :
  arr_get l i = Some x -> l !! Z.to_nat i = Some x /\ 0 <= i.
Proof.
  unfold arr_get. destruct (Z.ltb_spec i 0); [discriminate|]. auto.
Qed.

Lemma get_cached_block_inv blk ct s r s' :
  caches_inv s ->
  _mfat_get_cached_block blk ct s = Some (r, s') ->
  caches_inv s' /\ same_but_caches s s' /\
  forall p, r = Some p -> slot_for s' ct blk p.
Proof.
  intros Hinv H.
  apply get_cached_block_cases in H
    as (c & item & cb & Hc & Hsel & Hcb & Hcases).
  assert (Hci : cache_inv c) by (destruct Hinv as [_ Hall]; eapply Hall, Hc).
  assert (Hin : In item (pri c)) by (eapply selected_slot_In; eauto).
  destruct Hci as (Hlen & Hperm & Hdist).
  assert (Hperm' : Permutation (pri_promote item item (pri c)) iota_pri).
  { etransitivity; [apply pri_promote_perm, Hin|exact Hperm]. }
  assert (Hct : (ct < length (cache s))%nat) by (eapply lookup_lt_Some; eauto).
  apply arr_get_lookup in Hcb as Hcb'. destruct Hcb' as [Hcb' Hitem].
  cbn zeta in Hcases.
  destruct Hcases as [(Hb & -> & ->)|[(Hb & Hd & Hw & -> & ->)|(Hb & Hw & -> & ->)]].
  - split; [|split].
    + apply caches_inv_insert; [exact Hinv|]. repeat split; assumption.
    + apply same_but_caches_set_cache.
    + intros p Hp. inversion Hp; subst p. split; [reflexivity|].
      eexists _, cb. cbn [cache set_cache fst snd].
      rewrite list_lookup_insert_eq by exact Hct. cbn [block].
      repeat split; [exact Hcb'|exact Hb|].
      intros Hs j cb2 Hj Hs2. cbn [block] in Hj.
      eapply (find_hit_None (block c)); [|exact Hj|exact Hs2].
      eapply selected_slot_miss; eauto.
  - split; [|split].
    + apply caches_inv_insert; [exact Hinv|]. repeat split; assumption.
    + apply same_but_caches_set_cache.
    + intros p Hp. discriminate Hp.
  - assert (Hmiss : find_hit (block c) blk 0 = None)
      by (eapply selected_slot_miss; eauto).
    split; [|split].
    + apply caches_inv_insert; [exact Hinv|]. repeat split; cbn [block pri].
      * rewrite length_insert. exact Hlen.
      * exact Hperm'.
      * apply distinct_valid_insert; [exact Hdist|].
        cbn [state]. intros Hs. contradiction.
    + apply same_but_caches_set_cache.
    + intros p Hp. inversion Hp; subst p. split; [reflexivity|].
      eexists _, _. cbn [cache set_cache fst snd].
      rewrite list_lookup_insert_eq by exact Hct. cbn [block].
      split; [reflexivity|]. split.
      { apply list_lookup_insert_eq. eapply lookup_lt_Some, Hcb'. }
      cbn [blk_no state]. split; [reflexivity|].
      intros _ j cb2 Hj Hs2. cbn [block] in Hj.
      destruct (decide (j = Z.to_nat item)) as [->|Hne].
      * rewrite list_lookup_insert_eq in Hj
          by (eapply lookup_lt_Some, Hcb').
        inversion Hj; subst cb2. cbn in Hs2. contradiction.
      * rewrite list_lookup_insert_ne in Hj by auto.
        eapply find_hit_None; eauto.
Qed.

Lemma put_block_Some p cb s u s' :
  put_block p cb s = Some (u, s') ->
  exists c, cache s !! fst p = Some c /\
    s' = set_cache (<[fst p := mk_cache (<[snd p := cb]> (block c)) (pri c)]>
                      (cache s)) s.
Proof.
  unfold put_block. intros H. apply bind_Some in H as (c & s1 & H1 & H2).
  unfold get_cache in H1. destruct (cache s !! fst p) eqn:E; [|discriminate].
  inversion H1; subst. inversion H2. eauto.
Qed.

Lemma get_block_Some p s cb s' :
  get_block p s = Some (cb, s') ->
  s' = s /\ exists c, cache s !! fst p = Some c /\ block c !! snd p = Some cb.
Proof.
  unfold get_block. intros H. apply bind_Some in H as (c & s1 & H1 & H2).
  unfold get_cache in H1. destruct (cache s !! fst p) eqn:E; [|discriminate].
  inversion H1; subst. apply lift_Some in H2 as [H2 ->]. eauto.
Qed.

Lemma read_block_inv blk ct s r s' :
  caches_inv s ->
  _mfat_read_block blk ct s = Some (r, s') ->
  caches_inv s' /\ same_but_caches s s' /\
  forall p, r = Some p -> loaded_slot s' ct blk p.
Proof.
  intros Hinv H. unfold _mfat_read_block in H.
  apply bind_Some in H as (r1 & s1 & H1 & H2).
  apply get_cached_block_inv in H1 as (Hinv1 & Hsame1 & Hslot); [|exact Hinv].
  destruct r1 as [p|]; cbn beta iota in H2.
  2:{ apply ret_Some in H2 as [-> ->]. split; [|split]; auto.
      intros p Hp; discriminate Hp. }
  destruct (Hslot p eq_refl) as (Hfst & c & cb & Hc & Hcb & Hb & Hfresh).
  apply bind_Some in H2 as (cb0 & s2 & H2 & H3).
  apply get_block_Some in H2 as (-> & c0 & Hc0 & Hcb0).
  rewrite Hfst, Hc in Hc0. inversion Hc0; subst c0.
  rewrite Hcb in Hcb0. inversion Hcb0; subst cb0.
  destruct (Z.eqb_spec (state cb) MFAT_INVALID) as [Hs|Hs].
  - apply bind_Some in H3 as (rd & s2 & H3 & H4).
    apply read_only_call_read in H3 as Hs2. subst s2.
    destruct rd as [data|]; cbn beta iota in H4.
    2:{ apply ret_Some in H4 as [-> ->]. split; [|split]; auto.
      intros p' Hp'; discriminate Hp'. }
    apply bind_Some in H4 as (u & s3 & H4 & H5).
    apply ret_Some in H5 as [-> ->].
    apply put_block_Some in H4 as (c0 & Hc0' & ->).
    rewrite Hfst, Hc in Hc0'. inversion Hc0'; subst c0.
    assert (Hci : cache_inv c) by (destruct Hinv1 as [_ Hall]; eapply Hall, Hc).
    destruct Hci as (Hlen & Hperm & Hdist).
    assert (Hct : (ct < length (cache s1))%nat) by (eapply lookup_lt_Some; eauto).
    split; [|split].
    + rewrite Hfst. apply caches_inv_insert; [exact Hinv1|].
      repeat split; cbn [block pri].
      * rewrite length_insert. exact Hlen.
      * exact Hperm.
      * apply distinct_valid_insert; [exact Hdist|].
        cbn [state blk_no]. intros _ j cb2 Hne Hj Hs2.
        rewrite Hb. eapply Hfresh; eauto.
    + eapply same_but_caches_trans; [exact Hsame1|].
      apply same_but_caches_set_cache.
    + intros p' Hp'. inversion Hp'; subst p'. split; [exact Hfst|].
      eexists _, _. cbn [cache set_cache]. rewrite Hfst.
      rewrite list_lookup_insert_eq by exact Hct. cbn [block].
      split; [reflexivity|]. split.
      { apply list_lookup_insert_eq. eapply lookup_lt_Some, Hcb. }
      cbn [blk_no state]. split; [exact Hb|discriminate].
  - apply ret_Some in H3 as [-> ->]. split; [|split]; auto.
    intros p' Hp'. inversion Hp'; subst p'. split; [exact Hfst|].
    exists c, cb. auto.
Qed.


(* ------------------------------------------------------------------ *)
(** ** Lifting facts about the cache to the operations built on it *)

Lemma modify_Some f s u s' : modify f s = Some (u, s') -> s' = f s.
Proof. intros H. inversion H. reflexivity. Qed.

(** The functions that reach the context only through
    [_mfat_read_block]. *)
Section CacheClients.
Variable P : mfat_ctx_t -> Prop.
Hypothesis P_read_block :
  forall blk ct, preserves P (_mfat_read_block blk ct).

Local Hint Resolve P_read_block : pres.

Lemma preserves_next_cluster part c : preserves P (_mfat_next_cluster part c).
Proof. unfold _mfat_next_cluster. pres. Qed.

Local Hint Resolve preserves_next_cluster : pres.

Lemma preserves_cluster_pos_advance cpos part :
  preserves P (_mfat_cluster_pos_advance cpos part).
Proof. unfold _mfat_cluster_pos_advance. pres. Qed.

Local Hint Resolve preserves_cluster_pos_advance : pres.

Lemma preserves_find_file_block_step part fname dir st :
  preserves P (find_file_block_step part fname dir st).
Proof. unfold find_file_block_step. pres. Qed.

Local Hint Resolve preserves_find_file_block_step : pres.

Lemma preserves_find_file_path_step part path st :
  preserves P (find_file_path_step part path st).
Proof. unfold find_file_path_step. pres. Qed.

Local Hint Resolve preserves_find_file_path_step : pres.

Lemma preserves_find_file part_no path :
  preserves P (_mfat_find_file part_no path).
Proof. unfold _mfat_find_file. pres. Qed.

Lemma preserves_fstat_impl info : preserves P (_mfat_fstat_impl info).
Proof. unfold _mfat_fstat_impl. pres. Qed.

Local Hint Resolve preserves_find_file preserves_fstat_impl : pres.

Lemma preserves_stat_impl path : preserves P (_mfat_stat_impl path).
Proof. unfold _mfat_stat_impl. pres. Qed.

Lemma preserves_read_head part f cpos nbyte :
  preserves P (read_head part f cpos nbyte).
Proof. unfold read_head. pres. Qed.

Lemma preserves_read_body_step part nbyte st :
  preserves P (read_body_step part nbyte st).
Proof. unfold read_body_step. pres. Qed.

Lemma preserves_read_tail nbyte st : preserves P (read_tail nbyte st).
Proof. unfold read_tail. pres. Qed.

Lemma preserves_lseek_step part target bpc st :
  preserves P (lseek_step part target bpc st).
Proof. unfold lseek_step. pres. Qed.
End CacheClients.


(** All operations, for a predicate that the cache functions and the
    updates of the other fields preserve and that holds of the context
    [mfat_mount] starts from. *)
Section AllOperations.
Variable P : mfat_ctx_t -> Prop.
Hypothesis P_read_block :
  forall blk ct, preserves P (_mfat_read_block blk ct).
Hypothesis P_sync : preserves P _mfat_sync_impl.
Hypothesis P_put_file : forall fd f, preserves P (put_file fd f).
Hypothesis P_put_partition : forall i p, preserves P (put_partition i p).
Hypothesis P_tableless : preserves P _mfat_decode_tableless.
Hypothesis P_set_active : forall v s, P s -> P (set_active_partition v s).
Hypothesis P_set_initialized : forall v s, P s -> P (set_initialized v s).
Hypothesis P_mount_ctx : forall rf wf, P (mount_ctx (Some rf) (Some wf)).

Local Hint Resolve P_read_block P_sync P_put_file P_put_partition
  P_tableless : pres.
Local Hint Resolve preserves_find_file preserves_fstat_impl
  preserves_stat_impl preserves_read_head preserves_read_body_step
  preserves_read_tail preserves_lseek_step preserves_next_cluster : pres.

Lemma preserves_set_active v : preserves P (modify (set_active_partition v)).
Proof. apply preserves_modify. intros s. apply P_set_active. Qed.

Lemma preserves_set_initialized v : preserves P (modify (set_initialized v)).
Proof. apply preserves_modify. intros s. apply P_set_initialized. Qed.

Local Hint Resolve preserves_set_active preserves_set_initialized : pres.

Lemma preserves_decode_gpt_entries n i num size eb eo b :
  preserves P (decode_gpt_entries n i num size eb eo b).
Proof.
  revert i eb eo b. induction n as [|n IH]; intros i eb eo b; simpl.
  - apply preserves_ret.
  - pres.
Qed.

Local Hint Resolve preserves_decode_gpt_entries : pres.

Lemma preserves_decode_gpt : preserves P _mfat_decode_gpt.
Proof. unfold _mfat_decode_gpt. pres. Qed.

Lemma preserves_decode_mbr_entries n i buf found :
  preserves P (decode_mbr_entries n i buf found).
Proof.
  revert i found. induction n as [|n IH]; intros i found; simpl.
  - apply preserves_ret.
  - pres.
Qed.

Local Hint Resolve preserves_decode_mbr_entries : pres.

Lemma preserves_decode_mbr : preserves P _mfat_decode_mbr.
Proof. unfold _mfat_decode_mbr. pres. Qed.

Lemma preserves_decode_bpb i : preserves P (decode_bpb i).
Proof. unfold decode_bpb. pres. Qed.

Local Hint Resolve preserves_decode_bpb : pres.

Lemma preserves_decode_bpbs n i : preserves P (decode_bpbs n i).
Proof.
  revert i. induction n as [|n IH]; intros i; simpl.
  - apply preserves_ret.
  - pres.
Qed.

Local Hint Resolve preserves_decode_gpt preserves_decode_mbr
  preserves_decode_bpbs : pres.

Lemma preserves_decode_partition_tables :
  preserves P _mfat_decode_partition_tables.
Proof. unfold _mfat_decode_partition_tables. pres. Qed.

Local Hint Resolve preserves_decode_partition_tables : pres.

(** [mfat_mount] establishes the predicate whenever it gets past its
    argument check, and leaves the context alone otherwise. *)
Lemma mount_establishes r w s a s' :
  mfat_mount r w s = Some (a, s') -> P s' \/ (s' = s /\ a = -1).
Proof.
  unfold mfat_mount. intros H.
  destruct r as [rf|], w as [wf|];
    try (apply ret_Some in H as [-> ->]; right; auto).
  left. apply bind_Some in H as (u & s1 & H1 & H2).
  apply modify_Some in H1. subst s1.
  revert H2. generalize (P_mount_ctx rf wf).
  generalize (mount_ctx (Some rf) (Some wf)). intros s1 HP H2.
  revert s1 a s' HP H2. change (preserves P
    (ok <- _mfat_decode_partition_tables ;;
     if negb ok then ret (-1)
     else
       s <- get_ctx ;;
       let active :=
         snd (select_boot_partition (partition s) 0 (-1) (active_partition s)) in
       modify (set_active_partition active) ;;;
       if active <? 0 then ret (-1)
       else modify (set_initialized 1) ;;; ret 0)).
  pres.
Qed.

Lemma preserves_mount r w : preserves P (mfat_mount r w).
Proof.
  intros s a s' HP H. apply mount_establishes in H as [H|[-> _]]; assumption.
Qed.

Lemma preserves_unmount : preserves P mfat_unmount.
Proof. unfold mfat_unmount. pres. Qed.

Lemma preserves_select_partition i : preserves P (mfat_select_partition i).
Proof. unfold mfat_select_partition. pres. Qed.

Lemma preserves_sync : preserves P mfat_sync.
Proof. unfold mfat_sync. pres. Qed.

Lemma preserves_fstat fd : preserves P (mfat_fstat fd).
Proof. unfold mfat_fstat. pres. Qed.

Lemma preserves_stat path n : preserves P (mfat_stat path n).
Proof. unfold mfat_stat. pres. Qed.

Lemma preserves_open_impl path flags : preserves P (_mfat_open_impl path flags).
Proof. unfold _mfat_open_impl. pres. Qed.

Lemma preserves_close_impl f : preserves P (_mfat_close_impl f).
Proof. unfold _mfat_close_impl. pres. Qed.

Lemma preserves_read_impl fd nbyte : preserves P (_mfat_read_impl fd nbyte).
Proof. unfold _mfat_read_impl. pres. Qed.

Lemma preserves_write_impl fd buf nbyte :
  preserves P (_mfat_write_impl fd buf nbyte).
Proof. unfold _mfat_write_impl. pres. Qed.

Lemma preserves_lseek_impl fd off whence :
  preserves P (_mfat_lseek_impl fd off whence).
Proof. unfold _mfat_lseek_impl. pres. Qed.

Local Hint Resolve preserves_open_impl preserves_close_impl
  preserves_read_impl preserves_write_impl preserves_lseek_impl : pres.

Lemma preserves_open path flags : preserves P (mfat_open path flags).
Proof. unfold mfat_open. pres. Qed.

Lemma preserves_close fd : preserves P (mfat_close fd).
Proof. unfold mfat_close. pres. Qed.

Lemma preserves_read fd nbyte : preserves P (mfat_read fd nbyte).
Proof. unfold mfat_read. pres. Qed.

Lemma preserves_write fd buf nbyte : preserves P (mfat_write fd buf nbyte).
Proof. unfold mfat_write. pres. Qed.

Lemma preserves_lseek fd off whence : preserves P (mfat_lseek fd off whence).
Proof. unfold mfat_lseek. pres. Qed.

Local Hint Resolve preserves_mount preserves_unmount
  preserves_select_partition preserves_sync preserves_fstat preserves_stat
  preserves_open preserves_close preserves_read preserves_write
  preserves_lseek : pres.

Lemma preserves_run_api c : preserves P (run_api c).
Proof. destruct c; simpl; pres. Qed.

Lemma reachable_holds s : reachable s -> P s.
Proof.
  induction 1 as [s0 r w s H|s c rv s' _ IH _ H].
  - apply mount_establishes in H as [H|[_ H]]; [exact H|discriminate H].
  - eapply preserves_run_api; eauto.
Qed.
End AllOperations.


(* ------------------------------------------------------------------ *)
(** ** The cache invariant *)

Lemma sync_slot_caches_inv j i :
  preserves caches_inv
    (cb <- get_block (j, i) ;;
     if state cb =? MFAT_DIRTY then
       call_write (buf cb) (blk_no cb) ;;;
       put_block (j, i) (mk_cached_block MFAT_VALID (blk_no cb) (buf cb))
     else ret tt).
Proof.
  intros s u s' Hinv H. apply bind_Some in H as (cb & s1 & H1 & H2).
  apply get_block_Some in H1 as (-> & c & Hc & Hcb). cbn [fst snd] in *.
  destruct (Z.eqb_spec (state cb) MFAT_DIRTY) as [Hd|Hd].
  2:{ apply ret_Some in H2 as [_ ->]. exact Hinv. }
  apply bind_Some in H2 as (rv & s2 & H2 & H3).
  apply read_only_call_write in H2. subst s2.
  apply put_block_Some in H3 as (c0 & Hc0 & ->). cbn [fst snd] in *.
  rewrite Hc in Hc0. inversion Hc0; subst c0.
  assert (Hci : cache_inv c) by (destruct Hinv as [_ Hall]; eapply Hall, Hc).
  destruct Hci as (Hlen & Hperm & Hdist).
  apply caches_inv_insert; [exact Hinv|]. repeat split; cbn [block pri].
  - rewrite length_insert. exact Hlen.
  - exact Hperm.
  - apply distinct_valid_insert; [exact Hdist|].
    cbn [state blk_no]. intros _ j2 cb2 Hne Hj Hs2 Hb.
    apply Hne. eapply Hdist; eauto.
    rewrite Hd. discriminate.
Qed.

Lemma sync_impl_caches_inv : preserves caches_inv _mfat_sync_impl.
Proof.
  unfold _mfat_sync_impl.
  apply preserves_for_each. intros j.
  apply preserves_for_each. intros i.
  apply sync_slot_caches_inv.
Qed.

Lemma read_block_caches_inv blk ct :
  preserves caches_inv (_mfat_read_block blk ct).
Proof. intros s r s' Hinv H. eapply read_block_inv; eauto. Qed.

Lemma mount_ctx_caches_inv r w : caches_inv (mount_ctx r w).
Proof.
  split; [reflexivity|].
  intros ct c Hc.
  assert (c = mk_cache (replicate MFAT_NUM_CACHED_BLOCKS zero_block) iota_pri).
  { destruct ct as [|[|ct]]; cbn in Hc; inversion Hc; reflexivity. }
  subst c. split; [|split]; cbn [block pri].
  - apply length_replicate.
  - reflexivity.
  - intros i j cb1 cb2 H1 _ Hs1 _ _.
    apply lookup_replicate in H1 as [-> _]. contradiction Hs1. reflexivity.
Qed.

(** The cache invariant holds across every public operation. *)
Lemma run_api_caches_inv c : preserves caches_inv (run_api c).
Proof.
  apply preserves_run_api.
  - apply read_block_caches_inv.
  - apply sync_impl_caches_inv.
  - intros fd f. apply preserves_modify. intros s H. exact H.
  - intros i p. apply preserves_modify. intros s H. exact H.
  - apply preserves_modify. intros s H. exact H.
  - intros v s H. exact H.
  - intros v s H. exact H.
  - intros rf wf. apply mount_ctx_caches_inv.
Qed.

Lemma reachable_caches_inv s : reachable s -> caches_inv s.
Proof.
  apply reachable_holds.
  - apply read_block_caches_inv.
  - apply sync_impl_caches_inv.
  - intros fd f. apply preserves_modify. intros s0 H. exact H.
  - intros i p. apply preserves_modify. intros s0 H. exact H.
  - apply preserves_modify. intros s0 H. exact H.
  - intros v s0 H. exact H.
  - intros v s0 H. exact H.
  - intros rf wf. apply mount_ctx_caches_inv.
Qed.

(** C5. The cache invariant (in each of the two caches the array has its
    [MFAT_NUM_CACHED_BLOCKS] slots, no two slots that are not invalid
    hold the same block number, and the priority list is a permutation
    of [0 .. N-1]) holds in every state of a mounted volume, is preserved
    by every call of the public interface and by every cache lookup, and
    a slot that [_mfat_get_cached_block] returns holds the requested
    block number. *)
Theorem cache_invariant_preserved :
  (forall s, reachable s -> caches_inv s) /\
  (forall c s r s',
      caches_inv s -> run_api c s = Some (r, s') -> caches_inv s') /\
  (forall blk ct s r s',
      caches_inv s -> _mfat_get_cached_block blk ct s = Some (r, s') ->
      caches_inv s' /\
      forall p, r = Some p ->
        fst p = ct /\
        exists c cb, cache s' !! ct = Some c /\ block c !! snd p = Some cb /\
                     blk_no cb = blk) /\
  (forall blk ct s r s',
      caches_inv s -> _mfat_read_block blk ct s = Some (r, s') ->
      caches_inv s').
Proof.
  split; [exact reachable_caches_inv|].
  split; [intros c s r s' Hinv H; eapply run_api_caches_inv; eauto|].
  split.
  - intros blk ct s r s' Hinv H.
    apply get_cached_block_inv in H as (Hinv' & _ & Hslot); [|exact Hinv].
    split; [exact Hinv'|]. intros p Hp.
    destruct (Hslot p Hp) as (Hfst & c & cb & Hc & Hcb & Hb & _). eauto 10.
  - intros blk ct s r s' Hinv H. eapply read_block_caches_inv; eauto.
Qed.


Lemma hello_mounted_reachable : reachable hello_mounted.
Proof.
  apply (reachable_mount zero_ctx (Some hello_disk) (Some accept_writes)).
  vm_compute. reflexivity.
Qed.

Lemma cache_invariant_preserved_witness :
  exists r s',
    run_api (call_open (Some (text "/HELLO.TXT")) MFAT_O_RDONLY) hello_mounted
      = Some (r, s') /\
    caches_inv s'.
Proof.
  destruct (run_api (call_open (Some (text "/HELLO.TXT")) MFAT_O_RDONLY)
                    hello_mounted) as [[r s']|] eqn:E.
  - exists r, s'. split; [reflexivity|].
    exact (proj1 (proj2 cache_invariant_preserved) _ _ _ _
             (proj1 cache_invariant_preserved _ hello_mounted_reachable) E).
  - exfalso. revert E. vm_compute. discriminate.
Defined.

(* ------------------------------------------------------------------ *)
(** ** C8: a failed flush during eviction *)

(** C8, as the code behaves.  When the lookup misses, the least recently
    used slot is dirty and holds another block, and the write callback
    returns [-1] for it, [_mfat_get_cached_block] returns [NULL] and the
    slot is left as it was (still dirty, same block number and buffer);
    only the priority list has changed, the slot being moved to its
    front. *)
Theorem eviction_failure_keeps_slot blk ct s c lru cb w :
  cache s !! ct = Some c ->
  find_hit (block c) blk 0 = None ->
  pri c !! (MFAT_NUM_CACHED_BLOCKS - 1)%nat = Some lru ->
  arr_get (block c) lru = Some cb ->
  blk_no cb <> blk ->
  state cb = MFAT_DIRTY ->
  write s = Some w ->
  w (buf cb) (blk_no cb) = -1 ->
  _mfat_get_cached_block blk ct s =
    Some (None,
          set_cache (<[ct := mk_cache (block c)
                               (pri_promote lru lru (pri c))]> (cache s)) s).
Proof.
  intros Hc Hmiss Hlru Hcb Hne Hd Hw Hfail.
  unfold _mfat_get_cached_block, bind, get_cache, lift, put_cache, modify,
    call_write, ret.
  rewrite Hc, Hlru, Hmiss. cbn [block pri write set_cache]. rewrite Hcb.
  apply Z.eqb_neq in Hne. rewrite Hne. cbn [negb].
  rewrite Hd, Z.eqb_refl. cbn [write set_cache].
  rewrite Hw, Hfail. reflexivity.
Qed.

Lemma eviction_failure_keeps_slot_witness :
  exists s' c,
    _mfat_get_cached_block 5 MFAT_CACHE_DATA dirty_ctx = Some (None, s') /\
    cache s' !! MFAT_CACHE_DATA = Some c /\
    block c !! 1%nat = Some (mk_cached_block MFAT_DIRTY 9 (block_with [])) /\
    pri c = [1; 0].
Proof.
  eexists _, _. split; [|split; [|split]].
  - apply (eviction_failure_keeps_slot 5 MFAT_CACHE_DATA dirty_ctx
             (mk_cache [mk_cached_block MFAT_VALID 7 (block_with []);
                        mk_cached_block MFAT_DIRTY 9 (block_with [])] [0; 1])
             1 (mk_cached_block MFAT_DIRTY 9 (block_with [])) failing_writes);
      try reflexivity.
    cbn. lia.
  - reflexivity.
  - reflexivity.
  - reflexivity.
Defined.

(** C8 as stated fails: after the failed flush the slot is still dirty,
    not invalid. *)
Lemma eviction_failure_counterexample :
  exists s' c cb,
    _mfat_get_cached_block 5 MFAT_CACHE_DATA dirty_ctx = Some (None, s') /\
    cache s' !! MFAT_CACHE_DATA = Some c /\
    block c !! 1%nat = Some cb /\
    state cb = MFAT_DIRTY /\ state cb <> MFAT_INVALID.
Proof.
  eexists _, _, _. split; [vm_compute; reflexivity|].
  split; [reflexivity|]. split; [reflexivity|].
  split; [reflexivity|discriminate].
Qed.


(* ------------------------------------------------------------------ *)
(** ** C3: the FAT chain walker *)

(** C3. Once the FAT block of the entry is read (through the FAT
    cache), the value [v] of the entry is, for FAT32, the 32-bit value
    at the entry's offset masked with [0x0FFFFFFF] and, for FAT16, the
    16-bit word there, OR-ed with [0x0FFF0000] when the word is at
    least [0xFFF7]; [_mfat_next_cluster] fails exactly when [v] is
    [0] (free) or [0x0FFFFFF7] (BAD) and otherwise returns [v]; in
    particular every [v >= 0x0FFFFFF8] (End-of-Chain) is returned as
    success. *)
Theorem next_cluster_decodes part cluster s p s1 cb :
  _mfat_read_block (fat_block_of part cluster) MFAT_CACHE_FAT s
    = Some (Some p, s1) ->
  get_block p s1 = Some (cb, s1) ->
  let off := fat_block_offset_of part cluster in
  let v := fat_entry_value part (buf cb) off in
  (type part = MFAT_TYPE_FAT32 ->
   v = Z.land (_mfat_get_dword (buf cb) off) 0x0FFFFFFF) /\
  (type part = MFAT_TYPE_FAT16 ->
   v = if _mfat_get_word (buf cb) off >=? 0xFFF7
       then Z.lor (_mfat_get_word (buf cb) off) 0x0FFF0000
       else _mfat_get_word (buf cb) off) /\
  (_mfat_next_cluster part cluster s = Some (None, s1) <->
   v = 0x00000000 \/ v = 0x0FFFFFF7) /\
  (v <> 0x00000000 -> v <> 0x0FFFFFF7 ->
   _mfat_next_cluster part cluster s = Some (Some v, s1)) /\
  (0x0FFFFFF8 <= v -> _mfat_next_cluster part cluster s = Some (Some v, s1)).
Proof.
  intros Hread Hget off v.
  assert (Hrun : _mfat_next_cluster part cluster s =
                 Some ((if (v =? 0) || (v =? 0x0ffffff7) then None else Some v),
                       s1)).
  { unfold _mfat_next_cluster, bind. rewrite Hread, Hget.
    fold off. fold v. destruct ((v =? 0) || (v =? 0x0ffffff7)); reflexivity. }
  assert (Hok : v <> 0 -> v <> 0x0FFFFFF7 ->
                _mfat_next_cluster part cluster s = Some (Some v, s1)).
  { intros H0 H7. rewrite Hrun.
    apply Z.eqb_neq in H0, H7. rewrite H0, H7. reflexivity. }
  split; [|split; [|split; [|split]]].
  - intros Ht. unfold v, fat_entry_value. rewrite Ht. reflexivity.
  - intros Ht. unfold v, fat_entry_value. rewrite Ht. reflexivity.
  - rewrite Hrun. split.
    + intros H. destruct (Z.eqb_spec v 0) as [|H0]; [left; assumption|].
      destruct (Z.eqb_spec v 0x0ffffff7) as [|H7]; [right; assumption|].
      discriminate H.
    + intros [H|H]; rewrite H; reflexivity.
  - exact Hok.
  - intros H. apply Hok; lia.
Qed.

Lemma next_cluster_decodes_witness :
  _mfat_next_cluster hello_part 2 hello_mounted
    = Some (Some 0x0FFFFFFF, hello_fat_ctx).
Proof.
  assert (H1 : _mfat_read_block (fat_block_of hello_part 2) MFAT_CACHE_FAT
                 hello_mounted = Some (Some hello_fat_slot, hello_fat_ctx))
    by (vm_compute; reflexivity).
  assert (H2 : get_block hello_fat_slot hello_fat_ctx
               = Some (hello_fat_cb, hello_fat_ctx))
    by (vm_compute; reflexivity).
  pose proof (next_cluster_decodes hello_part 2 hello_mounted hello_fat_slot
                hello_fat_ctx hello_fat_cb H1 H2) as (_ & _ & _ & _ & H).
  change (fat_entry_value hello_part (buf hello_fat_cb)
            (fat_block_offset_of hello_part 2))
    with 0x0FFFFFFF in H.
  apply H. lia.
Defined.

(* ------------------------------------------------------------------ *)
(** ** C10: calls on a context that is not initialized *)

(** C10. When the context is not initialized, each of
    [mfat_select_partition], [mfat_open], [mfat_close], [mfat_read],
    [mfat_write], [mfat_lseek], [mfat_stat] and [mfat_fstat] returns
    [-1] and leaves the whole context as it was. *)
Theorem uninitialized_calls_fail s :
  initialized s = 0 ->
  (forall i, mfat_select_partition i s = Some (-1, s)) /\
  (forall path flags, mfat_open path flags s = Some (-1, s)) /\
  (forall fd, mfat_close fd s = Some (-1, s)) /\
  (forall fd n, exists data, mfat_read fd n s = Some ((-1, data), s)) /\
  (forall fd b n, mfat_write fd b n s = Some (-1, s)) /\
  (forall fd off whence, mfat_lseek fd off whence s = Some (-1, s)) /\
  (forall path n, exists st, mfat_stat path n s = Some ((-1, st), s)) /\
  (forall fd, exists st, mfat_fstat fd s = Some ((-1, st), s)).
Proof.
  intros Hinit.
  unfold mfat_select_partition, mfat_open, mfat_close, mfat_read, mfat_write,
    mfat_lseek, mfat_stat, mfat_fstat, bind, get_ctx.
  rewrite Hinit. cbn.
  repeat split; intros; try reflexivity; eexists; reflexivity.
Qed.

Lemma uninitialized_calls_fail_witness :
  mfat_lseek 0 0 MFAT_SEEK_SET zero_ctx = Some (-1, zero_ctx).
Proof.
  apply (uninitialized_calls_fail zero_ctx); reflexivity.
Defined.


(* ------------------------------------------------------------------ *)
(** ** The name canonicalizer *)

Lemma canon_byte_facts x :
  let b := canon_byte x in
  u8 b <> 0 /\ u8 b <> chr "." /\ u8 b <> chr "/" /\ u8 b <> chr "\" /\
  u8 b <> 0xe5 /\ b <> space /\ canon_byte b = b.
Proof. destruct x; vm_compute; repeat split; discriminate. Qed.

Lemma canon_byte_space : canon_byte space = "!"%byte.
Proof. reflexivity. Qed.

Lemma name_byte_canon b : name_byte b -> canon_byte b = bang b.
Proof.
  intros [->|[x ->]]; [reflexivity|].
  destruct (canon_byte_facts x) as (_ & _ & _ & _ & _ & Hsp & Hid).
  rewrite Hid. unfold bang.
  destruct (Byte.eqb (canon_byte x) space) eqn:E; [|reflexivity].
  apply Byte.byte_dec_bl in E. contradiction.
Qed.

Lemma name_byte_not_sep b :
  name_byte b ->
  (u8 b =? 0) || (u8 b =? chr ".") || (u8 b =? chr "/") || (u8 b =? chr "\")
  = false.
Proof.
  intros [->|[x ->]]; [reflexivity|].
  destruct (canon_byte_facts x) as (H0 & H1 & H2 & H3 & _).
  apply Z.eqb_neq in H0, H1, H2, H3. rewrite H0, H1, H2, H3. reflexivity.
Qed.

Lemma name_byte_not_e5 b : name_byte b -> u8 b <> 0xe5.
Proof.
  intros [->|[x ->]]; [discriminate|].
  apply (canon_byte_facts x).
Qed.

(** The scanning loops only append stored characters. *)
Lemma name_part_spec s pos name c pos' name' :
  name_part s pos name = (c, pos', name') ->
  Forall name_byte name ->
  Forall name_byte name' /\
  (length name <= 8 -> length name' <= 8)%nat /\
  pos < pos' /\
  (c = 0 \/ c = chr "." \/ c = chr "/" \/ c = chr "\") /\
  (c <> 0 -> pos' <= pos + Z.of_nat (length s)).
Proof.
  revert pos name. induction s as [|b rest IH]; intros pos name H Hn; simpl in H.
  - inversion H; subst. repeat split; auto; try lia; intros Hc; contradiction.
  - destruct ((u8 b =? 0) || (u8 b =? chr ".") || (u8 b =? chr "/") ||
              (u8 b =? chr "\")) eqn:E.
    + inversion H; subst. repeat split; auto; try lia.
      all: try (repeat (apply orb_true_iff in E as [E|E]);
                apply Z.eqb_eq in E; solve [auto]).
      all: intros _; simpl length; lia.
    + apply IH in H as (H1 & H2 & H3 & H4 & H5).
      * repeat split; auto; try lia.
        -- intros Hl. apply H2. destruct (length name <? 8)%nat eqn:El; [|lia].
           apply Nat.ltb_lt in El. rewrite length_app. simpl. lia.
        -- intros Hc. specialize (H5 Hc). simpl length. lia.
      * destruct (length name <? 8)%nat; [|assumption].
        apply Forall_app. split; [assumption|].
        constructor; [|constructor]. right. exists b. reflexivity.
Qed.

Lemma ext_part_spec s pos name c pos' name' :
  ext_part s pos name = (c, pos', name') ->
  Forall name_byte name ->
  Forall name_byte name' /\
  (length name <= 11 -> length name' <= 11)%nat /\
  pos < pos' /\
  (c = 0 \/ c = chr "/" \/ c = chr "\") /\
  (c <> 0 -> pos' <= pos + Z.of_nat (length s)).
Proof.
  revert pos name. induction s as [|b rest IH]; intros pos name H Hn; simpl in H.
  - inversion H; subst. repeat split; auto; try lia; intros Hc; contradiction.
  - destruct ((u8 b =? 0) || (u8 b =? chr "/") || (u8 b =? chr "\")) eqn:E.
    + inversion H; subst. repeat split; auto; try lia.
      all: try (repeat (apply orb_true_iff in E as [E|E]);
                apply Z.eqb_eq in E; solve [auto]).
      all: intros _; simpl length; lia.
    + apply IH in H as (H1 & H2 & H3 & H4 & H5).
      * repeat split; auto; try lia.
        -- intros Hl. apply H2. destruct (length name <? 11)%nat eqn:El; [|lia].
           apply Nat.ltb_lt in El. rewrite length_app. simpl. lia.
        -- intros Hc. specialize (H5 Hc). simpl length. lia.
      * destruct (length name <? 11)%nat; [|assumption].
        apply Forall_app. split; [assumption|].
        constructor; [|constructor]. right. exists b. reflexivity.
Qed.

Lemma space_fill_spec n name :
  Forall name_byte name -> (length name <= n)%nat ->
  Forall name_byte (space_fill n name) /\ length (space_fill n name) = n.
Proof.
  intros Hn Hl. unfold space_fill. split.
  - apply Forall_app. split; [assumption|].
    apply Forall_replicate. left. reflexivity.
  - rewrite length_app, length_replicate. lia.
Qed.

(** One pass yields an 11-byte canonical name and either [-1] or a
    position further into the path. *)
Lemma canonicalize_pass_spec path i j name :
  0 <= i ->
  canonicalize_pass path i = (j, name) ->
  Forall name_byte name /\ length name = 11%nat /\
  (j = -1 \/ (i < j /\ j < Z.of_nat (length path))).
Proof.
  intros Hi H. unfold canonicalize_pass in H.
  destruct (name_part (drop (Z.to_nat i) path) i []) as [[c pos] nm] eqn:E1.
  apply name_part_spec in E1 as (Hn1 & Hl1 & Hp1 & Hc1 & Hb1); [|constructor].
  specialize (Hl1 ltac:(simpl; lia)).
  destruct (space_fill_spec 8 nm Hn1 Hl1) as [Hn2 Hl2].
  cbv beta iota zeta in H.
  destruct (if c =? chr "."
            then ext_part (drop (Z.to_nat pos) path) pos (space_fill 8 nm)
            else (c, pos, space_fill 8 nm)) as [[c2 pos2] nm2] eqn:E2.
  assert (Hext : Forall name_byte nm2 /\ (length nm2 <= 11)%nat /\ pos <= pos2).
  { destruct (c =? chr ".").
    - apply ext_part_spec in E2 as (H1 & H2 & H3 & _); [|assumption].
      repeat split; auto; lia.
    - inversion E2; subst. repeat split; auto; lia. }
  destruct Hext as (Hn3 & Hl3 & Hp3).
  destruct (space_fill_spec 11 nm2 Hn3 Hl3) as [Hn4 Hl4].
  destruct (((c2 =? chr "/") || (c2 =? chr "\")) &&
            negb (byte_at path pos2 =? 0)) eqn:E3;
    inversion H; subst; repeat split; auto.
  right. split; [lia|].
  apply andb_true_iff in E3 as [_ E3].
  apply negb_true_iff, Z.eqb_neq in E3.
  unfold byte_at in E3. destruct (j <? 0); [contradiction E3; reflexivity|].
  destruct (Z_lt_le_dec j (Z.of_nat (length path))) as [|Hge]; [assumption|].
  rewrite nth_overflow in E3 by lia. contradiction E3. reflexivity.
Qed.

Lemma canonicalize_loop_total fuel path i :
  0 <= i <= Z.of_nat (length path) ->
  (Z.of_nat (length path) - i < Z.of_nat fuel) ->
  exists j name,
    canonicalize_loop fuel path i = Some (j, name) /\
    Forall name_byte name /\ length name = 11%nat /\
    (j = -1 \/ (i < j /\ j < Z.of_nat (length path))).
Proof.
  revert i. induction fuel as [|fuel IH]; intros i Hi Hf; [lia|].
  cbn [canonicalize_loop].
  destruct (canonicalize_pass path i) as [j name] eqn:E.
  apply canonicalize_pass_spec in E as (Hn & Hl & Hj); [|lia].
  destruct ((j >=? 0) && _mfat_cmpbuf name 0 blank_name 0 11) eqn:Ec.
  - apply andb_true_iff in Ec as [Ec _].
    destruct Hj as [->|[Hij Hjl]]; [discriminate Ec|].
    destruct (IH j) as (j' & name' & H1 & H2 & H3 & H4); [lia|lia|].
    exists j', name'.
    split; [exact H1|]. split; [exact H2|]. split; [exact H3|].
    destruct H4 as [->|[? ?]]; [left; reflexivity|right; lia].
  - exists j, name. auto.
Qed.

(** The canonicalizer always returns, with an 11-byte canonical name. *)
Lemma canonicalize_fname_total path :
  exists j name,
    _mfat_canonicalize_fname path = Some (j, name) /\
    Forall name_byte name /\ length name = 11%nat.
Proof.
  destruct (canonicalize_loop_total (S (length path)) path 0)
    as (j & name & H & Hn & Hl & _); [lia|lia|].
  exists j, name. auto.
Qed.


Lemma name_part_name_bytes s pos name :
  Forall name_byte s ->
  name_part s pos name =
    (0, pos + Z.of_nat (length s) + 1,
     name ++ take (8 - length name) (map bang s)).
Proof.
  revert pos name. induction s as [|b rest IH]; intros pos name Hs; simpl.
  - rewrite take_nil, app_nil_r. f_equal. f_equal. lia.
  - inversion Hs as [|? ? Hb Hrest]; subst.
    rewrite (name_byte_not_sep b Hb). rewrite IH by assumption.
    f_equal; [f_equal; lia|].
    fold (canon_byte b). rewrite (name_byte_canon b Hb).
    destruct (Nat.ltb_spec (length name) 8) as [Hlt|Hge].
    + rewrite length_app. simpl length.
      replace (8 - length name)%nat with (S (8 - (length name + 1)))%nat by lia.
      simpl. rewrite <- app_assoc. reflexivity.
    + replace (8 - length name)%nat with 0%nat by lia. reflexivity.
Qed.

(** Canonicalizing an 11-byte canonical name. *)
Lemma canonicalize_fname_name name :
  Forall name_byte name -> length name = 11%nat ->
  _mfat_canonicalize_fname name =
    Some (-1, map bang (take 8 name) ++ replicate 3 space).
Proof.
  intros Hn Hl. unfold _mfat_canonicalize_fname. rewrite Hl.
  cbn [canonicalize_loop]. unfold canonicalize_pass.
  change (drop (Z.to_nat 0) name) with name.
  rewrite name_part_name_bytes by assumption.
  cbn [app length]. rewrite Nat.sub_0_r.
  change (0 =? chr ".") with false. cbv beta iota zeta.
  change ((0 =? chr "/") || (0 =? chr "\")) with false. cbn [andb].
  change (-1 >=? 0) with false. cbn [andb].
  f_equal. f_equal. unfold space_fill.
  assert (Hlen : length (take 8 (map bang name)) = 8%nat).
  { rewrite length_take, length_map, Hl. reflexivity. }
  rewrite Hlen. cbn [Nat.sub replicate]. rewrite app_nil_r, Hlen.
  rewrite <- fmap_take. reflexivity.
Qed.

Lemma map_bang_fixed l :
  map bang l = l <-> Forall (fun b => b <> space) l.
Proof.
  induction l as [|b l IH]; cbn [map].
  - split; [constructor|reflexivity].
  - split.
    + intros H. injection H as Hb Hl. constructor.
      * intros ->. discriminate Hb.
      * apply IH, Hl.
    + intros H. inversion H as [|? ? Hb Hl]; subst. f_equal.
      * unfold bang. destruct (Byte.eqb b space) eqn:E; [|reflexivity].
        apply Byte.byte_dec_bl in E. contradiction.
      * apply IH, Hl.
Qed.

(* ------------------------------------------------------------------ *)
(** ** C9: canonicalizing twice *)

(** C9, as the code behaves.  The canonicalizer returns an 11-byte name
    for every path.  Fed that name again, it keeps the eight bytes of
    the name part, with every space replaced by ['!'], and blanks the
    extension: the name has no dot, so all of it is taken as the name
    part, and a space is not a permitted character.  Hence the result
    is reproduced exactly when the name part has no space and the
    extension is blank. *)
Theorem canonicalize_fname_twice path :
  exists idx name,
    _mfat_canonicalize_fname path = Some (idx, name) /\
    length name = 11%nat /\
    _mfat_canonicalize_fname name =
      Some (-1, map bang (take 8 name) ++ replicate 3 space) /\
    (_mfat_canonicalize_fname name = Some (-1, name) <->
     Forall (fun b => b <> space) (take 8 name) /\
     drop 8 name = replicate 3 space).
Proof.
  destruct (canonicalize_fname_total path) as (idx & name & H & Hn & Hl).
  exists idx, name. split; [exact H|]. split; [exact Hl|].
  pose proof (canonicalize_fname_name name Hn Hl) as H2.
  split; [exact H2|]. rewrite H2.
  rewrite <- map_bang_fixed.
  assert (Hsplit : name = take 8 name ++ drop 8 name)
    by (symmetry; apply take_drop).
  remember (take 8 name) as l8. remember (drop 8 name) as l3.
  rewrite Hsplit. clear.
  split.
  - intros Heq. injection Heq as Heq.
    apply app_inj_1 in Heq as [H8 H3]; [auto|].
    apply List.length_map.
  - intros [H8 H3]. rewrite H8, H3. reflexivity.
Qed.

(** C9 as stated fails: ["hello.txt"] gives ["HELLO   TXT"], and that
    gives ["HELLO!!!   "]. *)
Lemma canonicalize_fname_not_idempotent :
  _mfat_canonicalize_fname (text "hello.txt") = Some (-1, text "HELLO   TXT") /\
  _mfat_canonicalize_fname (text "HELLO   TXT") = Some (-1, text "HELLO!!!   ") /\
  text "HELLO!!!   " <> text "HELLO   TXT".
Proof. repeat split. discriminate. Qed.


(* ------------------------------------------------------------------ *)
(** ** C4: the scan of a directory block *)

Lemma cmpbuf_from_spec a ia b ib n :
  cmpbuf_from a ia b ib n = true <->
  forall k, 0 <= k < Z.of_nat n -> byte_at a (ia + k) = byte_at b (ib + k).
Proof.
  revert ia ib. induction n as [|n IH]; intros ia ib; cbn [cmpbuf_from].
  - split; [intros _ k Hk; lia|reflexivity].
  - destruct (Z.eqb_spec (byte_at a ia) (byte_at b ib)) as [Heq|Hne].
    + rewrite IH. split.
      * intros H k Hk. destruct (Z.eq_dec k 0) as [->|Hk0].
        -- rewrite !Z.add_0_r. exact Heq.
        -- replace (ia + k) with (ia + 1 + (k - 1)) by lia.
           replace (ib + k) with (ib + 1 + (k - 1)) by lia.
           apply H. lia.
      * intros H k Hk.
        replace (ia + 1 + k) with (ia + (k + 1)) by lia.
        replace (ib + 1 + k) with (ib + (k + 1)) by lia.
        apply H. lia.
    + split; [discriminate|].
      intros H. exfalso. apply Hne.
      specialize (H 0 ltac:(lia)). rewrite !Z.add_0_r in H. exact H.
Qed.

Lemma byte_at_name_byte name :
  Forall name_byte name -> length name = 11%nat ->
  byte_at name 0 <> 0xe5 /\ byte_at name 0 <> 0.
Proof.
  intros Hn Hl. destruct name as [|b rest]; [discriminate Hl|].
  inversion Hn as [|? ? Hb _]; subst. cbn.
  split; [apply name_byte_not_e5, Hb|].
  destruct Hb as [->|[x ->]]; [discriminate|apply (canon_byte_facts x)].
Qed.

Lemma scan_dir_block_found buf fname offs n e :
  scan_dir_block buf fname offs n = found_entry e ->
  byte_at buf e <> 0 /\ _mfat_cmpbuf buf e fname 0 11 = true.
Proof.
  revert offs. induction n as [|n IH]; intros offs H; cbn [scan_dir_block] in H.
  - discriminate.
  - destruct (Z.eqb_spec (byte_at buf offs) 0); [discriminate|].
    destruct (_mfat_cmpbuf buf offs fname 0 11) eqn:E.
    + inversion H; subst. auto.
    + eapply IH, H.
Qed.

(** C4 as stated fails for long-name entries: the first entry of
    [lfn_root] has the attribute byte [0x0F], and the lookup of
    ["/AAAAAAAA.AAA"] returns it as the match. *)
Lemma dir_scan_long_name_counterexample :
  byte_at lfn_root 11 = MFAT_ATTR_LONG_NAME /\
  _mfat_canonicalize_fname (text "/AAAAAAAA.AAA")
    = Some (-1, text "AAAAAAAAAAA") /\
  scan_dir_block lfn_root (text "AAAAAAAAAAA") 0 16 = found_entry 0 /\
  exists info s',
    _mfat_find_file 0 (text "/AAAAAAAA.AAA") lfn_mounted
      = Some (Some (info, 0, 1), s') /\
    dir_entry_block info = 21 /\ dir_entry_offset info = 0.
Proof.
  split; [reflexivity|]. split; [reflexivity|]. split; [reflexivity|].
  destruct (_mfat_find_file 0 (text "/AAAAAAAA.AAA") lfn_mounted)
    as [[[[[info d] e]|] s']|] eqn:E.
  - exists info, s'.
    assert (H : d = 0 /\ e = 1 /\ dir_entry_block info = 21 /\
                dir_entry_offset info = 0).
    { revert E. vm_compute. intros E. inversion E. auto. }
    destruct H as (-> & -> & H1 & H2). auto.
  - exfalso. revert E. vm_compute. discriminate.
  - exfalso. revert E. vm_compute. discriminate.
Qed.


(* ------------------------------------------------------------------ *)
(** ** Frame properties of the cache functions *)

Lemma get_cached_block_frame blk ct s r s' :
  _mfat_get_cached_block blk ct s = Some (r, s') -> same_but_caches s s'.
Proof.
  intros H. apply get_cached_block_cases in H
    as (c & item & cb & _ & _ & _ & Hcases). cbn zeta in Hcases.
  destruct Hcases as [(_ & _ & ->)|[(_ & _ & _ & _ & ->)|(_ & _ & _ & ->)]];
    apply same_but_caches_set_cache.
Qed.

Lemma read_block_frame blk ct s r s' :
  _mfat_read_block blk ct s = Some (r, s') -> same_but_caches s s'.
Proof.
  unfold _mfat_read_block. intros H.
  apply bind_Some in H as (r1 & s1 & H1 & H2).
  apply get_cached_block_frame in H1.
  destruct r1 as [p|]; cbn beta iota in H2.
  2:{ apply ret_Some in H2 as [_ ->]. exact H1. }
  apply bind_Some in H2 as (cb & s2 & H2 & H3).
  apply read_only_get_block in H2. subst s2.
  destruct (state cb =? MFAT_INVALID).
  2:{ apply ret_Some in H3 as [_ ->]. exact H1. }
  apply bind_Some in H3 as (rd & s2 & H3 & H4).
  apply read_only_call_read in H3. subst s2.
  destruct rd as [data|]; cbn beta iota in H4.
  2:{ apply ret_Some in H4 as [_ ->]. exact H1. }
  apply bind_Some in H4 as (u & s3 & H4 & H5).
  apply ret_Some in H5 as [_ ->].
  apply put_block_Some in H4 as (c & _ & ->).
  eapply same_but_caches_trans; [exact H1|apply same_but_caches_set_cache].
Qed.

(** A predicate on the fields other than the caches is preserved by
    [_mfat_read_block]. *)
Lemma read_block_preserves_frame (P : mfat_ctx_t -> Prop) :
  (forall s s', same_but_caches s s' -> P s -> P s') ->
  forall blk ct, preserves P (_mfat_read_block blk ct).
Proof.
  intros HP blk ct s r s' Hs H. eapply HP; [|exact Hs].
  eapply read_block_frame, H.
Qed.

(* ------------------------------------------------------------------ *)
(** ** C6: the partition selected by [mfat_mount] *)

Lemma first_index_ge f parts i j :
  first_index f parts i = Some j -> i <= j.
Proof.
  revert i. induction parts as [|p rest IH]; intros i H; simpl in H.
  - discriminate.
  - destruct (f p); [inversion H; lia|]. apply IH in H. lia.
Qed.

(** What [first_index] finds: the lowest index that satisfies [f]. *)
Lemma first_index_spec f parts j :
  first_index f parts 0 = Some j <->
  0 <= j /\
  (exists p, parts !! Z.to_nat j = Some p /\ f p = true) /\
  (forall k p, (k < Z.to_nat j)%nat -> parts !! k = Some p -> f p = false).
Proof.
  assert (G : forall i, first_index f parts i = Some j <->
    i <= j /\
    (exists p, parts !! Z.to_nat (j - i) = Some p /\ f p = true) /\
    (forall k p, (k < Z.to_nat (j - i))%nat -> parts !! k = Some p ->
                 f p = false)).
  { induction parts as [|p rest IH]; intros i; simpl.
    - split; [discriminate|]. intros (_ & (q & Hq & _) & _).
      rewrite lookup_nil in Hq. discriminate.
    - destruct (f p) eqn:E.
      + split.
        * intros H. inversion H; subst. split; [lia|].
          replace (j - j) with 0 by lia. split; [exists p; auto|].
          intros k q Hk. simpl in Hk. lia.
        * intros (Hle & (q & Hq & Hfq) & Hmin).
          destruct (Z.eq_dec i j) as [->|Hne]; [reflexivity|exfalso].
          specialize (Hmin 0%nat p ltac:(lia) eq_refl). congruence.
      + rewrite IH. split.
        * intros (Hle & (q & Hq & Hfq) & Hmin). split; [lia|].
          replace (Z.to_nat (j - i)) with (S (Z.to_nat (j - (i + 1)))) by lia.
          split; [exists q; auto|].
          intros [|k] q' Hk Hq'; simpl in Hq'.
          -- inversion Hq'; subst. exact E.
          -- eapply Hmin; [|exact Hq']. lia.
        * intros (Hle & (q & Hq & Hfq) & Hmin).
          assert (i < j).
          { destruct (Z.eq_dec i j) as [->|]; [|lia].
            replace (j - j) with 0 in Hq by lia. simpl in Hq.
            inversion Hq; subst. congruence. }
          split; [lia|].
          replace (Z.to_nat (j - i)) with (S (Z.to_nat (j - (i + 1)))) in *
            by lia.
          split; [exists q; auto|].
          intros k q' Hk Hq'. apply (Hmin (S k) q'); [lia|exact Hq']. }
  rewrite G. replace (j - 0) with j by lia. reflexivity.
Qed.

Lemma select_boot_partition_found parts i fb act :
  0 <= fb -> 0 <= act ->
  select_boot_partition parts i fb act = (fb, act).
Proof.
  revert i. induction parts as [|p rest IH]; intros i Hfb Hact; simpl.
  - reflexivity.
  - destruct (Z.ltb_spec fb 0); [lia|]. destruct (Z.ltb_spec act 0); [lia|].
    rewrite andb_false_r.
    destruct (negb (type p =? MFAT_TYPE_UNKNOWN)); apply IH; assumption.
Qed.

Lemma select_boot_partition_fat_seen parts i act :
  0 <= i -> 0 <= act ->
  snd (select_boot_partition parts i (-1) act) =
  match first_index is_bootable_fat parts i with
  | Some j => j
  | None => act
  end.
Proof.
  revert i. induction parts as [|p rest IH]; intros i Hi Hact; simpl.
  - reflexivity.
  - unfold is_bootable_fat, is_fat.
    destruct (negb (type p =? MFAT_TYPE_UNKNOWN)); cbn [andb].
    + destruct (negb (boot p =? 0)); cbn [andb].
      * rewrite select_boot_partition_found by lia. reflexivity.
      * destruct (Z.ltb_spec act 0); [lia|]. apply IH; lia.
    + apply IH; lia.
Qed.

Lemma select_boot_partition_spec parts i :
  0 <= i ->
  snd (select_boot_partition parts i (-1) (-1)) =
  match first_index is_bootable_fat parts i with
  | Some j => j
  | None => match first_index is_fat parts i with
            | Some j => j
            | None => -1
            end
  end.
Proof.
  revert i. induction parts as [|p rest IH]; intros i Hi; simpl.
  - reflexivity.
  - unfold is_bootable_fat, is_fat.
    destruct (negb (type p =? MFAT_TYPE_UNKNOWN)); cbn [andb].
    + destruct (negb (boot p =? 0)); cbn [andb].
      * rewrite select_boot_partition_found by lia. reflexivity.
      * apply select_boot_partition_fat_seen; lia.
    + apply IH; lia.
Qed.


Lemma decode_partition_tables_active s ok s' :
  _mfat_decode_partition_tables s = Some (ok, s') ->
  active_partition s' = active_partition s.
Proof.
  intros H.
  apply (preserves_decode_partition_tables
           (fun x => active_partition x = active_partition s)) in H;
    [exact H| | | |reflexivity].
  - apply read_block_preserves_frame.
    intros a b (_ & Hact & _) Ha. congruence.
  - intros i p. apply preserves_modify. intros x Hx. exact Hx.
  - apply preserves_modify. intros x Hx. exact Hx.
Qed.

(** The outcome of [mfat_mount], case by case. *)
Lemma mount_cases r w s ret s' :
  mfat_mount r w s = Some (ret, s') ->
  (ret = -1 /\ s' = s) \/
  (exists s2,
      ret = -1 /\
      _mfat_decode_partition_tables (mount_ctx r w) = Some (false, s2) /\
      s' = s2) \/
  (exists s2,
      _mfat_decode_partition_tables (mount_ctx r w) = Some (true, s2) /\
      let active :=
        snd (select_boot_partition (partition s2) 0 (-1) (-1)) in
      (active < 0 /\ ret = -1 /\ s' = set_active_partition active s2) \/
      (0 <= active /\ ret = 0 /\
       s' = set_initialized 1 (set_active_partition active s2))).
Proof.
  unfold mfat_mount. intros H.
  destruct r as [rf|], w as [wf|];
    try (apply ret_Some in H as [-> ->]; left; auto).
  right. apply bind_Some in H as (u & s1 & H1 & H).
  apply modify_Some in H1. subst s1.
  apply bind_Some in H as (ok & s2 & Hdec & H).
  pose proof (decode_partition_tables_active _ _ _ Hdec) as Hact.
  cbn [active_partition mount_ctx] in Hact.
  destruct ok; cbn [negb] in H.
  2:{ apply ret_Some in H as [-> ->]. left. exists s2. auto. }
  right. exists s2. split; [exact Hdec|]. cbn zeta.
  apply bind_Some in H as (x & s3 & H3 & H).
  apply read_only_get_ctx in H3 as Hs3. subst s3.
  inversion H3; subst x. clear H3. rewrite Hact in H.
  apply bind_Some in H as (u2 & s4 & H4 & H).
  apply modify_Some in H4. subst s4.
  destruct (Z.ltb_spec (snd (select_boot_partition (partition s2) 0 (-1) (-1))) 0)
    as [Hneg|Hpos].
  - apply ret_Some in H as [-> ->]. left. auto.
  - apply bind_Some in H as (u3 & s5 & H5 & H).
    apply modify_Some in H5. subst s5.
    apply ret_Some in H as [-> ->]. right. auto.
Qed.

(** C6. After a successful mount the active partition is the first
    partition that is bootable and of a supported FAT type; if there is
    none, it is the first partition of a supported FAT type; and if no
    partition is of a supported FAT type, [mfat_mount] returns [-1]. *)
Theorem mount_selects_partition r w s ret s' :
  mfat_mount r w s = Some (ret, s') ->
  (ret = 0 ->
   forall i, first_index is_bootable_fat (partition s') 0 = Some i ->
             active_partition s' = i) /\
  (ret = 0 ->
   first_index is_bootable_fat (partition s') 0 = None ->
   forall i, first_index is_fat (partition s') 0 = Some i ->
             active_partition s' = i) /\
  (first_index is_fat (partition s') 0 = None -> ret = -1).
Proof.
  intros H. apply mount_cases in H.
  destruct H as [[-> ->]|[(s2 & -> & _ & ->)|(s2 & Hdec & H)]].
  - repeat split; try discriminate; auto.
  - repeat split; try discriminate; auto.
  - cbn zeta in H.
    rewrite select_boot_partition_spec in H by lia.
    destruct H as [(Hneg & -> & ->)|(Hpos & -> & ->)];
      cbn [partition active_partition set_active_partition set_initialized].
    + repeat split; try discriminate; auto.
    + split; [|split].
      * intros _ i Hi. rewrite Hi. reflexivity.
      * intros _ Hnb i Hi. rewrite Hnb, Hi. reflexivity.
      * intros Hnf. exfalso.
        destruct (first_index is_bootable_fat (partition s2) 0) as [j|] eqn:Ej.
        -- assert (Hfat : exists k, first_index is_fat (partition s2) 0 = Some k).
           { clear - Ej. revert Ej. generalize 0.
             induction (partition s2) as [|p rest IH]; intros z Ej; simpl in *.
             - discriminate.
             - unfold is_bootable_fat in Ej.
               destruct (is_fat p); [eauto|]. cbn [andb] in Ej. eauto. }
           destruct Hfat as [k Hk]. congruence.
        -- rewrite Hnf in Hpos. lia.
Qed.

Lemma mount_selects_partition_witness :
  active_partition hello_mounted = 0.
Proof.
  assert (H : mfat_mount (Some hello_disk) (Some accept_writes) zero_ctx
              = Some (0, hello_mounted)) by (vm_compute; reflexivity).
  destruct (mount_selects_partition _ _ _ _ _ H) as (_ & Hsel & _).
  apply Hsel; reflexivity.
Defined.


(* ------------------------------------------------------------------ *)
(** ** Loop rules *)

Lemma loop_pow2_inv {S R} (body : S -> M (S + R))
    (I : S -> mfat_ctx_t -> Prop) (Q : R -> mfat_ctx_t -> Prop) :
  (forall st s x s', I st s -> body st s = Some (x, s') ->
                     match x with inl st' => I st' s' | inr r => Q r s' end) ->
  forall k st s x s', I st s -> loop_pow2 k body st s = Some (x, s') ->
                      match x with inl st' => I st' s' | inr r => Q r s' end.
Proof.
  intros Hbody. induction k as [|k IH]; intros st s x s' HI H; simpl in H.
  - eapply Hbody; eauto.
  - apply bind_Some in H as (x1 & s1 & H1 & H2).
    pose proof (IH _ _ _ _ HI H1) as Hx1. destruct x1 as [st1|r1].
    + eapply IH; eauto.
    + apply ret_Some in H2 as [-> ->]. exact Hx1.
Qed.

Lemma loop_upto_inv {S R} k (body : S -> M (S + R))
    (I : S -> mfat_ctx_t -> Prop) (Q : R -> mfat_ctx_t -> Prop) :
  (forall st s x s', I st s -> body st s = Some (x, s') ->
                     match x with inl st' => I st' s' | inr r => Q r s' end) ->
  forall st s r s', I st s -> loop_upto k body st s = Some (r, s') -> Q r s'.
Proof.
  intros Hbody st s r s' HI H. unfold loop_upto in H.
  apply bind_Some in H as (x & s1 & H1 & H2).
  pose proof (loop_pow2_inv body I Q Hbody _ _ _ _ _ HI H1) as Hx.
  destruct x as [st1|r1]; [discriminate H2|].
  apply ret_Some in H2 as [-> ->]. exact Hx.
Qed.

Lemma while_loop_inv {S R} (body : S -> M (S + R))
    (I : S -> mfat_ctx_t -> Prop) (Q : R -> mfat_ctx_t -> Prop) :
  (forall st s x s', I st s -> body st s = Some (x, s') ->
                     match x with inl st' => I st' s' | inr r => Q r s' end) ->
  forall st s r s', I st s -> while_loop body st s = Some (r, s') -> Q r s'.
Proof. apply loop_upto_inv. Qed.


(* ------------------------------------------------------------------ *)
(** ** C7: [read] and the file-descriptor state *)

Lemma u32_range x : 0 <= u32 x < 2 ^ 32.
Proof. unfold u32. apply Z.mod_pos_bound. reflexivity. Qed.

Lemma u32_small x : 0 <= x < 2 ^ 32 -> u32 x = x.
Proof. unfold u32. apply Z.mod_small. Qed.

Lemma get_ctx_Some s x s' : get_ctx s = Some (x, s') -> x = s /\ s' = s.
Proof. intros H. inversion H. auto. Qed.

Lemma get_file_at_Some fd s f s' :
  get_file_at fd s = Some (f, s') -> s' = s /\ arr_get (file s) fd = Some f.
Proof.
  unfold get_file_at. destruct (arr_get (file s) fd) eqn:E; [|discriminate].
  intros H. inversion H; subst. auto.
Qed.

Lemma get_partition_Some i s p s' :
  get_partition i s = Some (p, s') ->
  s' = s /\ arr_get (partition s) i = Some p.
Proof.
  unfold get_partition. destruct (arr_get (partition s) i) eqn:E; [|discriminate].
  intros H. inversion H; subst. auto.
Qed.

(** The phases of [_mfat_read_impl] change nothing but the caches, and
    count the bytes read within 32 bits. *)
Lemma read_head_frame part f cpos nbyte s h s' :
  0 <= nbyte < 2 ^ 32 ->
  read_head part f cpos nbyte s = Some (h, s') ->
  same_but_caches s s' /\
  forall st, h = Some st -> 0 <= snd (fst st) < 2 ^ 32.
Proof.
  intros Hn H. split.
  - apply (preserves_read_head (same_but_caches s)) in H;
      [exact H| |apply same_but_caches_refl].
    apply read_block_preserves_frame.
    intros a b Hab Ha. eapply same_but_caches_trans; eauto.
  - unfold read_head in H.
    destruct (negb (offset f mod MFAT_BLOCK_SIZE =? 0)).
    2:{ apply ret_Some in H as [-> _]. intros st Hst. inversion Hst. cbn. lia. }
    apply bind_Some in H as (b & s1 & _ & H).
    destruct b as [p|]; cbn beta iota in H.
    2:{ apply ret_Some in H as [-> _]. discriminate. }
    apply bind_Some in H as (cb & s2 & _ & H).
    assert (Hmin : 0 <= _mfat_min
                     (sub32 MFAT_BLOCK_SIZE (offset f mod MFAT_BLOCK_SIZE)) nbyte
                   < 2 ^ 32).
    { unfold _mfat_min.
      pose proof (u32_range (MFAT_BLOCK_SIZE - offset f mod MFAT_BLOCK_SIZE)).
      unfold sub32. destruct (_ <? _); lia. }
    destruct (_ =? _).
    + apply bind_Some in H as (a & s3 & _ & H).
      destruct a; apply ret_Some in H as [-> _]; [|discriminate].
      intros st Hst. inversion Hst. exact Hmin.
    + apply ret_Some in H as [-> _].
      intros st Hst. inversion Hst. exact Hmin.
Qed.

Lemma read_body_frame part nbyte st s b s' :
  0 <= snd (fst st) < 2 ^ 32 ->
  while_loop (read_body_step part nbyte) st s = Some (b, s') ->
  same_but_caches s s' /\
  forall st', b = Some st' -> 0 <= snd (fst st') < 2 ^ 32.
Proof.
  intros Hst H.
  apply (while_loop_inv (read_body_step part nbyte)
           (fun st x => same_but_caches s x /\ 0 <= snd (fst st) < 2 ^ 32)
           (fun b x => same_but_caches s x /\
                       forall st', b = Some st' -> 0 <= snd (fst st') < 2 ^ 32))
    in H; [exact H| |split; [apply same_but_caches_refl|exact Hst]].
  clear. intros [[cpos br] data] s1 x s2 [Hs Hr] H.
  assert (Hf : same_but_caches s s2).
  { apply (preserves_read_body_step (same_but_caches s)) in H;
      [exact H| |exact Hs].
    apply read_block_preserves_frame.
    intros a b Hab Ha. eapply same_but_caches_trans; eauto. }
  unfold read_body_step in H.
  destruct (negb (sub32 nbyte br >=? MFAT_BLOCK_SIZE)).
  { apply ret_Some in H as [-> _]. split; [exact Hf|].
    intros st' Hst'. inversion Hst'. exact Hr. }
  destruct (_mfat_is_eoc (cluster_no cpos)).
  { apply ret_Some in H as [-> _]. split; [exact Hf|]. discriminate. }
  apply bind_Some in H as (r & s3 & _ & H).
  destruct r as [blk|]; cbn beta iota in H.
  2:{ apply ret_Some in H as [-> _]. split; [exact Hf|]. discriminate. }
  apply bind_Some in H as (a & s4 & _ & H).
  destruct a as [cpos'|]; apply ret_Some in H as [-> _].
  - split; [exact Hf|]. cbn. apply u32_range.
  - split; [exact Hf|]. discriminate.
Qed.

Lemma read_tail_frame nbyte st s t s' :
  0 <= snd (fst st) < 2 ^ 32 ->
  read_tail nbyte st s = Some (t, s') ->
  same_but_caches s s' /\
  forall st', t = Some st' -> 0 <= snd (fst st') < 2 ^ 32.
Proof.
  intros Hst H. split.
  - apply (preserves_read_tail (same_but_caches s)) in H;
      [exact H| |apply same_but_caches_refl].
    apply read_block_preserves_frame.
    intros a b Hab Ha. eapply same_but_caches_trans; eauto.
  - destruct st as [[cpos br] data]. unfold read_tail in H.
    destruct (br <? nbyte).
    2:{ apply ret_Some in H as [-> _]. intros st' Hst'. inversion Hst'. exact Hst. }
    destruct (_mfat_is_eoc (cluster_no cpos)).
    { apply ret_Some in H as [-> _]. discriminate. }
    apply bind_Some in H as (b & s1 & _ & H).
    destruct b as [p|]; cbn beta iota in H.
    2:{ apply ret_Some in H as [-> _]. discriminate. }
    apply bind_Some in H as (cb & s2 & _ & H).
    apply ret_Some in H as [-> _].
    intros st' Hst'. inversion Hst'. cbn. apply u32_range.
Qed.

(** The outcomes of [_mfat_read_impl]. *)
Lemma read_impl_cases fd nbyte s r data s' :
  0 <= nbyte < 2 ^ 32 ->
  _mfat_read_impl fd nbyte s = Some ((r, data), s') ->
  exists f,
    arr_get (file s) fd = Some f /\
    ((r = -1 /\ same_but_caches s s') \/
     (r = 0 /\ s' = s) \/
     (exists s3 c,
        same_but_caches s s3 /\ 0 <= r < 2 ^ 32 /\
        s' = set_file (<[Z.to_nat fd :=
                          mk_file (open f) (oflag f) (add32 (offset f) r) c
                                  (info f)]> (file s3)) s3)).
Proof.
  intros Hn H. unfold _mfat_read_impl in H.
  apply bind_Some in H as (f & s0 & Hf & H).
  apply get_file_at_Some in Hf as [-> Hf]. exists f. split; [exact Hf|].
  destruct (Z.land (oflag f) MFAT_O_RDONLY =? 0).
  { apply ret_Some in H as [H ->]. inversion H.
    left. split; [reflexivity|apply same_but_caches_refl]. }
  set (n := if nbyte >? sub32 (size (info f)) (offset f)
            then sub32 (size (info f)) (offset f) else nbyte) in H.
  assert (Hn' : 0 <= n < 2 ^ 32).
  { unfold n. destruct (_ >? _); [apply u32_range|exact Hn]. }
  destruct (n =? 0).
  { apply ret_Some in H as [H ->]. inversion H. right. left. auto. }
  apply bind_Some in H as (part & s1 & Hp & H).
  apply get_partition_Some in Hp as [-> Hp].
  apply bind_Some in H as (cpos & s1 & Hc & H).
  apply lift_Some in Hc as [Hc ->].
  apply bind_Some in H as (h & s1 & Hh & H).
  apply read_head_frame in Hh as [Hf1 Hr1]; [|exact Hn'].
  destruct h as [st1|]; cbn beta iota in H.
  2:{ apply ret_Some in H as [H ->]. inversion H. left. auto. }
  apply bind_Some in H as (b & s2 & Hb & H).
  apply read_body_frame in Hb as [Hf2 Hr2]; [|apply Hr1; reflexivity].
  destruct b as [st2|]; cbn beta iota in H.
  2:{ apply ret_Some in H as [H ->]. inversion H. left. split; [reflexivity|].
      eapply same_but_caches_trans; eauto. }
  apply bind_Some in H as (t & s3 & Ht & H).
  apply read_tail_frame in Ht as [Hf3 Hr3]; [|apply Hr2; reflexivity].
  assert (Hf13 : same_but_caches s s3).
  { eapply same_but_caches_trans; [|exact Hf3].
    eapply same_but_caches_trans; eauto. }
  destruct t as [[[cpos3 br3] data3]|]; cbn beta iota in H.
  2:{ apply ret_Some in H as [H ->]. inversion H. left. auto. }
  apply bind_Some in H as (u & s4 & Hput & H).
  apply modify_Some in Hput. subst s4.
  apply ret_Some in H as [H ->]. inversion H; subst r data.
  right. right. exists s3, (cluster_no cpos3).
  split; [exact Hf13|]. split; [|reflexivity].
  apply (Hr3 _ eq_refl).
Qed.

(** C7. [mfat_read] either fails, and then leaves the file-descriptor
    table (every offset and current cluster) exactly as it was, or
    succeeds, and then the table is as before except that the
    descriptor read from has its offset advanced by the number of bytes
    returned and its current cluster set, both in the one update that
    ends the operation (a read of zero bytes changes nothing). *)
Theorem read_is_atomic fd nbyte s r data s' :
  0 <= nbyte < 2 ^ 32 ->
  mfat_read fd nbyte s = Some ((r, data), s') ->
  (r = -1 -> file s' = file s) /\
  (r <> -1 ->
   0 <= r /\
   exists f,
     arr_get (file s) fd = Some f /\
     ((r = 0 /\ file s' = file s) \/
      exists c,
        file s' = <[Z.to_nat fd :=
                     mk_file (open f) (oflag f) (add32 (offset f) r) c (info f)]>
                    (file s))).
Proof.
  intros Hn H. unfold mfat_read in H.
  apply bind_Some in H as (x & s0 & Hx & H).
  apply get_ctx_Some in Hx as [-> ->].
  destruct (initialized s =? 0).
  { apply ret_Some in H as [H ->]. inversion H.
    split; [reflexivity|contradiction]. }
  apply bind_Some in H as (g & s0 & Hg & H).
  pose proof (read_only_get_file _ _ _ _ Hg) as ->.
  destruct g as [fd'|]; cbn beta iota in H.
  2:{ apply ret_Some in H as [H ->]. inversion H.
      split; [reflexivity|contradiction]. }
  assert (fd' = fd).
  { unfold _mfat_get_file in Hg. destruct (_ || _).
    - apply ret_Some in Hg as [Hg _]. discriminate.
    - apply bind_Some in Hg as (f0 & s0 & _ & Hg).
      destruct (open f0 =? 0); apply ret_Some in Hg as [Hg _];
        inversion Hg; reflexivity. }
  subst fd'.
  apply read_impl_cases in H as (f & Hf & Hcases); [|exact Hn].
  destruct Hcases as [[-> Hs]|[[-> ->]|(s3 & c & Hs & Hr & ->)]].
  - split; [intros _; apply Hs|contradiction].
  - split; [discriminate|]. intros _. split; [lia|]. exists f. auto.
  - split; [lia|]. intros _. split; [lia|]. exists f. split; [exact Hf|].
    right. exists c. cbn [file set_file].
    destruct Hs as (_ & _ & _ & _ & _ & ->). reflexivity.
Qed.


Lemma read_is_atomic_witness :
  exists data s',
    mfat_read 0 100 broken_opened = Some ((-1, data), s') /\
    file s' = file broken_opened.
Proof.
  destruct (mfat_read 0 100 broken_opened) as [[[r data] s']|] eqn:E.
  - assert (Hr : r = -1).
    { revert E. vm_compute. intros E. inversion E. reflexivity. }
    subst r. exists data, s'. split; [reflexivity|].
    apply (read_is_atomic 0 100 broken_opened (-1) data s'); [lia|exact E|].
    reflexivity.
  - exfalso. revert E. vm_compute. discriminate.
Defined.


(* ------------------------------------------------------------------ *)
(** ** Cache coherence *)

Lemma coherent_set_cache s ct c c' :
  coherent s -> cache s !! ct = Some c ->
  (forall dev i cb, read s = Some dev -> block c' !! i = Some cb ->
                    state cb <> MFAT_INVALID -> dev (blk_no cb) = Some (buf cb)) ->
  coherent (set_cache (<[ct := c']> (cache s)) s).
Proof.
  intros Hcoh Hc Hnew dev ct' c0 i cb Hdev Hc0 Hcb Hs. cbn in Hdev, Hc0.
  destruct (decide (ct = ct')) as [<-|Hne].
  - rewrite list_lookup_insert_eq in Hc0 by (eapply lookup_lt_Some; eauto).
    inversion Hc0; subst c0. eapply Hnew; eauto.
  - rewrite list_lookup_insert_ne in Hc0 by auto. eapply Hcoh; eauto.
Qed.

Lemma coherent_insert_block s ct c i0 cb0 pri' :
  coherent s -> cache s !! ct = Some c ->
  (state cb0 <> MFAT_INVALID ->
   forall dev, read s = Some dev -> dev (blk_no cb0) = Some (buf cb0)) ->
  coherent (set_cache (<[ct := mk_cache (<[i0 := cb0]> (block c)) pri']>
                         (cache s)) s).
Proof.
  intros Hcoh Hc Hnew. eapply coherent_set_cache; eauto.
  intros dev i cb Hdev Hcb Hs. cbn [block] in Hcb.
  destruct (decide (i = i0)) as [->|Hne].
  - assert (i0 < length (block c))%nat.
    { apply lookup_lt_Some in Hcb. rewrite length_insert in Hcb. exact Hcb. }
    rewrite list_lookup_insert_eq in Hcb by assumption.
    inversion Hcb; subst cb. auto.
  - rewrite list_lookup_insert_ne in Hcb by auto. eapply Hcoh; eauto.
Qed.

Lemma get_cached_block_coherent blk ct s r s' :
  coherent s ->
  _mfat_get_cached_block blk ct s = Some (r, s') ->
  coherent s' /\
  forall p, r = Some p ->
    fst p = ct /\
    exists c cb, cache s' !! ct = Some c /\ block c !! snd p = Some cb /\
                 blk_no cb = blk.
Proof.
  intros Hcoh H. apply get_cached_block_cases in H
    as (c & item & cb & Hc & _ & Hcb & Hcases). cbn zeta in Hcases.
  apply arr_get_lookup in Hcb as [Hcb _].
  assert (Hct : (ct < length (cache s))%nat) by (eapply lookup_lt_Some; eauto).
  assert (Hpri : forall pri', coherent
            (set_cache (<[ct := mk_cache (block c) pri']> (cache s)) s)).
  { intros pri'. eapply coherent_set_cache; eauto;
      intros dev i cb0 Hdev Hcb0 Hs; eapply Hcoh; eauto. }
  destruct Hcases as [(Hb & -> & ->)|[(_ & _ & _ & -> & ->)|(_ & _ & -> & ->)]].
  - split; [apply Hpri|]. intros p Hp. inversion Hp; subst p.
    split; [reflexivity|]. eexists _, cb. cbn [cache set_cache fst snd].
    rewrite list_lookup_insert_eq by exact Hct. auto.
  - split; [apply Hpri|]. discriminate.
  - split.
    + eapply coherent_insert_block; eauto. cbn. intros Hs. contradiction.
    + intros p Hp. inversion Hp; subst p. split; [reflexivity|].
      eexists _, _. cbn [cache set_cache fst snd].
      rewrite list_lookup_insert_eq by exact Hct. cbn [block].
      split; [reflexivity|]. split.
      * apply list_lookup_insert_eq. eapply lookup_lt_Some, Hcb.
      * reflexivity.
Qed.

(** [_mfat_read_block] keeps the caches coherent, and the block it
    returns holds the contents of [blk] on the device. *)
Lemma read_block_coherent blk ct s r s' :
  coherent s ->
  _mfat_read_block blk ct s = Some (r, s') ->
  coherent s' /\
  forall p, r = Some p ->
    exists cb, get_block p s' = Some (cb, s') /\
               forall dev, read s = Some dev -> dev blk = Some (buf cb).
Proof.
  intros Hcoh H. pose proof (read_block_frame _ _ _ _ _ H) as Hframe.
  unfold _mfat_read_block in H.
  apply bind_Some in H as (r1 & s1 & H1 & H2).
  pose proof (get_cached_block_frame _ _ _ _ _ H1) as Hframe1.
  apply get_cached_block_coherent in H1 as (Hcoh1 & Hslot); [|exact Hcoh].
  destruct r1 as [p|]; cbn beta iota in H2.
  2:{ apply ret_Some in H2 as [-> ->]. split; [exact Hcoh1|discriminate]. }
  destruct (Hslot p eq_refl) as (Hfst & c & cb & Hc & Hcb & Hb).
  apply bind_Some in H2 as (cb0 & s2 & H2 & H3).
  pose proof H2 as Hget.
  apply get_block_Some in H2 as (-> & c0 & Hc0 & Hcb0).
  rewrite Hfst, Hc in Hc0. inversion Hc0; subst c0.
  rewrite Hcb in Hcb0. inversion Hcb0; subst cb0.
  assert (Hrd : read s1 = read s) by apply Hframe1.
  destruct (Z.eqb_spec (state cb) MFAT_INVALID) as [Hs|Hs].
  - apply bind_Some in H3 as (rd & s2 & H3 & H4).
    unfold call_read in H3. destruct (read s1) as [dev|] eqn:Hdev; [|discriminate].
    inversion H3; subst rd s2. clear H3.
    destruct (dev blk) as [data|] eqn:Hdata; cbn beta iota in H4.
    2:{ apply ret_Some in H4 as [-> ->]. split; [exact Hcoh1|discriminate]. }
    apply bind_Some in H4 as (u & s3 & H4 & H5).
    apply ret_Some in H5 as [-> ->].
    unfold put_block, bind, get_cache in H4. rewrite Hfst, Hc in H4.
    apply modify_Some in H4. subst s3. split.
    + eapply coherent_insert_block; eauto. cbn [state blk_no buf].
      intros _ dev' Hdev'. rewrite Hdev in Hdev'. inversion Hdev'; subst dev'.
      rewrite Hb. exact Hdata.
    + intros p' Hp'. inversion Hp'; subst p'.
      exists (mk_cached_block MFAT_VALID (blk_no cb) data). split.
      * unfold get_block, bind, get_cache, lift. cbn [cache set_cache].
        rewrite Hfst.
        rewrite list_lookup_insert_eq by (eapply lookup_lt_Some; eauto).
        cbn [block].
        rewrite list_lookup_insert_eq by (eapply lookup_lt_Some; eauto).
        reflexivity.
      * cbn [buf]. intros dev' Hdev'. rewrite <- Hrd in Hdev'.
        inversion Hdev'; subst dev'. exact Hdata.
  - apply ret_Some in H3 as [-> ->]. split; [exact Hcoh1|].
    intros p' Hp'. inversion Hp'; subst p'. exists cb. split; [exact Hget|].
    intros dev Hdev. rewrite <- Hb. eapply Hcoh1; eauto. congruence.
Qed.


Lemma sync_slot_coherent j i :
  preserves coherent
    (cb <- get_block (j, i) ;;
     if state cb =? MFAT_DIRTY then
       call_write (buf cb) (blk_no cb) ;;;
       put_block (j, i) (mk_cached_block MFAT_VALID (blk_no cb) (buf cb))
     else ret tt).
Proof.
  intros s u s' Hcoh H. apply bind_Some in H as (cb & s1 & H1 & H2).
  apply get_block_Some in H1 as (-> & c & Hc & Hcb). cbn [fst snd] in *.
  destruct (Z.eqb_spec (state cb) MFAT_DIRTY) as [Hd|Hd].
  2:{ apply ret_Some in H2 as [_ ->]. exact Hcoh. }
  apply bind_Some in H2 as (rv & s2 & H2 & H3).
  apply read_only_call_write in H2. subst s2.
  apply put_block_Some in H3 as (c0 & Hc0 & ->). cbn [fst snd] in *.
  rewrite Hc in Hc0. inversion Hc0; subst c0.
  eapply coherent_insert_block; eauto. cbn [state blk_no buf].
  intros _ dev Hdev. eapply Hcoh; eauto. rewrite Hd. discriminate.
Qed.

Lemma sync_impl_coherent : preserves coherent _mfat_sync_impl.
Proof.
  unfold _mfat_sync_impl.
  apply preserves_for_each. intros j.
  apply preserves_for_each. intros i.
  apply sync_slot_coherent.
Qed.

Lemma read_block_preserves_coherent blk ct :
  preserves coherent (_mfat_read_block blk ct).
Proof. intros s r s' Hcoh H. eapply read_block_coherent; eauto. Qed.

Lemma mount_ctx_coherent r w : coherent (mount_ctx r w).
Proof.
  intros dev ct c i cb _ Hc Hcb Hs. exfalso. apply Hs.
  assert (c = mk_cache (replicate MFAT_NUM_CACHED_BLOCKS zero_block) iota_pri).
  { destruct ct as [|[|ct]]; cbn in Hc; inversion Hc; reflexivity. }
  subst c. cbn [block] in Hcb.
  apply lookup_replicate in Hcb as [-> _]. reflexivity.
Qed.

Lemma run_api_coherent c : preserves coherent (run_api c).
Proof.
  apply preserves_run_api.
  - apply read_block_preserves_coherent.
  - apply sync_impl_coherent.
  - intros fd f. apply preserves_modify. intros s H. exact H.
  - intros i p. apply preserves_modify. intros s H. exact H.
  - apply preserves_modify. intros s H. exact H.
  - intros v s H. exact H.
  - intros v s H. exact H.
  - intros rf wf. apply mount_ctx_coherent.
Qed.

Lemma reachable_coherent s : reachable s -> coherent s.
Proof.
  apply reachable_holds.
  - apply read_block_preserves_coherent.
  - apply sync_impl_coherent.
  - intros fd f. apply preserves_modify. intros s0 H. exact H.
  - intros i p. apply preserves_modify. intros s0 H. exact H.
  - apply preserves_modify. intros s0 H. exact H.
  - intros v s0 H. exact H.
  - intros v s0 H. exact H.
  - intros rf wf. apply mount_ctx_coherent.
Qed.

(* ------------------------------------------------------------------ *)
(** ** The chain walker and the cursor against the FAT on the device *)

(** [_mfat_next_cluster] in terms of the read of the FAT block. *)
Lemma next_cluster_cases part c s r s' :
  _mfat_next_cluster part c s = Some (r, s') ->
  exists rb,
    _mfat_read_block (fat_block_of part c) MFAT_CACHE_FAT s = Some (rb, s') /\
    match rb with
    | None => r = None
    | Some p =>
        exists cb,
          get_block p s' = Some (cb, s') /\
          let v := fat_entry_value part (buf cb) (fat_block_offset_of part c) in
          r = if (v =? 0) || (v =? 0x0ffffff7) then None else Some v
    end.
Proof.
  unfold _mfat_next_cluster. intros H.
  apply bind_Some in H as (rb & s1 & H1 & H2). exists rb.
  destruct rb as [p|]; cbn beta iota in H2.
  - apply bind_Some in H2 as (cb & s2 & H2 & H3).
    pose proof (read_only_get_block _ _ _ _ H2) as ->.
    cbn zeta in H3.
    destruct ((_ =? 0) || _) eqn:E; apply ret_Some in H3 as [-> ->];
      (split; [exact H1|]); exists cb; (split; [exact H2|]);
      cbn zeta; rewrite E; reflexivity.
  - apply ret_Some in H2 as [-> ->]. auto.
Qed.

(** A successful step of [_mfat_next_cluster] is a step of the chain on
    the device. *)
Lemma next_cluster_walks part c s r s' :
  coherent s ->
  _mfat_next_cluster part c s = Some (r, s') ->
  coherent s' /\ same_but_caches s s' /\
  forall dev v, read s = Some dev -> r = Some v ->
                fat_next dev part c = Some v.
Proof.
  intros Hcoh H. apply next_cluster_cases in H as (rb & Hrb & Hr).
  pose proof (read_block_frame _ _ _ _ _ Hrb) as Hframe.
  apply read_block_coherent in Hrb as (Hcoh' & Hcontent); [|exact Hcoh].
  split; [exact Hcoh'|]. split; [exact Hframe|].
  intros dev v Hdev Hv. destruct rb as [p|]; [|congruence].
  destruct Hr as (cb & Hget & Hr). cbn zeta in Hr.
  destruct (Hcontent p eq_refl) as (cb' & Hget' & Hdata).
  rewrite Hget in Hget'. inversion Hget'; subst cb'.
  unfold fat_next. rewrite (Hdata dev Hdev). cbn zeta. congruence.
Qed.

(** The two cases of [_mfat_cluster_pos_advance]. *)
Lemma cluster_pos_advance_cases cpos part s a s' :
  _mfat_cluster_pos_advance cpos part s = Some (a, s') ->
  (add32 (block_in_cluster cpos) 1 <> blocks_per_cluster part /\
   s' = s /\
   a = Some (mk_cpos (cluster_no cpos) (add32 (block_in_cluster cpos) 1)
                     (cluster_start_blk cpos))) \/
  (add32 (block_in_cluster cpos) 1 = blocks_per_cluster part /\
   exists r,
     _mfat_next_cluster part (cluster_no cpos) s = Some (r, s') /\
     a = match r with
         | Some c => Some (mk_cpos c 0 (_mfat_first_block_of_cluster part c))
         | None => None
         end).
Proof.
  unfold _mfat_cluster_pos_advance. intros H.
  destruct (Z.eqb_spec (add32 (block_in_cluster cpos) 1)
                       (blocks_per_cluster part)) as [He|Hne].
  - right. split; [exact He|].
    apply bind_Some in H as (r & s1 & H1 & H2). exists r.
    destruct r; apply ret_Some in H2 as [-> ->]; auto.
  - left. apply ret_Some in H as [-> ->]. auto.
Qed.

Lemma next_block_arith B m :
  0 <= B -> 0 < m ->
  (B mod m + 1 = m -> (B + 1) mod m = 0 /\ (B + 1) / m = B / m + 1) /\
  (B mod m + 1 <> m -> (B + 1) mod m = B mod m + 1 /\ (B + 1) / m = B / m).
Proof.
  intros HB Hm.
  pose proof (Z.div_mod B m ltac:(lia)) as Hdm.
  pose proof (Z.mod_pos_bound B m Hm) as Hr.
  split; intros H.
  - assert (Hq : (B + 1) / m = B / m + 1).
    { symmetry. apply (Z.div_unique (B + 1) m _ 0); lia. }
    split; [|exact Hq].
    symmetry. apply (Z.mod_unique (B + 1) m (B / m + 1) 0); lia.
  - assert (Hq : (B + 1) / m = B / m).
    { symmetry. apply (Z.div_unique (B + 1) m _ (B mod m + 1)); lia. }
    split; [|exact Hq].
    symmetry. apply (Z.mod_unique (B + 1) m (B / m) (B mod m + 1)); lia.
Qed.

(** Advancing a cursor that stands at block [B] puts it at block
    [B + 1]. *)
Lemma cluster_pos_advance_cursor dev part first cpos B s cpos' s' :
  coherent s -> read s = Some dev ->
  0 <= B -> 0 < blocks_per_cluster part < 256 ->
  cursor_at dev part first cpos B ->
  _mfat_cluster_pos_advance cpos part s = Some (Some cpos', s') ->
  cursor_at dev part first cpos' (B + 1).
Proof.
  intros Hcoh Hdev HB Hbpc [Hwalk Hbic] H.
  pose proof (Z.mod_pos_bound B (blocks_per_cluster part) ltac:(lia)) as Hr.
  assert (Hadd : add32 (block_in_cluster cpos) 1 = B mod blocks_per_cluster part + 1).
  { unfold add32. rewrite Hbic. apply u32_small. lia. }
  destruct (next_block_arith B (blocks_per_cluster part) HB ltac:(lia))
    as [Hwrap Hstay].
  apply cluster_pos_advance_cases in H
    as [(Hne & -> & Ha)|(He & r & Hnext & Ha)].
  - inversion Ha; subst cpos'. rewrite Hadd in Hne.
    destruct (Hstay Hne) as [Hm Hq]. split; cbn.
    + rewrite Hq. exact Hwalk.
    + rewrite Hadd, Hm. reflexivity.
  - rewrite Hadd in He. destruct (Hwrap He) as [Hm Hq].
    destruct r as [c|]; [|discriminate]. inversion Ha; subst cpos'.
    apply next_cluster_walks in Hnext as (_ & _ & Hstep); [|exact Hcoh].
    split; cbn.
    + rewrite Hq.
      replace (Z.to_nat (B / blocks_per_cluster part + 1))
        with (S (Z.to_nat (B / blocks_per_cluster part))).
      * cbn [walk]. rewrite Hwalk. eapply Hstep; eauto.
      * assert (0 <= B / blocks_per_cluster part)
          by (apply Z.div_pos; lia). lia.
    + rewrite Hm. reflexivity.
Qed.

Lemma cluster_pos_advance_frame cpos part s a s' :
  coherent s ->
  _mfat_cluster_pos_advance cpos part s = Some (a, s') ->
  coherent s' /\ same_but_caches s s'.
Proof.
  intros Hcoh H. apply cluster_pos_advance_cases in H
    as [(_ & -> & _)|(_ & r & Hnext & _)].
  - split; [exact Hcoh|apply same_but_caches_refl].
  - apply next_cluster_walks in Hnext as (H1 & H2 & _); auto.
Qed.


(* ------------------------------------------------------------------ *)
(** ** Block arithmetic *)

Lemma div_mod_512 q k r :
  q = 512 * k + r -> 0 <= r < 512 -> q / 512 = k /\ q mod 512 = r.
Proof.
  intros Hq Hr. split.
  - symmetry. apply (Z.div_unique q 512 k r); lia.
  - symmetry. apply (Z.mod_unique q 512 k r); lia.
Qed.

Lemma split_512 q : q = 512 * (q / 512) + q mod 512 /\ 0 <= q mod 512 < 512.
Proof.
  split; [apply Z.div_mod; lia|apply Z.mod_pos_bound; lia].
Qed.

(** The block within the cluster and the index of the cluster, from the
    index of the block within the file. *)
Lemma cluster_of_block o m :
  0 < m ->
  (o mod (m * 512)) / 512 = (o / 512) mod m /\
  o / (m * 512) = o / 512 / m.
Proof.
  intros Hm. split.
  - rewrite (Z.mul_comm m 512), Z.rem_mul_r by lia.
    destruct (split_512 o) as [_ Hr].
    apply (div_mod_512 _ ((o / 512) mod m) (o mod 512)); [lia|exact Hr].
  - rewrite (Z.mul_comm m 512), Z.div_div by lia. reflexivity.
Qed.

Lemma fd_ok_frame s s' f :
  read s' = read s -> partition s' = partition s -> fd_ok s f -> fd_ok s' f.
Proof.
  intros Hr Hp (H1 & H2 & H3). split; [exact H1|]. split; [exact H2|].
  intros dev part Hdev Hpart. rewrite Hr in Hdev. rewrite Hp in Hpart. auto.
Qed.

(* ------------------------------------------------------------------ *)
(** ** The cursor of [_mfat_read_impl] *)

Section ReadCursor.
Variable dev : mfat_read_block_fun_t.
Variable part : mfat_partition_t.
Variable first : Z.
(** The offset before the read and the clamped number of bytes. *)
Variables o n : Z.
Hypothesis Hbpc : 0 < blocks_per_cluster part < 256.
Hypothesis Ho : 0 <= o.
Hypothesis Hn : 0 <= n.
Hypothesis Hon : o + n < 2 ^ 32.

Lemma read_head_cursor f cpos s h s' :
  offset f = o ->
  coherent s -> read s = Some dev ->
  cursor_at dev part first cpos (o / 512) ->
  read_head part f cpos n s = Some (h, s') ->
  coherent s' /\ same_but_caches s s' /\
  forall st, h = Some st -> read_inv dev part first o n st s'.
Proof.
  intros Hoff Hcoh Hdev Hcur H. unfold read_head in H. rewrite Hoff in H.
  change MFAT_BLOCK_SIZE with 512 in H.
  destruct (split_512 o) as [Hsplit Hbo].
  destruct (Z.eqb_spec (o mod 512) 0) as [Hal|Hnal]; cbn [negb] in H.
  { apply ret_Some in H as [-> ->]. split; [exact Hcoh|].
    split; [apply same_but_caches_refl|].
    intros st Hst. inversion Hst; subst st. cbn.
    rewrite Z.add_0_r. repeat split; auto; try lia; apply Hcur. }
  apply bind_Some in H as (b & s1 & Hrb & H).
  pose proof (read_block_frame _ _ _ _ _ Hrb) as Hf1.
  apply read_block_coherent in Hrb as [Hcoh1 _]; [|exact Hcoh].
  destruct b as [p|]; cbn beta iota in H.
  2:{ apply ret_Some in H as [-> ->]. split; [assumption|]. split; [assumption|discriminate]. }
  apply bind_Some in H as (cb & s2 & Hget & H).
  pose proof (read_only_get_block _ _ _ _ Hget) as ->.
  assert (Htail : sub32 512 (o mod 512) = 512 - o mod 512).
  { apply u32_small. lia. }
  rewrite Htail in H.
  assert (Hdev1 : read s1 = Some dev) by (rewrite <- Hdev; apply Hf1).
  unfold _mfat_min in H.
  destruct (Z.ltb_spec (512 - o mod 512) n) as [Hlt|Hge].
  - rewrite Z.eqb_refl in H.
    apply bind_Some in H as (a & s3 & Hadv & H).
    pose proof (cluster_pos_advance_frame _ _ _ _ _ Hcoh1 Hadv) as [Hcoh3 Hf3].
    destruct a as [cpos'|]; apply ret_Some in H as [-> ->].
    2:{ split; [exact Hcoh3|].
        split; [eapply same_but_caches_trans; eauto|discriminate]. }
    split; [exact Hcoh3|]. split; [eapply same_but_caches_trans; eauto|].
    intros st Hst. inversion Hst; subst st. cbn.
    destruct (div_mod_512 (o + (512 - o mod 512)) (o / 512 + 1) 0) as [Hq Hm];
      [lia|lia|].
    split; [exact Hcoh3|]. split; [rewrite <- Hdev1; apply Hf3|].
    split; [lia|]. rewrite Hq. split; [|left; exact Hm].
    apply (cluster_pos_advance_cursor dev part first cpos _ s1 _ s3);
      auto. apply Z.div_pos; lia.
  - destruct (Z.eqb_spec n (512 - o mod 512)) as [He|Hne].
    + apply bind_Some in H as (a & s3 & Hadv & H).
      pose proof (cluster_pos_advance_frame _ _ _ _ _ Hcoh1 Hadv) as [Hcoh3 Hf3].
      destruct a as [cpos'|]; apply ret_Some in H as [-> ->].
      2:{ split; [exact Hcoh3|].
          split; [eapply same_but_caches_trans; eauto|discriminate]. }
      split; [exact Hcoh3|]. split; [eapply same_but_caches_trans; eauto|].
      intros st Hst. inversion Hst; subst st. cbn.
      destruct (div_mod_512 (o + n) (o / 512 + 1) 0) as [Hq Hm]; [lia|lia|].
      split; [exact Hcoh3|]. split; [rewrite <- Hdev1; apply Hf3|].
      split; [lia|]. rewrite Hq. split; [|left; exact Hm].
      apply (cluster_pos_advance_cursor dev part first cpos _ s1 _ s3);
        auto. apply Z.div_pos; lia.
    + apply ret_Some in H as [-> ->].
      split; [exact Hcoh1|]. split; [exact Hf1|].
      intros st Hst. inversion Hst; subst st. cbn.
      destruct (div_mod_512 (o + n) (o / 512) (o mod 512 + n)) as [Hq Hm];
        [lia|lia|].
      split; [exact Hcoh1|]. split; [exact Hdev1|].
      split; [lia|]. rewrite Hq. split; [exact Hcur|right; reflexivity].
Qed.

Lemma read_body_step_cursor nbyte st s x s' :
  nbyte = n ->
  read_inv dev part first o n st s ->
  read_body_step part nbyte st s = Some (x, s') ->
  match x with
  | inl st' => read_inv dev part first o n st' s'
  | inr r => coherent s' /\
             forall st', r = Some st' ->
                         read_inv dev part first o n st' s' /\ n - snd (fst st') < 512
  end.
Proof.
  intros -> Hinv H. destruct st as [[cpos br] data].
  pose proof Hinv as (Hcoh & Hdev & Hbr & Hcur & Hal).
  unfold read_body_step in H. change MFAT_BLOCK_SIZE with 512 in H.
  assert (Hsub : sub32 n br = n - br) by (apply u32_small; lia).
  rewrite Hsub in H.
  destruct (Z.geb_spec (n - br) 512) as [Hge|Hlt]; cbn [negb] in H.
  2:{ apply ret_Some in H as [-> ->]. split; [exact Hcoh|].
      intros st' Hst'. inversion Hst'; subst st'.
      split; [exact Hinv|cbn; lia]. }
  destruct (_mfat_is_eoc (cluster_no cpos)).
  { apply ret_Some in H as [-> ->]. split; [exact Hcoh|discriminate]. }
  apply bind_Some in H as (r & s1 & Hrd & H).
  pose proof (read_only_call_read _ _ _ _ Hrd) as ->.
  destruct r as [blk|]; cbn beta iota in H.
  2:{ apply ret_Some in H as [-> ->]. split; [exact Hcoh|discriminate]. }
  apply bind_Some in H as (a & s2 & Hadv & H).
  pose proof (cluster_pos_advance_frame _ _ _ _ _ Hcoh Hadv) as [Hcoh2 Hf2].
  destruct a as [cpos'|]; apply ret_Some in H as [-> ->].
  2:{ split; [exact Hcoh2|discriminate]. }
  cbn. destruct Hal as [Hal|Heq]; [|lia].
  destruct (split_512 (o + br)) as [Hsplit _].
  assert (Hadd : add32 br 512 = br + 512) by (apply u32_small; lia).
  rewrite Hadd.
  destruct (div_mod_512 (o + (br + 512)) ((o + br) / 512 + 1) 0) as [Hq Hm];
    [lia|lia|].
  split; [exact Hcoh2|]. split; [rewrite <- Hdev; apply Hf2|].
  split; [lia|]. rewrite Hq. split; [|left; exact Hm].
  apply (cluster_pos_advance_cursor dev part first cpos _ s _ s2); auto.
  apply Z.div_pos; lia.
Qed.

Lemma read_tail_cursor st s t s' :
  read_inv dev part first o n st s -> n - snd (fst st) < 512 ->
  read_tail n st s = Some (t, s') ->
  coherent s' /\ same_but_caches s s' /\
  forall st', t = Some st' -> read_inv dev part first o n st' s' /\ snd (fst st') = n.
Proof.
  intros Hinv Hlt H. destruct st as [[cpos br] data]. cbn in Hlt.
  pose proof Hinv as (Hcoh & Hdev & Hbr & Hcur & Hal).
  unfold read_tail in H.
  destruct (Z.ltb_spec br n) as [Hbn|Hbn].
  2:{ apply ret_Some in H as [-> ->]. split; [exact Hcoh|].
      split; [apply same_but_caches_refl|].
      intros st' Hst'. inversion Hst'; subst st'. split; [exact Hinv|].
      cbn. lia. }
  destruct (_mfat_is_eoc (cluster_no cpos)).
  { apply ret_Some in H as [-> ->]. split; [exact Hcoh|].
    split; [apply same_but_caches_refl|discriminate]. }
  apply bind_Some in H as (b & s1 & Hrb & H).
  pose proof (read_block_frame _ _ _ _ _ Hrb) as Hf1.
  apply read_block_coherent in Hrb as [Hcoh1 _]; [|exact Hcoh].
  destruct b as [p|]; cbn beta iota in H.
  2:{ apply ret_Some in H as [-> ->]. split; [assumption|]. split; [assumption|discriminate]. }
  apply bind_Some in H as (cb & s2 & Hget & H).
  pose proof (read_only_get_block _ _ _ _ Hget) as ->.
  apply ret_Some in H as [-> ->].
  split; [exact Hcoh1|]. split; [exact Hf1|].
  intros st' Hst'. inversion Hst'; subst st'. cbn.
  assert (Hadd : add32 br (sub32 n br) = n).
  { unfold add32, sub32. rewrite (u32_small (n - br)) by lia.
    replace (br + (n - br)) with n by lia. apply u32_small. lia. }
  rewrite Hadd. destruct Hal as [Hal|Heq]; [|lia].
  destruct (split_512 (o + br)) as [Hsplit _].
  destruct (div_mod_512 (o + n) ((o + br) / 512) (n - br)) as [Hq Hm];
    [lia|lia|].
  split; [|reflexivity].
  split; [exact Hcoh1|]. split; [rewrite <- Hdev; apply Hf1|].
  split; [lia|]. rewrite Hq. split; [exact Hcur|right; reflexivity].
Qed.
End ReadCursor.


Lemma set_file_same s fd f :
  arr_get (file s) fd = Some f ->
  set_file (<[Z.to_nat fd := f]> (file s)) s = s.
Proof.
  intros H. apply arr_get_lookup in H as [H _].
  rewrite list_insert_id by exact H. destruct s. reflexivity.
Qed.

Lemma parts_ok_arr_get s i p :
  parts_ok s -> arr_get (partition s) i = Some p ->
  0 <= blocks_per_cluster p < 256.
Proof.
  intros Hp H. apply arr_get_lookup in H as [H _]. eapply Hp, H.
Qed.

(** The partial correctness of [_mfat_read_impl]: it fails, touching
    only the caches, or reads [min nbyte (size - offset)] bytes and
    leaves the descriptor with its invariant at the new offset. *)
Lemma read_impl_spec fd nbyte s r data s' f dev :
  coherent s -> parts_ok s -> read s = Some dev ->
  arr_get (file s) fd = Some f -> fd_ok s f ->
  0 <= nbyte < 2 ^ 32 ->
  _mfat_read_impl fd nbyte s = Some ((r, data), s') ->
  coherent s' /\
  ((r = -1 /\ same_but_caches s s') \/
   (r = Z.min nbyte (size (info f) - offset f) /\
    exists s3 c,
      same_but_caches s s3 /\
      s' = set_file (<[Z.to_nat fd :=
                        mk_file (open f) (oflag f) (offset f + r) c (info f)]>
                       (file s3)) s3 /\
      fd_ok s (mk_file (open f) (oflag f) (offset f + r) c (info f)))).
Proof.
  intros Hcoh Hparts Hdev Hf Hok Hnb H.
  pose proof Hok as (Ho & Hsz & Hwalk).
  unfold _mfat_read_impl in H.
  apply bind_Some in H as (f0 & s0 & Hf0 & H).
  apply get_file_at_Some in Hf0 as [-> Hf0].
  rewrite Hf in Hf0. inversion Hf0; subst f0. clear Hf0.
  destruct (Z.land (oflag f) MFAT_O_RDONLY =? 0).
  { apply ret_Some in H as [H ->]. inversion H. split; [exact Hcoh|].
    left. split; [reflexivity|apply same_but_caches_refl]. }
  assert (Hsub : sub32 (size (info f)) (offset f) = size (info f) - offset f)
    by (apply u32_small; lia).
  rewrite Hsub in H.
  set (n := if nbyte >? size (info f) - offset f
            then size (info f) - offset f else nbyte) in H.
  assert (Hn : n = Z.min nbyte (size (info f) - offset f)).
  { unfold n. destruct (Z.gtb_spec nbyte (size (info f) - offset f)); lia. }
  assert (Hn0 : 0 <= n) by lia.
  destruct (Z.eqb_spec n 0) as [Hz|Hnz].
  { apply ret_Some in H as [H ->]. inversion H. split; [exact Hcoh|].
    right. split; [lia|]. exists s, (current_cluster f).
    split; [apply same_but_caches_refl|].
    replace (mk_file (open f) (oflag f) (offset f + 0) (current_cluster f)
                     (info f)) with f
      by (destruct f; cbn; f_equal; lia).
    split; [symmetry; apply set_file_same, Hf|exact Hok]. }
  apply bind_Some in H as (part & s1 & Hp & H).
  apply get_partition_Some in Hp as [-> Hp].
  pose proof (parts_ok_arr_get _ _ _ Hparts Hp) as Hbpc0.
  apply bind_Some in H as (cpos & s1 & Hc & H).
  apply lift_Some in Hc as [Hc ->].
  unfold _mfat_cluster_pos_init_from_file, _mfat_cluster_pos_init in Hc.
  assert (Hmul : mul32 (blocks_per_cluster part) MFAT_BLOCK_SIZE
                 = blocks_per_cluster part * 512).
  { apply u32_small. change MFAT_BLOCK_SIZE with 512. lia. }
  rewrite Hmul in Hc.
  destruct (Z.eqb_spec (blocks_per_cluster part * 512) 0) as [|Hcb];
    [discriminate|].
  assert (Hbpc : 0 < blocks_per_cluster part < 256) by lia.
  inversion Hc as [Hcpos]. clear Hc.
  destruct (cluster_of_block (offset f) (blocks_per_cluster part))
    as [Hbic Hidx]; [lia|].
  assert (Hcur : cursor_at dev part (first_cluster (info f)) cpos
                   (offset f / 512)).
  { subst cpos. split; cbn.
    - rewrite <- Hidx. apply Hwalk; assumption.
    - change MFAT_BLOCK_SIZE with 512. exact Hbic. }
  clear Hcpos.
  apply bind_Some in H as (h & s1 & Hh & H).
  apply (read_head_cursor dev part (first_cluster (info f)) (offset f) n)
    in Hh as (Hcoh1 & Hf1 & Hinv1); try assumption; try lia; try reflexivity.
  destruct h as [st1|]; cbn beta iota in H.
  2:{ apply ret_Some in H as [H ->]. inversion H. split; [exact Hcoh1|].
      left. auto. }
  specialize (Hinv1 _ eq_refl).
  apply bind_Some in H as (b & s2 & Hb & H).
  pose proof Hb as Hb'.
  apply read_body_frame in Hb' as [Hf2 _].
  2:{ destruct st1 as [[c1 b1] d1]. cbn. destruct Hinv1 as (_ & _ & ? & _). lia. }
  apply (while_loop_inv (read_body_step part n)
           (read_inv dev part (first_cluster (info f)) (offset f) n)
           (fun r x => coherent x /\
              forall st', r = Some st' ->
                read_inv dev part (first_cluster (info f)) (offset f) n st' x /\
                n - snd (fst st') < 512))
    in Hb; [| |exact Hinv1].
  2:{ intros st x0 y x1 Hst Hstep.
      eapply read_body_step_cursor; eauto; lia. }
  destruct Hb as [Hcoh2 Hinv2].
  destruct b as [st2|]; cbn beta iota in H.
  2:{ apply ret_Some in H as [H ->]. inversion H. split; [exact Hcoh2|].
      left. split; [reflexivity|eapply same_but_caches_trans; eauto]. }
  destruct (Hinv2 _ eq_refl) as [Hinv2' Hlt2].
  apply bind_Some in H as (t & s3 & Ht & H).
  apply (read_tail_cursor dev part (first_cluster (info f)) (offset f) n)
    in Ht as (Hcoh3 & Hf3 & Hinv3); try assumption; try lia.
  assert (Hf13 : same_but_caches s s3).
  { eapply same_but_caches_trans; [|exact Hf3].
    eapply same_but_caches_trans; eauto. }
  destruct t as [[[cpos3 br3] data3]|]; cbn beta iota in H.
  2:{ apply ret_Some in H as [H ->]. inversion H. split; [exact Hcoh3|].
      left. auto. }
  destruct (Hinv3 _ eq_refl) as [(_ & _ & _ & Hcur3 & _) Hbr3].
  cbn in Hbr3. subst br3.
  apply bind_Some in H as (u & s4 & Hput & H).
  apply modify_Some in Hput. subst s4.
  apply ret_Some in H as [H ->]. inversion H; subst r data.
  assert (Hadd : add32 (offset f) n = offset f + n) by (apply u32_small; lia).
  rewrite Hadd. split.
  { intros dev0 ct c0 i cb Hd0 Hc0 Hcb0 Hs0. eapply Hcoh3; eauto. }
  right. split; [exact Hn|]. exists s3, (cluster_no cpos3).
  split; [exact Hf13|]. split; [reflexivity|].
  split; cbn [offset size info]; [lia|]. split; [lia|].
  intros dev0 part0 Hd0 Hp0. cbn [first_cluster info current_cluster part_no] in *.
  rewrite Hdev in Hd0. inversion Hd0; subst dev0.
  rewrite Hp in Hp0. inversion Hp0; subst part0.
  unfold bytes_per_cluster. change MFAT_BLOCK_SIZE with 512.
  destruct (cluster_of_block (offset f + n) (blocks_per_cluster part))
    as [_ Hidx3]; [lia|].
  rewrite Hidx3. apply Hcur3.
Qed.


(* ------------------------------------------------------------------ *)
(** ** The cluster search of [_mfat_lseek_impl] *)

Lemma lseek_step_inv dev part first target st s x s' :
  0 < bytes_per_cluster part -> target < 2 ^ 32 ->
  lseek_inv dev part first target st s ->
  lseek_step part target (bytes_per_cluster part) st s = Some (x, s') ->
  same_but_caches s s' /\
  match x with
  | inl st' => lseek_inv dev part first target st' s'
  | inr r =>
      coherent s' /\
      forall st', r = Some st' ->
        walk dev part (Z.to_nat (target / bytes_per_cluster part)) first
          = Some (fst st')
  end.
Proof.
  intros Hcb Ht (Hcoh & Hdev & k & Hk & Hco & Hle & Hwalk) H.
  destruct st as [cur co]. cbn [fst snd] in *.
  unfold lseek_step in H.
  assert (Hco0 : 0 <= co) by nia.
  assert (Hsub : sub32 target co = target - co) by (apply u32_small; lia).
  rewrite Hsub in H.
  destruct (Z.geb_spec (target - co) (bytes_per_cluster part)) as [Hge|Hlt];
    cbn [negb] in H.
  2:{ apply ret_Some in H as [-> ->]. split; [apply same_but_caches_refl|].
      split; [exact Hcoh|]. intros st' Hst'. inversion Hst'; subst st'. cbn.
      replace (target / bytes_per_cluster part) with k; [exact Hwalk|].
      apply (Z.div_unique target _ k (target - co)); lia. }
  destruct (_mfat_is_eoc cur).
  { apply ret_Some in H as [-> ->]. split; [apply same_but_caches_refl|].
    split; [exact Hcoh|discriminate]. }
  apply bind_Some in H as (r & s1 & Hnext & H).
  apply next_cluster_walks in Hnext as (Hcoh1 & Hf1 & Hstep); [|exact Hcoh].
  destruct r as [c|]; apply ret_Some in H as [-> ->].
  2:{ split; [exact Hf1|]. split; [exact Hcoh1|discriminate]. }
  split; [exact Hf1|]. split; [exact Hcoh1|].
  split; [rewrite <- Hdev; apply Hf1|].
  exists (k + 1). cbn [fst snd].
  assert (Hadd : add32 co (bytes_per_cluster part) = co + bytes_per_cluster part)
    by (apply u32_small; lia).
  rewrite Hadd. split; [lia|]. split; [lia|]. split; [lia|].
  replace (Z.to_nat (k + 1)) with (S (Z.to_nat k)) by lia.
  cbn [walk]. rewrite Hwalk. eapply Hstep; eauto.
Qed.

(** The partial correctness of [_mfat_lseek_impl]: it fails, touching
    only the caches, or moves the descriptor to the target offset and
    leaves it with its invariant. *)
Lemma lseek_impl_spec fd off whence s r s' f dev :
  coherent s -> parts_ok s -> read s = Some dev ->
  arr_get (file s) fd = Some f -> fd_ok s f ->
  _mfat_lseek_impl fd off whence s = Some (r, s') ->
  coherent s' /\
  ((r = -1 /\ same_but_caches s s') \/
   (0 <= r <= size (info f) /\
    exists s3 c,
      same_but_caches s s3 /\
      s' = set_file (<[Z.to_nat fd :=
                        mk_file (open f) (oflag f) r c (info f)]>
                       (file s3)) s3 /\
      fd_ok s (mk_file (open f) (oflag f) r c (info f)))).
Proof.
  intros Hcoh Hparts Hdev Hf Hok H.
  pose proof Hok as (Ho & Hsz & Hwalk).
  unfold _mfat_lseek_impl in H.
  apply bind_Some in H as (f0 & s0 & Hf0 & H).
  apply get_file_at_Some in Hf0 as [-> Hf0].
  rewrite Hf in Hf0. inversion Hf0; subst f0. clear Hf0.
  destruct (if whence =? MFAT_SEEK_SET then Some off
            else if whence =? MFAT_SEEK_END then Some (size (info f) + off)
            else if whence =? MFAT_SEEK_CUR then Some (offset f + off)
            else None) as [t|].
  2:{ apply ret_Some in H as [-> ->]. split; [exact Hcoh|].
      left. split; [reflexivity|apply same_but_caches_refl]. }
  destruct (negb (in_int64 t)); [discriminate H|].
  destruct (Z.ltb_spec t 0).
  { apply ret_Some in H as [-> ->]. split; [exact Hcoh|].
    left. split; [reflexivity|apply same_but_caches_refl]. }
  destruct (Z.gtb_spec t (size (info f))).
  { apply ret_Some in H as [-> ->]. split; [exact Hcoh|].
    left. split; [reflexivity|apply same_but_caches_refl]. }
  rewrite (u32_small t) in H by lia.
  apply bind_Some in H as (part & s1 & Hp & H).
  apply get_partition_Some in Hp as [-> Hp].
  pose proof (parts_ok_arr_get _ _ _ Hparts Hp) as Hbpc0.
  assert (Hmul : mul32 (blocks_per_cluster part) MFAT_BLOCK_SIZE
                 = bytes_per_cluster part).
  { apply u32_small. unfold bytes_per_cluster.
    change MFAT_BLOCK_SIZE with 512. lia. }
  rewrite Hmul in H.
  destruct (Z.eqb_spec (bytes_per_cluster part) 0) as [|Hcb]; [discriminate H|].
  assert (Hcbpos : 0 < bytes_per_cluster part < 2 ^ 32).
  { unfold bytes_per_cluster in *. change MFAT_BLOCK_SIZE with 512 in *. lia. }
  pose proof (Z.div_mod (offset f) (bytes_per_cluster part) ltac:(lia)) as Hdm.
  pose proof (Z.mod_pos_bound (offset f) (bytes_per_cluster part) ltac:(lia))
    as Hmb.
  assert (Hsub : sub32 (offset f) (offset f mod bytes_per_cluster part)
                 = offset f / bytes_per_cluster part * bytes_per_cluster part).
  { unfold sub32.
    assert (0 <= offset f / bytes_per_cluster part) by (apply Z.div_pos; lia).
    remember (offset f / bytes_per_cluster part) as q.
    remember (offset f mod bytes_per_cluster part) as m.
    rewrite u32_small; nia. }
  rewrite Hsub in H.
  set (start := if t <? offset f / bytes_per_cluster part * bytes_per_cluster part
                then (first_cluster (info f), 0)
                else (current_cluster f,
                      offset f / bytes_per_cluster part * bytes_per_cluster part))
    in H.
  assert (Hstart : lseek_inv dev part (first_cluster (info f)) t start s).
  { split; [exact Hcoh|]. split; [exact Hdev|]. unfold start.
    destruct (Z.ltb_spec t (offset f / bytes_per_cluster part
                            * bytes_per_cluster part)).
    - exists 0. cbn. repeat split; lia.
    - exists (offset f / bytes_per_cluster part). cbn [fst snd].
      split; [apply Z.div_pos; lia|]. split; [reflexivity|]. split; [lia|].
      apply Hwalk; assumption. }
  clearbody start.
  apply bind_Some in H as (res & s3 & Hloop & H).
  apply (while_loop_inv (lseek_step part t (bytes_per_cluster part))
           (fun st x => same_but_caches s x /\
                        lseek_inv dev part (first_cluster (info f)) t st x)
           (fun r x => same_but_caches s x /\ coherent x /\
              forall st', r = Some st' ->
                walk dev part (Z.to_nat (t / bytes_per_cluster part))
                     (first_cluster (info f)) = Some (fst st')))
    in Hloop; [| |split; [apply same_but_caches_refl|exact Hstart]].
  2:{ intros st x0 y x1 [Hfr Hst] Hstep.
      eapply lseek_step_inv in Hstep as [Hfr' Hy]; eauto; try lia.
      assert (same_but_caches s x1) by (eapply same_but_caches_trans; eauto).
      destruct y; [auto|]. destruct Hy. auto. }
  destruct Hloop as (Hf3 & Hcoh3 & Hres).
  destruct res as [[c co]|]; cbn beta iota in H.
  2:{ apply ret_Some in H as [-> ->]. split; [exact Hcoh3|]. left. auto. }
  specialize (Hres _ eq_refl). cbn in Hres.
  apply bind_Some in H as (u & s4 & Hput & H).
  apply modify_Some in Hput. subst s4.
  apply ret_Some in H as [-> ->]. split.
  { intros dev0 ct c0 i cb Hd0 Hc0 Hcb0 Hs0. eapply Hcoh3; eauto. }
  right. split; [lia|]. exists s3, c.
  split; [exact Hf3|]. split; [reflexivity|].
  split; cbn [offset size info]; [lia|]. split; [lia|].
  intros dev0 part0 Hd0 Hp0. cbn [first_cluster info current_cluster part_no] in *.
  rewrite Hdev in Hd0. inversion Hd0; subst dev0.
  rewrite Hp in Hp0. inversion Hp0; subst part0. exact Hres.
Qed.


(* ------------------------------------------------------------------ *)
(** ** Ranges of the decoded integers *)

Lemma u8_range b : 0 <= u8 b < 256.
Proof.
  unfold u8. pose proof (Byte.to_N_bounded b). lia.
Qed.

Lemma byte_at_range buf i : 0 <= byte_at buf i < 256.
Proof.
  unfold byte_at. destruct (i <? 0); [lia|apply u8_range].
Qed.

Lemma lor_bound n a b :
  0 <= n -> 0 <= a < 2 ^ n -> 0 <= b < 2 ^ n -> 0 <= Z.lor a b < 2 ^ n.
Proof.
  intros Hn Ha Hb.
  assert (H0 : 0 <= Z.lor a b) by (apply Z.lor_nonneg; lia).
  split; [exact H0|].
  destruct (Z.eq_dec (Z.lor a b) 0) as [->|Hnz]; [lia|].
  apply Z.log2_lt_pow2; [lia|].
  rewrite Z.log2_lor by lia.
  assert (Hlog : forall x, 0 <= x < 2 ^ n -> 0 < n -> Z.log2 x < n).
  { intros x Hx Hpos. destruct (Z.eq_dec x 0) as [->|]; [exact Hpos|].
    apply Z.log2_lt_pow2; lia. }
  assert (0 < n).
  { destruct (Z.eq_dec n 0) as [->|]; [|lia].
    assert (a = 0) by lia. assert (b = 0) by lia. subst. contradiction. }
  apply Z.max_lub_lt; apply Hlog; assumption.
Qed.

Lemma get_dword_range buf i : 0 <= _mfat_get_dword buf i < 2 ^ 32.
Proof.
  unfold _mfat_get_dword.
  pose proof (byte_at_range buf i). pose proof (byte_at_range buf (i + 1)).
  pose proof (byte_at_range buf (i + 2)). pose proof (byte_at_range buf (i + 3)).
  rewrite !Z.shiftl_mul_pow2 by lia.
  repeat apply lor_bound; lia.
Qed.

(* ------------------------------------------------------------------ *)
(** ** Frames of the remaining operations *)

Lemma frame_read_block s0 blk ct :
  preserves (same_but_caches s0) (_mfat_read_block blk ct).
Proof.
  apply read_block_preserves_frame.
  intros a b Hab Ha. eapply same_but_caches_trans; eauto.
Qed.

Lemma find_file_frame part_no path s r s' :
  _mfat_find_file part_no path s = Some (r, s') -> same_but_caches s s'.
Proof.
  intros H. apply (preserves_find_file (same_but_caches s)) in H;
    [exact H|apply frame_read_block|apply same_but_caches_refl].
Qed.

Lemma fstat_impl_frame info s r s' :
  _mfat_fstat_impl info s = Some (r, s') -> same_but_caches s s'.
Proof.
  intros H. apply (preserves_fstat_impl (same_but_caches s)) in H;
    [exact H|apply frame_read_block|apply same_but_caches_refl].
Qed.

Lemma stat_impl_frame path s r s' :
  _mfat_stat_impl path s = Some (r, s') -> same_but_caches s s'.
Proof.
  intros H. apply (preserves_stat_impl (same_but_caches s)) in H;
    [exact H|apply frame_read_block|apply same_but_caches_refl].
Qed.

Lemma sync_impl_frame s u s' :
  _mfat_sync_impl s = Some (u, s') -> same_but_caches s s'.
Proof.
  intros H.
  assert (Hp : preserves (same_but_caches s) _mfat_sync_impl).
  { unfold _mfat_sync_impl.
    apply preserves_for_each. intros j.
    apply preserves_for_each. intros i.
    intros x u0 x' Hx Hrun.
    apply bind_Some in Hrun as (cb & x1 & H1 & H2).
    apply read_only_get_block in H1. subst x1.
    destruct (state cb =? MFAT_DIRTY).
    - apply bind_Some in H2 as (rv & x2 & H2 & H3).
      apply read_only_call_write in H2. subst x2.
      apply put_block_Some in H3 as (c & _ & ->).
      eapply same_but_caches_trans; [exact Hx|apply same_but_caches_set_cache].
    - apply ret_Some in H2 as [_ ->]. exact Hx. }
  eapply Hp; [apply same_but_caches_refl|exact H].
Qed.

(** The size that [_mfat_find_file] reports is a 32-bit value. *)
Lemma find_file_size part_no path s info d e s' :
  _mfat_find_file part_no path s = Some (Some (info, d, e), s') ->
  0 <= size info < 2 ^ 32.
Proof.
  unfold _mfat_find_file. intros H.
  apply bind_Some in H as (part & s1 & _ & H).
  apply bind_Some in H as (start & s2 & _ & H).
  apply bind_Some in H as (r & s3 & _ & H).
  destruct r as [st|]; cbn beta iota in H.
  2:{ apply ret_Some in H as [H _]. discriminate. }
  destruct (fs_file_entry st) as [fe|], (fs_block st) as [p|];
    try (apply ret_Some in H as [H _]; discriminate).
  apply bind_Some in H as (cb & s4 & _ & H). cbn zeta in H.
  destruct (_ && _); apply ret_Some in H as [H _]; inversion H;
    cbn; apply get_dword_range.
Qed.

Lemma find_free_fd_spec files i :
  i <= find_free_fd files i <= i + Z.of_nat (length files) /\
  forall f, files !! Z.to_nat (find_free_fd files i - i) = Some f ->
            open f = 0.
Proof.
  revert i. induction files as [|f0 rest IH]; intros i; simpl.
  - split; [lia|]. intros f Hf. rewrite lookup_nil in Hf. discriminate.
  - destruct (Z.eqb_spec (open f0) 0) as [He|Hne].
    + split; [lia|]. intros f Hf. replace (i - i) with 0 in Hf by lia.
      simpl in Hf. inversion Hf; subst. exact He.
    + destruct (IH (i + 1)) as [Hr Hf]. split; [lia|].
      intros f Hlk.
      replace (Z.to_nat (find_free_fd rest (i + 1) - i))
        with (S (Z.to_nat (find_free_fd rest (i + 1) - (i + 1)))) in Hlk by lia.
      simpl in Hlk. apply Hf, Hlk.
Qed.


(* ------------------------------------------------------------------ *)
(** ** The calls other than [mfat_mount] keep the configuration *)

Section NonMountCalls.
Variable P : mfat_ctx_t -> Prop.
Hypothesis P_read_block :
  forall blk ct, preserves P (_mfat_read_block blk ct).
Hypothesis P_sync : preserves P _mfat_sync_impl.
Hypothesis P_put_file : forall fd f, preserves P (put_file fd f).
Hypothesis P_set_active : forall v s, P s -> P (set_active_partition v s).
Hypothesis P_set_initialized : forall v s, P s -> P (set_initialized v s).

Lemma preserves_non_mount c :
  (forall r w, c <> call_mount r w) -> preserves P (run_api c).
Proof.
  intros Hc. destruct c; cbn [run_api];
    try (exfalso; eapply Hc; reflexivity).
  - apply preserves_bind; [apply preserves_unmount; auto|intros; apply preserves_ret].
  - apply preserves_select_partition; auto.
  - apply preserves_bind; [apply preserves_sync; auto|intros; apply preserves_ret].
  - apply preserves_bind; [apply preserves_fstat; auto|intros; apply preserves_ret].
  - apply preserves_bind; [apply preserves_stat; auto|intros; apply preserves_ret].
  - apply preserves_open; auto.
  - apply preserves_close; auto.
  - apply preserves_bind; [apply preserves_read; auto|intros; apply preserves_ret].
  - apply preserves_write; auto.
  - apply preserves_lseek; auto.
Qed.
End NonMountCalls.

Lemma same_config_of_frame s s' : same_but_caches s s' -> same_config s s'.
Proof. intros (_ & _ & Hr & Hw & Hp & _). repeat split; assumption. Qed.

Lemma non_mount_same_config c s r s' :
  (forall rf wf, c <> call_mount rf wf) ->
  run_api c s = Some (r, s') -> same_config s s'.
Proof.
  intros Hc H.
  apply (preserves_non_mount (same_config s)) in H; auto.
  - apply read_block_preserves_frame.
    intros a b Hab (H1 & H2 & H3). apply same_config_of_frame in Hab.
    destruct Hab as (H4 & H5 & H6). repeat split; congruence.
  - intros a u b (H1 & H2 & H3) Hrun. apply sync_impl_frame in Hrun.
    apply same_config_of_frame in Hrun.
    destruct Hrun as (H4 & H5 & H6). repeat split; congruence.
  - intros fd f. apply preserves_modify. intros x Hx. exact Hx.
  - repeat split.
Qed.

(* ------------------------------------------------------------------ *)
(** ** The file-descriptor invariant *)

Lemma fds_inv_frame s s' :
  read s' = read s -> partition s' = partition s -> file s' = file s ->
  fds_inv s -> fds_inv s'.
Proof.
  intros Hr Hp Hf Hinv fd f Hfd Hopen. rewrite Hf in Hfd.
  eapply fd_ok_frame; eauto.
Qed.

Lemma fds_inv_of_frame s s' : same_but_caches s s' -> fds_inv s -> fds_inv s'.
Proof.
  intros (_ & _ & Hr & _ & Hp & Hf). apply fds_inv_frame; assumption.
Qed.

Lemma fds_inv_update s s3 fd f' :
  fds_inv s -> same_but_caches s s3 ->
  (open f' <> 0 -> fd_ok s f') ->
  fds_inv (set_file (<[fd := f']> (file s3)) s3).
Proof.
  intros Hinv (_ & _ & Hr & _ & Hp & Hf) Hnew i f Hi Hopen.
  cbn [file set_file] in Hi.
  apply fd_ok_frame with (s := s); [exact Hr|exact Hp|].
  destruct (decide (i = fd)) as [->|Hne].
  - assert (fd < length (file s3))%nat.
    { apply lookup_lt_Some in Hi. rewrite length_insert in Hi. exact Hi. }
    rewrite list_lookup_insert_eq in Hi by assumption.
    inversion Hi; subst f. auto.
  - rewrite list_lookup_insert_ne in Hi by auto. rewrite Hf in Hi.
    eapply Hinv; eauto.
Qed.

Lemma get_file_Some fd s r s' :
  _mfat_get_file fd s = Some (Some r, s') ->
  s' = s /\ r = fd /\
  exists f, arr_get (file s) fd = Some f /\ open f <> 0.
Proof.
  unfold _mfat_get_file. intros H. destruct (_ || _).
  - apply ret_Some in H as [H _]. discriminate.
  - apply bind_Some in H as (f & s1 & Hf & H).
    apply get_file_at_Some in Hf as [-> Hf].
    destruct (Z.eqb_spec (open f) 0); apply ret_Some in H as [H ->];
      inversion H. eauto.
Qed.

Lemma read_fds_inv fd nbyte s r s' :
  0 <= nbyte < 2 ^ 32 ->
  coherent s -> callbacks_set s -> parts_ok s -> fds_inv s ->
  mfat_read fd nbyte s = Some (r, s') -> fds_inv s'.
Proof.
  intros Hn Hcoh [[dev Hdev] _] Hparts Hinv H. unfold mfat_read in H.
  apply bind_Some in H as (x & s0 & Hx & H).
  apply get_ctx_Some in Hx as [-> ->].
  destruct (initialized s =? 0).
  { apply ret_Some in H as [_ ->]. exact Hinv. }
  apply bind_Some in H as (g & s0 & Hg & H).
  destruct g as [fd'|]; cbn beta iota in H.
  2:{ apply read_only_get_file in Hg. subst s0.
      apply ret_Some in H as [_ ->]. exact Hinv. }
  apply get_file_Some in Hg as (-> & -> & f & Hf & Hopen).
  destruct r as [r data].
  assert (Hok : fd_ok s f).
  { apply arr_get_lookup in Hf as [Hf' _]. eapply Hinv; eauto. }
  eapply read_impl_spec in H as [_ [[_ Hfr]|(_ & s3 & c & Hfr & -> & Hok')]];
    eauto.
  - eapply fds_inv_of_frame; eauto.
  - apply fds_inv_update with (s := s); auto.
Qed.

Lemma lseek_fds_inv fd off whence s r s' :
  coherent s -> callbacks_set s -> parts_ok s -> fds_inv s ->
  mfat_lseek fd off whence s = Some (r, s') -> fds_inv s'.
Proof.
  intros Hcoh [[dev Hdev] _] Hparts Hinv H. unfold mfat_lseek in H.
  apply bind_Some in H as (x & s0 & Hx & H).
  apply get_ctx_Some in Hx as [-> ->].
  destruct (initialized s =? 0).
  { apply ret_Some in H as [_ ->]. exact Hinv. }
  apply bind_Some in H as (g & s0 & Hg & H).
  destruct g as [fd'|]; cbn beta iota in H.
  2:{ apply read_only_get_file in Hg. subst s0.
      apply ret_Some in H as [_ ->]. exact Hinv. }
  apply get_file_Some in Hg as (-> & -> & f & Hf & Hopen).
  assert (Hok : fd_ok s f).
  { apply arr_get_lookup in Hf as [Hf' _]. eapply Hinv; eauto. }
  eapply lseek_impl_spec in H as [_ [[_ Hfr]|(_ & s3 & c & Hfr & -> & Hok')]];
    eauto.
  - eapply fds_inv_of_frame; eauto.
  - apply fds_inv_update with (s := s); auto.
Qed.

Lemma close_fds_inv fd s r s' :
  fds_inv s -> mfat_close fd s = Some (r, s') -> fds_inv s'.
Proof.
  intros Hinv H. unfold mfat_close in H.
  apply bind_Some in H as (x & s0 & Hx & H).
  apply get_ctx_Some in Hx as [-> ->].
  destruct (initialized s =? 0).
  { apply ret_Some in H as [_ ->]. exact Hinv. }
  apply bind_Some in H as (g & s0 & Hg & H).
  destruct g as [fd'|]; cbn beta iota in H.
  2:{ apply read_only_get_file in Hg. subst s0.
      apply ret_Some in H as [_ ->]. exact Hinv. }
  apply get_file_Some in Hg as (-> & -> & f & Hf & Hopen).
  unfold _mfat_close_impl in H.
  apply bind_Some in H as (f0 & s0 & Hf0 & H).
  apply get_file_at_Some in Hf0 as [-> _].
  apply bind_Some in H as (u & s1 & Hsync & H).
  assert (Hfr : same_but_caches s s1).
  { destruct (negb _).
    - eapply sync_impl_frame; eauto.
    - apply ret_Some in Hsync as [_ ->]. apply same_but_caches_refl. }
  apply bind_Some in H as (u2 & s2 & Hput & H).
  apply modify_Some in Hput. subst s2.
  apply ret_Some in H as [_ ->].
  apply fds_inv_update with (s := s); auto. cbn. intros Hc. contradiction Hc. reflexivity.
Qed.

Lemma open_fds_inv path flags s r s' :
  fds_inv s -> mfat_open path flags s = Some (r, s') -> fds_inv s'.
Proof.
  intros Hinv H. unfold mfat_open in H.
  apply bind_Some in H as (x & s0 & Hx & H).
  apply get_ctx_Some in Hx as [-> ->].
  destruct (_ || _).
  { apply ret_Some in H as [_ ->]. exact Hinv. }
  destruct path as [path|].
  2:{ apply ret_Some in H as [_ ->]. exact Hinv. }
  destruct (_ =? 0).
  { apply ret_Some in H as [_ ->]. exact Hinv. }
  unfold _mfat_open_impl in H.
  apply bind_Some in H as (x & s0 & Hx & H).
  apply get_ctx_Some in Hx as [-> ->].
  destruct (Z.geb_spec (find_free_fd (file s) 0) (Z.of_nat MFAT_NUM_FDS)).
  { apply ret_Some in H as [_ ->]. exact Hinv. }
  apply bind_Some in H as (res & s1 & Hfind & H).
  pose proof (find_file_frame _ _ _ _ _ Hfind) as Hfr.
  destruct res as [[[info d] e]|]; cbn beta iota in H.
  2:{ apply ret_Some in H as [_ ->]. eapply fds_inv_of_frame; eauto. }
  apply find_file_size in Hfind.
  apply bind_Some in H as (f0 & s2 & Hf0 & H).
  apply get_file_at_Some in Hf0 as [-> Hf0].
  apply bind_Some in H as (u & s2 & Hput & H).
  apply modify_Some in Hput. subst s2.
  assert (Hfree : open f0 = 0).
  { destruct (find_free_fd_spec (file s) 0) as [_ Hfree]. apply Hfree.
    apply arr_get_lookup in Hf0 as [Hf0 _].
    assert (Hfs : file s1 = file s) by apply Hfr.
    rewrite Hfs in Hf0. rewrite Z.sub_0_r. exact Hf0. }
  assert (Hinv2 : fds_inv
            (set_file (<[Z.to_nat (find_free_fd (file s) 0) :=
                           mk_file (open f0) (oflag f0) (offset f0)
                                   (current_cluster f0) info]> (file s1)) s1)).
  { apply fds_inv_update with (s := s); auto. cbn. intros Hc. contradiction. }
  destruct (negb (d =? 0)).
  { apply ret_Some in H as [_ ->]. exact Hinv2. }
  destruct (e =? 0).
  { destruct (negb _); apply ret_Some in H as [_ ->]; exact Hinv2. }
  apply bind_Some in H as (u2 & s3 & Hput & H).
  apply modify_Some in Hput. subst s3.
  apply ret_Some in H as [_ ->].
  cbn [file set_file]. rewrite list_insert_insert_eq.
  change (fds_inv (set_file (<[Z.to_nat (find_free_fd (file s) 0) :=
                     mk_file 1 flags 0 (first_cluster info) info]> (file s1))
                     s1)).
  apply fds_inv_update with (s := s); auto. intros _.
  split; cbn; [lia|]. split; [lia|].
  intros dev part _ _. reflexivity.
Qed.


(* ------------------------------------------------------------------ *)
(** ** What [mfat_mount] establishes *)

(** Sequencing when what the first computation returns matters to the
    second. *)
Lemma preserves_bind_post {A B} (P : mfat_ctx_t -> Prop) (Q : A -> Prop)
    (m : M A) (k : A -> M B) :
  (forall s a s', P s -> m s = Some (a, s') -> P s' /\ Q a) ->
  (forall a, Q a -> preserves P (k a)) ->
  preserves P (x <- m ;; k x).
Proof.
  intros Hm Hk s b s' HP H.
  apply bind_Some in H as (a & s1 & H1 & H2).
  destruct (Hm _ _ _ HP H1) as [HP1 HQ]. eapply Hk; eauto.
Qed.

Lemma parts_ok_get_partition i s p s' :
  parts_ok s -> get_partition i s = Some (p, s') ->
  parts_ok s' /\ cluster_size_ok p.
Proof.
  intros Hp H. apply get_partition_Some in H as [-> H].
  split; [exact Hp|]. eapply parts_ok_arr_get; eauto.
Qed.

Lemma parts_ok_put_partition i p :
  cluster_size_ok p -> preserves parts_ok (put_partition i p).
Proof.
  intros Hok. apply preserves_modify. intros s Hp j q Hj.
  cbn [partition set_partition] in Hj.
  destruct (decide (j = Z.to_nat i)) as [->|Hne].
  - assert (Z.to_nat i < length (partition s))%nat.
    { apply lookup_lt_Some in Hj. rewrite length_insert in Hj. exact Hj. }
    rewrite list_lookup_insert_eq in Hj by assumption.
    inversion Hj; subst q. exact Hok.
  - rewrite list_lookup_insert_ne in Hj by auto. eapply Hp; eauto.
Qed.

Lemma parts_ok_read_block blk ct :
  preserves parts_ok (_mfat_read_block blk ct).
Proof.
  intros s a s' Hp H.
  apply (frame_read_block s) in H; [|apply same_but_caches_refl].
  destruct (same_config_of_frame _ _ H) as (_ & _ & Hpart).
  intros i p Hi. rewrite Hpart in Hi. eapply Hp; eauto.
Qed.

#[local] Hint Resolve parts_ok_read_block : pres.

Lemma parts_ok_decode_gpt_entries n i num size eb eo b :
  preserves parts_ok (decode_gpt_entries n i num size eb eo b).
Proof.
  revert i eb eo b. induction n as [|n IH]; intros i eb eo b; simpl.
  - apply preserves_ret.
  - destruct (negb (i <? num)); [apply preserves_ret|].
    apply preserves_bind; [pres|]. intros [[[block eb'] eo']|]; [|pres].
    apply preserves_bind; [pres|]. intros cb.
    destruct (negb _); [pres|].
    apply preserves_bind_post with (Q := cluster_size_ok).
    { intros s p s'. apply parts_ok_get_partition. }
    intros part Hpart. apply preserves_bind; [|intros; apply IH].
    apply parts_ok_put_partition.
    destruct (_mfat_is_fat_part_guid _ _); exact Hpart.
Qed.

Lemma parts_ok_decode_gpt : preserves parts_ok _mfat_decode_gpt.
Proof.
  unfold _mfat_decode_gpt.
  apply preserves_bind; [pres|]. intros [p|]; [|pres].
  apply preserves_bind; [pres|]. intros cb.
  destruct (negb _); [pres|]. apply parts_ok_decode_gpt_entries.
Qed.

Lemma parts_ok_decode_mbr_entries n i buf found :
  preserves parts_ok (decode_mbr_entries n i buf found).
Proof.
  revert i found. induction n as [|n IH]; intros i found; simpl.
  - apply preserves_ret.
  - apply preserves_bind_post with (Q := cluster_size_ok).
    { intros s p s'. apply parts_ok_get_partition. }
    intros part Hpart. apply preserves_bind; [|intros; apply IH].
    apply parts_ok_put_partition.
    destruct (_mfat_is_fat_part_id _); exact Hpart.
Qed.

Lemma parts_ok_decode_mbr : preserves parts_ok _mfat_decode_mbr.
Proof.
  unfold _mfat_decode_mbr.
  apply preserves_bind; [pres|]. intros [p|]; [|pres].
  apply preserves_bind; [pres|]. intros cb.
  destruct (_ && _); [|pres]. apply parts_ok_decode_mbr_entries.
Qed.

Lemma parts_ok_decode_tableless : preserves parts_ok _mfat_decode_tableless.
Proof.
  apply preserves_modify. intros s _ i p Hi.
  cbn [partition set_partition] in Hi.
  assert (Hz : cluster_size_ok p); [|exact Hz].
  destruct i as [|i].
  - destruct (length (partition s)); [discriminate|].
    inversion Hi. cbv. split; [discriminate|reflexivity].
  - assert (Hi' : replicate (length (partition s)) zero_partition !! S i
                  = Some p).
    { rewrite list_lookup_insert_ne in Hi by lia. exact Hi. }
    apply lookup_replicate in Hi' as [-> _].
    cbv. split; [discriminate|reflexivity].
Qed.

(** The record [decode_bpb] hands back has a cluster size read from one
    byte of the BPB, or the one it had. *)
Lemma parts_ok_decode_bpb i s r s' :
  parts_ok s -> decode_bpb i s = Some (r, s') ->
  parts_ok s' /\ match r with
                 | Some p => cluster_size_ok p
                 | None => True
                 end.
Proof.
  intros Hp H. unfold decode_bpb in H.
  apply bind_Some in H as (part & s0 & Hget & H).
  destruct (parts_ok_get_partition _ _ _ _ Hp Hget) as [Hp0 Hpart].
  clear Hget Hp.
  destruct (type part =? MFAT_TYPE_UNKNOWN).
  { apply ret_Some in H as [-> ->]. auto. }
  apply bind_Some in H as (rb & s1 & Hrb & H).
  apply parts_ok_read_block in Hrb; [|exact Hp0].
  destruct rb as [p|]; [|apply ret_Some in H as [-> ->]; auto].
  apply bind_Some in H as (cb & s2 & Hcb & H).
  apply read_only_get_block in Hcb. subst s2.
  cbv zeta in H.
  pose proof (byte_at_range (buf cb) 13) as Hb.
  repeat match type of H with
         | (if ?c then _ else _) _ = _ => destruct c
         end;
    try discriminate H;
    apply ret_Some in H as [-> ->]; (split; [exact Hrb|]);
    repeat match goal with
           | |- context [if ?c then with_type _ _ else _] => destruct c
           end;
    first [exact Hpart | exact Hb].
Qed.

Lemma parts_ok_decode_bpbs n i : preserves parts_ok (decode_bpbs n i).
Proof.
  revert i. induction n as [|n IH]; intros i; simpl.
  - apply preserves_ret.
  - apply preserves_bind_post
      with (Q := fun r => match r with
                          | Some p => cluster_size_ok p
                          | None => True
                          end).
    { intros s r s'. apply parts_ok_decode_bpb. }
    intros [p|] Hr; [|pres].
    apply preserves_bind; [|intros; apply IH].
    apply parts_ok_put_partition, Hr.
Qed.

Lemma parts_ok_decode_partition_tables :
  preserves parts_ok _mfat_decode_partition_tables.
Proof.
  unfold _mfat_decode_partition_tables.
  apply preserves_bind; [apply parts_ok_decode_gpt|]. intros found.
  apply preserves_bind.
  { destruct (negb found); [apply parts_ok_decode_mbr|pres]. }
  intros found'. apply preserves_bind; [|intros; apply parts_ok_decode_bpbs].
  destruct (negb found'); [apply parts_ok_decode_tableless|pres].
Qed.

Lemma mount_ctx_parts_ok r w : parts_ok (mount_ctx r w).
Proof.
  intros i p Hi. cbn [partition mount_ctx] in Hi.
  apply list_elem_of_lookup_2 in Hi.
  assert (Hz : p = zero_partition).
  { revert Hi. vm_compute partition. intros Hi.
    repeat (apply elem_of_cons in Hi as [Hi|Hi]; [exact Hi|]).
    apply elem_of_nil in Hi. destruct Hi. }
  subst p. cbv. split; [discriminate|reflexivity].
Qed.

Lemma mount_parts_ok r w s0 s :
  mfat_mount r w s0 = Some (0, s) -> parts_ok s.
Proof.
  intros H. apply mount_cases in H as [[H _]|[(s2 & H & _)|(s2 & Hdec & H)]];
    try discriminate H.
  apply parts_ok_decode_partition_tables in Hdec; [|apply mount_ctx_parts_ok].
  cbv zeta in H. destruct H as [(_ & H & _)|(_ & _ & ->)]; [discriminate H|].
  exact Hdec.
Qed.

Lemma mount_all_closed r w s0 s :
  mfat_mount r w s0 = Some (0, s) -> all_closed s.
Proof.
  intros H.
  enough (Hm : all_closed s \/ s = s0 /\ 0 = -1)
    by (destruct Hm as [Hm|[_ Hm]]; [exact Hm|discriminate Hm]).
  eapply (mount_establishes all_closed); [| | | | | |exact H].
  - intros blk ct a x b Ha Hrun.
    apply (frame_read_block a) in Hrun; [|apply same_but_caches_refl].
    intros fd f Hf. replace (file b) with (file a) in Hf by (symmetry; apply Hrun).
    eapply Ha; eauto.
  - intros i p. apply preserves_modify. intros a Ha. exact Ha.
  - apply preserves_modify. intros a Ha. exact Ha.
  - intros v a Ha. exact Ha.
  - intros v a Ha. exact Ha.
  - intros rf wf fd f Hf. cbn [file mount_ctx] in Hf.
    apply list_elem_of_lookup_2 in Hf. revert Hf. vm_compute file. intros Hf.
    repeat (apply elem_of_cons in Hf as [Hf|Hf]; [subst f; reflexivity|]).
    apply elem_of_nil in Hf. destruct Hf.
Qed.

Lemma all_closed_fds_inv s : all_closed s -> fds_inv s.
Proof. intros H fd f Hf Hopen. contradiction Hopen. eapply H; eauto. Qed.

Lemma reachable_callbacks_set s : reachable s -> callbacks_set s.
Proof.
  assert (Hfr : forall a b, same_but_caches a b ->
                            callbacks_set a -> callbacks_set b).
  { intros a b Hab [[d Hr] [w Hw]]. apply same_config_of_frame in Hab.
    destruct Hab as (Hr' & Hw' & _).
    split; [exists d|exists w]; congruence. }
  apply reachable_holds.
  - apply read_block_preserves_frame. exact Hfr.
  - intros a u b Ha Hrun. apply sync_impl_frame in Hrun. eapply Hfr; eauto.
  - intros fd f. apply preserves_modify. intros a Ha. exact Ha.
  - intros i p. apply preserves_modify. intros a Ha. exact Ha.
  - apply preserves_modify. intros a Ha. exact Ha.
  - intros v a Ha. exact Ha.
  - intros v a Ha. exact Ha.
  - intros rf wf. split; eexists; reflexivity.
Qed.


(* ------------------------------------------------------------------ *)
(** ** The invariant of a mounted volume *)

Lemma fds_inv_read_block blk ct : preserves fds_inv (_mfat_read_block blk ct).
Proof.
  intros s a s' Hinv H.
  apply (frame_read_block s) in H; [|apply same_but_caches_refl].
  eapply fds_inv_of_frame; eauto.
Qed.

Lemma fds_inv_sync : preserves fds_inv _mfat_sync_impl.
Proof.
  intros s a s' Hinv H. apply sync_impl_frame in H.
  eapply fds_inv_of_frame; eauto.
Qed.

Lemma fds_inv_set_active v s : fds_inv s -> fds_inv (set_active_partition v s).
Proof. apply fds_inv_frame; reflexivity. Qed.

Lemma fds_inv_set_initialized v s : fds_inv s -> fds_inv (set_initialized v s).
Proof. apply fds_inv_frame; reflexivity. Qed.

Lemma non_mount_fds_inv c s r s' :
  (forall rf wf, c <> call_mount rf wf) ->
  coherent s -> callbacks_set s -> parts_ok s -> fds_inv s ->
  run_api c s = Some (r, s') -> fds_inv s'.
Proof.
  intros Hc Hcoh Hcb Hp Hinv H. destruct c; cbn [run_api] in H.
  - exfalso. eapply Hc. reflexivity.
  - apply bind_Some in H as (u & s1 & H & Hret).
    apply ret_Some in Hret as [_ ->].
    eapply (preserves_unmount fds_inv); [..|exact Hinv|exact H];
      auto using fds_inv_sync, fds_inv_set_initialized.
  - eapply (preserves_select_partition fds_inv); [..|exact Hinv|exact H];
      auto using fds_inv_set_active.
  - apply bind_Some in H as (u & s1 & H & Hret).
    apply ret_Some in Hret as [_ ->].
    eapply (preserves_sync fds_inv); [..|exact Hinv|exact H];
      auto using fds_inv_sync.
  - apply bind_Some in H as (u & s1 & H & Hret).
    apply ret_Some in Hret as [_ ->].
    eapply (preserves_fstat fds_inv); [..|exact Hinv|exact H];
      auto using fds_inv_read_block.
  - apply bind_Some in H as (u & s1 & H & Hret).
    apply ret_Some in Hret as [_ ->].
    eapply (preserves_stat fds_inv); [..|exact Hinv|exact H];
      auto using fds_inv_read_block.
  - eapply open_fds_inv; eauto.
  - eapply close_fds_inv; eauto.
  - apply bind_Some in H as (u & s1 & H & Hret).
    apply ret_Some in Hret as [_ ->].
    eapply read_fds_inv; [apply u32_range| | | | |exact H]; assumption.
  - eapply (preserves_write fds_inv); [..|exact Hinv|exact H].
  - eapply lseek_fds_inv; eauto.
Qed.

Lemma reachable_mounted_inv s : reachable s -> mounted_inv s.
Proof.
  intros Hreach.
  split; [apply reachable_caches_inv, Hreach|].
  split; [apply reachable_coherent, Hreach|].
  split; [apply reachable_callbacks_set, Hreach|].
  induction Hreach as [s0 r w s H|s c rv s' Hreach [Hp Hf] Hc H].
  - split; [eapply mount_parts_ok, H|].
    eapply all_closed_fds_inv, mount_all_closed, H.
  - split.
    + apply non_mount_same_config in H as (_ & _ & Hpart); [|exact Hc].
      intros i p Hi. rewrite Hpart in Hi. eapply Hp, Hi.
    + eapply non_mount_fds_inv; eauto using reachable_coherent,
        reachable_callbacks_set.
Qed.

(** C2: in every state reached from a successful mount, an open file
    descriptor has its offset within the file and its current cluster
    is the first cluster of the file walked
    [offset / (blocks_per_cluster * 512)] times along the FAT chain on
    the device; and every call other than a mount ([mfat_open],
    [mfat_read] and [mfat_lseek] among them) leads from such a state to
    a state where this holds again. *)
Theorem current_cluster_follows_chain :
  (forall s fd f dev part,
     reachable s ->
     file s !! fd = Some f -> open f <> 0 ->
     read s = Some dev ->
     arr_get (partition s) (part_no (info f)) = Some part ->
     0 <= offset f <= size (info f) /\
     walk dev part
       (Z.to_nat (offset f / (blocks_per_cluster part * 512)))
       (first_cluster (info f)) = Some (current_cluster f)) /\
  (forall s c r s',
     reachable s -> (forall rf wf, c <> call_mount rf wf) ->
     run_api c s = Some (r, s') -> fds_inv s').
Proof.
  split.
  - intros s fd f dev part Hreach Hf Hopen Hdev Hpart.
    destruct (reachable_mounted_inv s Hreach) as (_ & _ & _ & _ & Hinv).
    destruct (Hinv fd f Hf Hopen) as (Hoff & _ & Hwalk).
    split; [exact Hoff|]. apply (Hwalk dev part Hdev Hpart).
  - intros s c r s' Hreach Hc H.
    apply (reachable_mounted_inv s'). eapply reachable_call; eauto.
Qed.

Lemma chain_mounted_reachable : reachable chain_mounted.
Proof.
  apply (reachable_mount zero_ctx (Some chain_disk) (Some accept_writes)).
  vm_compute. reflexivity.
Qed.

Lemma chain_opened_reachable : reachable chain_opened.
Proof.
  apply (reachable_call chain_mounted
           (call_open (Some (text "/HELLO.TXT")) MFAT_O_RDONLY) 0).
  - apply chain_mounted_reachable.
  - discriminate.
  - vm_compute. reflexivity.
Qed.

Lemma chain_read_reachable : reachable chain_read.
Proof.
  apply (reachable_call chain_opened (call_read_file 0 600) 600).
  - apply chain_opened_reachable.
  - discriminate.
  - vm_compute. reflexivity.
Qed.

Lemma current_cluster_follows_chain_witness :
  offset chain_file = 600 /\ current_cluster chain_file = 3 /\
  walk chain_disk chain_part
    (Z.to_nat (offset chain_file / (blocks_per_cluster chain_part * 512)))
    (first_cluster (info chain_file)) = Some (current_cluster chain_file).
Proof.
  split; [vm_compute; reflexivity|]. split; [vm_compute; reflexivity|].
  apply (proj1 current_cluster_follows_chain chain_read 0%nat chain_file
           chain_disk chain_part).
  - apply chain_read_reachable.
  - vm_compute. reflexivity.
  - vm_compute. discriminate.
  - vm_compute. reflexivity.
  - vm_compute. reflexivity.
Defined.


(* ------------------------------------------------------------------ *)
(** ** Termination and success on a device that never fails *)

Lemma bind_eq {A B} (m : M A) (k : A -> M B) s a s1 :
  m s = Some (a, s1) -> (x <- m ;; k x) s = k a s1.
Proof. intros H. unfold bind. rewrite H. reflexivity. Qed.



(** A loop whose body always returns, and lowers a non-negative measure
    below [2 ^ k] each time it asks for another iteration, returns. *)
Lemma loop_pow2_total {S R : Type} (I : S -> mfat_ctx_t -> Prop)
    (Q : R -> mfat_ctx_t -> Prop) (mu : S -> Z) (body : S -> M (S + R)) :
  (forall st s, I st s ->
     exists x s', body st s = Some (x, s') /\
       match x with
       | inl st' => I st' s' /\ 0 <= mu st' < mu st
       | inr r => Q r s'
       end) ->
  forall k st s, I st s ->
    exists x s', loop_pow2 k body st s = Some (x, s') /\
      match x with
      | inl st' => I st' s' /\ 0 <= mu st' <= mu st - 2 ^ Z.of_nat k
      | inr r => Q r s'
      end.
Proof.
  intros Hbody. induction k as [|k IH]; intros st s HI.
  - cbn [loop_pow2]. destruct (Hbody st s HI) as (x & s' & Hrun & Hx).
    exists x, s'. split; [exact Hrun|].
    destruct x as [st'|r]; [|exact Hx].
    split; [apply Hx|]. change (2 ^ Z.of_nat 0) with 1. lia.
  - cbn [loop_pow2]. destruct (IH st s HI) as (x & s1 & Hrun & Hx).
    rewrite (bind_eq _ _ s x s1 Hrun).
    destruct x as [st1|r]; [|exists (inr r), s1; split; [reflexivity|exact Hx]].
    destruct Hx as [HI1 Hmu1].
    destruct (IH st1 s1 HI1) as (y & s2 & Hrun2 & Hy).
    exists y, s2. split; [exact Hrun2|].
    destruct y as [st2|r]; [|exact Hy].
    split; [apply Hy|]. rewrite Nat2Z.inj_succ, Z.pow_succ_r by lia. lia.
Qed.

Lemma loop_upto_total {S R : Type} (I : S -> mfat_ctx_t -> Prop)
    (Q : R -> mfat_ctx_t -> Prop) (mu : S -> Z) (body : S -> M (S + R)) k :
  (forall st s, I st s ->
     exists x s', body st s = Some (x, s') /\
       match x with
       | inl st' => I st' s' /\ 0 <= mu st' < mu st
       | inr r => Q r s'
       end) ->
  forall st s, I st s -> mu st < 2 ^ Z.of_nat k ->
    exists r s', loop_upto k body st s = Some (r, s') /\ Q r s'.
Proof.
  intros Hbody st s HI Hmu.
  destruct (loop_pow2_total I Q mu body Hbody k st s HI) as (x & s' & Hrun & Hx).
  unfold loop_upto. rewrite (bind_eq _ _ s x s' Hrun).
  destruct x as [st'|r]; [lia|].
  exists r, s'. split; [reflexivity|exact Hx].
Qed.

Lemma while_loop_total {S R : Type} (I : S -> mfat_ctx_t -> Prop)
    (Q : R -> mfat_ctx_t -> Prop) (mu : S -> Z) (body : S -> M (S + R)) :
  (forall st s, I st s ->
     exists x s', body st s = Some (x, s') /\
       match x with
       | inl st' => I st' s' /\ 0 <= mu st' < mu st
       | inr r => Q r s'
       end) ->
  forall st s, I st s -> mu st < 2 ^ 32 ->
    exists r s', while_loop body st s = Some (r, s') /\ Q r s'.
Proof.
  intros Hbody st s HI Hmu. unfold while_loop.
  apply (loop_upto_total I Q mu body 32 Hbody st s HI). exact Hmu.
Qed.

(** What the chain condition gives at a cursor that stands at block [B]. *)
Lemma chain_not_eoc dev part first o n cpos B :
  0 < blocks_per_cluster part -> 0 <= B ->
  chain_covers dev part first o n ->
  cursor_at dev part first cpos B -> B * 512 < o + n ->
  _mfat_is_eoc (cluster_no cpos) = false.
Proof.
  intros Hbpc HB Hchain [Hwalk _] Hlt.
  unfold chain_covers, bytes_per_cluster in Hchain.
  change MFAT_BLOCK_SIZE with 512 in Hchain.
  pose proof (Z.div_mod B (blocks_per_cluster part) ltac:(lia)) as Hdm.
  pose proof (Z.mod_pos_bound B (blocks_per_cluster part) Hbpc) as Hmod.
  assert (Hk : B / blocks_per_cluster part * (blocks_per_cluster part * 512)
               < o + n) by nia.
  destruct (Hchain (B / blocks_per_cluster part)) as (c & Hc & Heoc).
  - apply Z.div_pos; lia.
  - apply Z.div_le_lower_bound; [lia|]. lia.
  - rewrite Hwalk in Hc. inversion Hc; subst c. apply Heoc, Hk.
Qed.

Lemma chain_has_next dev part first o n cpos B :
  0 < blocks_per_cluster part -> 0 <= B ->
  chain_covers dev part first o n ->
  cursor_at dev part first cpos B -> (B + 1) * 512 <= o + n ->
  B mod blocks_per_cluster part + 1 = blocks_per_cluster part ->
  fat_next dev part (cluster_no cpos) <> None.
Proof.
  intros Hbpc HB Hchain [Hwalk _] Hle Hlast.
  unfold chain_covers, bytes_per_cluster in Hchain.
  change MFAT_BLOCK_SIZE with 512 in Hchain.
  pose proof (Z.div_mod B (blocks_per_cluster part) ltac:(lia)) as Hdm.
  assert (Hq : 0 <= B / blocks_per_cluster part) by (apply Z.div_pos; lia).
  destruct (Hchain (B / blocks_per_cluster part + 1)) as (c & Hc & _).
  - lia.
  - apply Z.div_le_lower_bound; [lia|]. nia.
  - replace (Z.to_nat (B / blocks_per_cluster part + 1))
      with (S (Z.to_nat (B / blocks_per_cluster part))) in Hc by lia.
    cbn [walk] in Hc. rewrite Hwalk in Hc. rewrite Hc. discriminate.
Qed.



(* ------------------------------------------------------------------ *)
(** ** The size of a read *)

Lemma reachable_num_fds s : reachable s -> length (file s) = MFAT_NUM_FDS.
Proof.
  apply (reachable_holds (fun s => length (file s) = MFAT_NUM_FDS)).
  - intros blk ct a x b Ha Hrun.
    apply (frame_read_block a) in Hrun; [|apply same_but_caches_refl].
    replace (file b) with (file a) by (symmetry; apply Hrun). exact Ha.
  - intros a x b Ha Hrun. apply sync_impl_frame in Hrun.
    replace (file b) with (file a) by (symmetry; apply Hrun). exact Ha.
  - intros fd f. apply preserves_modify. intros a Ha.
    cbn [file set_file]. rewrite length_insert. exact Ha.
  - intros i p. apply preserves_modify. intros a Ha. exact Ha.
  - apply preserves_modify. intros a Ha. exact Ha.
  - intros v a Ha. exact Ha.
  - intros v a Ha. exact Ha.
  - intros rf wf. reflexivity.
Qed.

Lemma short_mounted_reachable : reachable short_mounted.
Proof.
  apply (reachable_mount zero_ctx (Some short_disk) (Some accept_writes)).
  vm_compute. reflexivity.
Qed.

Lemma short_opened_reachable : reachable short_opened.
Proof.
  apply (reachable_call short_mounted
           (call_open (Some (text "/HELLO.TXT")) MFAT_O_RDONLY) 0).
  - apply short_mounted_reachable.
  - discriminate.
  - vm_compute. reflexivity.
Qed.

(** C1 as worded does not hold: on a device of which every block can
    be read and whose write callback accepts every block, so that no
    call of a callback fails, a read of an open, readable descriptor
    returns [-1], not [min n (size - offset)], when the directory entry
    promises more bytes than the FAT chain of the file holds. *)
Lemma read_short_chain_counterexample :
  reachable short_opened /\
  initialized short_opened <> 0 /\
  file short_opened !! 0%nat = Some short_open_file /\
  open short_open_file <> 0 /\
  Z.land (oflag short_open_file) MFAT_O_RDONLY <> 0 /\
  read short_opened = Some short_disk /\
  write short_opened = Some accept_writes /\
  (forall blk, short_disk blk <> None) /\
  (forall data blk, accept_writes data blk = 0) /\
  Z.min 1300 (size (info short_open_file) - offset short_open_file) = 1300 /\
  exists data s', mfat_read 0 1300 short_opened = Some ((-1, data), s').
Proof.
  split; [apply short_opened_reachable|].
  split; [vm_compute; discriminate|].
  split; [vm_compute; reflexivity|].
  split; [vm_compute; discriminate|].
  split; [vm_compute; discriminate|].
  split; [vm_compute; reflexivity|].
  split; [vm_compute; reflexivity|].
  split.
  { intros blk. unfold short_disk, chain_disk.
    repeat destruct (_ =? _); discriminate. }
  split; [reflexivity|].
  split; [vm_compute; reflexivity|].
  destruct (mfat_read 0 1300 short_opened) as [[[r data] s']|] eqn:E.
  - exists data, s'. revert E. vm_compute. intros E. inversion E. reflexivity.
  - exfalso. revert E. vm_compute. discriminate.
Qed.

(* ------------------------------------------------------------------ *)
(** ** The codec of little-endian integers *)

Lemma lor_shiftl_add a b n :
  0 <= n -> 0 <= a < 2 ^ n -> 0 <= b -> Z.lor a (Z.shiftl b n) = a + b * 2 ^ n.
Proof.
  intros Hn Ha Hb.
  assert (Hland : Z.land a (Z.shiftl b n) = 0).
  { apply Z.bits_inj'. intros k Hk. rewrite Z.land_spec, Z.bits_0.
    destruct (Z.lt_ge_cases k n) as [Hlt|Hge].
    - rewrite Z.shiftl_spec_low by lia. apply andb_false_r.
    - replace a with (a mod 2 ^ n) by (apply Z.mod_small; lia).
      rewrite Z.mod_pow2_bits_high by lia. reflexivity. }
  pose proof (Z.add_lor_land a (Z.shiftl b n)) as Hadd.
  rewrite Hland, Z.shiftl_mul_pow2 in Hadd by lia.
  rewrite Z.shiftl_mul_pow2 by lia. lia.
Qed.

Lemma get_word_dword_value buf i :
  _mfat_get_word buf i = byte_at buf i + 256 * byte_at buf (i + 1) /\
  _mfat_get_dword buf i
  = byte_at buf i + 256 * byte_at buf (i + 1)
    + 65536 * byte_at buf (i + 2) + 16777216 * byte_at buf (i + 3).
Proof.
  pose proof (byte_at_range buf i) as H0.
  pose proof (byte_at_range buf (i + 1)) as H1.
  pose proof (byte_at_range buf (i + 2)) as H2.
  pose proof (byte_at_range buf (i + 3)) as H3.
  unfold _mfat_get_word, _mfat_get_dword.
  rewrite (lor_shiftl_add (byte_at buf i) (byte_at buf (i + 1)) 8) by lia.
  change (2 ^ 8) with 256. split; [lia|].
  rewrite (lor_shiftl_add _ (byte_at buf (i + 2)) 16) by lia.
  rewrite (lor_shiftl_add _ (byte_at buf (i + 3)) 24) by lia.
  lia.
Qed.

Lemma get_word_dword_range buf i :
  0 <= _mfat_get_word buf i < 2 ^ 16 /\ 0 <= _mfat_get_dword buf i < 2 ^ 32.
Proof.
  destruct (get_word_dword_value buf i) as [-> ->].
  pose proof (byte_at_range buf i). pose proof (byte_at_range buf (i + 1)).
  pose proof (byte_at_range buf (i + 2)). pose proof (byte_at_range buf (i + 3)).
  lia.
Qed.

(** [_mfat_get_word] and [_mfat_get_dword] decode little-endian: the
    byte at the lowest address is the least significant one, and the
    values are within 16 and 32 bits. *)
Theorem get_word_dword_little_endian buf i :
  _mfat_get_word buf i = byte_at buf i + 256 * byte_at buf (i + 1) /\
  _mfat_get_dword buf i
  = byte_at buf i + 256 * byte_at buf (i + 1)
    + 65536 * byte_at buf (i + 2) + 16777216 * byte_at buf (i + 3) /\
  0 <= _mfat_get_word buf i < 2 ^ 16 /\ 0 <= _mfat_get_dword buf i < 2 ^ 32.
Proof.
  destruct (get_word_dword_value buf i) as [Hw Hd].
  destruct (get_word_dword_range buf i) as [Hwr Hdr].
  repeat split; assumption || apply Hwr || apply Hdr.
Qed.

(* ------------------------------------------------------------------ *)
(** ** Characters of 8.3 names *)

Ltac eval_chr :=
  repeat match goal with
         | |- context [chr ?b] =>
             let v := eval vm_compute in (chr b) in change (chr b) with v
         | H : context [chr ?b] |- _ =>
             let v := eval vm_compute in (chr b) in change (chr b) with v in H
         end.

(** [_mfat_canonicalize_char] maps every [int] to a printable ASCII
    character that is not a path separator, a dot, a space or a
    lower-case letter, and maps its own results to themselves. *)
Theorem canonicalize_char_image c :
  let r := _mfat_canonicalize_char c in
  33 <= r <= 126 /\
  r <> chr "." /\ r <> chr "/" /\ r <> chr "\" /\
  ~ (chr "a" <= r <= chr "z") /\
  _mfat_canonicalize_char r = r.
Proof.
  cbv zeta. unfold _mfat_canonicalize_char. eval_chr.
  match goal with
  | |- context [if ?v then c else _] => destruct v eqn:V
  end.
  - rewrite V.
    rewrite !orb_true_iff, !andb_true_iff, !Z.geb_le, !Z.leb_le, !Z.eqb_eq in V.
    lia.
  - destruct ((c >=? 97) && (c <=? 122)) eqn:L.
    + rewrite andb_true_iff, Z.geb_le, Z.leb_le in L.
      destruct (Z.geb_spec (c - 97 + 65) 65); [|lia].
      destruct (Z.leb_spec (c - 97 + 65) 90); [|lia].
      cbn [andb orb]. lia.
    + cbn. lia.
Qed.

(* ------------------------------------------------------------------ *)
(** ** The decoding of a directory entry *)

(** What [_mfat_dir_entry_to_stat] reports lies within the bit fields
    of the entry: the time fields are below 32, 64 and 64 (seconds
    even), the date within [1980, 2107], 16 and 32; the mode always
    holds the six read and execute bits, exactly one of [S_IFDIR] and
    [S_IFREG] (by the directory attribute), and the three write bits
    exactly when the read-only attribute is clear. *)
Theorem dir_entry_to_stat_ranges buf e :
  let st := _mfat_dir_entry_to_stat buf e in
  let t := st_mtim st in
  let attr := byte_at buf (e + 11) in
  0 <= hour t < 32 /\ 0 <= minute t < 64 /\
  0 <= second t <= 62 /\ second t mod 2 = 0 /\
  1980 <= year t <= 2107 /\ 0 <= month t < 16 /\ 0 <= day t < 32 /\
  0 <= st_size st < 2 ^ 32 /\
  Z.land (st_mode st) 0x16d = 0x16d /\
  Z.land (st_mode st) 0x92
  = (if Z.land attr MFAT_ATTR_READ_ONLY =? 0 then 0x92 else 0) /\
  Z.land (st_mode st) (Z.lor MFAT_S_IFDIR MFAT_S_IFREG)
  = (if Z.land attr MFAT_ATTR_DIRECTORY =? 0 then MFAT_S_IFREG
     else MFAT_S_IFDIR).
Proof.
  cbv zeta. unfold _mfat_dir_entry_to_stat. cbn [st_mtim st_mode st_size
    hour minute second year month day].
  destruct (get_word_dword_range buf (e + 22)) as [Ht _].
  destruct (get_word_dword_range buf (e + 24)) as [Hd _].
  destruct (get_word_dword_range buf (e + 28)) as [_ Hs].
  set (time := _mfat_get_word buf (e + 22)) in *.
  set (date := _mfat_get_word buf (e + 24)) in *.
  rewrite !Z.shiftr_div_pow2 by lia.
  change 15 with (Z.ones 4). change 31 with (Z.ones 5).
  change 63 with (Z.ones 6). rewrite !Z.land_ones by lia.
  change (2 ^ 11) with 2048. change (2 ^ 9) with 512. change (2 ^ 5) with 32.
  change (2 ^ 4) with 16. change (2 ^ 6) with 64. change (2 ^ 8) with 256.
  change (2 ^ 16) with 65536.
  assert (H1 : 0 <= time / 2048 < 32)
    by (split; [apply Z.div_pos; lia|apply Z.div_lt_upper_bound; lia]).
  assert (H2 : 0 <= date / 512 < 128)
    by (split; [apply Z.div_pos; lia|apply Z.div_lt_upper_bound; lia]).
  pose proof (Z.mod_pos_bound (time / 32) 64 ltac:(lia)) as H3.
  pose proof (Z.mod_pos_bound time 32 ltac:(lia)) as H4.
  pose proof (Z.mod_pos_bound (date / 32) 16 ltac:(lia)) as H5.
  pose proof (Z.mod_pos_bound date 32 ltac:(lia)) as H6.
  rewrite (Z.mod_small (time / 2048)) by lia.
  rewrite (Z.mod_small ((time / 32) mod 64)) by lia.
  rewrite (Z.mod_small (time mod 32 * 2)) by lia.
  rewrite (Z.mod_small (date / 512 + 1980)) by lia.
  rewrite (Z.mod_small ((date / 32) mod 16)) by lia.
  rewrite (Z.mod_small (date mod 32)) by lia.
  rewrite Z.mod_mul by lia.
  repeat (split; [lia|]).
  destruct (Z.land (byte_at buf (e + 11)) MFAT_ATTR_READ_ONLY =? 0),
           (Z.land (byte_at buf (e + 11)) MFAT_ATTR_DIRECTORY =? 0);
    vm_compute; repeat split.
Qed.

(* ------------------------------------------------------------------ *)
(** ** Descriptors: write, close and open *)

Lemma get_file_closed fd s :
  (forall f, arr_get (file s) fd = Some f -> open f = 0) ->
  length (file s) = MFAT_NUM_FDS ->
  _mfat_get_file fd s = Some (None, s).
Proof.
  intros Hclosed Hlen. unfold _mfat_get_file.
  destruct (Z.ltb_spec fd 0) as [|Hfd0]; [reflexivity|].
  destruct (Z.geb_spec fd (Z.of_nat MFAT_NUM_FDS)) as [|Hfd]; [reflexivity|].
  cbn [orb].
  destruct (lookup_lt_is_Some_2 (file s) (Z.to_nat fd)) as [f Hf];
    [rewrite Hlen; lia|].
  assert (Hget : arr_get (file s) fd = Some f).
  { unfold arr_get. destruct (Z.ltb_spec fd 0); [lia|exact Hf]. }
  rewrite (bind_eq _ _ s f s) by (unfold get_file_at; rewrite Hget; reflexivity).
  rewrite (Hclosed f Hget). reflexivity.
Qed.

Lemma get_file_cases fd s :
  length (file s) = MFAT_NUM_FDS ->
  _mfat_get_file fd s = Some (None, s) \/
  (_mfat_get_file fd s = Some (Some fd, s) /\
   exists f, arr_get (file s) fd = Some f /\ open f <> 0).
Proof.
  intros Hlen. unfold _mfat_get_file.
  destruct (Z.ltb_spec fd 0) as [|Hfd0]; [left; reflexivity|].
  destruct (Z.geb_spec fd (Z.of_nat MFAT_NUM_FDS)) as [|Hfd]; [left; reflexivity|].
  cbn [orb].
  destruct (lookup_lt_is_Some_2 (file s) (Z.to_nat fd)) as [f Hf];
    [rewrite Hlen; lia|].
  assert (Hget : arr_get (file s) fd = Some f).
  { unfold arr_get. destruct (Z.ltb_spec fd 0); [lia|exact Hf]. }
  rewrite (bind_eq _ _ s f s) by (unfold get_file_at; rewrite Hget; reflexivity).
  destruct (Z.eqb_spec (open f) 0); [left; reflexivity|].
  right. split; [reflexivity|]. exists f. auto.
Qed.

(** Writing is not implemented: whatever the descriptor, its open flags
    and the buffer, [mfat_write] returns [-1] and leaves the whole
    context, caches included, as it was. *)
Theorem write_never_succeeds fd data nbyte s :
  length (file s) = MFAT_NUM_FDS ->
  mfat_write fd data nbyte s = Some (-1, s).
Proof.
  intros Hlen. unfold mfat_write.
  rewrite (bind_eq _ _ s s s) by reflexivity.
  destruct (initialized s =? 0); [reflexivity|].
  destruct (get_file_cases fd s Hlen) as [Hg|(Hg & f & Hf & _)].
  - rewrite (bind_eq _ _ s None s Hg). reflexivity.
  - rewrite (bind_eq _ _ s (Some fd) s Hg). unfold _mfat_write_impl.
    rewrite (bind_eq _ _ s f s) by (unfold get_file_at; rewrite Hf; reflexivity).
    destruct (_ =? 0); reflexivity.
Qed.

Lemma write_never_succeeds_witness :
  mfat_write 0 (text "abc") 3 hello_opened = Some (-1, hello_opened).
Proof.
  apply (write_never_succeeds 0 (text "abc") 3 hello_opened). reflexivity.
Defined.

(** The outcomes of [mfat_close] on the descriptor table. *)
Lemma mfat_close_cases fd s r s' :
  length (file s) = MFAT_NUM_FDS ->
  mfat_close fd s = Some (r, s') ->
  (r = -1 /\ s' = s) \/
  (r = 0 /\
   exists f,
     arr_get (file s) fd = Some f /\ open f <> 0 /\
     file s' = <[Z.to_nat fd := mk_file 0 (oflag f) (offset f)
                                  (current_cluster f) (info f)]> (file s)).
Proof.
  intros Hlen H. unfold mfat_close in H.
  rewrite (bind_eq _ _ s s s) in H by reflexivity.
  destruct (initialized s =? 0).
  { apply ret_Some in H as [-> ->]. left. auto. }
  destruct (get_file_cases fd s Hlen) as [Hg|(Hg & f & Hf & Hopen)].
  { rewrite (bind_eq _ _ s None s Hg) in H.
    apply ret_Some in H as [-> ->]. left. auto. }
  rewrite (bind_eq _ _ s (Some fd) s Hg) in H. unfold _mfat_close_impl in H.
  rewrite (bind_eq _ _ s f s) in H
    by (unfold get_file_at; rewrite Hf; reflexivity).
  apply bind_Some in H as (u & s1 & Hsync & H).
  assert (Hfr : same_but_caches s s1).
  { destruct (negb _).
    - eapply sync_impl_frame; eauto.
    - apply ret_Some in Hsync as [_ ->]. apply same_but_caches_refl. }
  apply bind_Some in H as (u2 & s2 & Hput & H).
  apply modify_Some in Hput. subst s2.
  apply ret_Some in H as [-> ->]. right. split; [reflexivity|].
  destruct Hfr as (_ & _ & _ & _ & _ & Hfile).
  exists f. split; [exact Hf|]. split; [exact Hopen|].
  cbn [file set_file]. rewrite Hfile. reflexivity.
Qed.

(** [mfat_close] either fails and changes nothing, or returns [0] for a
    descriptor that was open, clears the open flag of that entry and
    nothing else in the descriptor table; from then on the descriptor
    number is refused by every call that takes one, a second
    [mfat_close] included. *)
Theorem close_releases_descriptor fd s r s' :
  length (file s) = MFAT_NUM_FDS ->
  mfat_close fd s = Some (r, s') ->
  (r = -1 /\ s' = s) \/
  (r = 0 /\
   (exists f,
      arr_get (file s) fd = Some f /\ open f <> 0 /\
      file s' = <[Z.to_nat fd := mk_file 0 (oflag f) (offset f)
                                   (current_cluster f) (info f)]> (file s)) /\
   (forall nbyte, mfat_read fd nbyte s' = Some ((-1, []), s')) /\
   (forall off whence, mfat_lseek fd off whence s' = Some (-1, s')) /\
   mfat_fstat fd s' = Some ((-1, None), s') /\
   mfat_close fd s' = Some (-1, s')).
Proof.
  intros Hlen H.
  destruct (mfat_close_cases fd s r s' Hlen H)
    as [Hfail|(-> & f & Hf & Hopen & Hfile)]; [left; exact Hfail|].
  right. split; [reflexivity|].
  assert (Hlen' : length (file s') = MFAT_NUM_FDS).
  { rewrite Hfile, length_insert. exact Hlen. }
  assert (Hclosed : forall g, arr_get (file s') fd = Some g -> open g = 0).
  { intros g Hg'. apply arr_get_lookup in Hg' as [Hg' _].
    rewrite Hfile, list_lookup_insert_eq in Hg'.
    - inversion Hg'. reflexivity.
    - apply arr_get_lookup in Hf as [Hf _]. eapply lookup_lt_Some, Hf. }
  pose proof (get_file_closed fd s' Hclosed Hlen') as Hnone.
  split; [exists f; auto|].
  split.
  { intros nbyte. unfold mfat_read. rewrite (bind_eq _ _ s' s' s') by reflexivity.
    destruct (initialized s' =? 0); [reflexivity|].
    rewrite (bind_eq _ _ s' None s' Hnone). reflexivity. }
  split.
  { intros off whence. unfold mfat_lseek.
    rewrite (bind_eq _ _ s' s' s') by reflexivity.
    destruct (initialized s' =? 0); [reflexivity|].
    rewrite (bind_eq _ _ s' None s' Hnone). reflexivity. }
  split.
  { unfold mfat_fstat. rewrite (bind_eq _ _ s' s' s') by reflexivity.
    destruct (initialized s' =? 0); [reflexivity|].
    rewrite (bind_eq _ _ s' None s' Hnone). reflexivity. }
  unfold mfat_close. rewrite (bind_eq _ _ s' s' s') by reflexivity.
  destruct (initialized s' =? 0); [reflexivity|].
  rewrite (bind_eq _ _ s' None s' Hnone). reflexivity.
Qed.

Lemma close_releases_descriptor_witness :
  exists s',
    mfat_close 0 hello_opened = Some (0, s') /\
    mfat_read 0 13 s' = Some ((-1, []), s') /\
    mfat_close 0 s' = Some (-1, s').
Proof.
  destruct (mfat_close 0 hello_opened) as [[r s']|] eqn:E.
  - assert (Hr : r = 0).
    { revert E. vm_compute. intros E. inversion E. reflexivity. }
    subst r. exists s'. split; [reflexivity|].
    destruct (close_releases_descriptor 0 hello_opened 0 s' eq_refl E)
      as [[Hr _]|(_ & _ & Hread & _ & _ & Hclose)]; [discriminate Hr|].
    split; [apply Hread|exact Hclose].
  - exfalso. revert E. vm_compute. discriminate.
Defined.

Lemma find_free_fd_lowest files i j f :
  files !! j = Some f -> Z.of_nat j < find_free_fd files i - i -> open f <> 0.
Proof.
  revert i j. induction files as [|f0 rest IH]; intros i j Hj Hlt.
  - rewrite lookup_nil in Hj. discriminate.
  - cbn [find_free_fd] in Hlt.
    destruct (Z.eqb_spec (open f0) 0) as [He|Hne]; [lia|].
    destruct j as [|j]; cbn in Hj.
    + inversion Hj; subst. exact Hne.
    + apply (IH (i + 1) j Hj). lia.
Qed.

(** The outcomes of [mfat_open] on the descriptor table. *)
Lemma mfat_open_cases path flags s r s' :
  mfat_open path flags s = Some (r, s') ->
  (forall fd f, file s !! fd = Some f -> open f <> 0 ->
                file s' !! fd = Some f) /\
  ((r = -1 /\
    forall fd f, file s !! fd = Some f ->
      exists f', file s' !! fd = Some f' /\ open f' = open f) \/
   (0 <= r < Z.of_nat MFAT_NUM_FDS /\
    r = find_free_fd (file s) 0 /\
    (exists f, file s !! Z.to_nat r = Some f) /\
    (exists info,
       part_no info = active_partition s /\
       file s' = <[Z.to_nat r := mk_file 1 flags 0 (first_cluster info) info]>
                   (file s)))).
Proof.
  intros H.
  assert (Hsame : forall fd f, file s !! fd = Some f ->
            exists f', file s !! fd = Some f' /\ open f' = open f)
    by (intros fd f Hf; exists f; auto).
  unfold mfat_open in H.
  rewrite (bind_eq _ _ s s s) in H by reflexivity.
  destruct (_ || _).
  { apply ret_Some in H as [-> ->]. split; [auto|]. left. auto. }
  destruct path as [path|].
  2:{ apply ret_Some in H as [-> ->]. split; [auto|]. left. auto. }
  destruct (_ =? 0).
  { apply ret_Some in H as [-> ->]. split; [auto|]. left. auto. }
  unfold _mfat_open_impl in H.
  rewrite (bind_eq _ _ s s s) in H by reflexivity. cbv zeta in H.
  destruct (find_free_fd_spec (file s) 0) as [Hrange Hfree].
  rewrite Z.sub_0_r in Hfree.
  set (fd0 := find_free_fd (file s) 0) in *.
  destruct (Z.geb_spec fd0 (Z.of_nat MFAT_NUM_FDS)) as [|Hfd].
  { apply ret_Some in H as [-> ->]. split; [auto|]. left. auto. }
  apply bind_Some in H as (res & s1 & Hfind & H).
  pose proof (find_file_frame _ _ _ _ _ Hfind) as Hfr.
  assert (Hfile : file s1 = file s) by apply Hfr.
  destruct res as [[[info d] e]|]; cbn beta iota in H.
  2:{ apply ret_Some in H as [-> ->]. rewrite Hfile. split; [auto|]. left. auto. }
  assert (Hpart : part_no info = active_partition s).
  { unfold _mfat_find_file in Hfind.
    apply bind_Some in Hfind as (part & x1 & _ & Hfind).
    apply bind_Some in Hfind as (start & x2 & _ & Hfind).
    apply bind_Some in Hfind as (rr & x3 & _ & Hfind).
    destruct rr as [st|]; [|apply ret_Some in Hfind as [Hfind _]; discriminate].
    destruct (fs_file_entry st), (fs_block st);
      try (apply ret_Some in Hfind as [Hfind _]; discriminate).
    apply bind_Some in Hfind as (cb & x4 & _ & Hfind).
    destruct (_ && _); apply ret_Some in Hfind as [Hfind _];
      inversion Hfind; reflexivity. }
  apply bind_Some in H as (f0 & s2 & Hf0 & H).
  apply get_file_at_Some in Hf0 as [-> Hf0].
  apply arr_get_lookup in Hf0 as [Hf0 _]. rewrite Hfile in Hf0.
  pose proof (Hfree f0 Hf0) as Hclosed.
  apply bind_Some in H as (u & s2 & Hput & H).
  apply modify_Some in Hput. subst s2.
  assert (Hkeep : forall f1 fd f,
            file s !! fd = Some f -> open f <> 0 ->
            <[Z.to_nat fd0 := f1]> (file s) !! fd = Some f).
  { intros f1 fd f Hf Hopen. rewrite list_lookup_insert_ne; [exact Hf|].
    intros <-. rewrite Hf0 in Hf. inversion Hf; subst. contradiction. }
  assert (Hflags : forall f1 fd f,
            open f1 = 0 -> file s !! fd = Some f ->
            exists f', <[Z.to_nat fd0 := f1]> (file s) !! fd = Some f' /\
                       open f' = open f).
  { intros f1 fd f H1 Hf. destruct (decide (fd = Z.to_nat fd0)) as [->|Hne].
    - exists f1. rewrite list_lookup_insert_eq
        by (apply lookup_lt_Some in Hf0; exact Hf0).
      split; [reflexivity|]. rewrite Hf0 in Hf. inversion Hf; subst. congruence.
    - exists f. rewrite list_lookup_insert_ne by auto. auto. }
  assert (Hfail : forall r0 x,
            ret (-1) (set_file (<[Z.to_nat fd0 :=
                        mk_file (open f0) (oflag f0) (offset f0)
                                (current_cluster f0) info]> (file s1)) s1)
            = Some (r0, x) ->
            (forall fd f, file s !! fd = Some f -> open f <> 0 ->
                          file x !! fd = Some f) /\
            ((r0 = -1 /\
              forall fd f, file s !! fd = Some f ->
                exists f', file x !! fd = Some f' /\ open f' = open f) \/
             (0 <= r0 < Z.of_nat MFAT_NUM_FDS /\
              r0 = find_free_fd (file s) 0 /\
              (exists f, file s !! Z.to_nat r0 = Some f) /\
              (exists info,
                 part_no info = active_partition s /\
                 file x = <[Z.to_nat r0 :=
                             mk_file 1 flags 0 (first_cluster info) info]>
                            (file s))))).
  { intros r0 x Hx. apply ret_Some in Hx as [-> ->]. cbn [file set_file].
    rewrite Hfile. split; [intros fd f; apply Hkeep|]. left. split; [reflexivity|].
    intros fd f. apply Hflags. exact Hclosed. }
  destruct (negb (d =? 0)); [apply Hfail, H|].
  destruct (e =? 0); [destruct (negb _); apply Hfail, H|].
  clear Hfail.
  apply bind_Some in H as (u2 & s3 & Hput & H).
  apply modify_Some in Hput. subst s3.
  apply ret_Some in H as [-> ->]. cbn [file set_file].
  rewrite list_insert_insert_eq, Hfile.
  split; [intros fd f; apply Hkeep|]. right. split; [lia|].
  split; [reflexivity|]. split; [exists f0; exact Hf0|].
  exists info. auto.
Qed.

(** [mfat_open] never touches a descriptor that is open.  It fails
    with [-1], and then every entry of the table has the open flag it
    had, or returns the lowest free descriptor number, whose entry is
    then open with the given flags, offset [0], the current cluster at
    the first cluster of the file, and a file on the active
    partition. *)
Theorem open_takes_lowest_free_descriptor path flags s r s' :
  mfat_open path flags s = Some (r, s') ->
  (forall fd f, file s !! fd = Some f -> open f <> 0 ->
                file s' !! fd = Some f) /\
  ((r = -1 /\
    forall fd f, file s !! fd = Some f ->
      exists f', file s' !! fd = Some f' /\ open f' = open f) \/
   (0 <= r < Z.of_nat MFAT_NUM_FDS /\
    (forall fd f, file s !! fd = Some f -> (fd < Z.to_nat r)%nat ->
                  open f <> 0) /\
    (exists f, file s !! Z.to_nat r = Some f /\ open f = 0) /\
    (exists info,
       part_no info = active_partition s /\
       file s' = <[Z.to_nat r := mk_file 1 flags 0 (first_cluster info) info]>
                   (file s)))).
Proof.
  intros H.
  destruct (mfat_open_cases path flags s r s' H)
    as [Hkeep [Hfail|(Hr & Hfd & [f Hf] & Hinfo)]].
  - split; [exact Hkeep|]. left. exact Hfail.
  - split; [exact Hkeep|]. right. split; [exact Hr|].
    destruct (find_free_fd_spec (file s) 0) as [_ Hfree].
    rewrite Z.sub_0_r, <- Hfd in Hfree.
    split.
    + intros fd g Hg Hlt. apply (find_free_fd_lowest (file s) 0 fd g Hg).
      rewrite <- Hfd. lia.
    + split; [exists f; split; [exact Hf|apply Hfree, Hf]|exact Hinfo].
Qed.

Lemma open_takes_lowest_free_descriptor_witness :
  exists s',
    mfat_open (Some (text "/HELLO.TXT")) MFAT_O_RDONLY hello_opened
    = Some (1, s') /\
    (forall fd f, file hello_opened !! fd = Some f -> open f <> 0 ->
                  file s' !! fd = Some f).
Proof.
  destruct (mfat_open (Some (text "/HELLO.TXT")) MFAT_O_RDONLY hello_opened)
    as [[r s']|] eqn:E.
  - assert (Hr : r = 1).
    { revert E. vm_compute. intros E. inversion E. reflexivity. }
    subst r. exists s'. split; [reflexivity|].
    apply (open_takes_lowest_free_descriptor _ _ _ _ _ E).
  - exfalso. revert E. vm_compute. discriminate.
Defined.


(* ------------------------------------------------------------------ *)
(** ** The partition table after the BPB decoding *)

Lemma decode_bpb_decoded i s r s' :
  decode_bpb i s = Some (r, s') ->
  partition s' = partition s /\
  match r with
  | Some p => decoded p
  | None => True
  end.
Proof.
  intros H. split.
  { apply (preserves_decode_bpb (same_but_caches s)) in H;
      [apply H|apply frame_read_block|apply same_but_caches_refl]. }
  unfold decode_bpb in H.
  apply bind_Some in H as (part & s0 & _ & H).
  destruct (Z.eqb_spec (type part) MFAT_TYPE_UNKNOWN) as [Hu|_].
  { apply ret_Some in H as [-> _]. left. exact Hu. }
  apply bind_Some in H as (rb & s1 & _ & H).
  destruct rb as [p|]; [|apply ret_Some in H as [-> _]; exact I].
  apply bind_Some in H as (cb & s2 & _ & H).
  cbv zeta in H.
  pose proof (byte_at_range (buf cb) 13) as Hb.
  destruct (negb (_mfat_is_valid_bpb (buf cb))).
  { apply ret_Some in H as [-> _]. left. reflexivity. }
  destruct (negb (_ =? MFAT_BLOCK_SIZE)).
  { apply ret_Some in H as [-> _]. left. reflexivity. }
  destruct (Z.eqb_spec (byte_at (buf cb) 13) 0) as [|Hnz]; [discriminate H|].
  destruct (_ <? 4085).
  { apply ret_Some in H as [-> _]. left. reflexivity. }
  assert (Hroot : 0 <= add32 (mul32 (_mfat_get_word (buf cb) 17) 32)
                         (MFAT_BLOCK_SIZE - 1) / MFAT_BLOCK_SIZE < 2 ^ 32).
  { pose proof (u32_range (mul32 (_mfat_get_word (buf cb) 17) 32
                           + (MFAT_BLOCK_SIZE - 1))) as Hu.
    unfold add32. change MFAT_BLOCK_SIZE with 512.
    change MFAT_BLOCK_SIZE with 512 in Hu.
    split; [apply Z.div_pos; lia|apply Z.div_lt_upper_bound; lia]. }
  destruct (_ <? 65525); cbn [type with_type] in H;
    match type of H with
    | (if ?c then _ else _) _ = _ => destruct c
    end;
    apply ret_Some in H as [-> _]; right;
    (split; [split; [cbn; auto|]|]);
    cbn [blocks_per_cluster blocks_in_root_dir with_root_dir_block
         with_root_dir_cluster with_type with_num_clusters];
    first [lia | exact Hroot].
Qed.

Lemma decode_bpbs_decoded n i s ok s' :
  0 <= i -> decode_bpbs n i s = Some (ok, s') ->
  length (partition s') = length (partition s) /\
  forall j p, partition s' !! j = Some p ->
    ((j < Z.to_nat i)%nat -> partition s !! j = Some p) /\
    (ok = true -> (Z.to_nat i <= j < Z.to_nat i + n)%nat -> decoded p).
Proof.
  revert i s. induction n as [|n IH]; intros i s Hi H; cbn [decode_bpbs] in H.
  - apply ret_Some in H as [-> ->]. split; [reflexivity|].
    intros j p Hj. split; [auto|lia].
  - apply bind_Some in H as (r & s1 & Hbpb & H).
    apply decode_bpb_decoded in Hbpb as [Hpart Hr].
    destruct r as [part|].
    2:{ apply ret_Some in H as [-> ->]. rewrite Hpart. split; [reflexivity|].
        intros j p Hj. split; [auto|discriminate]. }
    apply bind_Some in H as (u & s2 & Hput & H).
    apply modify_Some in Hput. subst s2.
    apply IH in H as [Hlen Hall]; [|lia].
    cbn [partition set_partition] in Hlen, Hall.
    rewrite length_insert, Hpart in Hlen. split; [exact Hlen|].
    intros j p Hj. destruct (Hall j p Hj) as [Hlow Hhigh].
    replace (Z.to_nat (i + 1)) with (S (Z.to_nat i)) in Hlow, Hhigh by lia.
    split.
    + intros Hlt. rewrite <- Hpart.
      rewrite <- (list_lookup_insert_ne (partition s1) (Z.to_nat i) j part)
        by lia.
      apply Hlow. lia.
    + intros Hok Hrange.
      destruct (decide (j = Z.to_nat i)) as [->|Hne]; [|apply Hhigh; [auto|lia]].
      assert (Hin : partition s1 !! Z.to_nat i <> None).
      { specialize (Hlow ltac:(lia)).
        destruct (partition s1 !! Z.to_nat i) eqn:E; [discriminate|].
        apply lookup_ge_None in E.
        apply lookup_lt_Some in Hlow. rewrite length_insert in Hlow. lia. }
      specialize (Hlow ltac:(lia)).
      rewrite list_lookup_insert_eq in Hlow.
      * inversion Hlow; subst p. exact Hr.
      * apply lookup_lt_Some in Hlow. rewrite length_insert in Hlow. exact Hlow.
Qed.

Lemma decode_partition_tables_decoded s s' :
  length (partition s) = MFAT_NUM_PARTITIONS ->
  _mfat_decode_partition_tables s = Some (true, s') ->
  length (partition s') = MFAT_NUM_PARTITIONS /\
  forall i p, partition s' !! i = Some p -> decoded p.
Proof.
  intros Hlen H. unfold _mfat_decode_partition_tables in H.
  set (P := fun x : mfat_ctx_t => length (partition x) = MFAT_NUM_PARTITIONS).
  assert (Hrb : forall blk ct, preserves P (_mfat_read_block blk ct)).
  { intros blk ct a x b Ha Hrun.
    apply (frame_read_block a) in Hrun; [|apply same_but_caches_refl].
    unfold P. replace (partition b) with (partition a)
      by (symmetry; apply Hrun). exact Ha. }
  assert (Hpp : forall i p, preserves P (put_partition i p)).
  { intros i p. apply preserves_modify. intros a Ha. unfold P.
    cbn [partition set_partition]. rewrite length_insert. exact Ha. }
  apply bind_Some in H as (f1 & s1 & H1 & H).
  apply (preserves_decode_gpt P Hrb Hpp) in H1; [|exact Hlen].
  apply bind_Some in H as (f2 & s2 & H2 & H).
  assert (Hl2 : P s2).
  { destruct (negb f1).
    - apply (preserves_decode_mbr P Hrb Hpp) in H2; assumption.
    - apply ret_Some in H2 as [_ ->]. exact H1. }
  apply bind_Some in H as (u & s3 & H3 & H).
  assert (Hl3 : P s3).
  { destruct (negb f2).
    - apply modify_Some in H3. subst s3. unfold P.
      cbn [partition set_partition].
      rewrite length_insert, length_replicate. exact Hl2.
    - apply ret_Some in H3 as [_ ->]. exact Hl2. }
  apply decode_bpbs_decoded in H as [Hlen' Hall]; [|lia].
  unfold P in Hl3. split; [congruence|].
  intros i p Hi. apply (Hall i p Hi); [reflexivity|].
  apply lookup_lt_Some in Hi. rewrite Hlen', Hl3 in Hi.
  change (Z.to_nat 0) with 0%nat. lia.
Qed.

Lemma first_index_fat parts j :
  (first_index is_bootable_fat parts 0 = Some j \/
   first_index is_fat parts 0 = Some j) ->
  0 <= j /\ exists p, parts !! Z.to_nat j = Some p /\
                      type p <> MFAT_TYPE_UNKNOWN.
Proof.
  intros [H|H]; apply first_index_spec in H as (Hj & (p & Hp & Hf) & _);
    (split; [exact Hj|]); exists p; (split; [exact Hp|]).
  - unfold is_bootable_fat, is_fat in Hf.
    apply andb_true_iff in Hf as [Hf _].
    apply negb_true_iff, Z.eqb_neq in Hf. exact Hf.
  - unfold is_fat in Hf. apply negb_true_iff, Z.eqb_neq in Hf. exact Hf.
Qed.

Lemma mount_volume_inv r w s0 s :
  mfat_mount r w s0 = Some (0, s) -> volume_inv s.
Proof.
  intros H. pose proof (mount_all_closed _ _ _ _ H) as Hclosed.
  apply mount_cases in H as [[H _]|[(s2 & H & _)|(s2 & Hdec & H)]];
    try discriminate H.
  cbv zeta in H. destruct H as [(_ & H & _)|(Hact & _ & ->)]; [discriminate H|].
  apply decode_partition_tables_decoded in Hdec as [Hlen Hall];
    [|destruct r, w; reflexivity].
  split; [|split].
  - split; assumption.
  - cbn [partition active_partition set_initialized set_active_partition].
    pose proof (select_boot_partition_spec (partition s2) 0 ltac:(lia)) as Hsel.
    set (act := snd (select_boot_partition (partition s2) 0 (-1) (-1))) in *.
    assert (Hfat : 0 <= act /\ exists p, partition s2 !! Z.to_nat act = Some p /\
                                         type p <> MFAT_TYPE_UNKNOWN).
    { destruct (first_index is_bootable_fat (partition s2) 0) as [j|] eqn:E1.
      - subst act. rewrite Hsel. apply first_index_fat. auto.
      - destruct (first_index is_fat (partition s2) 0) as [j|] eqn:E2.
        + rewrite Hsel. apply first_index_fat. auto.
        + lia. }
    destruct Hfat as (_ & p & Hp & Htype). exists p. split.
    + unfold arr_get. destruct (Z.ltb_spec act 0); [lia|exact Hp].
    + destruct (Hall _ _ Hp) as [Hu|[Hf _]]; [contradiction|exact Hf].
  - intros fd f Hf Hopen. exfalso. apply Hopen. eapply Hclosed; eauto.
Qed.


(** A successful [mfat_open] stores the file information that
    [_mfat_find_file] yields for the path on the active partition; the
    file exists and is not a directory. *)
Lemma mfat_open_find path flags s r s' :
  mfat_open path flags s = Some (r, s') -> 0 <= r ->
  exists p info e s1,
    path = Some p /\ e <> 0 /\
    _mfat_find_file (active_partition s) p s = Some (Some (info, 0, e), s1) /\
    file s' = <[Z.to_nat r := mk_file 1 flags 0 (first_cluster info) info]>
                (file s).
Proof.
  intros H Hr. unfold mfat_open in H.
  rewrite (bind_eq _ _ s s s) in H by reflexivity.
  destruct (_ || _); [apply ret_Some in H as [-> _]; lia|].
  destruct path as [p|]; [|apply ret_Some in H as [-> _]; lia].
  destruct (_ =? 0); [apply ret_Some in H as [-> _]; lia|].
  unfold _mfat_open_impl in H.
  rewrite (bind_eq _ _ s s s) in H by reflexivity. cbv zeta in H.
  destruct (_ >=? _); [apply ret_Some in H as [-> _]; lia|].
  apply bind_Some in H as (res & s1 & Hfind & H).
  pose proof (find_file_frame _ _ _ _ _ Hfind) as Hfr.
  assert (Hfile : file s1 = file s) by apply Hfr.
  destruct res as [[[info d] e]|]; cbn beta iota in H;
    [|apply ret_Some in H as [-> _]; lia].
  apply bind_Some in H as (f0 & s2 & Hf0 & H).
  apply get_file_at_Some in Hf0 as [-> Hf0].
  apply bind_Some in H as (u & s2 & Hput & H).
  apply modify_Some in Hput. subst s2.
  destruct (Z.eqb_spec d 0) as [->|_]; cbn [negb] in H;
    [|apply ret_Some in H as [-> _]; lia].
  destruct (Z.eqb_spec e 0) as [_|He];
    [destruct (negb _); apply ret_Some in H as [-> _]; lia|].
  apply bind_Some in H as (u2 & s3 & Hput & H).
  apply modify_Some in Hput. subst s3.
  apply ret_Some in H as [-> ->]. cbn [file set_file].
  rewrite list_insert_insert_eq, Hfile.
  exists p, info, e, s1. auto.
Qed.

(* ------------------------------------------------------------------ *)
(** ** The partitions of a mounted volume *)

Lemma files_track_same s s' : file s' = file s -> files_track s s'.
Proof.
  intros Hf fd f' Hfd Hopen. left. exists f'. rewrite <- Hf. auto.
Qed.

Lemma files_track_insert s s' k g :
  file s' = <[k := g]> (file s) ->
  (forall f, file s !! k = Some f -> open g <> 0 ->
     (open f <> 0 /\ info f = info g) \/
     (part_no (info g) = active_partition s /\
      exists path e s1,
        e <> 0 /\
        _mfat_find_file (active_partition s) path s
        = Some (Some (info g, 0, e), s1))) ->
  files_track s s'.
Proof.
  intros Hf Hg fd f' Hfd Hopen. rewrite Hf in Hfd.
  destruct (decide (fd = k)) as [->|Hne].
  - assert (Hlt : (k < length (file s))%nat).
    { apply lookup_lt_Some in Hfd. rewrite length_insert in Hfd. exact Hfd. }
    rewrite list_lookup_insert_eq in Hfd by exact Hlt.
    inversion Hfd; subst f'.
    destruct (lookup_lt_is_Some_2 _ _ Hlt) as [f Hk].
    destruct (Hg f Hk Hopen) as [[Ho Hi]|Hp]; [left; exists f; auto|right; auto].
  - rewrite list_lookup_insert_ne in Hfd by auto. left. exists f'. auto.
Qed.

Lemma file_frame_read_block s0 blk ct :
  preserves (fun x => file x = file s0 /\
                      active_partition x = active_partition s0)
            (_mfat_read_block blk ct).
Proof.
  intros a x b [Ha1 Ha2] Hrun.
  apply (frame_read_block a) in Hrun; [|apply same_but_caches_refl].
  destruct Hrun as (_ & Hact & _ & _ & _ & Hfile). split; congruence.
Qed.

Lemma file_frame_sync s0 :
  preserves (fun x => file x = file s0 /\
                      active_partition x = active_partition s0)
            _mfat_sync_impl.
Proof.
  intros a x b [Ha1 Ha2] Hrun. apply sync_impl_frame in Hrun.
  destruct Hrun as (_ & Hact & _ & _ & _ & Hfile). split; congruence.
Qed.

Lemma mfat_read_cases fd nbyte s r data s' :
  0 <= nbyte < 2 ^ 32 ->
  mfat_read fd nbyte s = Some ((r, data), s') ->
  active_partition s' = active_partition s /\
  (file s' = file s \/
   exists f o c,
     file s !! Z.to_nat fd = Some f /\ open f <> 0 /\
     file s' = <[Z.to_nat fd := mk_file (open f) (oflag f) o c (info f)]>
                 (file s)).
Proof.
  intros Hn H. unfold mfat_read in H.
  rewrite (bind_eq _ _ s s s) in H by reflexivity.
  destruct (initialized s =? 0).
  { apply ret_Some in H as [_ ->]. auto. }
  apply bind_Some in H as (g & s0 & Hg & H).
  destruct g as [fd'|]; cbn beta iota in H.
  2:{ apply read_only_get_file in Hg. subst s0.
      apply ret_Some in H as [_ ->]. auto. }
  apply get_file_Some in Hg as (-> & -> & f & Hf & Hopen).
  apply read_impl_cases in H as (f0 & Hf0 & H); [|exact Hn].
  rewrite Hf in Hf0. inversion Hf0; subst f0.
  destruct H as [[_ Hfr]|[[_ ->]|(s3 & c & Hfr & _ & ->)]].
  - destruct Hfr as (_ & Hact & _ & _ & _ & Hfile). auto.
  - auto.
  - destruct Hfr as (_ & Hact & _ & _ & _ & Hfile).
    split; [exact Hact|]. right. exists f, (add32 (offset f) r), c.
    apply arr_get_lookup in Hf as [Hf _].
    split; [exact Hf|]. split; [exact Hopen|].
    cbn [file set_file]. rewrite Hfile. reflexivity.
Qed.

Lemma mfat_lseek_cases fd off whence s r s' :
  mounted_inv s ->
  mfat_lseek fd off whence s = Some (r, s') ->
  active_partition s' = active_partition s /\
  ((r = -1 /\ file s' = file s) \/
   exists f c,
     file s !! Z.to_nat fd = Some f /\ open f <> 0 /\
     0 <= r <= size (info f) /\ size (info f) < 2 ^ 32 /\
     file s' = <[Z.to_nat fd := mk_file (open f) (oflag f) r c (info f)]>
                 (file s)).
Proof.
  intros (_ & Hcoh & [[dev Hdev] _] & Hparts & Hfds) H. unfold mfat_lseek in H.
  rewrite (bind_eq _ _ s s s) in H by reflexivity.
  destruct (initialized s =? 0).
  { apply ret_Some in H as [-> ->]. auto. }
  apply bind_Some in H as (g & s0 & Hg & H).
  destruct g as [fd'|]; cbn beta iota in H.
  2:{ apply read_only_get_file in Hg. subst s0.
      apply ret_Some in H as [-> ->]. auto. }
  apply get_file_Some in Hg as (-> & -> & f & Hf & Hopen).
  pose proof (arr_get_lookup _ _ _ Hf) as [Hlk _].
  pose proof (Hfds _ _ Hlk Hopen) as Hok.
  eapply lseek_impl_spec in H as [_ [[-> Hfr]|(Hr & s3 & c & Hfr & -> & _)]];
    eauto.
  - destruct Hfr as (_ & Hact & _ & _ & _ & Hfile). auto.
  - destruct Hfr as (_ & Hact & _ & _ & _ & Hfile).
    split; [exact Hact|]. right. exists f, c.
    split; [exact Hlk|]. split; [exact Hopen|]. split; [exact Hr|].
    split; [apply Hok|].
    cbn [file set_file]. rewrite Hfile. reflexivity.
Qed.

Lemma non_mount_files_track c s r s' :
  (forall rf wf, c <> call_mount rf wf) ->
  reachable s ->
  run_api c s = Some (r, s') ->
  files_track s s' /\
  (active_partition s' = active_partition s \/
   exists p, arr_get (partition s) (active_partition s') = Some p /\
             type p <> MFAT_TYPE_UNKNOWN).
Proof.
  intros Hc Hreach H.
  set (P := fun x => file x = file s /\
                     active_partition x = active_partition s).
  assert (HP : P s) by (split; reflexivity).
  assert (Huse : P s' ->
            files_track s s' /\
            (active_partition s' = active_partition s \/
             exists p, arr_get (partition s) (active_partition s') = Some p /\
                       type p <> MFAT_TYPE_UNKNOWN)).
  { intros [H1 H2]. split; [apply files_track_same, H1|left; exact H2]. }
  destruct c; cbn [run_api] in H.
  - exfalso. eapply Hc. reflexivity.
  - apply bind_Some in H as (u & s1 & H & Hret).
    apply ret_Some in Hret as [_ ->]. apply Huse.
    eapply (preserves_unmount P); [..|exact HP|exact H].
    + apply file_frame_sync.
    + intros v x Hx. exact Hx.
  - unfold mfat_select_partition in H.
    rewrite (bind_eq _ _ s s s) in H by reflexivity.
    destruct (initialized s =? 0);
      [apply ret_Some in H as [_ ->]; apply Huse, HP|].
    destruct (_ || _); [apply ret_Some in H as [_ ->]; apply Huse, HP|].
    apply bind_Some in H as (part & s1 & Hp & H).
    apply get_partition_Some in Hp as [-> Hp].
    destruct (Z.eqb_spec (type part) MFAT_TYPE_UNKNOWN) as [|Hne];
      [apply ret_Some in H as [_ ->]; apply Huse, HP|].
    apply bind_Some in H as (u & s1 & Hput & H).
    apply modify_Some in Hput. subst s1. apply ret_Some in H as [_ ->].
    split; [apply files_track_same; reflexivity|].
    right. exists part. auto.
  - apply bind_Some in H as (u & s1 & H & Hret).
    apply ret_Some in Hret as [_ ->]. apply Huse.
    eapply (preserves_sync P); [..|exact HP|exact H]. apply file_frame_sync.
  - apply bind_Some in H as (u & s1 & H & Hret).
    apply ret_Some in Hret as [_ ->]. apply Huse.
    eapply (preserves_fstat P); [..|exact HP|exact H].
    apply file_frame_read_block.
  - apply bind_Some in H as (u & s1 & H & Hret).
    apply ret_Some in Hret as [_ ->]. apply Huse.
    eapply (preserves_stat P); [..|exact HP|exact H].
    apply file_frame_read_block.
  - assert (Hact : active_partition s' = active_partition s).
    { eapply (preserves_open
                (fun x => active_partition x = active_partition s));
        [..|reflexivity|exact H].
      - intros blk ct a x b Ha Hrun.
        apply (file_frame_read_block a) in Hrun; [|split; reflexivity].
        destruct Hrun. congruence.
      - intros fd f. apply preserves_modify. intros a Ha. exact Ha. }
    assert (Hlen : length (file s') = length (file s)).
    { eapply (preserves_open (fun x => length (file x) = length (file s)));
        [..|reflexivity|exact H].
      - intros blk ct a x b Ha Hrun.
        apply (file_frame_read_block a) in Hrun; [|split; reflexivity].
        destruct Hrun as [Hrun _]. rewrite Hrun. exact Ha.
      - intros fd f. apply preserves_modify. intros a Ha.
        cbn [file set_file]. rewrite length_insert. exact Ha. }
    split; [|left; exact Hact].
    pose proof (mfat_open_find _ _ _ _ _ H) as Hfound.
    apply mfat_open_cases in H as [Hkeep [[_ Hflags]|(Hr0 & _ & Hfr0 & info & Hi & Hfile)]].
    + intros fd f' Hfd Hopen.
      destruct (lookup_lt_is_Some_2 (file s) fd) as [f Hf].
      { apply lookup_lt_Some in Hfd. lia. }
      destruct (Hflags fd f Hf) as (f'' & Hf'' & Ho).
      rewrite Hfd in Hf''. inversion Hf''; subst f''.
      assert (Hof : open f <> 0) by congruence.
      pose proof (Hkeep fd f Hf Hof) as Hk. rewrite Hfd in Hk.
      inversion Hk; subst f'. left. exists f. auto.
    + eapply files_track_insert; [exact Hfile|].
      intros f _ _. right. split; [exact Hi|].
      destruct (Hfound (proj1 Hr0))
        as (p0 & info0 & e & s1 & _ & He & Hfind & Hfile0).
      assert (info0 = info).
      { assert (Hlt : (Z.to_nat r < length (file s))%nat).
        { destruct Hfr0 as [f0 Hf0]. apply lookup_lt_Some in Hf0. exact Hf0. }
        pose proof (list_lookup_insert_eq (file s) (Z.to_nat r)
                      (mk_file 1 flags 0 (first_cluster info) info) Hlt) as E1.
        pose proof (list_lookup_insert_eq (file s) (Z.to_nat r)
                      (mk_file 1 flags 0 (first_cluster info0) info0) Hlt) as E2.
        rewrite <- Hfile in E1. rewrite <- Hfile0 in E2. rewrite E1 in E2.
        inversion E2. reflexivity. }
      subst info0. exists p0, e, s1. split; [exact He|exact Hfind].
  - assert (Hact : active_partition s' = active_partition s).
    { eapply (preserves_close
                (fun x => active_partition x = active_partition s));
        [..|reflexivity|exact H].
      - intros a x b Ha Hrun. apply (file_frame_sync a) in Hrun;
          [|split; reflexivity].
        destruct Hrun. congruence.
      - intros fd0 f. apply preserves_modify. intros a Ha. exact Ha. }
    apply mfat_close_cases in H as [[_ ->]|(_ & f & Hf & Hopen & Hfile)];
      [apply Huse, HP| |apply reachable_num_fds, Hreach].
    split; [|left; exact Hact].
    eapply files_track_insert; [exact Hfile|].
    intros f0 _ Hc0. contradiction Hc0. reflexivity.
  - apply bind_Some in H as ([r0 data] & s1 & H & Hret).
    apply ret_Some in Hret as [_ ->].
    apply mfat_read_cases in H as [Hact [Hfile|(f & o & c & Hf & Hopen & Hfile)]];
      [| |apply u32_range].
    + apply Huse. split; assumption.
    + split; [|left; exact Hact].
      eapply files_track_insert; [exact Hfile|].
      intros f0 Hf0 _. rewrite Hf in Hf0. inversion Hf0; subst f0. left. auto.
  - apply Huse. eapply (preserves_write P); [..|exact HP|exact H].
  - apply mfat_lseek_cases in H
      as [Hact [[_ Hfile]|(f & c & Hf & Hopen & _ & _ & Hfile)]];
      [| |apply reachable_mounted_inv, Hreach].
    + apply Huse. split; assumption.
    + split; [|left; exact Hact].
      eapply files_track_insert; [exact Hfile|].
      intros f0 Hf0 _. rewrite Hf in Hf0. inversion Hf0; subst f0. left. auto.
Qed.

Lemma reachable_volume_inv s : reachable s -> volume_inv s.
Proof.
  induction 1 as [s0 r w s H|s c rv s' Hreach IH Hc H].
  - eapply mount_volume_inv, H.
  - destruct IH as ([Hlen Hall] & Hact & Hfiles).
    pose proof (non_mount_same_config _ _ _ _ Hc H) as (_ & _ & Hpart).
    destruct (non_mount_files_track _ _ _ _ Hc Hreach H) as [Htrack Hact'].
    assert (Hfat : forall i p, arr_get (partition s) i = Some p ->
                               type p <> MFAT_TYPE_UNKNOWN -> fat_partition p).
    { intros i p Hp Ht. apply arr_get_lookup in Hp as [Hp _].
      destruct (Hall _ _ Hp) as [Hu|[Hf _]]; [contradiction|exact Hf]. }
    split; [|split].
    + rewrite Hpart. split; assumption.
    + rewrite Hpart. destruct Hact' as [->|(p & Hp & Ht)]; [exact Hact|].
      exists p. split; [exact Hp|]. eapply Hfat; eauto.
    + intros fd f' Hfd Hopen. rewrite Hpart.
      destruct (Htrack fd f' Hfd Hopen) as [(f & Hf & Ho & Hi)|[Hp _]].
      * rewrite <- Hi. eapply Hfiles; eauto.
      * rewrite Hp. exact Hact.
Qed.

(** In every state reached from a successful mount, no partition
    record is left with an undecided type: each one is unknown, FAT16
    or FAT32; the active partition is a FAT16 or FAT32 partition with
    a cluster size of 1 to 255 blocks, and so is the partition of every
    open file. *)
Theorem mounted_partitions_are_fat s :
  reachable s ->
  (forall i p, partition s !! i = Some p ->
     type p = MFAT_TYPE_UNKNOWN \/ type p = MFAT_TYPE_FAT16 \/
     type p = MFAT_TYPE_FAT32) /\
  (exists p, arr_get (partition s) (active_partition s) = Some p /\
             fat_partition p) /\
  (forall fd f, file s !! fd = Some f -> open f <> 0 ->
     exists p, arr_get (partition s) (part_no (info f)) = Some p /\
               fat_partition p).
Proof.
  intros Hreach.
  destruct (reachable_volume_inv s Hreach) as ([_ Hall] & Hact & Hfiles).
  split; [|split; assumption].
  intros i p Hp. destruct (Hall i p Hp) as [Hu|[[[H16|H32] _] _]]; auto.
Qed.

Lemma mounted_partitions_are_fat_witness :
  exists p,
    arr_get (partition chain_opened) (active_partition chain_opened) = Some p /\
    fat_partition p.
Proof.
  apply (mounted_partitions_are_fat chain_opened chain_opened_reachable).
Defined.

(* ------------------------------------------------------------------ *)
(** ** Seeking without the device *)

Lemma get_file_open fd s f :
  length (file s) = MFAT_NUM_FDS ->
  arr_get (file s) fd = Some f -> open f <> 0 ->
  _mfat_get_file fd s = Some (Some fd, s).
Proof.
  intros Hlen Hf Hopen. pose proof (arr_get_lookup _ _ _ Hf) as [Hlk Hfd].
  apply lookup_lt_Some in Hlk. rewrite Hlen in Hlk.
  unfold _mfat_get_file.
  destruct (Z.ltb_spec fd 0); [lia|].
  destruct (Z.geb_spec fd (Z.of_nat MFAT_NUM_FDS)); [lia|]. cbn [orb].
  rewrite (bind_eq _ _ s f s) by (unfold get_file_at; rewrite Hf; reflexivity).
  destruct (Z.eqb_spec (open f) 0); [contradiction|reflexivity].
Qed.

(** A loop whose body leaves at once. *)
Lemma while_loop_exit {S R : Type} (body : S -> M (S + R)) st s r s' :
  body st s = Some (inr r, s') -> while_loop body st s = Some (r, s').
Proof.
  intros Hbody.
  destruct (while_loop_total (fun st0 s0 => st0 = st /\ s0 = s)
              (fun r0 s0 => r0 = r /\ s0 = s') (fun _ => 0) body) with st s
    as (r0 & s0 & Hrun & -> & ->); auto.
  - intros st0 s0 [-> ->]. exists (inr r), s'. auto.
  - lia.
Qed.

(** In a mounted volume, for an open descriptor: [mfat_lseek(fd, 0,
    SEEK_CUR)] returns the current offset and changes nothing at all,
    and [mfat_lseek(fd, 0, SEEK_SET)] returns [0] and puts the
    descriptor back where [mfat_open] left it (offset [0], current
    cluster the first cluster of the file) without touching the caches;
    neither can fail. *)
Theorem lseek_tell_and_rewind fd s f :
  reachable s -> initialized s <> 0 ->
  arr_get (file s) fd = Some f -> open f <> 0 ->
  mfat_lseek fd 0 MFAT_SEEK_CUR s = Some (offset f, s) /\
  mfat_lseek fd 0 MFAT_SEEK_SET s
  = Some (0, set_file (<[Z.to_nat fd :=
                          mk_file (open f) (oflag f) 0 (first_cluster (info f))
                                  (info f)]> (file s)) s).
Proof.
  intros Hreach Hinit Hf Hopen.
  destruct (reachable_mounted_inv s Hreach) as (_ & _ & [[dev Hdev] _] & _ & Hfds).
  destruct (reachable_volume_inv s Hreach) as (_ & _ & Hfiles).
  pose proof (arr_get_lookup _ _ _ Hf) as [Hlk Hfd].
  destruct (Hfds _ _ Hlk Hopen) as (Hoff & Hsz & Hwalk).
  destruct (Hfiles _ _ Hlk Hopen) as (part & Hpart & _ & Hbpc).
  specialize (Hwalk dev part Hdev Hpart).
  pose proof (get_file_open fd s f (reachable_num_fds s Hreach) Hf Hopen)
    as Hget.
  assert (Hmul : mul32 (blocks_per_cluster part) MFAT_BLOCK_SIZE
                 = bytes_per_cluster part).
  { apply u32_small. unfold bytes_per_cluster.
    change MFAT_BLOCK_SIZE with 512. lia. }
  assert (Hcb : 0 < bytes_per_cluster part < 2 ^ 32).
  { unfold bytes_per_cluster. change MFAT_BLOCK_SIZE with 512. lia. }
  pose proof (Z.div_mod (offset f) (bytes_per_cluster part) ltac:(lia)) as Hdm.
  pose proof (Z.mod_pos_bound (offset f) (bytes_per_cluster part) ltac:(lia))
    as Hmb.
  assert (Hq : 0 <= offset f / bytes_per_cluster part)
    by (apply Z.div_pos; lia).
  assert (Hsub : sub32 (offset f) (offset f mod bytes_per_cluster part)
                 = offset f / bytes_per_cluster part * bytes_per_cluster part).
  { unfold sub32. remember (offset f / bytes_per_cluster part) as q.
    remember (offset f mod bytes_per_cluster part) as m.
    rewrite u32_small; nia. }
  assert (Hstart : forall k,
            mfat_lseek fd 0 k s
            = (if initialized s =? 0 then ret (-1)
               else _mfat_lseek_impl fd 0 k) s).
  { intros k. unfold mfat_lseek. rewrite (bind_eq _ _ s s s) by reflexivity.
    destruct (initialized s =? 0); [reflexivity|].
    rewrite (bind_eq _ _ s (Some fd) s Hget). reflexivity. }
  destruct (Z.eqb_spec (initialized s) 0) as [|_]; [contradiction|].
  split.
  - rewrite Hstart. unfold _mfat_lseek_impl.
    rewrite (bind_eq _ _ s f s) by (unfold get_file_at; rewrite Hf; reflexivity).
    change (MFAT_SEEK_CUR =? MFAT_SEEK_SET) with false.
    change (MFAT_SEEK_CUR =? MFAT_SEEK_END) with false.
    change (MFAT_SEEK_CUR =? MFAT_SEEK_CUR) with true. cbv iota.
    rewrite Z.add_0_r.
    assert (Hin : in_int64 (offset f) = true).
    { unfold in_int64. apply andb_true_iff.
      split; [apply Z.leb_le|apply Z.ltb_lt]; lia. }
    rewrite Hin. cbn [negb].
    destruct (Z.ltb_spec (offset f) 0); [lia|].
    destruct (Z.gtb_spec (offset f) (size (info f))); [lia|].
    rewrite (u32_small (offset f)) by lia.
    rewrite (bind_eq _ _ s part s)
      by (unfold get_partition; rewrite Hpart; reflexivity).
    rewrite Hmul. destruct (Z.eqb_spec (bytes_per_cluster part) 0); [lia|].
    rewrite Hsub.
    destruct (Z.ltb_spec (offset f)
                (offset f / bytes_per_cluster part * bytes_per_cluster part));
      [lia|].
    rewrite (bind_eq _ _ s
               (Some (current_cluster f,
                      offset f / bytes_per_cluster part * bytes_per_cluster part))
               s).
    2:{ apply while_loop_exit. unfold lseek_step, sub32.
        rewrite u32_small by lia.
        destruct (Z.geb_spec
                    (offset f - offset f / bytes_per_cluster part
                                * bytes_per_cluster part)
                    (bytes_per_cluster part)); [lia|reflexivity]. }
    unfold put_file, bind, modify, ret.
    replace (mk_file (open f) (oflag f) (offset f) (current_cluster f) (info f))
      with f by (destruct f; reflexivity).
    rewrite (set_file_same s fd f Hf). reflexivity.
  - rewrite Hstart. unfold _mfat_lseek_impl.
    rewrite (bind_eq _ _ s f s) by (unfold get_file_at; rewrite Hf; reflexivity).
    change (MFAT_SEEK_SET =? MFAT_SEEK_SET) with true. cbv iota.
    change (negb (in_int64 0)) with false. cbv iota.
    change (0 <? 0) with false. cbv iota.
    destruct (Z.gtb_spec 0 (size (info f))); [lia|].
    change (u32 0) with 0.
    rewrite (bind_eq _ _ s part s)
      by (unfold get_partition; rewrite Hpart; reflexivity).
    rewrite Hmul. destruct (Z.eqb_spec (bytes_per_cluster part) 0); [lia|].
    rewrite Hsub.
    assert (Hst : (if 0 <? offset f / bytes_per_cluster part
                              * bytes_per_cluster part
                   then (first_cluster (info f), 0)
                   else (current_cluster f,
                         offset f / bytes_per_cluster part
                         * bytes_per_cluster part))
                  = (first_cluster (info f), 0)).
    { destruct (Z.ltb_spec 0 (offset f / bytes_per_cluster part
                              * bytes_per_cluster part)); [reflexivity|].
      assert (Hq0 : offset f / bytes_per_cluster part = 0) by nia.
      rewrite Hq0 in Hwalk. cbn in Hwalk. inversion Hwalk.
      rewrite Hq0. reflexivity. }
    rewrite Hst.
    rewrite (bind_eq _ _ s (Some (first_cluster (info f), 0)) s).
    2:{ apply while_loop_exit. unfold lseek_step, sub32.
        change (u32 (0 - 0)) with 0.
        destruct (Z.geb_spec 0 (bytes_per_cluster part)); [lia|reflexivity]. }
    reflexivity.
Qed.

Lemma lseek_tell_and_rewind_witness :
  mfat_lseek 0 0 MFAT_SEEK_CUR chain_read
  = Some (offset chain_file, chain_read).
Proof.
  apply (lseek_tell_and_rewind 0 chain_read chain_file chain_read_reachable).
  - vm_compute. discriminate.
  - vm_compute. reflexivity.
  - vm_compute. discriminate.
Defined.

(* ------------------------------------------------------------------ *)
(** ** What [mfat_lseek] returns *)

Lemma lseek_impl_target fd off whence s r s' f :
  arr_get (file s) fd = Some f ->
  _mfat_lseek_impl fd off whence s = Some (r, s') ->
  r = -1 \/
  exists t,
    ((whence = MFAT_SEEK_SET /\ t = off) \/
     (whence = MFAT_SEEK_END /\ t = size (info f) + off) \/
     (whence = MFAT_SEEK_CUR /\ t = offset f + off)) /\
    0 <= t <= size (info f) /\ r = u32 t.
Proof.
  intros Hf H. unfold _mfat_lseek_impl in H.
  rewrite (bind_eq _ _ s f s) in H
    by (unfold get_file_at; rewrite Hf; reflexivity).
  assert (Ht : forall t,
            (if whence =? MFAT_SEEK_SET then Some off
             else if whence =? MFAT_SEEK_END then Some (size (info f) + off)
             else if whence =? MFAT_SEEK_CUR then Some (offset f + off)
             else None) = Some t ->
            (whence = MFAT_SEEK_SET /\ t = off) \/
            (whence = MFAT_SEEK_END /\ t = size (info f) + off) \/
            (whence = MFAT_SEEK_CUR /\ t = offset f + off)).
  { intros t Ht.
    destruct (Z.eqb_spec whence MFAT_SEEK_SET); [inversion Ht; auto|].
    destruct (Z.eqb_spec whence MFAT_SEEK_END); [inversion Ht; auto|].
    destruct (Z.eqb_spec whence MFAT_SEEK_CUR); [inversion Ht; auto|].
    discriminate. }
  destruct (if whence =? MFAT_SEEK_SET then Some off
            else if whence =? MFAT_SEEK_END then Some (size (info f) + off)
            else if whence =? MFAT_SEEK_CUR then Some (offset f + off)
            else None) as [t|].
  2:{ apply ret_Some in H as [-> _]. auto. }
  specialize (Ht t eq_refl).
  destruct (negb (in_int64 t)); [discriminate H|].
  destruct (Z.ltb_spec t 0); [apply ret_Some in H as [-> _]; auto|].
  destruct (Z.gtb_spec t (size (info f)));
    [apply ret_Some in H as [-> _]; auto|].
  apply bind_Some in H as (part & s1 & _ & H).
  destruct (_ =? 0); [discriminate H|].
  apply bind_Some in H as (res & s2 & _ & H).
  destruct res as [[c co]|]; [|apply ret_Some in H as [-> _]; auto].
  apply bind_Some in H as (u & s3 & _ & H).
  apply ret_Some in H as [-> _]. right. exists t.
  split; [exact Ht|]. split; [lia|reflexivity].
Qed.

(** In a mounted volume [mfat_lseek] either returns [-1] and leaves
    the descriptor table as it was, or returns the new offset: the
    requested position ([off], [size + off] or [offset + off] by
    [whence]), which lies within [0, size]; the descriptor then has
    that offset, its other fields but the current cluster are as
    before, and no other descriptor has changed. *)
Theorem lseek_moves_to_target fd off whence s r s' :
  reachable s ->
  mfat_lseek fd off whence s = Some (r, s') ->
  (r = -1 /\ file s' = file s) \/
  exists f c,
    file s !! Z.to_nat fd = Some f /\ open f <> 0 /\
    0 <= r <= size (info f) /\
    ((whence = MFAT_SEEK_SET /\ r = off) \/
     (whence = MFAT_SEEK_END /\ r = size (info f) + off) \/
     (whence = MFAT_SEEK_CUR /\ r = offset f + off)) /\
    file s' = <[Z.to_nat fd := mk_file (open f) (oflag f) r c (info f)]>
                (file s).
Proof.
  intros Hreach H.
  destruct (mfat_lseek_cases fd off whence s r s'
              (reachable_mounted_inv s Hreach) H)
    as [_ [Hfail|(f & c & Hf & Hopen & Hr & Hsz & Hfile)]]; [left; exact Hfail|].
  right. exists f, c. split; [exact Hf|]. split; [exact Hopen|].
  split; [exact Hr|]. split; [|exact Hfile].
  unfold mfat_lseek in H. rewrite (bind_eq _ _ s s s) in H by reflexivity.
  destruct (initialized s =? 0); [apply ret_Some in H as [-> _]; lia|].
  apply bind_Some in H as (g & s0 & Hg & H).
  destruct g as [fd'|]; [|apply ret_Some in H as [-> _]; lia].
  apply get_file_Some in Hg as (-> & -> & f0 & Hf0 & _).
  pose proof (arr_get_lookup _ _ _ Hf0) as [Hlk _].
  rewrite Hf in Hlk. inversion Hlk; subst f0.
  destruct (lseek_impl_target _ _ _ _ _ _ _ Hf0 H) as [->|(t & Ht & Hrange & Hu)];
    [lia|].
  rewrite u32_small in Hu by lia. subst t. exact Ht.
Qed.

Lemma lseek_moves_to_target_witness :
  exists s',
    mfat_lseek 0 (-100) MFAT_SEEK_END chain_read = Some (1200, s') /\
    exists f c,
      file chain_read !! 0%nat = Some f /\
      file s' = <[0%nat := mk_file (open f) (oflag f) 1200 c (info f)]>
                  (file chain_read).
Proof.
  destruct (mfat_lseek 0 (-100) MFAT_SEEK_END chain_read) as [[r s']|] eqn:E.
  - assert (Hr : r = 1200).
    { revert E. vm_compute. intros E. inversion E. reflexivity. }
    subst r. exists s'. split; [reflexivity|].
    destruct (lseek_moves_to_target 0 (-100) MFAT_SEEK_END chain_read 1200 s'
                chain_read_reachable E)
      as [[Hr _]|(f & c & Hf & _ & _ & _ & Hfile)]; [discriminate Hr|].
    exists f, c. split; [exact Hf|exact Hfile].
  - exfalso. revert E. vm_compute. discriminate.
Defined.

(** In a mounted volume, a seek of an open descriptor with an unknown
    [whence], to a negative position or to a position beyond the size
    of the file returns [-1] without touching the context (the sums
    are those of the [int64_t] arithmetic, for offsets that cannot
    overflow it). *)
Theorem lseek_rejects_bad_requests fd off whence s f :
  reachable s ->
  arr_get (file s) fd = Some f -> open f <> 0 ->
  - 2 ^ 63 <= off < 2 ^ 63 - 2 ^ 32 ->
  ((whence <> MFAT_SEEK_SET /\ whence <> MFAT_SEEK_END /\
    whence <> MFAT_SEEK_CUR) \/
   (whence = MFAT_SEEK_SET /\ (off < 0 \/ size (info f) < off)) \/
   (whence = MFAT_SEEK_END /\ (size (info f) + off < 0 \/ 0 < off)) \/
   (whence = MFAT_SEEK_CUR /\
    (offset f + off < 0 \/ size (info f) < offset f + off))) ->
  mfat_lseek fd off whence s = Some (-1, s).
Proof.
  intros Hreach Hf Hopen Hoff Hbad.
  destruct (reachable_mounted_inv s Hreach) as (_ & _ & _ & _ & Hfds).
  pose proof (arr_get_lookup _ _ _ Hf) as [Hlk _].
  destruct (Hfds _ _ Hlk Hopen) as (Ho & Hsz & _).
  unfold mfat_lseek. rewrite (bind_eq _ _ s s s) by reflexivity.
  destruct (initialized s =? 0); [reflexivity|].
  rewrite (bind_eq _ _ s (Some fd) s
             (get_file_open fd s f (reachable_num_fds s Hreach) Hf Hopen)).
  unfold _mfat_lseek_impl.
  rewrite (bind_eq _ _ s f s) by (unfold get_file_at; rewrite Hf; reflexivity).
  assert (Hint : forall t, - 2 ^ 63 <= t < 2 ^ 63 -> in_int64 t = true).
  { intros t Ht. unfold in_int64. apply andb_true_iff.
    split; [apply Z.leb_le|apply Z.ltb_lt]; lia. }
  destruct (Z.eqb_spec whence MFAT_SEEK_SET) as [Hw|Hw1].
  { rewrite Hint by lia. cbn [negb].
    destruct (Z.ltb_spec off 0); [reflexivity|].
    destruct (Z.gtb_spec off (size (info f))); [reflexivity|].
    exfalso. unfold MFAT_SEEK_SET, MFAT_SEEK_END, MFAT_SEEK_CUR in *. lia. }
  destruct (Z.eqb_spec whence MFAT_SEEK_END) as [Hw|Hw2].
  { rewrite Hint by lia. cbn [negb].
    destruct (Z.ltb_spec (size (info f) + off) 0); [reflexivity|].
    destruct (Z.gtb_spec (size (info f) + off) (size (info f))); [reflexivity|].
    exfalso. unfold MFAT_SEEK_SET, MFAT_SEEK_END, MFAT_SEEK_CUR in *. lia. }
  destruct (Z.eqb_spec whence MFAT_SEEK_CUR) as [Hw|Hw3]; [|reflexivity].
  rewrite Hint by lia. cbn [negb].
  destruct (Z.ltb_spec (offset f + off) 0); [reflexivity|].
  destruct (Z.gtb_spec (offset f + off) (size (info f))); [reflexivity|].
  exfalso. unfold MFAT_SEEK_SET, MFAT_SEEK_END, MFAT_SEEK_CUR in *. lia.
Qed.

Lemma lseek_rejects_bad_requests_witness :
  mfat_lseek 0 1 MFAT_SEEK_END chain_read = Some (-1, chain_read).
Proof.
  apply (lseek_rejects_bad_requests 0 1 MFAT_SEEK_END chain_read chain_file
           chain_read_reachable).
  - vm_compute. reflexivity.
  - vm_compute. discriminate.
  - lia.
  - right. right. left. split; [reflexivity|]. right. lia.
Defined.


(* ------------------------------------------------------------------ *)
(** ** What a mount leaves behind *)



(* ------------------------------------------------------------------ *)
(** ** Cached blocks are never dirty *)

Lemma clean_set_cache s ct c' :
  clean s ->
  (forall i cb, block c' !! i = Some cb ->
                state cb = MFAT_INVALID \/ state cb = MFAT_VALID) ->
  clean (set_cache (<[ct := c']> (cache s)) s).
Proof.
  intros Hcl Hnew ct' c0 i cb Hc0 Hcb. cbn [cache set_cache] in Hc0.
  destruct (decide (ct' = ct)) as [->|Hne].
  - rewrite list_lookup_insert_eq in Hc0.
    + inversion Hc0; subst c0. eapply Hnew; eauto.
    + apply lookup_lt_Some in Hc0. rewrite length_insert in Hc0. exact Hc0.
  - rewrite list_lookup_insert_ne in Hc0 by auto. eapply Hcl; eauto.
Qed.

Lemma clean_insert_block s ct c i0 cb0 pri' :
  clean s -> cache s !! ct = Some c ->
  state cb0 = MFAT_INVALID \/ state cb0 = MFAT_VALID ->
  clean (set_cache (<[ct := mk_cache (<[i0 := cb0]> (block c)) pri']>
                      (cache s)) s).
Proof.
  intros Hcl Hc Hnew. apply clean_set_cache; [exact Hcl|].
  intros i cb Hcb. cbn [block] in Hcb.
  destruct (decide (i = i0)) as [->|Hne].
  - rewrite list_lookup_insert_eq in Hcb.
    + inversion Hcb; subst cb. exact Hnew.
    + apply lookup_lt_Some in Hcb. rewrite length_insert in Hcb. exact Hcb.
  - rewrite list_lookup_insert_ne in Hcb by auto. eapply Hcl; eauto.
Qed.

Lemma get_cached_block_clean blk ct :
  preserves clean (_mfat_get_cached_block blk ct).
Proof.
  intros s r s' Hcl H. apply get_cached_block_cases in H
    as (c & item & cb & Hc & _ & _ & Hcases). cbn zeta in Hcases.
  destruct Hcases as [(_ & _ & ->)|[(_ & _ & _ & _ & ->)|(_ & _ & _ & ->)]].
  - apply clean_set_cache; [exact Hcl|]. intros i cb0 Hcb0. eapply Hcl; eauto.
  - apply clean_set_cache; [exact Hcl|]. intros i cb0 Hcb0. eapply Hcl; eauto.
  - eapply clean_insert_block; eauto.
Qed.

Lemma read_block_clean blk ct : preserves clean (_mfat_read_block blk ct).
Proof.
  intros s r s' Hcl H. unfold _mfat_read_block in H.
  apply bind_Some in H as (r1 & s1 & H1 & H).
  apply get_cached_block_clean in H1; [|exact Hcl].
  destruct r1 as [p|]; [|apply ret_Some in H as [_ ->]; exact H1].
  apply bind_Some in H as (cb & s2 & Hget & H).
  apply read_only_get_block in Hget. subst s2.
  destruct (state cb =? MFAT_INVALID); [|apply ret_Some in H as [_ ->]; exact H1].
  apply bind_Some in H as (rd & s2 & Hrd & H).
  apply read_only_call_read in Hrd. subst s2.
  destruct rd as [data|]; [|apply ret_Some in H as [_ ->]; exact H1].
  apply bind_Some in H as (u & s3 & Hput & H).
  apply ret_Some in H as [_ ->].
  apply put_block_Some in Hput as (c & Hc & ->).
  eapply clean_insert_block; eauto.
Qed.

Lemma sync_slot_noop j i s :
  caches_inv s -> clean s ->
  (j < MFAT_NUM_CACHES)%nat -> (i < MFAT_NUM_CACHED_BLOCKS)%nat ->
  (cb <- get_block (j, i) ;;
   if state cb =? MFAT_DIRTY then
     call_write (buf cb) (blk_no cb) ;;;
     put_block (j, i) (mk_cached_block MFAT_VALID (blk_no cb) (buf cb))
   else ret tt) s = Some (tt, s).
Proof.
  intros [Hlen Hcaches] Hcl Hj Hi.
  destruct (lookup_lt_is_Some_2 (cache s) j) as [c Hc]; [lia|].
  destruct (Hcaches _ _ Hc) as (Hblen & _).
  destruct (lookup_lt_is_Some_2 (block c) i) as [cb Hcb]; [lia|].
  rewrite (bind_eq _ _ s cb s).
  2:{ unfold get_block, bind, get_cache, lift. cbn [fst snd].
      rewrite Hc, Hcb. reflexivity. }
  destruct (Hcl _ _ _ _ Hc Hcb) as [-> | ->]; reflexivity.
Qed.

Lemma for_each_noop {A} (l : list A) (body : A -> M unit) s :
  (forall x, In x l -> body x s = Some (tt, s)) ->
  for_each l body s = Some (tt, s).
Proof.
  induction l as [|x rest IH]; intros H; cbn [for_each]; [reflexivity|].
  rewrite (bind_eq _ _ s tt s) by (apply H; left; reflexivity).
  apply IH. intros y Hy. apply H. right. exact Hy.
Qed.

Lemma sync_impl_noop s :
  caches_inv s -> clean s -> _mfat_sync_impl s = Some (tt, s).
Proof.
  intros Hci Hcl. unfold _mfat_sync_impl.
  apply for_each_noop. intros j Hj. apply for_each_noop. intros i Hi.
  apply in_seq in Hj, Hi. apply sync_slot_noop; try assumption; lia.
Qed.

Lemma reachable_clean s : reachable s -> clean s.
Proof.
  apply reachable_holds.
  - apply read_block_clean.
  - intros a u b Hcl Hrun.
    assert (Hp : preserves clean _mfat_sync_impl).
    { unfold _mfat_sync_impl.
      apply preserves_for_each. intros j.
      apply preserves_for_each. intros i.
      intros x v y Hx Hy. apply bind_Some in Hy as (cb & x1 & H1 & H2).
      apply read_only_get_block in H1. subst x1.
      destruct (state cb =? MFAT_DIRTY);
        [|apply ret_Some in H2 as [_ ->]; exact Hx].
      apply bind_Some in H2 as (rv & x2 & H2 & H3).
      apply read_only_call_write in H2. subst x2.
      apply put_block_Some in H3 as (c & Hc & ->).
      eapply clean_insert_block; eauto. }
    eapply Hp; eauto.
  - intros fd f. apply preserves_modify. intros a Ha. exact Ha.
  - intros i p. apply preserves_modify. intros a Ha. exact Ha.
  - apply preserves_modify. intros a Ha. exact Ha.
  - intros v a Ha. exact Ha.
  - intros v a Ha. exact Ha.
  - intros rf wf ct c i cb Hc Hcb. left.
    assert (c = mk_cache (replicate MFAT_NUM_CACHED_BLOCKS zero_block) iota_pri).
    { destruct ct as [|[|ct]]; cbn in Hc; inversion Hc; reflexivity. }
    subst c. cbn [block] in Hcb.
    apply lookup_replicate in Hcb as [-> _]. reflexivity.
Qed.

(** In every state reached from a successful mount no cached block is
    dirty, so that nothing is ever flushed: [mfat_sync] leaves the
    context as it is, and [mfat_unmount] only clears the initialized
    flag. *)
Theorem no_block_is_ever_dirty s :
  reachable s ->
  (forall ct c i cb, cache s !! ct = Some c -> block c !! i = Some cb ->
     state cb = MFAT_INVALID \/ state cb = MFAT_VALID) /\
  mfat_sync s = Some (tt, s) /\
  mfat_unmount s = Some (tt, set_initialized 0 s).
Proof.
  intros Hreach. pose proof (reachable_clean s Hreach) as Hcl.
  pose proof (sync_impl_noop s (reachable_caches_inv s Hreach) Hcl) as Hsync.
  split; [exact Hcl|]. split.
  - unfold mfat_sync. rewrite (bind_eq _ _ s s s) by reflexivity.
    destruct (initialized s =? 0); [reflexivity|exact Hsync].
  - unfold mfat_unmount. rewrite (bind_eq _ _ s tt s Hsync). reflexivity.
Qed.

Lemma no_block_is_ever_dirty_witness :
  mfat_sync chain_read = Some (tt, chain_read).
Proof.
  apply (no_block_is_ever_dirty chain_read chain_read_reachable).
Defined.

(* ------------------------------------------------------------------ *)
(** ** What the block cache hands out *)

(** In a mounted volume the cache never serves stale data and fails
    only with the device: a successful [_mfat_read_block] returns a
    valid slot for the block whose buffer is what the device holds for
    that block number, and a failed one means that the device could not
    read that block. *)
Theorem cached_block_is_device_block blk ct s r s' dev :
  reachable s -> read s = Some dev ->
  _mfat_read_block blk ct s = Some (r, s') ->
  match r with
  | Some p =>
      exists cb, get_block p s' = Some (cb, s') /\
                 blk_no cb = blk /\ state cb = MFAT_VALID /\
                 dev blk = Some (buf cb)
  | None => dev blk = None
  end.
Proof.
  intros Hreach Hdev H.
  pose proof (reachable_coherent s Hreach) as Hcoh.
  pose proof (reachable_caches_inv s Hreach) as Hci.
  pose proof (reachable_clean s Hreach) as Hcl.
  destruct r as [p|].
  - destruct (read_block_coherent _ _ _ _ _ Hcoh H) as (_ & Hbuf).
    destruct (Hbuf p eq_refl) as (cb & Hget & Hdata).
    destruct (read_block_inv _ _ _ _ _ Hci H) as (_ & _ & Hslot).
    destruct (Hslot p eq_refl) as (Hfst & c & cb' & Hc & Hcb' & Hblk & Hst).
    pose proof (read_block_clean blk ct s _ s' Hcl H) as Hcl'.
    exists cb. split; [exact Hget|].
    apply get_block_Some in Hget as (_ & c0 & Hc0 & Hcb0).
    rewrite Hfst, Hc in Hc0. inversion Hc0; subst c0.
    rewrite Hcb' in Hcb0. inversion Hcb0; subst cb'.
    split; [exact Hblk|]. split; [|apply Hdata, Hdev].
    destruct (Hcl' _ _ _ _ Hc Hcb') as [Hs|Hs]; [contradiction|exact Hs].
  - unfold _mfat_read_block in H.
    apply bind_Some in H as (r1 & s1 & H1 & H).
    pose proof (get_cached_block_frame _ _ _ _ _ H1) as Hfr.
    destruct r1 as [p|].
    + apply bind_Some in H as (cb & s2 & Hget & H).
      apply read_only_get_block in Hget. subst s2.
      destruct (state cb =? MFAT_INVALID); [|apply ret_Some in H as [H _]; discriminate].
      apply bind_Some in H as (rd & s2 & Hrd & H).
      unfold call_read in Hrd.
      replace (read s1) with (Some dev) in Hrd
        by (rewrite <- Hdev; symmetry; apply Hfr).
      inversion Hrd; subst rd s2.
      destruct (dev blk); [|reflexivity].
      apply bind_Some in H as (u & s3 & _ & H).
      apply ret_Some in H as [H _]. discriminate.
    + exfalso. apply get_cached_block_cases in H1
        as (c & item & cb & Hc & _ & Hcb & Hcases). cbn zeta in Hcases.
      apply arr_get_lookup in Hcb as [Hcb _].
      destruct Hcases as [(_ & Hr & _)|[(_ & Hd & _)|(_ & _ & Hr & _)]];
        try discriminate Hr.
      destruct (Hcl _ _ _ _ Hc Hcb) as [Hs|Hs]; rewrite Hs in Hd;
        discriminate Hd.
Qed.

Lemma cached_block_is_device_block_witness :
  exists p s' cb,
    _mfat_read_block 22 MFAT_CACHE_DATA hello_mounted = Some (Some p, s') /\
    get_block p s' = Some (cb, s') /\ hello_disk 22 = Some (buf cb).
Proof.
  destruct (_mfat_read_block 22 MFAT_CACHE_DATA hello_mounted)
    as [[[p|] s']|] eqn:E.
  - destruct (cached_block_is_device_block 22 MFAT_CACHE_DATA hello_mounted
                (Some p) s' hello_disk hello_mounted_reachable eq_refl E)
      as (cb & Hget & _ & _ & Hdata).
    exists p, s', cb. auto.
  - exfalso. revert E. vm_compute. discriminate.
  - exfalso. revert E. vm_compute. discriminate.
Defined.

(* ------------------------------------------------------------------ *)
(** ** Least recently used *)

Lemma pri_promote_head item x rest :
  exists tl, pri_promote item item (x :: rest) = item :: tl.
Proof. cbn [pri_promote]. destruct (x =? item); eexists; reflexivity. Qed.

Lemma iota_pri_NoDup : NoDup iota_pri.
Proof.
  unfold iota_pri. apply NoDup_fmap_2; [|apply NoDup_seq].
  intros a b Hab. lia.
Qed.

(** The slot selected right after [item] was promoted is [item] itself
    only on a hit. *)
Lemma selected_after_promote blocks pri0 item blk :
  pri0 ≡ₚ iota_pri -> In item pri0 ->
  selected_slot (mk_cache blocks (pri_promote item item pri0)) blk = Some item ->
  find_hit blocks blk 0 = Some item.
Proof.
  intros Hperm Hin Hsel. unfold selected_slot in Hsel.
  cbn [block pri] in Hsel.
  destruct (find_hit blocks blk 0) as [i|]; [exact Hsel|exfalso].
  destruct pri0 as [|x rest]; [destruct Hin|].
  destruct (pri_promote_head item x rest) as [tl Htl].
  assert (Hperm' : pri_promote item item (x :: rest) ≡ₚ iota_pri).
  { rewrite <- Hperm. apply pri_promote_perm. exact Hin. }
  rewrite Htl in Hsel, Hperm'.
  assert (Hnd : NoDup (item :: tl)).
  { rewrite Hperm'. apply iota_pri_NoDup. }
  assert (Hl : length (item :: tl) = MFAT_NUM_CACHED_BLOCKS).
  { rewrite Hperm'. reflexivity. }
  destruct tl as [|y [|z tl]]; try discriminate Hl.
  cbn in Hsel. inversion Hsel; subst y.
  apply NoDup_cons in Hnd as [Hnot _]. apply Hnot. left.
Qed.

(** The shape of the context after [_mfat_read_block]: the cache of the
    class has its priorities promoted and differs from before in the
    selected slot at most, and not at all on a hit. *)
Lemma read_block_shape blk ct s r s' :
  caches_inv s ->
  _mfat_read_block blk ct s = Some (r, s') ->
  exists c item blocks',
    cache s !! ct = Some c /\ selected_slot c blk = Some item /\
    0 <= item /\ In item (pri c) /\
    s' = set_cache (<[ct := mk_cache blocks'
                               (pri_promote item item (pri c))]> (cache s)) s /\
    (forall i, i <> Z.to_nat item -> blocks' !! i = block c !! i) /\
    (forall p, r = Some p -> p = (ct, Z.to_nat item)) /\
    (find_hit (block c) blk 0 = Some item -> blocks' = block c).
Proof.
  intros [Hlen Hcaches] H. unfold _mfat_read_block in H.
  apply bind_Some in H as (r1 & s1 & H1 & H).
  apply get_cached_block_cases in H1
    as (c & item & cb & Hc & Hsel & Hcb & Hcases). cbn zeta in Hcases.
  pose proof (selected_slot_In c blk item (Hcaches _ _ Hc) Hsel) as Hin.
  pose proof (arr_get_lookup _ _ _ Hcb) as [Hlk Hitem].
  assert (Hct : (ct < length (cache s))%nat) by (eapply lookup_lt_Some; eauto).
  exists c, item.
  assert (Hhit : find_hit (block c) blk 0 = Some item ->
                 blk_no cb = blk /\ state cb <> MFAT_INVALID).
  { intros Hh. apply find_hit_Some in Hh as (_ & cb' & Hcb' & Hs & Hb).
    rewrite Z.sub_0_r, Hlk in Hcb'. inversion Hcb'; subst cb'. auto. }
  assert (Hfin : forall blocks1 p,
            (forall i, i <> Z.to_nat item -> blocks1 !! i = block c !! i) ->
            blocks1 !! Z.to_nat item
            = Some (mk_cached_block
                      (if blk_no cb =? blk then state cb else MFAT_INVALID)
                      blk (buf cb)) ->
            (find_hit (block c) blk 0 = Some item -> blocks1 = block c) ->
            p = (ct, Z.to_nat item) ->
            (cb0 <- get_block p ;;
             if state cb0 =? MFAT_INVALID
             then r0 <- call_read blk ;;
                  match r0 with
                  | Some data =>
                      put_block p (mk_cached_block MFAT_VALID (blk_no cb0) data) ;;;
                      ret (Some p)
                  | None => ret None
                  end
             else ret (Some p))
              (set_cache (<[ct := mk_cache blocks1
                                    (pri_promote item item (pri c))]> (cache s)) s)
            = Some (r, s') ->
            exists blocks',
              cache s !! ct = Some c /\ selected_slot c blk = Some item /\
              0 <= item /\ In item (pri c) /\
              s' = set_cache (<[ct := mk_cache blocks'
                                  (pri_promote item item (pri c))]> (cache s)) s /\
              (forall i, i <> Z.to_nat item -> blocks' !! i = block c !! i) /\
              (forall p0, r = Some p0 -> p0 = (ct, Z.to_nat item)) /\
              (find_hit (block c) blk 0 = Some item -> blocks' = block c)).
  { intros blocks1 p Hother Hslot Hsame -> H2.
    set (s1' := set_cache (<[ct := mk_cache blocks1
                               (pri_promote item item (pri c))]> (cache s)) s)
      in *.
    assert (Hc1 : cache s1' !! ct
                  = Some (mk_cache blocks1 (pri_promote item item (pri c)))).
    { unfold s1'. cbn [cache set_cache]. apply list_lookup_insert_eq, Hct. }
    apply bind_Some in H2 as (cb0 & s2 & Hget & H2).
    apply get_block_Some in Hget as (-> & c0 & Hc0 & Hcb0).
    cbn [fst snd] in Hc0, Hcb0. rewrite Hc1 in Hc0. inversion Hc0; subst c0.
    cbn [block] in Hcb0. rewrite Hslot in Hcb0. inversion Hcb0; subst cb0.
    cbn [state blk_no] in H2.
    assert (Hdone : forall rr, r = rr -> s' = s1' ->
              (forall p0, rr = Some p0 -> p0 = (ct, Z.to_nat item)) ->
              exists blocks',
                cache s !! ct = Some c /\ selected_slot c blk = Some item /\
                0 <= item /\ In item (pri c) /\
                s' = set_cache (<[ct := mk_cache blocks'
                                  (pri_promote item item (pri c))]> (cache s)) s /\
                (forall i, i <> Z.to_nat item -> blocks' !! i = block c !! i) /\
                (forall p0, r = Some p0 -> p0 = (ct, Z.to_nat item)) /\
                (find_hit (block c) blk 0 = Some item -> blocks' = block c)).
    { intros rr -> -> Hrr. exists blocks1. auto 10. }
    destruct (Z.eqb_spec (if blk_no cb =? blk then state cb else MFAT_INVALID)
                         MFAT_INVALID) as [Hinv|Hval].
    2:{ apply ret_Some in H2 as [-> ->]. eapply Hdone; eauto.
        intros p0 Hp0. inversion Hp0. reflexivity. }
    apply bind_Some in H2 as (rd & s2 & Hrd & H2).
    apply read_only_call_read in Hrd. subst s2.
    destruct rd as [data|].
    2:{ apply ret_Some in H2 as [-> ->]. eapply Hdone; eauto. discriminate. }
    apply bind_Some in H2 as (u & s3 & Hput & H2).
    apply ret_Some in H2 as [-> ->].
    apply put_block_Some in Hput as (c0 & Hc0' & ->).
    cbn [fst snd] in *. rewrite Hc1 in Hc0'. inversion Hc0'; subst c0.
    cbn [block pri].
    exists (<[Z.to_nat item := mk_cached_block MFAT_VALID blk data]> blocks1).
    split; [exact Hc|]. split; [exact Hsel|]. split; [exact Hitem|].
    split; [exact Hin|]. split.
    { unfold s1'. cbn [cache set_cache]. rewrite list_insert_insert_eq.
      reflexivity. }
    split.
    { intros i Hi. rewrite list_lookup_insert_ne by auto. apply Hother, Hi. }
    split; [intros p0 Hp0; inversion Hp0; reflexivity|].
    intros Hh. exfalso. destruct (Hhit Hh) as [Hb Hs].
    apply Z.eqb_eq in Hb. rewrite Hb in Hinv. contradiction. }
  destruct Hcases as [(Hb & -> & ->)|[(Hnb & _ & _ & -> & ->)|(Hnb & _ & -> & ->)]].
  - cbn beta iota in H. eapply (Hfin (block c)); eauto.
    apply Z.eqb_eq in Hb as Hb'. rewrite Hb', Hlk. destruct cb; cbn in *.
    subst. reflexivity.
  - apply ret_Some in H as [-> ->]. exists (block c).
    split; [exact Hc|]. split; [exact Hsel|]. split; [exact Hitem|].
    split; [exact Hin|]. split; [reflexivity|]. split; [auto|].
    split; [discriminate|auto].
  - cbn beta iota in H.
    eapply (Hfin (<[Z.to_nat item := mk_cached_block MFAT_INVALID blk (buf cb)]>
                    (block c))); eauto.
    + intros i Hi. apply list_lookup_insert_ne. auto.
    + apply Z.eqb_neq in Hnb as Hnb'. rewrite Hnb'.
      apply list_lookup_insert_eq. eapply lookup_lt_Some, Hlk.
    + intros Hh. destruct (Hhit Hh) as [Hb _]. contradiction.
Qed.

(** A slot handed out by [_mfat_read_block] is still intact after the
    next [_mfat_read_block], whatever block and cache class that one
    asks for: with the priority queue, the slot used last is never the
    one that is evicted next. *)
Theorem most_recent_block_survives a ct b ct2 s p s1 cb r2 s2 :
  caches_inv s ->
  _mfat_read_block a ct s = Some (Some p, s1) ->
  get_block p s1 = Some (cb, s1) ->
  _mfat_read_block b ct2 s1 = Some (r2, s2) ->
  get_block p s2 = Some (cb, s2).
Proof.
  intros Hci H1 Hget H2.
  pose proof (read_block_caches_inv a ct s _ s1 Hci H1) as Hci1.
  destruct (read_block_shape _ _ _ _ _ Hci H1)
    as (c & item & blocks1 & Hc & _ & Hitem & Hin & Hs1 & _ & Hp & _).
  specialize (Hp p eq_refl). subst p.
  destruct (read_block_shape _ _ _ _ _ Hci1 H2)
    as (c2 & item2 & blocks2 & Hc2 & Hsel2 & Hitem2 & _ & Hs2 & Hother & _ & Hhit).
  assert (Hct : (ct < length (cache s))%nat) by (eapply lookup_lt_Some; eauto).
  assert (Hc1 : cache s1 !! ct
                = Some (mk_cache blocks1 (pri_promote item item (pri c)))).
  { rewrite Hs1. cbn [cache set_cache]. apply list_lookup_insert_eq, Hct. }
  apply get_block_Some in Hget as (_ & c0 & Hc0 & Hcb).
  cbn [fst snd] in Hc0, Hcb. rewrite Hc1 in Hc0. inversion Hc0; subst c0.
  cbn [block] in Hcb.
  unfold get_block, bind, get_cache, lift. cbn [fst snd].
  rewrite Hs2. cbn [cache set_cache].
  destruct (decide (ct2 = ct)) as [->|Hne].
  - rewrite Hc1 in Hc2. inversion Hc2; subst c2. cbn [block pri] in *.
    rewrite list_lookup_insert_eq
      by (apply lookup_lt_Some in Hc1; exact Hc1).
    cbn [block].
    destruct (Z.eq_dec item2 item) as [->|Hdiff].
    + rewrite Hhit, Hcb; [reflexivity|].
      destruct Hci as [_ Hcaches]. destruct (Hcaches _ _ Hc) as (_ & Hperm & _).
      eapply selected_after_promote; eauto.
    + rewrite Hother, Hcb; [reflexivity|]. lia.
  - rewrite list_lookup_insert_ne by auto. rewrite Hc1. cbn [block].
    rewrite Hcb. reflexivity.
Qed.

Lemma most_recent_block_survives_witness :
  exists p s1 cb s2,
    _mfat_read_block 22 MFAT_CACHE_DATA hello_mounted = Some (Some p, s1) /\
    get_block p s1 = Some (cb, s1) /\
    (exists r2, _mfat_read_block 30 MFAT_CACHE_DATA s1 = Some (r2, s2)) /\
    get_block p s2 = Some (cb, s2).
Proof.
  destruct (_mfat_read_block 22 MFAT_CACHE_DATA hello_mounted)
    as [[[p|] s1]|] eqn:E1;
    [|exfalso; revert E1; vm_compute; discriminate
     |exfalso; revert E1; vm_compute; discriminate].
  destruct (get_block p s1) as [[cb s1']|] eqn:Eg.
  2:{ exfalso. revert Eg. revert E1. vm_compute. intros E1.
      inversion E1; subst. vm_compute. discriminate. }
  assert (s1' = s1) by (apply get_block_Some in Eg; apply Eg). subst s1'.
  destruct (_mfat_read_block 30 MFAT_CACHE_DATA s1) as [[r2 s2]|] eqn:E2.
  2:{ exfalso. revert E2. revert E1. vm_compute. intros E1.
      inversion E1; subst. vm_compute. discriminate. }
  exists p, s1, cb, s2. split; [reflexivity|]. split; [exact Eg|].
  split; [exists r2; exact E2|].
  apply (most_recent_block_survives 22 MFAT_CACHE_DATA 30 MFAT_CACHE_DATA
           hello_mounted p s1 cb r2 s2); try assumption.
  apply reachable_caches_inv, hello_mounted_reachable.
Defined.


(* ------------------------------------------------------------------ *)
(** ** What [_mfat_find_file] reports *)

Lemma scan_dir_block_offset buf fname offs n e :
  scan_dir_block buf fname offs n = found_entry e ->
  exists k, 0 <= k < Z.of_nat n /\ e = offs + 32 * k.
Proof.
  revert offs. induction n as [|n IH]; intros offs H; cbn [scan_dir_block] in H.
  - discriminate.
  - destruct (byte_at buf offs =? 0); [discriminate|].
    destruct (_mfat_cmpbuf buf offs fname 0 11).
    + inversion H; subst. exists 0. lia.
    + apply IH in H as (k & Hk & ->). exists (k + 1). lia.
Qed.

Lemma find_file_block_step_entry part fname is_parent_dir st s x s' :
  Forall name_byte fname -> length fname = 11%nat ->
  entry_found st s ->
  find_file_block_step part fname is_parent_dir st s = Some (x, s') ->
  match x with
  | inl st' => entry_found st' s'
  | inr r => forall st', r = Some st' -> entry_found st' s'
  end.
Proof.
  intros Hname Hlen Hst H. unfold find_file_block_step in H.
  destruct (negb _).
  { apply ret_Some in H as [-> ->]. intros st' Hst'. inversion Hst'; subst.
    exact Hst. }
  apply bind_Some in H as (rb & s1 & _ & H).
  destruct rb as [p|]; [|apply ret_Some in H as [-> _]; discriminate].
  apply bind_Some in H as (cb & s2 & Hget & H).
  pose proof Hget as Hget'. apply read_only_get_block in Hget'. subst s2.
  assert (Hnext : forall no_more y s3,
    (if negb (cluster_no (fs_cpos st) =? 0)
     then r <- _mfat_cluster_pos_advance (fs_cpos st) part ;;
          match r with
          | None => ret (inr None)
          | Some cpos =>
              ret (inl (mk_find_state cpos (add32 (fs_blocks_left st) 1)
                                      (Some p) None no_more))
          end
     else ret (inl (mk_find_state
                      (mk_cpos (cluster_no (fs_cpos st))
                               (add32 (block_in_cluster (fs_cpos st)) 1)
                               (cluster_start_blk (fs_cpos st)))
                      (add32 (fs_blocks_left st) 1) (Some p) None no_more)))
      s1 = Some (y, s3) ->
    match y with
    | inl st' => entry_found st' s3
    | inr r => forall st', r = Some st' -> entry_found st' s3
    end).
  { intros no_more y s3 Hy. destruct (negb _).
    - apply bind_Some in Hy as (a & s4 & _ & Hy).
      destruct a; apply ret_Some in Hy as [-> ->];
        [intros e He; discriminate He|discriminate].
    - apply ret_Some in Hy as [-> ->]. intros e He. discriminate He. }
  cbv zeta in H.
  destruct (scan_dir_block (buf cb) fname 0 16) as [|entry|] eqn:Hscan;
    [eapply Hnext, H| |eapply Hnext, H].
  destruct is_parent_dir.
  - destruct (_ =? 0); [apply ret_Some in H as [-> _]; discriminate|].
    apply bind_Some in H as (cpos & s4 & _ & H).
    apply ret_Some in H as [-> ->]. intros st' Hst'. inversion Hst'; subst.
    intros e He. discriminate He.
  - apply ret_Some in H as [-> ->]. intros st' Hst'. inversion Hst'; subst.
    intros e He. cbn in He. inversion He; subst e.
    exists p, cb. split; [reflexivity|]. split; [exact Hget|].
    destruct (scan_dir_block_found _ _ _ _ _ Hscan) as [Hnz Hcmp].
    destruct (scan_dir_block_offset _ _ _ _ _ Hscan) as (k & Hk & ->).
    destruct (byte_at_name_byte fname Hname Hlen) as [He5 _].
    split; [exact Hnz|]. split.
    + unfold _mfat_cmpbuf in Hcmp. rewrite cmpbuf_from_spec in Hcmp.
      specialize (Hcmp 0 ltac:(lia)). rewrite !Z.add_0_r in Hcmp.
      rewrite Z.add_0_l in *. congruence.
    + split; [lia|]. rewrite Z.add_0_l, Z.mul_comm. apply Z.mod_mul. lia.
Qed.

Lemma find_file_path_step_entry part path st s x s' :
  entry_found (snd st) s ->
  find_file_path_step part path st s = Some (x, s') ->
  match x with
  | inl st' => entry_found (snd st') s'
  | inr r => forall st', r = Some st' -> entry_found st' s'
  end.
Proof.
  destruct st as [pp st]. cbn [snd]. intros Hst H.
  unfold find_file_path_step in H.
  destruct (negb (pp >=? 0)).
  { apply ret_Some in H as [-> ->]. intros st' Hst'. inversion Hst'; subst.
    exact Hst. }
  apply bind_Some in H as ([name_pos fname] & s1 & Hcan & H).
  apply lift_Some in Hcan as [Hcan ->].
  destruct (canonicalize_fname_total (drop (Z.to_nat pp) path))
    as (j & name & Hc' & Hname & Hlen).
  rewrite Hcan in Hc'. inversion Hc'; subst j name. clear Hc'.
  cbv zeta in H.
  apply bind_Some in H as (r & s2 & Hloop & H).
  assert (Hpost : forall st', r = Some st' -> entry_found st' s2).
  { refine (while_loop_inv _ entry_found
              (fun r x => forall st', r = Some st' -> entry_found st' x)
              _ _ _ _ _ _ Hloop).
    - intros st0 x0 y x1 Hst0 Hstep.
      eapply find_file_block_step_entry; eauto.
    - intros e He. cbn [fs_file_entry] in He.
      destruct (Hst e He) as (p & cb & Hp & Hrest).
      exists p, cb. cbn [fs_block]. auto. }
  destruct r as [st'|]; [|apply ret_Some in H as [-> _]; discriminate].
  specialize (Hpost st' eq_refl).
  destruct (fs_no_more_entries st'); apply ret_Some in H as [-> ->].
  - intros st2 Hst2. inversion Hst2; subst. exact Hpost.
  - exact Hpost.
Qed.

(** Whenever [_mfat_find_file] returns [true] the file exists: the
    outcome documented as the free slot for a file to create ([exists]
    false) never occurs, because a matched entry starts neither with
    [0x00] nor with [0xE5].  The file information names the partition
    that was searched and an entry at a 32-byte boundary of its block;
    the size is a 32-bit value. *)
Theorem find_file_reports_existing_files pno path s info is_dir e s' :
  _mfat_find_file pno path s = Some (Some (info, is_dir, e), s') ->
  e = 1 /\ (is_dir = 0 \/ is_dir = 1) /\
  part_no info = pno /\
  0 <= dir_entry_offset info < 512 /\ dir_entry_offset info mod 32 = 0 /\
  0 <= size info < 2 ^ 32.
Proof.
  intros H. unfold _mfat_find_file in H.
  apply bind_Some in H as (part & s1 & _ & H).
  apply bind_Some in H as (start & s2 & _ & H).
  apply bind_Some in H as (r & s3 & Hloop & H).
  assert (Hpost : forall st', r = Some st' -> entry_found st' s3).
  { refine (while_loop_inv _ (fun st x => entry_found (snd st) x)
              (fun r x => forall st', r = Some st' -> entry_found st' x)
              _ _ _ _ _ _ Hloop).
    - intros st0 x0 y x1 Hst0 Hstep.
      eapply find_file_path_step_entry in Hstep; eauto.
    - intros e0 He0. discriminate He0. }
  destruct r as [st|]; [|apply ret_Some in H as [H _]; discriminate].
  specialize (Hpost st eq_refl).
  destruct (fs_file_entry st) as [fe|] eqn:Hfe;
    [|apply ret_Some in H as [H _]; discriminate].
  destruct (Hpost fe Hfe) as (p & cb & Hp & Hget & Hnz & He5 & Hrange & Hmod).
  rewrite Hp in H. rewrite (bind_eq _ _ s3 cb s3 Hget) in H. cbv zeta in H.
  apply Z.eqb_neq in Hnz, He5. rewrite Hnz, He5 in H. cbn [negb andb] in H.
  apply ret_Some in H as [H _]. inversion H; subst. cbn.
  split; [reflexivity|]. split; [destruct (negb _); auto|].
  split; [reflexivity|]. split; [exact Hrange|]. split; [exact Hmod|].
  apply get_word_dword_range.
Qed.

Lemma find_file_reports_existing_files_witness :
  exists info is_dir s',
    _mfat_find_file 0 (text "/HELLO.TXT") hello_mounted
    = Some (Some (info, is_dir, 1), s') /\ part_no info = 0.
Proof.
  destruct (_mfat_find_file 0 (text "/HELLO.TXT") hello_mounted)
    as [[[[[info d] e]|] s']|] eqn:E.
  - destruct (find_file_reports_existing_files _ _ _ _ _ _ _ E)
      as (-> & _ & Hp & _).
    exists info, d, s'. split; [reflexivity|exact Hp].
  - exfalso. revert E. vm_compute. discriminate.
  - exfalso. revert E. vm_compute. discriminate.
Defined.


Lemma fat32_mounted_reachable : reachable fat32_mounted.
Proof.
  apply (reachable_mount zero_ctx (Some fat32_disk) (Some accept_writes)).
  vm_compute. reflexivity.
Qed.



(* ------------------------------------------------------------------ *)
(** ** The bytes that [mfat_read] stores *)

Lemma byte_at_lookup buf i :
  0 <= i -> byte_at buf i = u8 (default x00 (buf !! Z.to_nat i)).
Proof.
  intros Hi. unfold byte_at. destruct (Z.ltb_spec i 0); [lia|].
  rewrite nth_lookup. reflexivity.
Qed.

Lemma byte_at_app_l l1 l2 j :
  0 <= j < Z.of_nat (length l1) -> byte_at (l1 ++ l2) j = byte_at l1 j.
Proof.
  intros Hj. rewrite !byte_at_lookup by lia.
  rewrite lookup_app_l by lia. reflexivity.
Qed.

Lemma byte_at_app_r l1 l2 j :
  Z.of_nat (length l1) <= j ->
  byte_at (l1 ++ l2) j = byte_at l2 (j - Z.of_nat (length l1)).
Proof.
  intros Hj. rewrite !byte_at_lookup by lia.
  rewrite lookup_app_r by lia.
  replace (Z.to_nat (j - Z.of_nat (length l1)))
    with (Z.to_nat j - length l1)%nat by lia.
  reflexivity.
Qed.

Lemma length_copy_bytes src off n :
  length (copy_bytes src off n) = Z.to_nat n.
Proof.
  unfold copy_bytes. rewrite length_take, length_app, length_replicate. lia.
Qed.

Lemma byte_at_copy_bytes src off n j :
  0 <= off -> 0 <= j < n ->
  byte_at (copy_bytes src off n) j = byte_at src (off + j).
Proof.
  intros Hoff Hj. rewrite !byte_at_lookup by lia. unfold copy_bytes.
  rewrite lookup_take_lt by lia.
  replace (Z.to_nat (off + j)) with (Z.to_nat off + Z.to_nat j)%nat by lia.
  destruct (decide (Z.to_nat j < length (drop (Z.to_nat off) src))%nat)
    as [Hlt|Hge].
  - rewrite lookup_app_l by exact Hlt. rewrite lookup_drop. reflexivity.
  - rewrite lookup_app_r by lia. rewrite length_drop in Hge.
    rewrite (proj2 (lookup_ge_None src _)) by lia.
    rewrite lookup_replicate_2; [reflexivity|].
    rewrite length_drop. lia.
Qed.

Lemma cursor_byte_at_cursor dev part first cpos B blk k :
  0 < blocks_per_cluster part -> 0 <= k ->
  cursor_at dev part first cpos B -> cpos_start_ok part cpos ->
  dev (_mfat_cluster_pos_blk_no cpos) = Some blk ->
  k / 512 = B ->
  cursor_byte dev part first k = Some (byte_at blk (k mod 512)).
Proof.
  intros Hbpc Hk [Hwalk Hbic] Hstart Hblk HB. unfold cursor_byte.
  destruct (cluster_of_block k (blocks_per_cluster part) Hbpc) as [_ Hidx].
  unfold bytes_per_cluster. change MFAT_BLOCK_SIZE with 512.
  rewrite Hidx, HB, Hwalk, <- Hbic, <- Hstart.
  change (add32 (cluster_start_blk cpos) (block_in_cluster cpos))
    with (_mfat_cluster_pos_blk_no cpos).
  rewrite Hblk. reflexivity.
Qed.

Lemma cluster_pos_advance_start_ok cpos part s cpos' s' :
  cpos_start_ok part cpos ->
  _mfat_cluster_pos_advance cpos part s = Some (Some cpos', s') ->
  cpos_start_ok part cpos'.
Proof.
  intros Hok H. apply cluster_pos_advance_cases in H
    as [(_ & _ & Ha)|(_ & r & _ & Ha)].
  - inversion Ha; subst. exact Hok.
  - destruct r as [c|]; [|discriminate]. inversion Ha; subst. reflexivity.
Qed.

Section ReadData.
Variable dev : mfat_read_block_fun_t.
Variable part : mfat_partition_t.
Variables first o n : Z.
Hypothesis Hbpc : 0 < blocks_per_cluster part < 256.
Hypothesis Ho : 0 <= o.
Hypothesis Hn : 0 <= n.
Hypothesis Hon : o + n < 2 ^ 32.

Lemma read_head_data f cpos s st s' :
  offset f = o -> coherent s -> read s = Some dev ->
  cursor_at dev part first cpos (o / 512) -> cpos_start_ok part cpos ->
  read_head part f cpos n s = Some (Some st, s') ->
  read_data_inv dev part first o st.
Proof.
  intros Hoff Hcoh Hdev Hcur Hstart H. unfold read_head in H.
  rewrite Hoff in H. change MFAT_BLOCK_SIZE with 512 in H. cbv zeta in H.
  destruct (negb (o mod 512 =? 0)).
  2:{ apply ret_Some in H as [H _]. inversion H; subst st.
      split; [reflexivity|]. split; [exact Hstart|]. intros j Hj. lia. }
  apply bind_Some in H as (rb & s1 & Hread & H).
  destruct (read_block_coherent _ _ _ _ _ Hcoh Hread) as (_ & Hbuf).
  destruct rb as [p|]; [|apply ret_Some in H as [H _]; discriminate].
  destruct (Hbuf p eq_refl) as (cb & Hget & Hdata).
  specialize (Hdata dev Hdev).
  rewrite (bind_eq _ _ s1 cb s1 Hget) in H.
  pose proof (Z.mod_pos_bound o 512 ltac:(lia)) as Hmod.
  pose proof (Z.div_mod o 512 ltac:(lia)) as Hdm.
  assert (Hsub : sub32 512 (o mod 512) = 512 - o mod 512)
    by (apply u32_small; lia).
  rewrite Hsub in H.
  set (btc := _mfat_min (512 - o mod 512) n) in *.
  assert (Hbtc : 0 <= btc <= 512 - o mod 512 /\ btc <= n).
  { unfold btc, _mfat_min. destruct (Z.ltb_spec (512 - o mod 512) n); lia. }
  assert (Hbytes : forall j, 0 <= j < btc ->
            cursor_byte dev part first (o + j)
            = Some (byte_at (copy_bytes (buf cb) (o mod 512) btc) j)).
  { intros j Hj. rewrite byte_at_copy_bytes by lia.
    assert (Hq : (o + j) / 512 = o / 512 /\ (o + j) mod 512 = o mod 512 + j).
    { apply (div_mod_512 (o + j) (o / 512) (o mod 512 + j)); lia. }
    destruct Hq as [Hq Hr]. rewrite <- Hr.
    eapply cursor_byte_at_cursor; eauto; lia. }
  assert (Hlen : length (copy_bytes (buf cb) (o mod 512) btc) = Z.to_nat btc)
    by apply length_copy_bytes.
  destruct (btc =? 512 - o mod 512).
  - apply bind_Some in H as (a & s2 & Hadv & H).
    destruct a as [cpos'|]; apply ret_Some in H as [H _]; [|discriminate].
    inversion H; subst st. split; [exact Hlen|]. split; [|exact Hbytes].
    eapply cluster_pos_advance_start_ok; eauto.
  - apply ret_Some in H as [H _]. inversion H; subst st.
    split; [exact Hlen|]. split; [exact Hstart|exact Hbytes].
Qed.

Lemma read_body_step_data st s x s' :
  read_inv dev part first o n st s ->
  read_data_inv dev part first o st ->
  read_body_step part n st s = Some (x, s') ->
  match x with
  | inl st' => read_data_inv dev part first o st'
  | inr r => forall st', r = Some st' -> read_data_inv dev part first o st'
  end.
Proof.
  destruct st as [[cpos br] data].
  intros (Hcoh & Hdev & Hbr & Hcur & Hal) (Hlen & Hstart & Hbytes) H.
  unfold read_body_step, sub32 in H. change MFAT_BLOCK_SIZE with 512 in H.
  rewrite (u32_small (n - br)) in H by lia.
  destruct (Z.geb_spec (n - br) 512) as [Hge|Hlt]; cbn [negb] in H.
  2:{ apply ret_Some in H as [-> _]. intros st' Hst'. inversion Hst'; subst.
      split; [exact Hlen|]. split; [exact Hstart|exact Hbytes]. }
  destruct (_mfat_is_eoc (cluster_no cpos));
    [apply ret_Some in H as [-> _]; discriminate|].
  apply bind_Some in H as (rd & s1 & Hrd & H).
  unfold call_read in Hrd. rewrite Hdev in Hrd. inversion Hrd; subst rd s1.
  destruct (dev (_mfat_cluster_pos_blk_no cpos)) as [blk|] eqn:Hblk;
    [|apply ret_Some in H as [-> _]; discriminate].
  apply bind_Some in H as (a & s2 & Hadv & H).
  destruct a as [cpos'|]; apply ret_Some in H as [-> _]; [|discriminate].
  assert (Hal' : (o + br) mod 512 = 0) by (destruct Hal; [assumption|lia]).
  pose proof (Z.div_mod (o + br) 512 ltac:(lia)) as Hdm.
  unfold add32. rewrite u32_small by lia.
  split; [|split].
  - rewrite length_app, length_copy_bytes, Hlen. lia.
  - eapply cluster_pos_advance_start_ok; eauto.
  - intros j Hj. destruct (Z.lt_ge_cases j br) as [Hlo|Hhi].
    + rewrite byte_at_app_l by lia. apply Hbytes. lia.
    + rewrite byte_at_app_r by lia. rewrite Hlen, Z2Nat.id by lia.
      rewrite byte_at_copy_bytes by lia. rewrite Z.add_0_l.
      assert (Hq : (o + j) / 512 = (o + br) / 512 /\ (o + j) mod 512 = j - br).
      { apply (div_mod_512 (o + j) ((o + br) / 512) (j - br)); lia. }
      destruct Hq as [Hq Hr]. rewrite <- Hr.
      eapply cursor_byte_at_cursor; eauto; lia.
Qed.

Lemma read_tail_data st s st' s' :
  read_inv dev part first o n st s ->
  read_data_inv dev part first o st ->
  n - snd (fst st) < 512 ->
  read_tail n st s = Some (Some st', s') ->
  read_data_inv dev part first o st'.
Proof.
  destruct st as [[cpos br] data]. cbn [fst snd].
  intros (Hcoh & Hdev & Hbr & Hcur & Hal) (Hlen & Hstart & Hbytes) Hlt H.
  unfold read_tail in H.
  destruct (Z.ltb_spec br n) as [Hlt'|_].
  2:{ apply ret_Some in H as [H _]. inversion H; subst st'.
      split; [exact Hlen|]. split; [exact Hstart|exact Hbytes]. }
  destruct (_mfat_is_eoc (cluster_no cpos));
    [apply ret_Some in H as [H _]; discriminate|].
  apply bind_Some in H as (rb & s1 & Hread & H).
  destruct (read_block_coherent _ _ _ _ _ Hcoh Hread) as (_ & Hbuf).
  destruct rb as [p|]; [|apply ret_Some in H as [H _]; discriminate].
  destruct (Hbuf p eq_refl) as (cb & Hget & Hdata).
  specialize (Hdata dev Hdev).
  rewrite (bind_eq _ _ s1 cb s1 Hget) in H.
  apply ret_Some in H as [H _]. inversion H; subst st'. clear H.
  assert (Hal' : (o + br) mod 512 = 0) by (destruct Hal; [assumption|lia]).
  pose proof (Z.div_mod (o + br) 512 ltac:(lia)) as Hdm.
  unfold add32, sub32. rewrite (u32_small (n - br)) by lia.
  rewrite u32_small by lia.
  split; [|split; [exact Hstart|]].
  - rewrite length_app, length_copy_bytes, Hlen. lia.
  - intros j Hj. destruct (Z.lt_ge_cases j br) as [Hlo|Hhi].
    + rewrite byte_at_app_l by lia. apply Hbytes. lia.
    + rewrite byte_at_app_r by lia. rewrite Hlen, Z2Nat.id by lia.
      rewrite byte_at_copy_bytes by lia. rewrite Z.add_0_l.
      assert (Hq : (o + j) / 512 = (o + br) / 512 /\ (o + j) mod 512 = j - br).
      { apply (div_mod_512 (o + j) ((o + br) / 512) (j - br)); lia. }
      destruct Hq as [Hq Hr]. rewrite <- Hr.
      eapply cursor_byte_at_cursor; eauto; lia.
Qed.
End ReadData.

Lemma read_impl_data fd nbyte s r data s' f dev part :
  coherent s -> read s = Some dev ->
  arr_get (file s) fd = Some f -> fd_ok s f ->
  arr_get (partition s) (part_no (info f)) = Some part ->
  0 <= blocks_per_cluster part < 256 ->
  0 <= nbyte < 2 ^ 32 ->
  _mfat_read_impl fd nbyte s = Some ((r, data), s') -> r <> -1 ->
  length data = Z.to_nat r /\
  forall j, 0 <= j < r ->
    cursor_byte dev part (first_cluster (info f)) (offset f + j)
    = Some (byte_at data j).
Proof.
  intros Hcoh Hdev Hf Hok Hp Hbpc0 Hnb H Hr.
  pose proof Hok as (Ho & Hsz & Hwalk).
  unfold _mfat_read_impl in H.
  rewrite (bind_eq _ _ s f s) in H
    by (unfold get_file_at; rewrite Hf; reflexivity).
  destruct (Z.land (oflag f) MFAT_O_RDONLY =? 0).
  { apply ret_Some in H as [H _]. inversion H. contradiction. }
  assert (Hsub : sub32 (size (info f)) (offset f) = size (info f) - offset f)
    by (apply u32_small; lia).
  rewrite Hsub in H.
  set (n := if nbyte >? size (info f) - offset f
            then size (info f) - offset f else nbyte) in H.
  assert (Hn : 0 <= n <= size (info f) - offset f).
  { unfold n. destruct (Z.gtb_spec nbyte (size (info f) - offset f)); lia. }
  destruct (Z.eqb_spec n 0) as [Hz|Hnz].
  { apply ret_Some in H as [H _]. inversion H; subst r data.
    split; [reflexivity|]. intros j Hj. lia. }
  rewrite (bind_eq _ _ s part s) in H
    by (unfold get_partition; rewrite Hp; reflexivity).
  apply bind_Some in H as (cpos & s1 & Hc & H).
  apply lift_Some in Hc as [Hc ->].
  unfold _mfat_cluster_pos_init_from_file, _mfat_cluster_pos_init in Hc.
  assert (Hmul : mul32 (blocks_per_cluster part) MFAT_BLOCK_SIZE
                 = blocks_per_cluster part * 512).
  { apply u32_small. change MFAT_BLOCK_SIZE with 512. lia. }
  rewrite Hmul in Hc.
  destruct (Z.eqb_spec (blocks_per_cluster part * 512) 0) as [|Hcb];
    [discriminate|].
  assert (Hbpc : 0 < blocks_per_cluster part < 256) by lia.
  inversion Hc as [Hcpos]. clear Hc.
  destruct (cluster_of_block (offset f) (blocks_per_cluster part))
    as [Hbic Hidx]; [lia|].
  assert (Hcur : cursor_at dev part (first_cluster (info f)) cpos
                   (offset f / 512)).
  { subst cpos. split; cbn.
    - rewrite <- Hidx. apply Hwalk; assumption.
    - change MFAT_BLOCK_SIZE with 512. exact Hbic. }
  assert (Hstart : cpos_start_ok part cpos) by (subst cpos; reflexivity).
  clear Hcpos.
  apply bind_Some in H as (h & s1 & Hh & H).
  pose proof Hh as Hh'.
  apply (read_head_cursor dev part (first_cluster (info f)) (offset f) n)
    in Hh' as (Hcoh1 & Hf1 & Hinv1); try assumption; try lia; try reflexivity.
  destruct h as [st1|]; [|apply ret_Some in H as [H _]; inversion H; contradiction].
  specialize (Hinv1 _ eq_refl).
  assert (Hdat1 : read_data_inv dev part (first_cluster (info f)) (offset f)
                    st1).
  { apply (read_head_data dev part (first_cluster (info f)) (offset f) n
             Hbpc (proj1 Ho) (proj1 Hn) f cpos s st1 s1 eq_refl Hcoh Hdev Hcur
             Hstart Hh). }
  apply bind_Some in H as (b & s2 & Hb & H).
  assert (Hloop : forall st2, b = Some st2 ->
            (read_inv dev part (first_cluster (info f)) (offset f) n st2 s2 /\
             n - snd (fst st2) < 512) /\
            read_data_inv dev part (first_cluster (info f)) (offset f) st2).
  { refine (while_loop_inv (read_body_step part n)
              (fun st x =>
                 read_inv dev part (first_cluster (info f)) (offset f) n st x /\
                 read_data_inv dev part (first_cluster (info f)) (offset f) st)
              (fun r x => forall st', r = Some st' ->
                 (read_inv dev part (first_cluster (info f)) (offset f) n st' x /\
                  n - snd (fst st') < 512) /\
                 read_data_inv dev part (first_cluster (info f)) (offset f) st')
              _ _ _ _ _ _ Hb); [|split; assumption].
    intros st x0 y x1 [Hst Hdat] Hstep.
    pose proof (read_body_step_cursor dev part (first_cluster (info f))
                  (offset f) n Hbpc (proj1 Ho) ltac:(lia) n st x0 y x1 eq_refl
                  Hst Hstep) as Hcurs.
    assert (Hdata : match y with
                    | inl st' =>
                        read_data_inv dev part (first_cluster (info f))
                          (offset f) st'
                    | inr r => forall st', r = Some st' ->
                        read_data_inv dev part (first_cluster (info f))
                          (offset f) st'
                    end).
    { apply (read_body_step_data dev part (first_cluster (info f))
               (offset f) n Hbpc (proj1 Ho) ltac:(lia) st x0 y x1 Hst Hdat
               Hstep). }
    destruct y as [st'|r0]; [split; assumption|].
    intros st' Hst'. split; [apply Hcurs, Hst'|apply Hdata, Hst']. }
  destruct b as [st2|]; [|apply ret_Some in H as [H _]; inversion H; contradiction].
  destruct (Hloop st2 eq_refl) as [[Hinv2 Hlt2] Hdat2].
  apply bind_Some in H as (t & s3 & Ht & H).
  destruct t as [[[cpos3 br3] data3]|];
    [|apply ret_Some in H as [H _]; inversion H; contradiction].
  assert (Hdat3 : read_data_inv dev part (first_cluster (info f)) (offset f)
                    (cpos3, br3, data3)).
  { apply (read_tail_data dev part (first_cluster (info f)) (offset f) n
             Hbpc (proj1 Ho) (proj1 Hn) ltac:(lia) st2 s2 _ s3 Hinv2 Hdat2
             Hlt2 Ht). }
  destruct Hdat3 as (Hlen3 & _ & Hbytes3).
  apply bind_Some in H as (u & s4 & _ & H).
  apply ret_Some in H as [H _]. inversion H; subst r data.
  split; assumption.
Qed.



(* ------------------------------------------------------------------ *)
(** ** The directory entry behind an open file *)

Lemma cached_read_block dev blk ct :
  preserves (fun s => caches_inv s /\ coherent s /\ read s = Some dev)
            (_mfat_read_block blk ct).
Proof.
  intros s r s' (Hci & Hcoh & Hr) H.
  destruct (read_block_inv _ _ _ _ _ Hci H) as (Hci' & Hfr & _).
  destruct (read_block_coherent _ _ _ _ _ Hcoh H) as (Hcoh' & _).
  split; [exact Hci'|]. split; [exact Hcoh'|].
  destruct Hfr as (_ & _ & Hr' & _). congruence.
Qed.

Lemma read_block_on_device dev blk ct s p s' :
  caches_inv s -> coherent s -> read s = Some dev ->
  _mfat_read_block blk ct s = Some (Some p, s') ->
  exists cb, get_block p s' = Some (cb, s') /\ blk_no cb = blk /\
             dev blk = Some (buf cb).
Proof.
  intros Hci Hcoh Hr H.
  destruct (read_block_coherent _ _ _ _ _ Hcoh H) as (_ & Hbuf).
  destruct (Hbuf p eq_refl) as (cb & Hget & Hdata).
  destruct (read_block_inv _ _ _ _ _ Hci H) as (_ & _ & Hslot).
  destruct (Hslot p eq_refl) as (Hfst & c & cb' & Hc & Hcb' & Hblk & _).
  exists cb. split; [exact Hget|].
  apply get_block_Some in Hget as (_ & c0 & Hc0 & Hcb0).
  rewrite Hfst, Hc in Hc0. inversion Hc0; subst c0.
  rewrite Hcb' in Hcb0. inversion Hcb0; subst cb'.
  split; [exact Hblk|apply Hdata, Hr].
Qed.

Lemma find_file_block_step_on_device dev part fname is_parent_dir st s x s' :
  found_on_device dev st s ->
  find_file_block_step part fname is_parent_dir st s = Some (x, s') ->
  match x with
  | inl st' => found_on_device dev st' s'
  | inr r => forall st', r = Some st' -> found_on_device dev st' s'
  end.
Proof.
  intros [Hbase Hst] H.
  assert (Hbase' : caches_inv s' /\ coherent s' /\ read s' = Some dev).
  { eapply (preserves_find_file_block_step _ (cached_read_block dev));
      [exact Hbase|exact H]. }
  unfold find_file_block_step in H.
  destruct (negb _).
  { apply ret_Some in H as [-> ->]. intros st' Hst'. inversion Hst'; subst.
    split; assumption. }
  apply bind_Some in H as (rb & s1 & Hrd & H).
  destruct rb as [p|]; [|apply ret_Some in H as [-> _]; discriminate].
  apply bind_Some in H as (cb & s2 & Hget & H).
  pose proof Hget as Hget'. apply read_only_get_block in Hget'. subst s2.
  assert (Hnext : forall no_more y s3,
    (if negb (cluster_no (fs_cpos st) =? 0)
     then r <- _mfat_cluster_pos_advance (fs_cpos st) part ;;
          match r with
          | None => ret (inr None)
          | Some cpos =>
              ret (inl (mk_find_state cpos (add32 (fs_blocks_left st) 1)
                                      (Some p) None no_more))
          end
     else ret (inl (mk_find_state
                      (mk_cpos (cluster_no (fs_cpos st))
                               (add32 (block_in_cluster (fs_cpos st)) 1)
                               (cluster_start_blk (fs_cpos st)))
                      (add32 (fs_blocks_left st) 1) (Some p) None no_more)))
      s1 = Some (y, s3) ->
    match y with
    | inl st' => forall e, fs_file_entry st' = Some e -> False
    | inr r => forall st' e, r = Some st' -> fs_file_entry st' = Some e -> False
    end).
  { intros no_more y s3 Hy. destruct (negb _).
    - apply bind_Some in Hy as (a & s4 & _ & Hy).
      destruct a; apply ret_Some in Hy as [-> ->];
        [intros e He; discriminate He|discriminate].
    - apply ret_Some in Hy as [-> ->]. intros e He. discriminate He. }
  cbv zeta in H.
  destruct (scan_dir_block (buf cb) fname 0 16) as [|entry|] eqn:Hscan.
  - apply Hnext in H. destruct x as [st'|r].
    + split; [exact Hbase'|]. intros e He. destruct (H e He).
    + intros st' ->. split; [exact Hbase'|]. intros e He.
      destruct (H st' e eq_refl He).
  - destruct is_parent_dir.
    + destruct (_ =? 0); [apply ret_Some in H as [-> _]; discriminate|].
      apply bind_Some in H as (cpos & s4 & _ & H).
      apply ret_Some in H as [-> ->]. intros st' Hst'. inversion Hst'; subst.
      split; [exact Hbase'|]. intros e He. discriminate He.
    + apply ret_Some in H as [-> ->]. intros st' Hst'. inversion Hst'; subst.
      split; [exact Hbase'|]. intros e He.
      destruct Hbase as (Hci & Hcoh & Hr).
      destruct (read_block_on_device _ _ _ _ _ _ Hci Hcoh Hr Hrd)
        as (cb' & Hget' & Hblk & Hdata).
      rewrite Hget in Hget'. inversion Hget'; subst cb'.
      exists p, cb. cbn [fs_block]. split; [reflexivity|].
      split; [exact Hget|]. rewrite Hblk. exact Hdata.
  - apply Hnext in H. destruct x as [st'|r].
    + split; [exact Hbase'|]. intros e He. destruct (H e He).
    + intros st' ->. split; [exact Hbase'|]. intros e He.
      destruct (H st' e eq_refl He).
Qed.

Lemma find_file_path_step_on_device dev part path st s x s' :
  found_on_device dev (snd st) s ->
  find_file_path_step part path st s = Some (x, s') ->
  match x with
  | inl st' => found_on_device dev (snd st') s'
  | inr r => forall st', r = Some st' -> found_on_device dev st' s'
  end.
Proof.
  destruct st as [pp st]. cbn [snd]. intros Hst H.
  unfold find_file_path_step in H.
  destruct (negb (pp >=? 0)).
  { apply ret_Some in H as [-> ->]. intros st' Hst'. inversion Hst'; subst.
    exact Hst. }
  apply bind_Some in H as ([name_pos fname] & s1 & Hcan & H).
  apply lift_Some in Hcan as [Hcan ->].
  cbv zeta in H.
  apply bind_Some in H as (r & s2 & Hloop & H).
  assert (Hpost : forall st', r = Some st' -> found_on_device dev st' s2).
  { refine (while_loop_inv _ (found_on_device dev)
              (fun r x => forall st', r = Some st' -> found_on_device dev st' x)
              _ _ _ _ _ _ Hloop).
    - intros st0 x0 y x1 Hst0 Hstep.
      eapply find_file_block_step_on_device; eauto.
    - destruct Hst as [Hbase Hst]. split; [exact Hbase|].
      intros e He. cbn [fs_file_entry] in He.
      destruct (Hst e He) as (p & cb & Hp & Hrest).
      exists p, cb. cbn [fs_block]. auto. }
  destruct r as [st'|]; [|apply ret_Some in H as [-> _]; discriminate].
  specialize (Hpost st' eq_refl).
  destruct (fs_no_more_entries st'); apply ret_Some in H as [-> ->].
  - intros st2 Hst2. inversion Hst2; subst. exact Hpost.
  - exact Hpost.
Qed.

(** The file information [_mfat_find_file] returns is decoded from the
    directory entry on the device, and [is_dir] is its directory
    attribute. *)
Lemma find_file_on_device dev pno path s info is_dir e s' :
  caches_inv s -> coherent s -> read s = Some dev ->
  _mfat_find_file pno path s = Some (Some (info, is_dir, e), s') ->
  entry_on_device dev info /\
  forall data, dev (dir_entry_block info) = Some data ->
    is_dir = 0 -> e <> 0 ->
    Z.land (byte_at data (dir_entry_offset info + 11)) MFAT_ATTR_DIRECTORY = 0.
Proof.
  intros Hci Hcoh Hr H. unfold _mfat_find_file in H.
  apply bind_Some in H as (part & s1 & Hp & H).
  apply get_partition_Some in Hp as [-> _].
  apply bind_Some in H as (start & s2 & Hstart & H).
  assert (s2 = s).
  { destruct (_ =? _).
    - apply bind_Some in Hstart as (c & s3 & Hc & Hstart).
      apply lift_Some in Hc as [_ ->]. apply ret_Some in Hstart as [_ ->].
      reflexivity.
    - apply ret_Some in Hstart as [_ ->]. reflexivity. }
  subst s2.
  apply bind_Some in H as (r & s3 & Hloop & H).
  assert (Hpost : forall st', r = Some st' -> found_on_device dev st' s3).
  { refine (while_loop_inv _ (fun st x => found_on_device dev (snd st) x)
              (fun r x => forall st', r = Some st' -> found_on_device dev st' x)
              _ _ _ _ _ _ Hloop).
    - intros st0 x0 y x1 Hst0 Hstep.
      eapply find_file_path_step_on_device in Hstep; eauto.
    - split; [auto|]. intros e0 He0. discriminate He0. }
  destruct r as [st|]; [|apply ret_Some in H as [H _]; discriminate].
  destruct (Hpost st eq_refl) as [_ Hfound].
  destruct (fs_file_entry st) as [fe|] eqn:Hfe;
    [|apply ret_Some in H as [H _]; discriminate].
  destruct (Hfound fe eq_refl) as (p & cb & Hpb & Hget & Hdata).
  rewrite Hpb in H. rewrite (bind_eq _ _ s3 cb s3 Hget) in H. cbv zeta in H.
  assert (Hinfo : info = mk_file_info pno
                    (_mfat_get_dword (buf cb) (fe + 28))
                    (child_dir_cluster (buf cb) fe) (blk_no cb) fe /\
                  (is_dir = 0 -> e <> 0 ->
                   Z.land (byte_at (buf cb) (fe + 11)) MFAT_ATTR_DIRECTORY = 0)).
  { destruct (_ && _).
    - destruct (Z.eqb_spec (Z.land (byte_at (buf cb) (fe + 11))
                                   MFAT_ATTR_DIRECTORY) 0) as [E|E];
        cbn [negb] in H; apply ret_Some in H as [H _]; inversion H; subst;
        split; auto; discriminate.
    - apply ret_Some in H as [H _]. inversion H; subst.
      split; [reflexivity|]. intros _ He. contradiction. }
  destruct Hinfo as [-> Hdir]. cbn [dir_entry_block dir_entry_offset].
  split.
  - exists (buf cb). cbn. auto.
  - intros data Hd Hz He. rewrite Hdata in Hd. inversion Hd; subst data.
    auto.
Qed.

Lemma reachable_entries_inv s : reachable s -> entries_inv s.
Proof.
  induction 1 as [s0 r w s Hm|s c rv s' Hreach IH Hc Hrun].
  - intros fd f dev Hf Hopen _. exfalso. apply Hopen.
    eapply (mount_all_closed _ _ _ _ Hm); eauto.
  - destruct (non_mount_files_track c s rv s' Hc Hreach Hrun) as [Htrack _].
    destruct (non_mount_same_config c s rv s' Hc Hrun) as (Hr & _ & _).
    destruct (reachable_mounted_inv s Hreach) as (Hci & Hcoh & _).
    intros fd f' dev Hf' Hopen Hdev. rewrite Hr in Hdev.
    destruct (Htrack fd f' Hf' Hopen)
      as [(f & Hf & Ho & Hi)|(_ & path & e & s1 & He & Hfind)].
    + rewrite <- Hi. eapply IH; eauto.
    + destruct (find_file_on_device dev _ _ _ _ _ _ _ Hci Hcoh Hdev Hfind)
        as [Hent Hdir].
      split; [exact Hent|]. intros data Hdata. apply Hdir; auto.
Qed.

(** In a state without dirty blocks [_mfat_get_cached_block] always
    yields a slot: nothing has to be written back. *)
Lemma get_cached_block_succeeds blk ct s :
  caches_inv s -> clean s -> (ct < MFAT_NUM_CACHES)%nat ->
  exists p s1, _mfat_get_cached_block blk ct s = Some (Some p, s1).
Proof.
  intros Hci Hclean Hct.
  destruct Hci as (Hlen & Hcaches).
  destruct (lookup_lt_is_Some_2 (cache s) ct) as [c Hc]; [lia|].
  destruct (Hcaches _ _ Hc) as (Hblen & Hperm & _).
  assert (Hplen : length (pri c) = MFAT_NUM_CACHED_BLOCKS).
  { rewrite Hperm. reflexivity. }
  destruct (lookup_lt_is_Some_2 (pri c) (MFAT_NUM_CACHED_BLOCKS - 1))
    as [lru Hlru]; [rewrite Hplen; cbv; lia|].
  unfold _mfat_get_cached_block.
  rewrite (bind_eq _ _ s c s) by (unfold get_cache; rewrite Hc; reflexivity).
  rewrite (bind_eq _ _ s lru s) by (unfold lift; rewrite Hlru; reflexivity).
  cbv zeta.
  set (item := match find_hit (block c) blk 0 with
               | Some i => i
               | None => lru
               end).
  assert (Hitem : 0 <= item < Z.of_nat MFAT_NUM_CACHED_BLOCKS).
  { subst item. destruct (find_hit (block c) blk 0) as [i|] eqn:Hhit.
    - apply find_hit_Some in Hhit as (Hi & cb & Hcb & _).
      apply lookup_lt_Some in Hcb. rewrite Hblen in Hcb. lia.
    - apply iota_pri_In. apply (Permutation_in _ Hperm).
      apply list_elem_of_lookup_2 in Hlru. apply list_elem_of_In, Hlru. }
  destruct (lookup_lt_is_Some_2 (block c) (Z.to_nat item)) as [cb Hcb];
    [rewrite Hblen; lia|].
  set (s1 := set_cache (<[ct := mk_cache (block c)
                                  (pri_promote item item (pri c))]> (cache s)) s).
  rewrite (bind_eq _ _ s tt s1) by reflexivity.
  rewrite (bind_eq _ _ s1 cb s1).
  2:{ unfold lift, arr_get. destruct (Z.ltb_spec item 0); [lia|].
      rewrite Hcb. reflexivity. }
  destruct (negb (blk_no cb =? blk)); [|eexists _, _; reflexivity].
  assert (Hnd : (state cb =? MFAT_DIRTY) = false).
  { destruct (Hclean _ _ _ _ Hc Hcb) as [E|E]; rewrite E; reflexivity. }
  rewrite Hnd. rewrite (bind_eq _ _ s1 true s1) by reflexivity.
  assert (Hc1 : cache s1 !! ct = Some (mk_cache (block c)
                                         (pri_promote item item (pri c)))).
  { cbn [cache s1 set_cache]. apply list_lookup_insert_eq.
    apply lookup_lt_Some in Hc. exact Hc. }
  unfold put_block. cbn [fst snd].
  unfold bind at 1. unfold bind at 1. unfold get_cache. rewrite Hc1.
  eexists _, _. reflexivity.
Qed.

(** In a state without dirty blocks [_mfat_read_block] succeeds for
    every block the device can read. *)
Lemma read_block_succeeds dev data blk ct s :
  caches_inv s -> clean s -> read s = Some dev ->
  (ct < MFAT_NUM_CACHES)%nat -> dev blk = Some data ->
  exists p s', _mfat_read_block blk ct s = Some (Some p, s').
Proof.
  intros Hci Hclean Hr Hct Hdata.
  destruct (get_cached_block_succeeds blk ct s Hci Hclean Hct)
    as (p & s1 & Hget). exists p.
  destruct (get_cached_block_inv _ _ _ _ _ Hci Hget) as (_ & Hfr & Hslot).
  destruct (Hslot p eq_refl) as (Hp1 & c & cb & Hc & Hcb & _).
  unfold _mfat_read_block. rewrite (bind_eq _ _ s (Some p) s1 Hget).
  assert (Hgb : get_block p s1 = Some (cb, s1)).
  { unfold get_block, bind, get_cache, lift. rewrite Hp1, Hc, Hcb.
    reflexivity. }
  rewrite (bind_eq _ _ s1 cb s1 Hgb).
  destruct (state cb =? MFAT_INVALID); [|eexists; reflexivity].
  assert (Hr1 : read s1 = Some dev).
  { destruct Hfr as (_ & _ & Hr1 & _). congruence. }
  rewrite (bind_eq _ _ s1 (Some data) s1)
    by (unfold call_read; rewrite Hr1, Hdata; reflexivity).
  unfold put_block. unfold bind at 1. unfold bind at 1.
  unfold get_cache. rewrite Hp1, Hc. eexists. reflexivity.
Qed.



(* ------------------------------------------------------------------ *)
(** ** [mfat_stat] and [mfat_open] on the same path *)

(** A path that [mfat_open] opens can also be passed to [mfat_stat]:
    called in the same state, [mfat_stat] succeeds, reports a regular
    file and reports the size that the new descriptor carries. *)
Theorem stat_agrees_with_open path flags s r s' :
  reachable s ->
  mfat_open (Some path) flags s = Some (r, s') -> 0 <= r ->
  exists st s2 f,
    mfat_stat (Some path) false s = Some ((0, Some st), s2) /\
    file s' !! Z.to_nat r = Some f /\ open f <> 0 /\
    st_size st = size (info f) /\
    Z.land (st_mode st) (Z.lor MFAT_S_IFDIR MFAT_S_IFREG) = MFAT_S_IFREG.
Proof.
  intros Hreach Hopen Hr.
  destruct (reachable_mounted_inv s Hreach) as (Hci & Hcoh & [[dev Hdev] _] & _).
  pose proof (reachable_clean s Hreach) as Hcl.
  pose proof (reachable_num_fds s Hreach) as Hlen.
  destruct (mfat_open_find _ _ _ _ _ Hopen Hr)
    as (p & info & e & s1 & Hp & He & Hfind & Hfile).
  inversion Hp; subst p. clear Hp.
  assert (Hguard : (initialized s =? 0) || (active_partition s <? 0) = false).
  { unfold mfat_open in Hopen.
    rewrite (bind_eq _ _ s s s) in Hopen by reflexivity.
    destruct (_ || _); [|reflexivity].
    apply ret_Some in Hopen as [-> _]. lia. }
  assert (Hrange : (Z.to_nat r < length (file s))%nat).
  { apply mfat_open_cases in Hopen as [_ [[-> _]|(Hr' & _)]]; [lia|].
    rewrite Hlen. lia. }
  assert (Hbase1 : caches_inv s1 /\ coherent s1 /\ read s1 = Some dev).
  { eapply (preserves_find_file _ (cached_read_block dev)); [|exact Hfind].
    auto. }
  destruct Hbase1 as (Hci1 & Hcoh1 & Hdev1).
  assert (Hcl1 : clean s1).
  { eapply (preserves_find_file clean read_block_clean); [exact Hcl|exact Hfind]. }
  destruct (find_file_on_device dev _ _ _ _ _ _ _ Hci Hcoh Hdev Hfind)
    as [(data & Hdata & Hsize & _) Hdir].
  specialize (Hdir data Hdata eq_refl He).
  destruct (read_block_succeeds dev data (dir_entry_block info)
              MFAT_CACHE_DATA s1 Hci1 Hcl1 Hdev1 ltac:(cbv; lia) Hdata)
    as (pb & s2 & Hrun).
  destruct (read_block_on_device dev _ _ _ _ _ Hci1 Hcoh1 Hdev1 Hrun)
    as (cb & Hget & _ & Hbuf).
  rewrite Hdata in Hbuf. inversion Hbuf as [Hbuf']. clear Hbuf.
  exists (_mfat_dir_entry_to_stat data (dir_entry_offset info)), s2,
         (mk_file 1 flags 0 (first_cluster info) info).
  split; [|split; [|split; [|split]]].
  - unfold mfat_stat. rewrite (bind_eq _ _ s s s) by reflexivity.
    rewrite Hguard. unfold _mfat_stat_impl.
    rewrite (bind_eq _ _ s s s) by reflexivity.
    rewrite (bind_eq _ _ s _ s1 Hfind). cbv beta iota.
    destruct (Z.eqb_spec e 0) as [E|_]; [contradiction|].
    unfold _mfat_fstat_impl. rewrite (bind_eq _ _ s1 (Some pb) s2 Hrun).
    rewrite (bind_eq _ _ s2 cb s2 Hget). rewrite <- Hbuf'. reflexivity.
  - rewrite Hfile. apply list_lookup_insert_eq. exact Hrange.
  - cbn. discriminate.
  - unfold _mfat_dir_entry_to_stat. cbn [st_size]. symmetry. exact Hsize.
  - unfold _mfat_dir_entry_to_stat. cbn [st_mode]. rewrite Hdir.
    change (0 =? 0) with true. cbn [negb].
    destruct (Z.land _ MFAT_ATTR_READ_ONLY =? 0); vm_compute; reflexivity.
Qed.

Lemma stat_agrees_with_open_witness :
  exists st s2,
    mfat_stat (Some (text "/HELLO.TXT")) false chain_mounted
    = Some ((0, Some st), s2) /\ st_size st = 1300.
Proof.
  destruct (mfat_open (Some (text "/HELLO.TXT")) MFAT_O_RDONLY chain_mounted)
    as [[r s']|] eqn:E.
  - assert (Hr : r = 0) by (revert E; vm_compute; intros E; inversion E; reflexivity).
    subst r.
    destruct (stat_agrees_with_open _ _ _ _ _ chain_mounted_reachable E)
      as (st & s2 & f & Hstat & Hf & _ & Hsize & _); [lia|].
    exists st, s2. split; [exact Hstat|]. rewrite Hsize.
    revert E Hf. vm_compute. intros E Hf. inversion E; subst s'.
    inversion Hf. reflexivity.
  - exfalso. revert E. vm_compute. discriminate.
Defined.


(* ------------------------------------------------------------------ *)
(** ** What the calls leave alone *)

Section Footprint.
Variable P : mfat_ctx_t -> Prop.
Hypothesis P_caches : forall s s', same_but_caches s s' -> P s -> P s'.

Lemma footprint_read_block blk ct : preserves P (_mfat_read_block blk ct).
Proof. apply read_block_preserves_frame. exact P_caches. Qed.

Lemma footprint_sync : preserves P _mfat_sync_impl.
Proof.
  intros s u s' HP H. apply sync_impl_frame in H. eapply P_caches; eauto.
Qed.
End Footprint.

(** No call other than [mfat_mount] changes the callbacks or the
    partition table.  Only [mfat_unmount] changes the initialized flag,
    only [mfat_select_partition] changes the active partition, and only
    [mfat_open], [mfat_close], [mfat_read] and [mfat_lseek] change the
    descriptor table, whose length no call changes.  In particular
    [mfat_stat], [mfat_fstat], [mfat_sync] and [mfat_write] change
    nothing but the block caches. *)
Theorem api_call_footprint c s r s' :
  (forall rf wf, c <> call_mount rf wf) ->
  run_api c s = Some (r, s') ->
  read s' = read s /\ write s' = write s /\ partition s' = partition s /\
  (c <> call_unmount -> initialized s' = initialized s) /\
  ((forall i, c <> call_select_partition i) ->
   active_partition s' = active_partition s) /\
  length (file s') = length (file s) /\
  match c with
  | call_open _ _ | call_close _ | call_read_file _ _ | call_lseek _ _ _ =>
      True
  | _ => file s' = file s
  end.
Proof.
  intros Hc H.
  destruct (non_mount_same_config c s r s' Hc H) as (Hr & Hw & Hp).
  split; [exact Hr|]. split; [exact Hw|]. split; [exact Hp|].
  assert (Hput : forall (Q : mfat_ctx_t -> Prop),
            (forall v x, Q x -> Q (set_file v x)) ->
            forall fd f, preserves Q (put_file fd f)).
  { intros Q HQ fd f. apply preserves_modify. intros x Hx. apply HQ, Hx. }
  split; [|split; [|split]].
  - intros Hun.
    set (Q := fun x => initialized x = initialized s).
    assert (HQc : forall a b, same_but_caches a b -> Q a -> Q b).
    { intros a b (Hi & _) Ha. unfold Q in *. congruence. }
    assert (HQf : forall fd f, preserves Q (put_file fd f))
      by (apply Hput; intros v x Hx; exact Hx).
    assert (HQa : forall v x, Q x -> Q (set_active_partition v x))
      by (intros v x Hx; exact Hx).
    pose proof (footprint_read_block Q HQc) as HQr.
    pose proof (footprint_sync Q HQc) as HQs.
    assert (HQ : preserves Q (run_api c)).
    { destruct c; cbn [run_api];
        try (exfalso; eapply Hc; reflexivity);
        try (exfalso; apply Hun; reflexivity).
      - apply preserves_select_partition; auto.
      - apply preserves_bind; [apply preserves_sync; auto|intros; apply preserves_ret].
      - apply preserves_bind; [apply preserves_fstat; auto|intros; apply preserves_ret].
      - apply preserves_bind; [apply preserves_stat; auto|intros; apply preserves_ret].
      - apply preserves_open; auto.
      - apply preserves_close; auto.
      - apply preserves_bind; [apply preserves_read; auto|intros; apply preserves_ret].
      - apply preserves_write; auto.
      - apply preserves_lseek; auto. }
    apply (HQ s r s'); [reflexivity|exact H].
  - intros Hsel.
    set (Q := fun x => active_partition x = active_partition s).
    assert (HQc : forall a b, same_but_caches a b -> Q a -> Q b).
    { intros a b (_ & Ha' & _) Ha. unfold Q in *. congruence. }
    assert (HQf : forall fd f, preserves Q (put_file fd f))
      by (apply Hput; intros v x Hx; exact Hx).
    assert (HQi : forall v x, Q x -> Q (set_initialized v x))
      by (intros v x Hx; exact Hx).
    pose proof (footprint_read_block Q HQc) as HQr.
    pose proof (footprint_sync Q HQc) as HQs.
    assert (HQ : preserves Q (run_api c)).
    { destruct c; cbn [run_api];
        try (exfalso; eapply Hc; reflexivity);
        try (exfalso; eapply Hsel; reflexivity).
      - apply preserves_bind; [apply preserves_unmount; auto|intros; apply preserves_ret].
      - apply preserves_bind; [apply preserves_sync; auto|intros; apply preserves_ret].
      - apply preserves_bind; [apply preserves_fstat; auto|intros; apply preserves_ret].
      - apply preserves_bind; [apply preserves_stat; auto|intros; apply preserves_ret].
      - apply preserves_open; auto.
      - apply preserves_close; auto.
      - apply preserves_bind; [apply preserves_read; auto|intros; apply preserves_ret].
      - apply preserves_write; auto.
      - apply preserves_lseek; auto. }
    apply (HQ s r s'); [reflexivity|exact H].
  - set (Q := fun x => length (file x) = length (file s)).
    assert (HQc : forall a b, same_but_caches a b -> Q a -> Q b).
    { intros a b (_ & _ & _ & _ & _ & Hf) Ha. unfold Q in *. congruence. }
    assert (HQf : forall fd f, preserves Q (put_file fd f)).
    { intros fd f. apply preserves_modify. intros x Hx. unfold Q in *.
      cbn [file set_file]. rewrite length_insert. exact Hx. }
    apply (preserves_non_mount Q (footprint_read_block Q HQc)
             (footprint_sync Q HQc) HQf) in H; auto.
    reflexivity.
  - set (Q := fun x => file x = file s).
    assert (HQc : forall a b, same_but_caches a b -> Q a -> Q b).
    { intros a b (_ & _ & _ & _ & _ & Hf) Ha. unfold Q in *. congruence. }
    assert (HQa : forall v x, Q x -> Q (set_active_partition v x))
      by (intros v x Hx; exact Hx).
    assert (HQi : forall v x, Q x -> Q (set_initialized v x))
      by (intros v x Hx; exact Hx).
    pose proof (footprint_read_block Q HQc) as HQr.
    pose proof (footprint_sync Q HQc) as HQs.
    destruct c; cbn [run_api] in H; try exact I;
      try (exfalso; eapply Hc; reflexivity).
    + apply bind_Some in H as (u & s1 & H & Hret).
      apply ret_Some in Hret as [_ ->].
      apply (preserves_unmount Q HQs HQi) in H; [exact H|reflexivity].
    + apply (preserves_select_partition Q HQa) in H; [exact H|reflexivity].
    + apply bind_Some in H as (u & s1 & H & Hret).
      apply ret_Some in Hret as [_ ->].
      apply (preserves_sync Q HQs) in H; [exact H|reflexivity].
    + apply bind_Some in H as (u & s1 & H & Hret).
      apply ret_Some in Hret as [_ ->].
      apply (preserves_fstat Q HQr) in H; [exact H|reflexivity].
    + apply bind_Some in H as (u & s1 & H & Hret).
      apply ret_Some in Hret as [_ ->].
      apply (preserves_stat Q HQr) in H; [exact H|reflexivity].
    + apply (preserves_write Q) in H; [exact H|reflexivity].
Qed.

Lemma api_call_footprint_witness :
  exists r s',
    run_api (call_stat (Some (text "/HELLO.TXT")) false) chain_opened
    = Some (r, s') /\
    file s' = file chain_opened /\
    active_partition s' = active_partition chain_opened.
Proof.
  destruct (run_api (call_stat (Some (text "/HELLO.TXT")) false) chain_opened)
    as [[r s']|] eqn:E.
  - exists r, s'. split; [reflexivity|].
    assert (Hc : forall rf wf,
              call_stat (Some (text "/HELLO.TXT")) false <> call_mount rf wf)
      by (intros; discriminate).
    destruct (api_call_footprint _ _ _ _ Hc E)
      as (_ & _ & _ & _ & Ha & _ & Hf).
    split; [exact Hf|]. apply Ha. discriminate.
  - exfalso. revert E. vm_compute. discriminate.
Defined.


(* ------------------------------------------------------------------ *)
(** ** The search of a FAT16 root directory *)

Lemma reachable_device_cached dev s :
  reachable s -> read s = Some dev -> device_cached dev s.
Proof.
  intros Hreach Hdev.
  destruct (reachable_mounted_inv s Hreach) as (Hci & Hcoh & _).
  split; [exact Hci|]. split; [exact Hcoh|].
  split; [apply reachable_clean, Hreach|exact Hdev].
Qed.

Lemma device_cached_read_block dev blk ct :
  preserves (device_cached dev) (_mfat_read_block blk ct).
Proof.
  intros s r s' (Hci & Hcoh & Hcl & Hr) H.
  destruct (cached_read_block dev blk ct s r s') as (Hci' & Hcoh' & Hr'); auto.
  split; [exact Hci'|]. split; [exact Hcoh'|]. split; [|exact Hr'].
  eapply read_block_clean; eauto.
Qed.

(** On sound caches without dirty blocks [_mfat_read_block] always
    returns: with a slot that holds the block when the device can read
    it, with [NULL] when it cannot. *)
Lemma read_block_defined dev blk ct s :
  device_cached dev s -> (ct < MFAT_NUM_CACHES)%nat ->
  exists r s',
    _mfat_read_block blk ct s = Some (r, s') /\ device_cached dev s' /\
    match dev blk with
    | Some data =>
        exists p cb, r = Some p /\ get_block p s' = Some (cb, s') /\
                     blk_no cb = blk /\ buf cb = data
    | None => r = None
    end.
Proof.
  intros Hdc Hct. pose proof Hdc as (Hci & Hcoh & Hcl & Hr).
  destruct (dev blk) as [data|] eqn:Hdata.
  - destruct (read_block_succeeds dev data blk ct s Hci Hcl Hr Hct Hdata)
      as (p & s' & Hrun).
    exists (Some p), s'. split; [exact Hrun|].
    split; [eapply device_cached_read_block; eauto|].
    destruct (read_block_on_device dev _ _ _ _ _ Hci Hcoh Hr Hrun)
      as (cb & Hget & Hblk & Hbuf).
    exists p, cb. rewrite Hdata in Hbuf. inversion Hbuf. auto.
  - destruct (get_cached_block_succeeds blk ct s Hci Hcl Hct)
      as (p & s1 & Hget).
    destruct (get_cached_block_inv _ _ _ _ _ Hci Hget) as (_ & Hfr & Hslot).
    destruct (Hslot p eq_refl) as (Hp1 & c & cb & Hc & Hcb & Hblk & _).
    destruct (get_cached_block_coherent _ _ _ _ _ Hcoh Hget) as (Hcoh1 & _).
    assert (Hr1 : read s1 = Some dev).
    { destruct Hfr as (_ & _ & Hr1 & _). congruence. }
    assert (Hrun : _mfat_read_block blk ct s = Some (None, s1)).
    { unfold _mfat_read_block. rewrite (bind_eq _ _ s (Some p) s1 Hget).
      assert (Hgb : get_block p s1 = Some (cb, s1)).
      { unfold get_block, bind, get_cache, lift. rewrite Hp1, Hc, Hcb.
        reflexivity. }
      rewrite (bind_eq _ _ s1 cb s1 Hgb).
      destruct (Z.eqb_spec (state cb) MFAT_INVALID) as [_|Hst].
      - rewrite (bind_eq _ _ s1 None s1)
          by (unfold call_read; rewrite Hr1, Hdata; reflexivity).
        reflexivity.
      - exfalso. pose proof (Hcoh1 dev ct c (snd p) cb Hr1 Hc Hcb Hst) as E.
        rewrite Hblk, Hdata in E. discriminate E. }
    exists None, s1. split; [exact Hrun|]. split; [|reflexivity].
    eapply device_cached_read_block; eauto.
Qed.

(** The search of the root directory of a FAT16 partition is not bounded
    by the size of the root directory: the block counter starts at
    [blocks_in_root_dir] and is incremented after each block.  When none
    of the [n] blocks of the root directory matches the name or ends the
    directory, the search goes on in the block that follows the root
    directory, and an entry found there is returned as the file. *)
Theorem fat16_root_search_overruns pno path s part fname dev n e data :
  reachable s -> read s = Some dev ->
  arr_get (partition s) pno = Some part ->
  type part <> MFAT_TYPE_FAT32 ->
  blocks_in_root_dir part = n -> 0 < n < 2 ^ 31 ->
  0 <= root_dir_block part -> root_dir_block part + n < 2 ^ 32 ->
  _mfat_canonicalize_fname path = Some (-1, fname) ->
  (forall k, 0 <= k < n ->
     exists d, dev (root_dir_block part + k) = Some d /\
               scan_dir_block d fname 0 16 = not_in_block) ->
  dev (root_dir_block part + n) = Some data ->
  scan_dir_block data fname 0 16 = found_entry e ->
  exists info is_dir ex s',
    _mfat_find_file pno path s = Some (Some (info, is_dir, ex), s') /\
    dir_entry_block info = root_dir_block part + n /\
    dir_entry_offset info = e.
Proof.
  intros Hreach Hdev Hpart Htype Hn Hnr Hroot Hend Hcan Hfull Hdata Hscan.
  pose proof (reachable_device_cached dev s Hreach Hdev) as Hdc.
  set (root := root_dir_block part) in *.
  set (found := fun p => mk_find_state (mk_cpos 0 n root) (n + n) (Some p)
                                       (Some e) false).
  set (holds := fun p x => exists cb,
                  get_block p x = Some (cb, x) /\
                  blk_no cb = root + n /\ buf cb = data).
  (* the loop over the blocks *)
  assert (Hblocks : forall x, device_cached dev x ->
    exists p x',
      while_loop (find_file_block_step part fname false)
        (mk_find_state (mk_cpos 0 0 root) n None None false) x
      = Some (Some (found p), x') /\ holds p x').
  { intros x Hx.
    destruct (while_loop_total
      (fun st y => device_cached dev y /\
         exists k b, 0 <= k <= n /\
           st = mk_find_state (mk_cpos 0 k root) (n + k) b None false)
      (fun r y => exists p, r = Some (found p) /\ holds p y)
      (fun st => n - block_in_cluster (fs_cpos st))
      (find_file_block_step part fname false))
      with (st := mk_find_state (mk_cpos 0 0 root) n None None false) (s := x)
      as (r & x' & Hrun & p & -> & Hp).
    - intros st y (Hy & k & b & Hk & ->).
      unfold find_file_block_step.
      cbn [fs_file_entry fs_no_more_entries fs_blocks_left fs_cpos fs_block
           cluster_no block_in_cluster cluster_start_blk negb andb].
      destruct (Z.gtb_spec (n + k) 0) as [_|]; [|lia]. cbn [negb].
      unfold _mfat_cluster_pos_blk_no.
      cbn [cluster_start_blk block_in_cluster].
      replace (add32 root k) with (root + k)
        by (unfold add32; rewrite u32_small; lia).
      destruct (read_block_defined dev (root + k) MFAT_CACHE_DATA y Hy
                  ltac:(cbv; lia)) as (rb & y' & Hrd & Hy' & Hres).
      rewrite (bind_eq _ _ y rb y' Hrd).
      destruct (Z.eq_dec k n) as [->|Hne].
      + rewrite Hdata in Hres.
        destruct Hres as (p & cb & -> & Hget & Hblk & Hbuf).
        rewrite (bind_eq _ _ y' cb y' Hget). cbv zeta.
        rewrite Hbuf, Hscan.
        eexists _, y'. split; [reflexivity|].
        exists p. split; [reflexivity|]. exists cb. auto.
      + destruct (Hfull k ltac:(lia)) as (d & Hd & Hnot).
        rewrite Hd in Hres.
        destruct Hres as (p & cb & -> & Hget & Hblk & Hbuf).
        rewrite (bind_eq _ _ y' cb y' Hget). cbv zeta.
        rewrite Hbuf, Hnot.
        change (negb (0 =? 0)) with false. cbv iota.
        eexists _, y'. split; [reflexivity|].
        cbn [fs_cpos block_in_cluster].
        replace (add32 k 1) with (k + 1)
          by (unfold add32; rewrite u32_small; lia).
        replace (add32 (n + k) 1) with (n + (k + 1))
          by (unfold add32; rewrite u32_small; lia).
        split; [|lia]. split; [exact Hy'|].
        exists (k + 1), (Some p). split; [lia|reflexivity].
    - split; [exact Hx|]. exists 0, None. split; [lia|].
      rewrite Z.add_0_r. reflexivity.
    - cbn [fs_cpos block_in_cluster]. lia.
    - exists p, x'. split; [exact Hrun|exact Hp]. }
  (* the loop over the path *)
  set (st0 := mk_find_state (mk_cpos 0 0 root) n None None false).
  assert (Hpath : exists p x',
    while_loop (find_file_path_step part path) (0, st0) s
    = Some (Some (found p), x') /\ holds p x').
  { destruct (while_loop_total
      (fun st y => (st = (0, st0) /\ device_cached dev y) \/
                   exists p, st = (-1, found p) /\ holds p y)
      (fun r y => exists p, r = Some (found p) /\ holds p y)
      (fun st => fst st + 1)
      (find_file_path_step part path))
      with (st := (0, st0)) (s := s)
      as (r & x' & Hrun & p & -> & Hp).
    - intros st y [[-> Hy]|(p & -> & Hp)]; unfold find_file_path_step.
      + change (negb (0 >=? 0)) with false. cbv iota.
        change (drop (Z.to_nat 0) path) with path.
        rewrite (bind_eq _ _ y (-1, fname) y)
          by (unfold lift; rewrite Hcan; reflexivity).
        cbv zeta beta iota. change (-1 >=? 0) with false. cbv iota.
        cbn [st0 fs_cpos fs_blocks_left fs_block fs_file_entry cluster_no].
        change (negb (0 =? 0)) with false. cbv iota.
        destruct (Hblocks y Hy) as (p & y' & Hrun & Hp).
        rewrite (bind_eq _ _ y _ y' Hrun). cbn [found fs_no_more_entries].
        eexists _, y'. split; [reflexivity|]. cbn [fst].
        split; [|lia]. right. exists p. auto.
      + change (negb (-1 >=? 0)) with true. cbv iota.
        eexists _, y. split; [reflexivity|]. exists p. auto.
    - left. auto.
    - cbn [fst]. lia.
    - exists p, x'. auto. }
  destruct Hpath as (p & x' & Hrun & cb & Hget & Hblk & Hbuf).
  unfold _mfat_find_file.
  rewrite (bind_eq _ _ s part s)
    by (unfold get_partition; rewrite Hpart; reflexivity).
  destruct (Z.eqb_spec (type part) MFAT_TYPE_FAT32) as [E|_]; [contradiction|].
  rewrite (bind_eq _ _ s (mk_cpos 0 0 root, n) s)
    by (unfold ret; subst root; rewrite Hn; reflexivity).
  cbn [fst snd]. fold st0.
  rewrite (bind_eq _ _ s _ x' Hrun). cbn [found fs_file_entry fs_block].
  rewrite (bind_eq _ _ x' cb x' Hget). cbv zeta.
  destruct (_ && _); eexists _, _, _, x'; (split; [reflexivity|]);
    cbn [dir_entry_block dir_entry_offset]; auto.
Qed.

Lemma overrun_mounted_reachable : reachable overrun_mounted.
Proof.
  apply (reachable_mount zero_ctx (Some overrun_disk) (Some accept_writes)).
  vm_compute. reflexivity.
Qed.

Lemma fat16_root_search_overruns_witness :
  blocks_in_root_dir overrun_part = 1 /\
  root_dir_block overrun_part = 21 /\
  exists info is_dir ex s',
    _mfat_find_file 0 (text "/HELLO.TXT") overrun_mounted
    = Some (Some (info, is_dir, ex), s') /\
    dir_entry_block info = 22.
Proof.
  split; [vm_compute; reflexivity|]. split; [vm_compute; reflexivity|].
  destruct (fat16_root_search_overruns 0 (text "/HELLO.TXT") overrun_mounted
              overrun_part (text "HELLO   TXT") overrun_disk 1 0 overrun_data
              overrun_mounted_reachable)
    as (info & d & ex & s' & Hrun & Hblk & _).
  - vm_compute. reflexivity.
  - vm_compute. reflexivity.
  - vm_compute. discriminate.
  - vm_compute. reflexivity.
  - vm_compute. split; [reflexivity|reflexivity].
  - vm_compute. discriminate.
  - vm_compute. reflexivity.
  - vm_compute. reflexivity.
  - intros k Hk. assert (k = 0) by lia. subst k. exists overrun_root.
    split; vm_compute; reflexivity.
  - vm_compute. reflexivity.
  - vm_compute. reflexivity.
  - exists info, d, ex, s'. split; [exact Hrun|]. rewrite Hblk.
    vm_compute. reflexivity.
Defined.


(* ------------------------------------------------------------------ *)
(** ** The search of a directory that is a cluster chain *)

Lemma cluster_pos_advance_defined dev cpos part s :
  device_cached dev s ->
  exists a s',
    _mfat_cluster_pos_advance cpos part s = Some (a, s') /\
    device_cached dev s'.
Proof.
  intros Hdc. unfold _mfat_cluster_pos_advance. cbv zeta.
  destruct (_ =? _); [|eexists _, s; split; [reflexivity|exact Hdc]].
  unfold _mfat_next_cluster. cbv zeta.
  destruct (read_block_defined dev (fat_block_of part (cluster_no cpos))
              MFAT_CACHE_FAT s Hdc ltac:(cbv; lia))
    as (rb & s' & Hrd & Hdc' & Hres).
  assert (Hnext : exists r,
    (block <- _mfat_read_block (fat_block_of part (cluster_no cpos))
                MFAT_CACHE_FAT ;;
     match block with
     | None => ret None
     | Some p =>
         cb <- get_block p ;;
         (if (fat_entry_value part (buf cb)
                (fat_block_offset_of part (cluster_no cpos)) =? 0) ||
             (fat_entry_value part (buf cb)
                (fat_block_offset_of part (cluster_no cpos)) =? 0x0ffffff7)
          then ret None
          else ret (Some (fat_entry_value part (buf cb)
                            (fat_block_offset_of part (cluster_no cpos)))))
     end) s = Some (r, s')).
  { rewrite (bind_eq _ _ s rb s' Hrd).
    destruct (dev (fat_block_of part (cluster_no cpos))) as [data|].
    - destruct Hres as (p & cb & -> & Hget & _).
      rewrite (bind_eq _ _ s' cb s' Hget).
      destruct (_ || _); eexists; reflexivity.
    - subst rb. eexists; reflexivity. }
  destruct Hnext as (r & Hnext). rewrite (bind_eq _ _ s r s' Hnext).
  destruct r; eexists _, s'; split; try reflexivity; exact Hdc'.
Qed.

(** The search for the last path component in a directory that is a
    cluster chain (here the root directory of a FAT32 partition) looks
    at one block only: the block counter starts at [0xFFFFFFFF] and is
    incremented, not decremented, so that it wraps to zero after the
    first block.  When the sixteen entries of that block neither match
    the name nor end the directory, [_mfat_find_file] returns [false]:
    the file is not found, whatever the further blocks of the chain
    hold. *)
Theorem chain_directory_search_stops_after_one_block
    pno path s part fname cpos dev data :
  reachable s -> read s = Some dev ->
  arr_get (partition s) pno = Some part ->
  type part = MFAT_TYPE_FAT32 ->
  _mfat_cluster_pos_init part (root_dir_cluster part) 0 = Some cpos ->
  _mfat_canonicalize_fname path = Some (-1, fname) ->
  dev (_mfat_cluster_pos_blk_no cpos) = Some data ->
  scan_dir_block data fname 0 16 = not_in_block ->
  exists s', _mfat_find_file pno path s = Some (None, s').
Proof.
  intros Hreach Hdev Hpart Htype Hinit Hcan Hdata Hscan.
  pose proof (reachable_device_cached dev s Hreach Hdev) as Hdc.
  set (st0 := mk_find_state cpos 0xffffffff None None false).
  set (missing := fun (r : option find_state) =>
                    forall st, r = Some st -> fs_file_entry st = None).
  (* the loop over the blocks *)
  assert (Hblocks : forall x, device_cached dev x ->
    exists r x',
      while_loop (find_file_block_step part fname false) st0 x
      = Some (r, x') /\ missing r).
  { intros x Hx.
    destruct (while_loop_total
      (fun st y => (st = st0 /\ device_cached dev y) \/
                   (fs_file_entry st = None /\ fs_blocks_left st = 0))
      (fun r (_ : mfat_ctx_t) => missing r)
      fs_blocks_left
      (find_file_block_step part fname false))
      with (st := st0) (s := x) as (r & x' & Hrun & Hr).
    - intros st y [[-> Hy]|[Hnone Hzero]]; unfold find_file_block_step.
      + cbn [st0 fs_file_entry fs_no_more_entries fs_blocks_left fs_cpos
             negb andb].
        change (4294967295 >? 0) with true. cbn [negb].
        destruct (read_block_defined dev (_mfat_cluster_pos_blk_no cpos)
                    MFAT_CACHE_DATA y Hy ltac:(cbv; lia))
          as (rb & y' & Hrd & Hy' & Hres).
        rewrite (bind_eq _ _ y rb y' Hrd). rewrite Hdata in Hres.
        destruct Hres as (p & cb & -> & Hget & _ & Hbuf).
        rewrite (bind_eq _ _ y' cb y' Hget). cbv zeta.
        rewrite Hbuf, Hscan.
        change (add32 4294967295 1) with 0.
        destruct (negb (cluster_no cpos =? 0)).
        * destruct (cluster_pos_advance_defined dev cpos part y' Hy')
            as (a & y2 & Hadv & _).
          rewrite (bind_eq _ _ y' a y2 Hadv).
          destruct a as [c|]; eexists _, y2; (split; [reflexivity|]).
          -- cbn [fs_blocks_left fs_file_entry]. split; [|lia]. right. auto.
          -- intros st Hst. discriminate Hst.
        * eexists _, y'. split; [reflexivity|].
          cbn [fs_blocks_left fs_file_entry]. split; [|lia]. right. auto.
      + rewrite Hnone, Hzero. change (0 >? 0) with false.
        rewrite andb_false_r. cbn [negb].
        eexists _, y. split; [reflexivity|].
        intros st' Hst'. inversion Hst'; subst. exact Hnone.
    - left. auto.
    - cbn. lia.
    - exists r, x'. auto. }
  (* the loop over the path *)
  assert (Hpath : exists r x',
    while_loop (find_file_path_step part path) (0, st0) s = Some (r, x') /\
    missing r).
  { destruct (while_loop_total
      (fun st y => (st = (0, st0) /\ device_cached dev y) \/
                   (fst st = -1 /\ fs_file_entry (snd st) = None))
      (fun r (_ : mfat_ctx_t) => missing r)
      (fun st => fst st + 1)
      (find_file_path_step part path))
      with (st := (0, st0)) (s := s) as (r & x' & Hrun & Hr).
    - intros [pp st] y [[Heq Hy]|[Hpp Hnone]]; cbn [fst snd] in *;
        unfold find_file_path_step.
      + inversion Heq; subst pp st. clear Heq.
        change (negb (0 >=? 0)) with false. cbv iota.
        change (drop (Z.to_nat 0) path) with path.
        rewrite (bind_eq _ _ y (-1, fname) y)
          by (unfold lift; rewrite Hcan; reflexivity).
        cbv zeta beta iota. change (-1 >=? 0) with false. cbv iota.
        cbn [st0 fs_cpos fs_blocks_left fs_block fs_file_entry].
        replace (if negb (cluster_no cpos =? 0) then 4294967295 else 4294967295)
          with 4294967295 by (destruct (negb _); reflexivity).
        fold st0.
        destruct (Hblocks y Hy) as (r & y' & Hrun & Hr).
        rewrite (bind_eq _ _ y r y' Hrun).
        destruct r as [st'|].
        * specialize (Hr st' eq_refl).
          destruct (fs_no_more_entries st'); eexists _, y';
            (split; [reflexivity|]).
          -- intros st2 Hst2. inversion Hst2; subst. exact Hr.
          -- cbn [fst snd]. split; [|lia]. right. auto.
        * eexists _, y'. split; [reflexivity|].
          intros st Hst. discriminate Hst.
      + subst pp. change (negb (-1 >=? 0)) with true. cbv iota.
        eexists _, y. split; [reflexivity|].
        intros st' Hst'. inversion Hst'; subst. exact Hnone.
    - left. auto.
    - cbn [fst]. lia.
    - exists r, x'. auto. }
  destruct Hpath as (r & x' & Hrun & Hr).
  exists x'. unfold _mfat_find_file.
  rewrite (bind_eq _ _ s part s)
    by (unfold get_partition; rewrite Hpart; reflexivity).
  rewrite Htype. change (MFAT_TYPE_FAT32 =? MFAT_TYPE_FAT32) with true.
  cbv iota.
  rewrite (bind_eq _ _ s (cpos, 0xffffffff) s)
    by (unfold bind, lift; rewrite Hinit; reflexivity).
  cbn [fst snd]. fold st0.
  rewrite (bind_eq _ _ s r x' Hrun).
  destruct r as [st|]; [|reflexivity].
  rewrite (Hr st eq_refl). reflexivity.
Qed.

Lemma chain_directory_search_stops_after_one_block_witness :
  exists s',
    _mfat_find_file 0 (text "/HELLO.TXT") fat32_mounted = Some (None, s') /\
    type fat32_part = MFAT_TYPE_FAT32 /\
    fat_next fat32_disk fat32_part (root_dir_cluster fat32_part) = Some 3 /\
    fat32_disk (_mfat_first_block_of_cluster fat32_part 3)
    = Some fat32_root_second /\
    scan_dir_block fat32_root_second (text "HELLO   TXT") 0 16 = found_entry 0.
Proof.
  destruct (chain_directory_search_stops_after_one_block 0
              (text "/HELLO.TXT") fat32_mounted fat32_part
              (text "HELLO   TXT")
              (mk_cpos 2 0 579) fat32_disk fat32_root_first
              fat32_mounted_reachable) as (s' & Hrun).
  - vm_compute. reflexivity.
  - vm_compute. reflexivity.
  - vm_compute. reflexivity.
  - vm_compute. reflexivity.
  - vm_compute. reflexivity.
  - vm_compute. reflexivity.
  - vm_compute. reflexivity.
  - exists s'. split; [exact Hrun|].
    repeat split; vm_compute; reflexivity.
Defined.


(* ------------------------------------------------------------------ *)
(** ** A path through a directory that does not exist *)

Lemma cluster_pos_advance_value dev cpos part s :
  device_cached dev s ->
  exists s',
    _mfat_cluster_pos_advance cpos part s = Some (advanced dev part cpos, s') /\
    device_cached dev s'.
Proof.
  intros Hdc.
  assert (Hnc : exists s',
            _mfat_next_cluster part (cluster_no cpos) s
            = Some (fat_next dev part (cluster_no cpos), s') /\
            device_cached dev s').
  { destruct (read_block_defined dev (fat_block_of part (cluster_no cpos))
                MFAT_CACHE_FAT s Hdc ltac:(cbv; lia))
      as (rb & s' & Hrd & Hdc' & Hres).
    exists s'. split; [|exact Hdc'].
    unfold _mfat_next_cluster, fat_next. cbv zeta.
    rewrite (bind_eq _ _ s rb s' Hrd).
    destruct (dev (fat_block_of part (cluster_no cpos))) as [data|].
    - destruct Hres as (p & cb & -> & Hget & _ & Hbuf).
      rewrite (bind_eq _ _ s' cb s' Hget). rewrite Hbuf. cbv zeta.
      destruct (_ || _); reflexivity.
    - subst rb. reflexivity. }
  unfold _mfat_cluster_pos_advance, advanced. cbv zeta.
  destruct (_ =? _); [|exists s; split; [reflexivity|exact Hdc]].
  destruct Hnc as (s' & Hnc & Hdc'). exists s'. split; [|exact Hdc'].
  rewrite (bind_eq _ _ s _ s' Hnc).
  destruct (fat_next dev part (cluster_no cpos)); reflexivity.
Qed.

Lemma advanced_cluster_no dev part cpos cpos2 :
  cluster_no cpos <> 0 -> advanced dev part cpos = Some cpos2 ->
  cluster_no cpos2 <> 0.
Proof.
  intros Hc H. unfold advanced in H. cbv zeta in H.
  destruct (_ =? _).
  - unfold fat_next in H.
    destruct (dev _) as [data|]; [|discriminate]. cbv zeta in H.
    destruct (Z.eqb_spec (fat_entry_value part data
                (fat_block_offset_of part (cluster_no cpos))) 0) as [|Hne];
      [discriminate|].
    cbn [orb] in H. destruct (_ =? _); [discriminate|].
    inversion H; subst. exact Hne.
  - inversion H; subst. exact Hc.
Qed.

(** A path through a directory that does not exist can resolve to a file
    of the directory that was being searched.  On a FAT32 partition, let
    the path name a directory and then a file.  When the first block of
    the root directory holds sixteen entries, none of them the
    directory, the search for the directory stops after that block
    without a result, and the search for the file goes on at the next
    block of the root directory: an entry with the name of the file
    there is returned as the file. *)
Theorem missing_directory_is_skipped
    pno path s part dname fname j cpos cpos2 dev data data2 e :
  reachable s -> read s = Some dev ->
  arr_get (partition s) pno = Some part ->
  type part = MFAT_TYPE_FAT32 -> root_dir_cluster part <> 0 ->
  _mfat_cluster_pos_init part (root_dir_cluster part) 0 = Some cpos ->
  _mfat_canonicalize_fname path = Some (j, dname) -> 0 <= j ->
  _mfat_canonicalize_fname (drop (Z.to_nat j) path) = Some (-1, fname) ->
  dev (_mfat_cluster_pos_blk_no cpos) = Some data ->
  scan_dir_block data dname 0 16 = not_in_block ->
  advanced dev part cpos = Some cpos2 ->
  dev (_mfat_cluster_pos_blk_no cpos2) = Some data2 ->
  scan_dir_block data2 fname 0 16 = found_entry e ->
  exists info is_dir ex s',
    _mfat_find_file pno path s = Some (Some (info, is_dir, ex), s') /\
    dir_entry_block info = _mfat_cluster_pos_blk_no cpos2 /\
    dir_entry_offset info = e.
Proof.
  intros Hreach Hdev Hpart Htype Hroot Hinit Hcan Hj Hcan2 Hdata Hscan Hadv
         Hdata2 Hscan2.
  pose proof (reachable_device_cached dev s Hreach Hdev) as Hdc.
  assert (Hc1 : cluster_no cpos <> 0).
  { unfold _mfat_cluster_pos_init in Hinit. cbv zeta in Hinit.
    destruct (_ =? 0); [discriminate|]. inversion Hinit; subst. exact Hroot. }
  pose proof (advanced_cluster_no dev part cpos cpos2 Hc1 Hadv) as Hc2.
  apply Z.eqb_neq in Hc1, Hc2.
  set (st0 := mk_find_state cpos 0xffffffff None None false).
  set (gone := fun b => mk_find_state cpos2 0 b None false).
  set (found := fun p => mk_find_state cpos2 0xffffffff (Some p) (Some e) false).
  set (holds := fun p x => exists cb,
                  get_block p x = Some (cb, x) /\
                  blk_no cb = _mfat_cluster_pos_blk_no cpos2 /\
                  buf cb = data2).
  (* the search for the directory *)
  assert (Hdir : forall x, device_cached dev x ->
    exists b x',
      while_loop (find_file_block_step part dname true) st0 x
      = Some (Some (gone b), x') /\ device_cached dev x').
  { intros x Hx.
    destruct (while_loop_total
      (fun st y => device_cached dev y /\ (st = st0 \/ exists b, st = gone b))
      (fun r y => device_cached dev y /\ exists b, r = Some (gone b))
      fs_blocks_left
      (find_file_block_step part dname true))
      with (st := st0) (s := x) as (r & x' & Hrun & Hx' & b & ->).
    - intros st y (Hy & [->|(b & ->)]); unfold find_file_block_step.
      + cbn [st0 fs_file_entry fs_no_more_entries fs_blocks_left fs_cpos
             negb andb].
        change (4294967295 >? 0) with true. cbn [negb].
        destruct (read_block_defined dev (_mfat_cluster_pos_blk_no cpos)
                    MFAT_CACHE_DATA y Hy ltac:(cbv; lia))
          as (rb & y' & Hrd & Hy' & Hres).
        rewrite (bind_eq _ _ y rb y' Hrd). rewrite Hdata in Hres.
        destruct Hres as (p & cb & -> & Hget & _ & Hbuf).
        rewrite (bind_eq _ _ y' cb y' Hget). cbv zeta.
        rewrite Hbuf, Hscan, Hc1. cbn [negb].
        change (add32 4294967295 1) with 0.
        destruct (cluster_pos_advance_value dev cpos part y' Hy')
          as (y2 & Hrun & Hy2).
        rewrite (bind_eq _ _ y' _ y2 Hrun). rewrite Hadv.
        eexists _, y2. split; [reflexivity|].
        cbn [fs_blocks_left]. split; [|lia].
        split; [exact Hy2|]. right. exists (Some p). reflexivity.
      + cbn [gone fs_file_entry fs_no_more_entries fs_blocks_left negb andb].
        change (0 >? 0) with false. cbn [negb].
        eexists _, y. split; [reflexivity|]. split; [exact Hy|].
        exists b. reflexivity.
    - split; [exact Hx|]. left. reflexivity.
    - cbn. lia.
    - exists b, x'. auto. }
  (* the search for the file *)
  assert (Hfile : forall b x, device_cached dev x ->
    exists p x',
      while_loop (find_file_block_step part fname false)
        (mk_find_state cpos2 0xffffffff b None false) x
      = Some (Some (found p), x') /\ holds p x').
  { intros b x Hx.
    destruct (read_block_defined dev (_mfat_cluster_pos_blk_no cpos2)
                MFAT_CACHE_DATA x Hx ltac:(cbv; lia))
      as (rb & x' & Hrd & Hx' & Hres).
    rewrite Hdata2 in Hres.
    destruct Hres as (p & cb & -> & Hget & Hblk & Hbuf).
    exists p, x'. split; [|exists cb; auto].
    apply while_loop_exit. unfold find_file_block_step.
    cbn [fs_file_entry fs_no_more_entries fs_blocks_left fs_cpos negb andb].
    change (4294967295 >? 0) with true. cbn [negb].
    rewrite (bind_eq _ _ x (Some p) x' Hrd).
    rewrite (bind_eq _ _ x' cb x' Hget). cbv zeta.
    rewrite Hbuf, Hscan2. reflexivity. }
  (* the loop over the path *)
  assert (Hpath : exists p x',
    while_loop (find_file_path_step part path) (0, st0) s
    = Some (Some (found p), x') /\ holds p x').
  { destruct (while_loop_total
      (fun st y => (st = (0, st0) /\ device_cached dev y) \/
                   (exists b, st = (j, gone b) /\ device_cached dev y) \/
                   (exists p, st = (-1, found p) /\ holds p y))
      (fun r y => exists p, r = Some (found p) /\ holds p y)
      (fun st => if fst st <? 0 then 0
                 else if fs_blocks_left (snd st) =? 0 then 1 else 2)
      (find_file_path_step part path))
      with (st := (0, st0)) (s := s)
      as (r & x' & Hrun & p & -> & Hp).
    - intros st y [[-> Hy]|[(b & -> & Hy)|(p & -> & Hp)]];
        unfold find_file_path_step.
      + change (negb (0 >=? 0)) with false. cbv iota.
        change (drop (Z.to_nat 0) path) with path.
        rewrite (bind_eq _ _ y (j, dname) y)
          by (unfold lift; rewrite Hcan; reflexivity).
        cbv zeta beta iota.
        destruct (Z.geb_spec j 0) as [_|]; [|lia]. cbv iota.
        cbn [st0 fs_cpos fs_blocks_left fs_block fs_file_entry].
        rewrite Hc1. cbn [negb]. fold st0.
        destruct (Hdir y Hy) as (b & y' & Hrun & Hy').
        rewrite (bind_eq _ _ y _ y' Hrun). cbn [gone fs_no_more_entries].
        eexists _, y'. split; [reflexivity|]. rewrite Z.add_0_l.
        split.
        * right. left. exists b. auto.
        * cbn [fst snd fs_blocks_left st0].
          destruct (Z.ltb_spec j 0) as [|_]; [lia|].
          change (0 <? 0) with false. cbv. split; [discriminate|reflexivity].
      + destruct (Z.geb_spec j 0) as [_|]; [|lia]. cbn [negb].
        rewrite (bind_eq _ _ y (-1, fname) y)
          by (unfold lift; rewrite Hcan2; reflexivity).
        cbv zeta beta iota. change (-1 >=? 0) with false. cbv iota.
        cbn [gone fs_cpos fs_blocks_left fs_block fs_file_entry].
        rewrite Hc2. cbn [negb].
        destruct (Hfile b y Hy) as (p & y' & Hrun & Hp).
        rewrite (bind_eq _ _ y _ y' Hrun). cbn [found fs_no_more_entries].
        eexists _, y'. split; [reflexivity|]. split.
        * right. right. exists p. auto.
        * cbn [fst snd fs_blocks_left].
          destruct (Z.ltb_spec j 0) as [|_]; [lia|].
          cbv. split; [discriminate|reflexivity].
      + change (negb (-1 >=? 0)) with true. cbv iota.
        eexists _, y. split; [reflexivity|]. exists p. auto.
    - left. auto.
    - cbv. reflexivity.
    - exists p, x'. auto. }
  destruct Hpath as (p & x' & Hrun & cb & Hget & Hblk & Hbuf).
  unfold _mfat_find_file.
  rewrite (bind_eq _ _ s part s)
    by (unfold get_partition; rewrite Hpart; reflexivity).
  rewrite Htype. change (MFAT_TYPE_FAT32 =? MFAT_TYPE_FAT32) with true.
  cbv iota.
  rewrite (bind_eq _ _ s (cpos, 0xffffffff) s)
    by (unfold bind, lift; rewrite Hinit; reflexivity).
  cbn [fst snd]. fold st0.
  rewrite (bind_eq _ _ s _ x' Hrun). cbn [found fs_file_entry fs_block].
  rewrite (bind_eq _ _ x' cb x' Hget). cbv zeta.
  destruct (_ && _); eexists _, _, _, x'; (split; [reflexivity|]);
    cbn [dir_entry_block dir_entry_offset]; auto.
Qed.

Lemma missing_directory_is_skipped_witness :
  scan_dir_block fat32_root_first (text "NOPE       ") 0 16 = not_in_block /\
  exists info is_dir ex s',
    _mfat_find_file 0 (text "/NOPE/HELLO.TXT") fat32_mounted
    = Some (Some (info, is_dir, ex), s') /\
    dir_entry_block info = 580.
Proof.
  split; [vm_compute; reflexivity|].
  destruct (missing_directory_is_skipped 0 (text "/NOPE/HELLO.TXT")
              fat32_mounted fat32_part (text "NOPE       ")
              (text "HELLO   TXT") 6 (mk_cpos 2 0 579) (mk_cpos 3 0 580)
              fat32_disk fat32_root_first fat32_root_second 0
              fat32_mounted_reachable)
    as (info & d & ex & s' & Hrun & Hblk & _).
  - vm_compute. reflexivity.
  - vm_compute. reflexivity.
  - vm_compute. reflexivity.
  - vm_compute. discriminate.
  - vm_compute. reflexivity.
  - vm_compute. reflexivity.
  - vm_compute. discriminate.
  - vm_compute. reflexivity.
  - vm_compute. reflexivity.
  - vm_compute. reflexivity.
  - vm_compute. reflexivity.
  - vm_compute. reflexivity.
  - vm_compute. reflexivity.
  - exists info, d, ex, s'. split; [exact Hrun|]. rewrite Hblk.
    vm_compute. reflexivity.
Defined.


(* ------------------------------------------------------------------ *)
(** ** Reads that do nothing *)

(** For an open descriptor of a mounted volume, [mfat_read] returns
    without touching the context in three cases: with [-1] when the
    descriptor was opened without [MFAT_O_RDONLY], and with [0] when no
    byte is requested or the offset is at the end of the file. *)
Theorem read_without_effect fd nbyte s f :
  reachable s -> initialized s <> 0 ->
  arr_get (file s) fd = Some f -> open f <> 0 ->
  0 <= nbyte < 2 ^ 32 ->
  (Z.land (oflag f) MFAT_O_RDONLY = 0 ->
   mfat_read fd nbyte s = Some ((-1, []), s)) /\
  (Z.land (oflag f) MFAT_O_RDONLY <> 0 ->
   nbyte = 0 \/ offset f = size (info f) ->
   mfat_read fd nbyte s = Some ((0, []), s)).
Proof.
  intros Hreach Hinit Hf Hopen Hn.
  pose proof (reachable_num_fds s Hreach) as Hlen.
  destruct (reachable_mounted_inv s Hreach) as (_ & _ & _ & _ & Hfds).
  pose proof (arr_get_lookup _ _ _ Hf) as [Hlk _].
  destruct (Hfds _ _ Hlk Hopen) as (Hoff & Hsize & _).
  assert (Hentry : mfat_read fd nbyte s = _mfat_read_impl fd nbyte s).
  { unfold mfat_read. rewrite (bind_eq _ _ s s s) by reflexivity.
    destruct (Z.eqb_spec (initialized s) 0) as [E|_]; [contradiction|].
    rewrite (bind_eq _ _ s (Some fd) s (get_file_open fd s f Hlen Hf Hopen)).
    reflexivity. }
  rewrite Hentry. unfold _mfat_read_impl.
  rewrite (bind_eq _ _ s f s) by (unfold get_file_at; rewrite Hf; reflexivity).
  split.
  - intros Hflag. rewrite Hflag. reflexivity.
  - intros Hflag Hzero.
    destruct (Z.eqb_spec (Z.land (oflag f) MFAT_O_RDONLY) 0) as [E|_];
      [contradiction|].
    cbv zeta.
    replace (sub32 (size (info f)) (offset f)) with (size (info f) - offset f)
      by (unfold sub32; rewrite u32_small; lia).
    destruct (Z.gtb_spec nbyte (size (info f) - offset f)) as [Hgt|Hle].
    + destruct (Z.eqb_spec (size (info f) - offset f) 0) as [_|Hne];
        [reflexivity|]. lia.
    + destruct (Z.eqb_spec nbyte 0) as [_|Hne]; [reflexivity|]. lia.
Qed.

Lemma read_without_effect_witness :
  mfat_read 0 0 chain_read = Some ((0, []), chain_read).
Proof.
  apply (read_without_effect 0 0 chain_read chain_file chain_read_reachable).
  - vm_compute. discriminate.
  - vm_compute. reflexivity.
  - vm_compute. discriminate.
  - lia.
  - vm_compute. discriminate.
  - left. reflexivity.
Defined.


(* ------------------------------------------------------------------ *)
(** ** The index returned by the canonicalizer *)

Lemma canonicalize_loop_not_blank fuel path i j name :
  canonicalize_loop fuel path i = Some (j, name) ->
  0 <= j -> name <> blank_name.
Proof.
  revert i. induction fuel as [|fuel IH]; intros i H Hj; [discriminate|].
  cbn [canonicalize_loop] in H.
  destruct (canonicalize_pass path i) as [j1 name1].
  destruct ((j1 >=? 0) && _mfat_cmpbuf name1 0 blank_name 0 11) eqn:Ec.
  - eapply IH; eauto.
  - inversion H; subst j1 name1. clear H.
    destruct (Z.geb_spec j 0) as [_|]; [|lia]. cbn [andb] in Ec.
    intros ->. unfold _mfat_cmpbuf in Ec.
    assert (Ht : cmpbuf_from blank_name 0 blank_name 0 11 = true)
      by (apply cmpbuf_from_spec; reflexivity).
    rewrite Ht in Ec. discriminate Ec.
Qed.

(** [_mfat_canonicalize_fname] returns for every path.  The name has
    eleven bytes, each a space or a character that
    [_mfat_canonicalize_char] yields.  The index is [-1] or a position
    strictly inside the path, so that the caller's [&path[path_pos]]
    stays inside the string and moves forward; and a name returned with
    such an index is never blank: empty directory references are
    skipped, not returned. *)
Theorem canonicalize_fname_index path :
  exists j name,
    _mfat_canonicalize_fname path = Some (j, name) /\
    length name = 11%nat /\ Forall name_byte name /\
    (j = -1 \/ (0 < j < Z.of_nat (length path) /\ name <> blank_name)).
Proof.
  destruct (canonicalize_loop_total (S (length path)) path 0)
    as (j & name & H & Hn & Hl & Hj); [lia|lia|].
  exists j, name. split; [exact H|]. split; [exact Hl|]. split; [exact Hn|].
  destruct Hj as [->|Hj]; [left; reflexivity|right].
  split; [exact Hj|].
  eapply canonicalize_loop_not_blank; [exact H|lia].
Qed.


(* ------------------------------------------------------------------ *)
(** ** A BPB with a cluster size of zero *)

Lemma device_cached_set_partition dev v s :
  device_cached dev s -> device_cached dev (set_partition v s).
Proof. intros H. exact H. Qed.

Lemma mount_ctx_device_cached dev w :
  device_cached dev (mount_ctx (Some dev) w).
Proof.
  split; [apply mount_ctx_caches_inv|]. split; [apply mount_ctx_coherent|].
  split; [|reflexivity].
  intros ct c i cb Hc Hcb. left.
  assert (c = mk_cache (replicate MFAT_NUM_CACHED_BLOCKS zero_block) iota_pri).
  { destruct ct as [|[|ct]]; cbn in Hc; inversion Hc; reflexivity. }
  subst c. cbn [block] in Hcb.
  apply lookup_replicate in Hcb as [-> _]. reflexivity.
Qed.

Lemma decode_gpt_absent dev s :
  device_cached dev s ->
  match dev 1 with
  | Some g => _mfat_cmpbuf g 0 gpt_sig 0 8 = false
  | None => True
  end ->
  exists s', _mfat_decode_gpt s = Some (false, s') /\
             device_cached dev s' /\ partition s' = partition s.
Proof.
  intros Hdc Hsig.
  destruct (read_block_defined dev 1 MFAT_CACHE_DATA s Hdc ltac:(cbv; lia))
    as (rb & s' & Hrd & Hdc' & Hres).
  exists s'. split; [|split; [exact Hdc'|]].
  - unfold _mfat_decode_gpt. rewrite (bind_eq _ _ s rb s' Hrd).
    destruct (dev 1) as [g|].
    + destruct Hres as (p & cb & -> & Hget & _ & Hbuf).
      rewrite (bind_eq _ _ s' cb s' Hget). rewrite Hbuf, Hsig. reflexivity.
    + subst rb. reflexivity.
  - apply read_block_frame in Hrd. apply Hrd.
Qed.

Lemma decode_mbr_entries_no_fat buf n i found s :
  0 <= i -> i + Z.of_nat n <= Z.of_nat (length (partition s)) ->
  (forall k, i <= k < i + Z.of_nat n ->
     _mfat_is_fat_part_id (byte_at buf (446 + 16 * k + 4)) = false) ->
  exists s', decode_mbr_entries n i buf found s = Some (found, s') /\
             cache s' = cache s /\ read s' = read s /\
             length (partition s') = length (partition s).
Proof.
  revert i found s. induction n as [|n IH]; intros i found s Hi Hn Hfat.
  - exists s. auto.
  - cbn [decode_mbr_entries]. cbv zeta.
    destruct (lookup_lt_is_Some_2 (partition s) (Z.to_nat i)) as [part Hpart];
      [lia|].
    rewrite (bind_eq _ _ s part s).
    2:{ unfold get_partition, arr_get.
        destruct (Z.ltb_spec i 0); [lia|]. rewrite Hpart. reflexivity. }
    rewrite (Hfat i ltac:(lia)). rewrite orb_false_r.
    set (part' := with_first_block _ _).
    set (s1 := set_partition (<[Z.to_nat i := part']> (partition s)) s).
    rewrite (bind_eq _ _ s tt s1) by reflexivity.
    destruct (IH (i + 1) found s1) as (s' & Hrun & Hc & Hr & Hl).
    + lia.
    + subst s1. cbn [partition set_partition]. rewrite length_insert. lia.
    + intros k Hk. apply Hfat. lia.
    + exists s'. split; [exact Hrun|].
      subst s1. cbn [partition set_partition cache read] in *.
      rewrite length_insert in Hl. auto.
Qed.

Lemma decode_mbr_no_fat dev bpb s :
  device_cached dev s -> length (partition s) = MFAT_NUM_PARTITIONS ->
  dev 0 = Some bpb ->
  (forall i, 0 <= i < 4 ->
     _mfat_is_fat_part_id (byte_at bpb (446 + 16 * i + 4)) = false) ->
  exists s', _mfat_decode_mbr s = Some (false, s') /\
             device_cached dev s' /\
             length (partition s') = MFAT_NUM_PARTITIONS.
Proof.
  intros Hdc Hlen Hbpb Hfat.
  destruct (read_block_defined dev 0 MFAT_CACHE_DATA s Hdc ltac:(cbv; lia))
    as (rb & s1 & Hrd & Hdc1 & Hres).
  rewrite Hbpb in Hres. destruct Hres as (p & cb & -> & Hget & _ & Hbuf).
  assert (Hlen1 : length (partition s1) = MFAT_NUM_PARTITIONS).
  { apply read_block_frame in Hrd. destruct Hrd as (_ & _ & _ & _ & Hp & _).
    rewrite Hp. exact Hlen. }
  unfold _mfat_decode_mbr. rewrite (bind_eq _ _ s (Some p) s1 Hrd).
  rewrite (bind_eq _ _ s1 cb s1 Hget).
  destruct (_ && _); [|exists s1; auto].
  destruct (decode_mbr_entries_no_fat (buf cb) (Nat.min 4 MFAT_NUM_PARTITIONS)
              0 false s1) as (s' & Hrun & Hc & Hr & Hl).
  - lia.
  - rewrite Hlen1. cbv. discriminate.
  - intros k Hk. rewrite Hbuf. apply Hfat.
    change (Z.of_nat (Nat.min 4 MFAT_NUM_PARTITIONS)) with 4 in Hk. lia.
  - exists s'. split; [exact Hrun|]. split; [|congruence].
    destruct Hdc1 as (H1 & H2 & H3 & H4).
    unfold device_cached, caches_inv, coherent, clean in *.
    rewrite Hc, Hr. auto.
Qed.

(** [mfat_mount] divides by zero on a volume whose BPB gives a cluster
    size of zero blocks.  For a device without GPT whose block 0 is a
    BPB that passes [_mfat_is_valid_bpb], has 512 bytes per block and
    names no FAT partition in its MBR entries, the cluster count
    [data_sectors / blocks_per_cluster] is evaluated with the divisor
    taken from byte 13: when that byte is zero the call has no defined
    result (it returns no value, [None]), whatever the context was. *)
Theorem mount_divides_by_zero dev w bpb s :
  dev 0 = Some bpb ->
  match dev 1 with
  | Some g => _mfat_cmpbuf g 0 gpt_sig 0 8 = false
  | None => True
  end ->
  (forall i, 0 <= i < 4 ->
     _mfat_is_fat_part_id (byte_at bpb (446 + 16 * i + 4)) = false) ->
  _mfat_is_valid_bpb bpb = true ->
  _mfat_get_word bpb 11 = MFAT_BLOCK_SIZE ->
  byte_at bpb 13 = 0 ->
  mfat_mount (Some dev) (Some w) s = None.
Proof.
  intros Hbpb Hgpt Hfat Hvalid Hbps Hzero.
  unfold mfat_mount.
  rewrite (bind_eq _ _ s tt (mount_ctx (Some dev) (Some w))) by reflexivity.
  assert (Hdec : _mfat_decode_partition_tables (mount_ctx (Some dev) (Some w))
                 = None); [|unfold bind; rewrite Hdec; reflexivity].
  unfold _mfat_decode_partition_tables.
  destruct (decode_gpt_absent dev _ (mount_ctx_device_cached dev (Some w)) Hgpt)
    as (s1 & Hrun1 & Hdc1 & Hp1).
  rewrite (bind_eq _ _ _ false s1 Hrun1). cbn [negb].
  destruct (decode_mbr_no_fat dev bpb s1 Hdc1) as (s2 & Hrun2 & Hdc2 & Hl2);
    [rewrite Hp1; reflexivity|exact Hbpb|exact Hfat|].
  rewrite (bind_eq _ _ s1 false s2 Hrun2). cbn [negb].
  set (s3 := set_partition
               (<[0%nat := with_type MFAT_TYPE_FAT_UNDECIDED zero_partition]>
                  (replicate (length (partition s2)) zero_partition)) s2).
  rewrite (bind_eq _ _ s2 tt s3) by reflexivity.
  assert (Hdc3 : device_cached dev s3)
    by (apply device_cached_set_partition, Hdc2).
  assert (Hbpb0 : decode_bpb 0 s3 = None);
    [|cbn [decode_bpbs MFAT_NUM_PARTITIONS]; unfold bind; rewrite Hbpb0;
      reflexivity].
  unfold decode_bpb.
  rewrite (bind_eq _ _ s3 (with_type MFAT_TYPE_FAT_UNDECIDED zero_partition) s3).
  2:{ unfold get_partition, s3. cbn [partition set_partition].
      rewrite Hl2. reflexivity. }
  change (type (with_type MFAT_TYPE_FAT_UNDECIDED zero_partition)
          =? MFAT_TYPE_UNKNOWN) with false. cbv iota.
  change (first_block (with_type MFAT_TYPE_FAT_UNDECIDED zero_partition))
    with 0.
  destruct (read_block_defined dev 0 MFAT_CACHE_DATA s3 Hdc3 ltac:(cbv; lia))
    as (rb & s4 & Hrd & _ & Hres).
  rewrite Hbpb in Hres. destruct Hres as (p & cb & -> & Hget & _ & Hbuf).
  rewrite (bind_eq _ _ s3 (Some p) s4 Hrd).
  rewrite (bind_eq _ _ s4 cb s4 Hget). cbv zeta.
  rewrite Hbuf, Hvalid, Hbps, Hzero. cbn [negb].
  change (MFAT_BLOCK_SIZE =? MFAT_BLOCK_SIZE) with true. cbn [negb].
  reflexivity.
Qed.

Lemma mount_divides_by_zero_witness :
  mfat_mount (Some zero_cluster_disk) (Some accept_writes) zero_ctx = None.
Proof.
  apply (mount_divides_by_zero zero_cluster_disk accept_writes
           zero_cluster_bpb zero_ctx).
  - reflexivity.
  - vm_compute. reflexivity.
  - intros i Hi.
    assert (Hc : i = 0 \/ i = 1 \/ i = 2 \/ i = 3) by lia.
    destruct Hc as [-> | [-> | [-> | ->]]]; vm_compute; reflexivity.
  - vm_compute. reflexivity.
  - vm_compute. reflexivity.
  - vm_compute. reflexivity.
Defined.


(* ------------------------------------------------------------------ *)
(** ** A GPT whose entries do not fit the block *)

Lemma get_block_set_partition p v s cb :
  get_block p s = Some (cb, s) ->
  get_block p (set_partition v s) = Some (cb, set_partition v s).
Proof.
  unfold get_block, bind, get_cache, lift. cbn [cache set_partition].
  destruct (cache s !! fst p) as [c|]; [|discriminate].
  destruct (block c !! snd p); [|discriminate].
  intros H. inversion H. reflexivity.
Qed.

(** [_mfat_decode_gpt] trusts the entry size of the GPT header.  With a
    header that announces at least two entries of a size between 464 and
    511 bytes, the second entry starts at that offset of the cached
    block and its attribute byte (offset 48 of the entry) lies beyond
    the 512 bytes of the block buffer: [mfat_mount] reads outside the
    buffer and has no defined result ([None]), whatever the context
    was. *)
Theorem gpt_entry_overruns_block dev w g entries s :
  dev 1 = Some g ->
  _mfat_cmpbuf g 0 gpt_sig 0 8 = true ->
  dev (_mfat_get_dword g 72) = Some entries ->
  2 <= _mfat_get_dword g 80 ->
  464 <= _mfat_get_dword g 84 < 512 ->
  mfat_mount (Some dev) (Some w) s = None.
Proof.
  intros Hg Hsig Hent Hnum Hsize.
  unfold mfat_mount.
  rewrite (bind_eq _ _ s tt (mount_ctx (Some dev) (Some w))) by reflexivity.
  assert (Hdec : _mfat_decode_gpt (mount_ctx (Some dev) (Some w)) = None).
  2:{ unfold _mfat_decode_partition_tables, bind. rewrite Hdec. reflexivity. }
  pose proof (mount_ctx_device_cached dev (Some w)) as Hdc.
  destruct (read_block_defined dev 1 MFAT_CACHE_DATA _ Hdc ltac:(cbv; lia))
    as (rb & s1 & Hrd & Hdc1 & Hres).
  rewrite Hg in Hres. destruct Hres as (p & cb & -> & Hget & _ & Hbuf).
  assert (Hlen1 : length (partition s1) = MFAT_NUM_PARTITIONS).
  { apply read_block_frame in Hrd. destruct Hrd as (_ & _ & _ & _ & Hp & _).
    rewrite Hp. reflexivity. }
  unfold _mfat_decode_gpt. rewrite (bind_eq _ _ _ (Some p) s1 Hrd).
  rewrite (bind_eq _ _ s1 cb s1 Hget). rewrite Hbuf, Hsig. cbn [negb].
  cbv zeta.
  set (num := _mfat_get_dword g 80) in *.
  set (size := _mfat_get_dword g 84) in *.
  set (eb := _mfat_get_dword g 72) in *.
  (* the first entry *)
  cbn [decode_gpt_entries MFAT_NUM_PARTITIONS].
  destruct (Z.ltb_spec 0 num) as [_|]; [|lia]. cbn [negb].
  change (0 mod MFAT_BLOCK_SIZE =? 0) with true. cbv iota.
  destruct (read_block_defined dev eb MFAT_CACHE_DATA s1 Hdc1 ltac:(cbv; lia))
    as (rb2 & s2 & Hrd2 & Hdc2 & Hres2).
  rewrite Hent in Hres2. destruct Hres2 as (p2 & cb2 & -> & Hget2 & _ & _).
  assert (Hlen2 : length (partition s2) = MFAT_NUM_PARTITIONS).
  { apply read_block_frame in Hrd2. destruct Hrd2 as (_ & _ & _ & _ & Hp & _).
    rewrite Hp. exact Hlen1. }
  rewrite (bind_eq _ _ s1 (Some (p2, add32 eb 1, 0)) s2)
    by (rewrite (bind_eq _ _ s1 (Some p2) s2 Hrd2); reflexivity).
  rewrite (bind_eq _ _ s2 cb2 s2 Hget2).
  change (negb (0 + 48 <? MFAT_BLOCK_SIZE)) with false. cbv iota.
  destruct (lookup_lt_is_Some_2 (partition s2) 0) as [part Hpart];
    [rewrite Hlen2; cbv; lia|].
  rewrite (bind_eq _ _ s2 part s2).
  2:{ unfold get_partition, arr_get. change (0 <? 0) with false.
      change (Z.to_nat 0) with 0%nat. rewrite Hpart. reflexivity. }
  cbv zeta.
  match goal with
  | |- (put_partition 0 ?q ;;; _) s2 = None =>
      set (s3 := set_partition (<[Z.to_nat 0 := q]> (partition s2)) s2);
      rewrite (bind_eq _ _ s2 tt s3) by reflexivity
  end.
  (* the second entry *)
  destruct (Z.ltb_spec (0 + 1) num) as [_|]; [|lia]. cbn [negb].
  replace (add32 0 size) with size
    by (unfold add32; rewrite u32_small; lia).
  assert (Hmod : (size mod MFAT_BLOCK_SIZE =? 0) = false).
  { apply Z.eqb_neq. change MFAT_BLOCK_SIZE with 512.
    rewrite Z.mod_small by lia. lia. }
  rewrite Hmod.
  rewrite (bind_eq _ _ s3 (Some (p2, add32 eb 1, size)) s3) by reflexivity.
  rewrite (bind_eq _ _ s3 cb2 s3)
    by (apply get_block_set_partition, Hget2).
  destruct (Z.ltb_spec (size + 48) MFAT_BLOCK_SIZE) as [Hlt|_];
    [change MFAT_BLOCK_SIZE with 512 in Hlt; lia|].
  reflexivity.
Qed.

Lemma gpt_entry_overruns_block_witness :
  mfat_mount (Some wide_gpt_disk) (Some accept_writes) zero_ctx = None.
Proof.
  apply (gpt_entry_overruns_block wide_gpt_disk accept_writes wide_gpt_header
           (block_with []) zero_ctx).
  - reflexivity.
  - vm_compute. reflexivity.
  - vm_compute. reflexivity.
  - vm_compute. discriminate.
  - vm_compute. split; [discriminate|reflexivity].
Defined.


(* ------------------------------------------------------------------ *)
(** ** Every call returns *)

Lemma next_cluster_defined dev part c s :
  device_cached dev s ->
  exists r s', _mfat_next_cluster part c s = Some (r, s') /\
               device_cached dev s'.
Proof.
  intros Hdc.
  destruct (read_block_defined dev (fat_block_of part c) MFAT_CACHE_FAT s Hdc
              ltac:(cbv; lia)) as (rb & s' & Hrd & Hdc' & Hres).
  unfold _mfat_next_cluster. cbv zeta.
  rewrite (bind_eq _ _ s rb s' Hrd).
  destruct (dev (fat_block_of part c)) as [data|].
  - destruct Hres as (p & cb & -> & Hget & _).
    rewrite (bind_eq _ _ s' cb s' Hget).
    destruct (_ || _); eexists _, s'; split; try reflexivity; exact Hdc'.
  - subst rb. eexists _, s'. split; [reflexivity|exact Hdc'].
Qed.

Lemma cluster_pos_init_defined part c o :
  0 < blocks_per_cluster part < 256 ->
  exists cpos, _mfat_cluster_pos_init part c o = Some cpos.
Proof.
  intros Hb. unfold _mfat_cluster_pos_init. cbv zeta.
  assert (Hne : mul32 (blocks_per_cluster part) MFAT_BLOCK_SIZE <> 0).
  { unfold mul32. change MFAT_BLOCK_SIZE with 512.
    rewrite u32_small by lia. lia. }
  destruct (Z.eqb_spec (mul32 (blocks_per_cluster part) MFAT_BLOCK_SIZE) 0);
    [contradiction|]. eexists. reflexivity.
Qed.

(** The loop over the blocks of a directory ends: the block counter is
    a 32-bit value that grows until it wraps to zero. *)
Lemma find_file_blocks_defined dev part fname dir st s :
  device_cached dev s -> 0 < blocks_per_cluster part < 256 ->
  0 <= fs_blocks_left st < 2 ^ 32 ->
  exists r s',
    while_loop (find_file_block_step part fname dir) st s = Some (r, s') /\
    device_cached dev s' /\
    forall st', r = Some st' -> 0 <= fs_blocks_left st' < 2 ^ 32.
Proof.
  intros Hdc Hbpc Hrange.
  apply (while_loop_total
    (fun st y => device_cached dev y /\ 0 <= fs_blocks_left st < 2 ^ 32)
    (fun r y => device_cached dev y /\
                forall st', r = Some st' -> 0 <= fs_blocks_left st' < 2 ^ 32)
    (fun st => if fs_blocks_left st =? 0 then 0
               else 2 ^ 32 - fs_blocks_left st)).
  3:{ destruct (Z.eqb_spec (fs_blocks_left st) 0); lia. }
  2:{ auto. }
  clear st s Hdc Hrange. intros st y [Hy Hb].
  unfold find_file_block_step.
  destruct (negb _) eqn:Hcond.
  { eexists _, y. split; [reflexivity|]. split; [exact Hy|].
    intros st' Hst'. inversion Hst'; subst. exact Hb. }
  apply negb_false_iff in Hcond.
  apply andb_true_iff in Hcond as [_ Hpos]. apply Z.gtb_lt in Hpos.
  assert (Hmu : forall b', b' = add32 (fs_blocks_left st) 1 ->
            0 <= b' < 2 ^ 32 /\
            0 <= (if b' =? 0 then 0 else 2 ^ 32 - b')
              < (if fs_blocks_left st =? 0 then 0
                 else 2 ^ 32 - fs_blocks_left st)).
  { intros b' ->. pose proof (u32_range (fs_blocks_left st + 1)) as Hu.
    unfold add32. split; [exact Hu|].
    destruct (Z.eqb_spec (fs_blocks_left st) 0); [lia|].
    destruct (Z.eq_dec (fs_blocks_left st + 1) (2 ^ 32)) as [E|E].
    - rewrite E. change (u32 (2 ^ 32)) with 0. cbn. lia.
    - rewrite u32_small by lia.
      destruct (Z.eqb_spec (fs_blocks_left st + 1) 0); lia. }
  destruct (read_block_defined dev (_mfat_cluster_pos_blk_no (fs_cpos st))
              MFAT_CACHE_DATA y Hy ltac:(cbv; lia))
    as (rb & y' & Hrd & Hy' & Hres).
  rewrite (bind_eq _ _ y rb y' Hrd).
  destruct (dev (_mfat_cluster_pos_blk_no (fs_cpos st))) as [data|].
  2:{ subst rb. eexists _, y'. split; [reflexivity|]. split; [exact Hy'|].
      intros st' Hst'. discriminate Hst'. }
  destruct Hres as (p & cb & -> & Hget & _ & _).
  rewrite (bind_eq _ _ y' cb y' Hget). cbv zeta.
  assert (Hnext : forall no_more, exists x y2,
    (if negb (cluster_no (fs_cpos st) =? 0)
     then r <- _mfat_cluster_pos_advance (fs_cpos st) part ;;
          match r with
          | None => ret (inr None)
          | Some cpos =>
              ret (inl (mk_find_state cpos (add32 (fs_blocks_left st) 1)
                                      (Some p) None no_more))
          end
     else ret (inl (mk_find_state
                      (mk_cpos (cluster_no (fs_cpos st))
                               (add32 (block_in_cluster (fs_cpos st)) 1)
                               (cluster_start_blk (fs_cpos st)))
                      (add32 (fs_blocks_left st) 1) (Some p) None no_more)))
      y' = Some (x, y2) /\
    match x with
    | inl st' =>
        (device_cached dev y2 /\ 0 <= fs_blocks_left st' < 2 ^ 32) /\
        0 <= (if fs_blocks_left st' =? 0 then 0
              else 2 ^ 32 - fs_blocks_left st')
          < (if fs_blocks_left st =? 0 then 0
             else 2 ^ 32 - fs_blocks_left st)
    | inr r =>
        device_cached dev y2 /\
        forall st', r = Some st' -> 0 <= fs_blocks_left st' < 2 ^ 32
    end).
  { intros no_more.
    destruct (Hmu _ eq_refl) as [Hb' Hdec].
    destruct (negb _).
    - destruct (cluster_pos_advance_defined dev (fs_cpos st) part y' Hy')
        as (a & y2 & Hadv & Hy2).
      rewrite (bind_eq _ _ y' a y2 Hadv).
      destruct a as [cpos|]; eexists _, y2; (split; [reflexivity|]).
      + cbn [fs_blocks_left]. auto.
      + split; [exact Hy2|]. intros st' Hst'. discriminate Hst'.
    - eexists _, y'. split; [reflexivity|]. cbn [fs_blocks_left]. auto. }
  destruct (scan_dir_block (buf cb) fname 0 16) as [|entry|];
    [apply Hnext| |apply Hnext].
  destruct dir.
  - destruct (Z.land _ MFAT_ATTR_DIRECTORY =? 0).
    + eexists _, y'. split; [reflexivity|]. split; [exact Hy'|].
      intros st' Hst'. discriminate Hst'.
    + destruct (cluster_pos_init_defined part
                  (child_dir_cluster (buf cb) entry) 0 Hbpc) as (cpos & Hinit).
      rewrite (bind_eq _ _ y' cpos y')
        by (unfold lift; rewrite Hinit; reflexivity).
      eexists _, y'. split; [reflexivity|]. split; [exact Hy'|].
      intros st' Hst'. inversion Hst'; subst. cbn [fs_blocks_left]. lia.
  - eexists _, y'. split; [reflexivity|]. split; [exact Hy'|].
    intros st' Hst'. inversion Hst'; subst. cbn [fs_blocks_left]. exact Hb.
Qed.

(** [_mfat_find_file] returns for every path of less than [2 ^ 31]
    characters: no index leaves its array, no divisor is zero and both
    loops end. *)
Lemma find_file_defined dev pno path s part :
  device_cached dev s ->
  arr_get (partition s) pno = Some part ->
  0 < blocks_per_cluster part < 256 ->
  0 <= blocks_in_root_dir part < 2 ^ 32 ->
  Z.of_nat (length path) < 2 ^ 31 ->
  exists r s', _mfat_find_file pno path s = Some (r, s') /\
               device_cached dev s'.
Proof.
  intros Hdc Hpart Hbpc Hroot Hlen.
  assert (Hstart : exists cpos bl,
    (if type part =? MFAT_TYPE_FAT32
     then cpos <- lift (_mfat_cluster_pos_init part (root_dir_cluster part) 0) ;;
          ret (cpos, 0xffffffff)
     else ret (mk_cpos 0 0 (root_dir_block part), blocks_in_root_dir part)) s
    = Some ((cpos, bl), s) /\ 0 <= bl < 2 ^ 32).
  { destruct (_ =? _).
    - destruct (cluster_pos_init_defined part (root_dir_cluster part) 0 Hbpc)
        as (cpos & Hinit).
      exists cpos, 0xffffffff. split; [|lia].
      unfold bind, lift. rewrite Hinit. reflexivity.
    - eexists _, _. split; [reflexivity|exact Hroot]. }
  destruct Hstart as (cpos & bl & Hstart & Hbl).
  set (st0 := mk_find_state cpos bl None None false).
  assert (Hloop : exists r x',
    while_loop (find_file_path_step part path) (0, st0) s = Some (r, x') /\
    device_cached dev x').
  { apply (while_loop_total
      (fun st y => device_cached dev y /\
         0 <= fs_blocks_left (snd st) < 2 ^ 32 /\
         (fst st = -1 \/ 0 <= fst st <= Z.of_nat (length path)))
      (fun (_ : option find_state) y => device_cached dev y)
      (fun st => if fst st <? 0 then 0
                 else Z.of_nat (length path) - fst st + 1)).
    3:{ cbn [fst]. change (0 <? 0) with false. cbv iota. lia. }
    2:{ cbn [fst snd st0 fs_blocks_left]. split; [exact Hdc|].
        split; [exact Hbl|]. right. lia. }
    intros [pp st] y (Hy & Hb & Hpp). cbn [fst snd] in *.
    unfold find_file_path_step.
    destruct (Z.geb_spec pp 0) as [Hpp0|Hneg]; cbn [negb].
    2:{ eexists _, y. split; [reflexivity|exact Hy]. }
    destruct Hpp as [->|Hpp]; [lia|].
    destruct (canonicalize_loop_total
                (S (length (drop (Z.to_nat pp) path)))
                (drop (Z.to_nat pp) path) 0)
      as (j & fname & Hcan & _ & _ & Hj); [lia|lia|].
    rewrite (bind_eq _ _ y (j, fname) y)
      by (unfold lift, _mfat_canonicalize_fname; rewrite Hcan; reflexivity).
    cbv zeta beta iota.
    set (bl' := if negb (cluster_no (fs_cpos st) =? 0) then 4294967295
                else fs_blocks_left st).
    assert (Hbl' : 0 <= bl' < 2 ^ 32) by (subst bl'; destruct (negb _); lia).
    destruct (find_file_blocks_defined dev part fname (j >=? 0)
                (mk_find_state (fs_cpos st) bl' (fs_block st)
                               (fs_file_entry st) false) y Hy Hbpc Hbl')
      as (r & y' & Hrun & Hy' & Hr).
    rewrite (bind_eq _ _ y r y' Hrun).
    destruct r as [st'|]; [|eexists _, y'; split; [reflexivity|exact Hy']].
    destruct (fs_no_more_entries st');
      eexists _, y'; (split; [reflexivity|]); [exact Hy'|].
    cbn [fst snd]. split.
    - split; [exact Hy'|]. split; [apply Hr; reflexivity|].
      rewrite length_drop in Hj.
      destruct (Z.geb_spec j 0); [right|left; reflexivity]. lia.
    - rewrite length_drop in Hj.
      destruct (Z.ltb_spec pp 0) as [|_]; [lia|].
      destruct (Z.geb_spec j 0).
      + destruct (Z.ltb_spec (pp + j) 0); lia.
      + change (-1 <? 0) with true. cbv iota. lia. }
  destruct Hloop as (r & x' & Hrun & Hx').
  assert (Hfound : forall st, r = Some st -> entry_found st x').
  { refine (while_loop_inv _ (fun st x => entry_found (snd st) x)
              (fun r x => forall st', r = Some st' -> entry_found st' x)
              _ _ _ _ _ _ Hrun).
    - intros st1 x0 y x1 Hst1 Hstep.
      eapply find_file_path_step_entry in Hstep; eauto.
    - intros e0 He0. discriminate He0. }
  unfold _mfat_find_file.
  rewrite (bind_eq _ _ s part s)
    by (unfold get_partition; rewrite Hpart; reflexivity).
  rewrite (bind_eq _ _ s (cpos, bl) s Hstart). cbn [fst snd]. fold st0.
  rewrite (bind_eq _ _ s r x' Hrun).
  destruct r as [st|]; [|eexists _, x'; split; [reflexivity|exact Hx']].
  specialize (Hfound st eq_refl).
  destruct (fs_file_entry st) as [fe|] eqn:Hfe;
    [|eexists _, x'; split; [reflexivity|exact Hx']].
  destruct (Hfound fe Hfe) as (p & cb & Hp & Hget & _).
  rewrite Hp. rewrite (bind_eq _ _ x' cb x' Hget). cbv zeta.
  destruct (_ && _); eexists _, x'; split; try reflexivity; exact Hx'.
Qed.

Lemma fstat_impl_defined dev info s :
  device_cached dev s ->
  exists r s', _mfat_fstat_impl info s = Some (r, s').
Proof.
  intros Hdc. unfold _mfat_fstat_impl.
  destruct (read_block_defined dev (dir_entry_block info) MFAT_CACHE_DATA s Hdc
              ltac:(cbv; lia)) as (rb & s' & Hrd & _ & Hres).
  rewrite (bind_eq _ _ s rb s' Hrd).
  destruct (dev (dir_entry_block info)) as [data|].
  - destruct Hres as (p & cb & -> & Hget & _).
    rewrite (bind_eq _ _ s' cb s' Hget). eexists _, _. reflexivity.
  - subst rb. eexists _, _. reflexivity.
Qed.

Lemma read_head_defined dev part f cpos n s :
  device_cached dev s -> 0 <= n < 2 ^ 32 ->
  exists h s',
    read_head part f cpos n s = Some (h, s') /\ device_cached dev s' /\
    forall c br d, h = Some (c, br, d) -> 0 <= br <= n.
Proof.
  intros Hdc Hn. unfold read_head. cbv zeta.
  destruct (Z.eqb_spec (offset f mod MFAT_BLOCK_SIZE) 0) as [|Hbo];
    cbn [negb].
  { eexists _, s. split; [reflexivity|]. split; [exact Hdc|].
    intros c br d H. inversion H; subst. lia. }
  destruct (read_block_defined dev (_mfat_cluster_pos_blk_no cpos)
              MFAT_CACHE_DATA s Hdc ltac:(cbv; lia))
    as (rb & s' & Hrd & Hdc' & Hres).
  rewrite (bind_eq _ _ s rb s' Hrd).
  destruct (dev (_mfat_cluster_pos_blk_no cpos)) as [data|].
  2:{ subst rb. eexists _, s'. split; [reflexivity|]. split; [exact Hdc'|].
      intros c br d H. discriminate H. }
  destruct Hres as (p & cb & -> & Hget & _).
  rewrite (bind_eq _ _ s' cb s' Hget).
  pose proof (Z.mod_pos_bound (offset f) MFAT_BLOCK_SIZE ltac:(reflexivity))
    as Hmod.
  set (bo := offset f mod MFAT_BLOCK_SIZE) in *.
  assert (Htail : sub32 MFAT_BLOCK_SIZE bo = MFAT_BLOCK_SIZE - bo).
  { unfold sub32. change MFAT_BLOCK_SIZE with 512 in *.
    rewrite u32_small; lia. }
  rewrite Htail.
  assert (Hmin : 0 <= _mfat_min (MFAT_BLOCK_SIZE - bo) n <= n).
  { unfold _mfat_min. change MFAT_BLOCK_SIZE with 512 in *.
    destruct (Z.ltb_spec (512 - bo) n); lia. }
  destruct (_ =? _).
  - destruct (cluster_pos_advance_defined dev cpos part s' Hdc')
      as (a & s2 & Hadv & Hdc2).
    rewrite (bind_eq _ _ s' a s2 Hadv).
    destruct a; eexists _, s2; (split; [reflexivity|]);
      (split; [exact Hdc2|]); intros c br d H; inversion H; subst; exact Hmin.
  - eexists _, s'. split; [reflexivity|]. split; [exact Hdc'|].
    intros c br d H. inversion H; subst. exact Hmin.
Qed.

Lemma read_body_defined dev part n st s :
  device_cached dev s -> 0 <= n < 2 ^ 32 -> 0 <= snd (fst st) <= n ->
  exists r s',
    while_loop (read_body_step part n) st s = Some (r, s') /\
    device_cached dev s' /\
    forall c br d, r = Some (c, br, d) -> 0 <= br <= n.
Proof.
  intros Hdc Hn Hbr.
  apply (while_loop_total
    (fun (st : read_state) y => device_cached dev y /\ 0 <= snd (fst st) <= n)
    (fun r y => device_cached dev y /\
                forall c br d, r = Some (c, br, d) -> 0 <= br <= n)
    (fun st => n - snd (fst st))).
  3:{ lia. }
  2:{ auto. }
  clear st s Hdc Hbr. intros [[cpos br] data] y [Hy Hbr]. cbn [fst snd] in *.
  unfold read_body_step.
  replace (sub32 n br) with (n - br)
    by (unfold sub32; rewrite u32_small; lia).
  destruct (Z.geb_spec (n - br) MFAT_BLOCK_SIZE) as [Hge|_]; cbn [negb].
  2:{ eexists _, y. split; [reflexivity|]. split; [exact Hy|].
      intros c br' d H. inversion H; subst. exact Hbr. }
  destruct (_mfat_is_eoc _).
  { eexists _, y. split; [reflexivity|]. split; [exact Hy|].
    intros c br' d H. discriminate H. }
  pose proof Hy as (_ & _ & _ & Hr).
  rewrite (bind_eq _ _ y (dev (_mfat_cluster_pos_blk_no cpos)) y)
    by (unfold call_read; rewrite Hr; reflexivity).
  destruct (dev (_mfat_cluster_pos_blk_no cpos)) as [blk|].
  2:{ eexists _, y. split; [reflexivity|]. split; [exact Hy|].
      intros c br' d H. discriminate H. }
  destruct (cluster_pos_advance_defined dev cpos part y Hy)
    as (a & y2 & Hadv & Hy2).
  rewrite (bind_eq _ _ y a y2 Hadv).
  destruct a as [cpos'|]; eexists _, y2; (split; [reflexivity|]).
  - cbn [fst snd]. change MFAT_BLOCK_SIZE with 512 in *.
    replace (add32 br 512) with (br + 512)
      by (unfold add32; rewrite u32_small; lia).
    split; [split; [exact Hy2|lia]|lia].
  - split; [exact Hy2|]. intros c br' d H. discriminate H.
Qed.

Lemma read_tail_defined dev n st s :
  device_cached dev s ->
  exists t s', read_tail n st s = Some (t, s').
Proof.
  intros Hdc. destruct st as [[cpos br] data]. unfold read_tail.
  destruct (br <? n); [|eexists _, _; reflexivity].
  destruct (_mfat_is_eoc _); [eexists _, _; reflexivity|].
  destruct (read_block_defined dev (_mfat_cluster_pos_blk_no cpos)
              MFAT_CACHE_DATA s Hdc ltac:(cbv; lia))
    as (rb & s' & Hrd & _ & Hres).
  rewrite (bind_eq _ _ s rb s' Hrd).
  destruct (dev (_mfat_cluster_pos_blk_no cpos)) as [blk|].
  - destruct Hres as (p & cb & -> & Hget & _).
    rewrite (bind_eq _ _ s' cb s' Hget). eexists _, _. reflexivity.
  - subst rb. eexists _, _. reflexivity.
Qed.

Lemma read_impl_defined dev fd nbyte s f part :
  device_cached dev s ->
  arr_get (file s) fd = Some f ->
  0 <= offset f <= size (info f) -> size (info f) < 2 ^ 32 ->
  arr_get (partition s) (part_no (info f)) = Some part ->
  0 < blocks_per_cluster part < 256 ->
  0 <= nbyte < 2 ^ 32 ->
  exists r s', _mfat_read_impl fd nbyte s = Some (r, s').
Proof.
  intros Hdc Hf Hoff Hsize Hpart Hbpc Hn. unfold _mfat_read_impl.
  rewrite (bind_eq _ _ s f s) by (unfold get_file_at; rewrite Hf; reflexivity).
  destruct (_ =? 0); [eexists _, _; reflexivity|]. cbv zeta.
  replace (sub32 (size (info f)) (offset f)) with (size (info f) - offset f)
    by (unfold sub32; rewrite u32_small; lia).
  set (n := if nbyte >? size (info f) - offset f
            then size (info f) - offset f else nbyte).
  assert (Hn' : 0 <= n < 2 ^ 32) by (subst n; destruct (_ >? _); lia).
  destruct (n =? 0); [eexists _, _; reflexivity|].
  rewrite (bind_eq _ _ s part s)
    by (unfold get_partition; rewrite Hpart; reflexivity).
  destruct (cluster_pos_init_defined part (current_cluster f) (offset f) Hbpc)
    as (cpos & Hinit).
  rewrite (bind_eq _ _ s cpos s)
    by (unfold lift, _mfat_cluster_pos_init_from_file; rewrite Hinit;
        reflexivity).
  destruct (read_head_defined dev part f cpos n s Hdc Hn')
    as (h & s1 & Hhead & Hdc1 & Hh).
  rewrite (bind_eq _ _ s h s1 Hhead).
  destruct h as [[[c1 br1] d1]|]; [|eexists _, _; reflexivity].
  destruct (read_body_defined dev part n (c1, br1, d1) s1 Hdc1 Hn'
              (Hh _ _ _ eq_refl)) as (b & s2 & Hbody & Hdc2 & _).
  rewrite (bind_eq _ _ s1 b s2 Hbody).
  destruct b as [st2|]; [|eexists _, _; reflexivity].
  destruct (read_tail_defined dev n st2 s2 Hdc2) as (t & s3 & Htail).
  rewrite (bind_eq _ _ s2 t s3 Htail).
  destruct t as [[[c3 br3] d3]|]; eexists _, _; reflexivity.
Qed.

Lemma lseek_impl_defined dev fd off whence s f part :
  device_cached dev s ->
  arr_get (file s) fd = Some f ->
  0 <= offset f <= size (info f) -> size (info f) < 2 ^ 32 ->
  arr_get (partition s) (part_no (info f)) = Some part ->
  0 < blocks_per_cluster part < 256 ->
  - 2 ^ 63 <= off < 2 ^ 63 - 2 ^ 32 ->
  exists r s', _mfat_lseek_impl fd off whence s = Some (r, s').
Proof.
  intros Hdc Hf Hoff Hsize Hpart Hbpc Hrange. unfold _mfat_lseek_impl.
  rewrite (bind_eq _ _ s f s) by (unfold get_file_at; rewrite Hf; reflexivity).
  cbv zeta.
  set (target := if whence =? MFAT_SEEK_SET then Some off
                 else if whence =? MFAT_SEEK_END then Some (size (info f) + off)
                 else if whence =? MFAT_SEEK_CUR then Some (offset f + off)
                 else None).
  assert (Ht : forall t, target = Some t -> - 2 ^ 63 <= t < 2 ^ 63).
  { subst target. intros t H.
    destruct (whence =? MFAT_SEEK_SET); [inversion H; lia|].
    destruct (whence =? MFAT_SEEK_END); [inversion H; lia|].
    destruct (whence =? MFAT_SEEK_CUR); [inversion H; lia|discriminate]. }
  destruct target as [t|]; [|eexists _, _; reflexivity].
  specialize (Ht t eq_refl).
  assert (Hin : in_int64 t = true).
  { unfold in_int64. apply andb_true_iff. split; [apply Z.leb_le|apply Z.ltb_lt];
      lia. }
  rewrite Hin. cbn [negb].
  destruct (Z.ltb_spec t 0); [eexists _, _; reflexivity|].
  destruct (Z.gtb_spec t (size (info f))); [eexists _, _; reflexivity|].
  rewrite (bind_eq _ _ s part s)
    by (unfold get_partition; rewrite Hpart; reflexivity).
  rewrite (u32_small t) by lia.
  set (B := mul32 (blocks_per_cluster part) MFAT_BLOCK_SIZE).
  assert (HB : 0 < B < 2 ^ 32).
  { subst B. unfold mul32. change MFAT_BLOCK_SIZE with 512.
    rewrite u32_small; lia. }
  destruct (Z.eqb_spec B 0); [lia|].
  pose proof (Z.mod_pos_bound (offset f) B ltac:(lia)) as Hmod.
  pose proof (Z.mod_le (offset f) B ltac:(lia) ltac:(lia)) as Hmle.
  replace (sub32 (offset f) (offset f mod B)) with (offset f - offset f mod B)
    by (unfold sub32; rewrite u32_small; lia).
  set (start := if t <? offset f - offset f mod B
                then (first_cluster (info f), 0)
                else (current_cluster f, offset f - offset f mod B)).
  assert (Hstart : 0 <= snd start <= t).
  { subst start. destruct (Z.ltb_spec t (offset f - offset f mod B));
      cbn [snd]; lia. }
  assert (Hloop : exists r s',
            while_loop (lseek_step part t B) start s = Some (r, s')).
  { destruct (while_loop_total
      (fun (st : Z * Z) y => device_cached dev y /\ 0 <= snd st <= t)
      (fun (_ : option (Z * Z)) (_ : mfat_ctx_t) => True)
      (fun st => t - snd st)
      (lseek_step part t B)) with (st := start) (s := s)
      as (r & s' & Hrun & _).
    - intros [c co] y [Hy Hco]. cbn [snd] in *. unfold lseek_step.
      replace (sub32 t co) with (t - co)
        by (unfold sub32; rewrite u32_small; lia).
      destruct (Z.geb_spec (t - co) B); cbn [negb];
        [|eexists _, y; split; [reflexivity|exact I]].
      destruct (_mfat_is_eoc c); [eexists _, y; split; [reflexivity|exact I]|].
      destruct (next_cluster_defined dev part c y Hy) as (a & y' & Hnc & Hy').
      rewrite (bind_eq _ _ y a y' Hnc).
      destruct a as [c'|]; eexists _, y'; (split; [reflexivity|]);
        [|exact I].
      cbn [snd].
      replace (add32 co B) with (co + B)
        by (unfold add32; rewrite u32_small; lia).
      split; [split; [exact Hy'|lia]|lia].
    - auto.
    - lia.
    - eauto. }
  destruct Hloop as (r & s' & Hrun).
  rewrite (bind_eq _ _ s r s' Hrun).
  destruct r as [[c co]|]; eexists _, _; reflexivity.
Qed.

(** What a state reached through the API provides to a call. *)
Lemma reachable_facts s :
  reachable s ->
  exists dev,
    device_cached dev s /\
    length (file s) = MFAT_NUM_FDS /\
    length (partition s) = MFAT_NUM_PARTITIONS /\
    (exists part,
       arr_get (partition s) (active_partition s) = Some part /\
       0 < blocks_per_cluster part < 256 /\
       0 <= blocks_in_root_dir part < 2 ^ 32) /\
    (forall fd f, arr_get (file s) fd = Some f -> open f <> 0 ->
       0 <= offset f <= size (info f) /\ size (info f) < 2 ^ 32 /\
       exists part,
         arr_get (partition s) (part_no (info f)) = Some part /\
         0 < blocks_per_cluster part < 256).
Proof.
  intros Hreach.
  destruct (reachable_mounted_inv s Hreach)
    as (Hci & Hcoh & [[dev Hr] _] & _ & Hfds).
  destruct (reachable_volume_inv s Hreach) as ([Hplen Hall] & Hact & Hfiles).
  exists dev. split; [apply reachable_device_cached; assumption|].
  split; [apply reachable_num_fds, Hreach|]. split; [exact Hplen|]. split.
  - destruct Hact as (part & Hpart & Hfat). exists part.
    split; [exact Hpart|]. split; [apply Hfat|].
    apply arr_get_lookup in Hpart as [Hpart _].
    destruct (Hall _ _ Hpart) as [Hu|[_ Hroot]]; [|exact Hroot].
    destruct Hfat as [[H16|H32] _]; rewrite Hu in *; discriminate.
  - intros fd f Hf Hopen. apply arr_get_lookup in Hf as [Hf _].
    destruct (Hfds _ _ Hf Hopen) as (Hoff & Hsize & _).
    destruct (Hfiles _ _ Hf Hopen) as (part & Hpart & Hfat).
    split; [exact Hoff|]. split; [exact Hsize|].
    exists part. split; [exact Hpart|apply Hfat].
Qed.

Lemma mfat_stat_defined path n s :
  reachable s ->
  match path with
  | Some p => Z.of_nat (length p) < 2 ^ 31
  | None => True
  end ->
  exists r s', mfat_stat path n s = Some (r, s').
Proof.
  intros Hreach Hpath.
  destruct (reachable_facts s Hreach)
    as (dev & Hdc & _ & _ & (part & Hpart & Hbpc & Hroot) & _).
  unfold mfat_stat. rewrite (bind_eq _ _ s s s) by reflexivity.
  destruct (_ || _); [eexists _, _; reflexivity|].
  destruct path as [p|]; [|eexists _, _; reflexivity].
  destruct n; [eexists _, _; reflexivity|].
  unfold _mfat_stat_impl. rewrite (bind_eq _ _ s s s) by reflexivity.
  destruct (find_file_defined dev (active_partition s) p s part Hdc Hpart
              Hbpc Hroot Hpath) as (r & s1 & Hfind & Hdc1).
  rewrite (bind_eq _ _ s r s1 Hfind).
  destruct r as [[[info d] e]|]; [|eexists _, _; reflexivity].
  destruct (e =? 0); [eexists _, _; reflexivity|].
  apply (fstat_impl_defined dev), Hdc1.
Qed.

Lemma mfat_open_defined path flags s :
  reachable s ->
  match path with
  | Some p => Z.of_nat (length p) < 2 ^ 31
  | None => True
  end ->
  exists r s', mfat_open path flags s = Some (r, s').
Proof.
  intros Hreach Hpath.
  destruct (reachable_facts s Hreach)
    as (dev & Hdc & Hlen & _ & (part & Hpart & Hbpc & Hroot) & _).
  unfold mfat_open. rewrite (bind_eq _ _ s s s) by reflexivity.
  destruct (_ || _); [eexists _, _; reflexivity|].
  destruct path as [p|]; [|eexists _, _; reflexivity].
  destruct (_ =? 0); [eexists _, _; reflexivity|].
  unfold _mfat_open_impl. rewrite (bind_eq _ _ s s s) by reflexivity.
  cbv zeta.
  destruct (find_free_fd_spec (file s) 0) as [Hfd _].
  destruct (Z.geb_spec (find_free_fd (file s) 0) (Z.of_nat MFAT_NUM_FDS))
    as [|Hlt]; [eexists _, _; reflexivity|].
  destruct (find_file_defined dev (active_partition s) p s part Hdc Hpart
              Hbpc Hroot Hpath) as (r & s1 & Hfind & _).
  rewrite (bind_eq _ _ s r s1 Hfind).
  destruct r as [[[info d] e]|]; [|eexists _, _; reflexivity].
  assert (Hfile : file s1 = file s) by (apply find_file_frame in Hfind; apply Hfind).
  destruct (lookup_lt_is_Some_2 (file s1)
              (Z.to_nat (find_free_fd (file s) 0))) as [f0 Hf0];
    [rewrite Hfile, Hlen; lia|].
  rewrite (bind_eq _ _ s1 f0 s1).
  2:{ unfold get_file_at, arr_get.
      destruct (Z.ltb_spec (find_free_fd (file s) 0) 0); [lia|].
      rewrite Hf0. reflexivity. }
  match goal with
  | |- exists r s', (put_file ?fd ?g ;;; _) s1 = _ =>
      rewrite (bind_eq _ _ s1 tt
                 (set_file (<[Z.to_nat fd := g]> (file s1)) s1)) by reflexivity
  end.
  destruct (negb (d =? 0)); [eexists _, _; reflexivity|].
  destruct (e =? 0); [destruct (negb _); eexists _, _; reflexivity|].
  eexists _, _. reflexivity.
Qed.

Lemma mfat_select_partition_defined i s :
  length (partition s) = MFAT_NUM_PARTITIONS ->
  exists r s', mfat_select_partition i s = Some (r, s').
Proof.
  intros Hlen. unfold mfat_select_partition.
  rewrite (bind_eq _ _ s s s) by reflexivity.
  destruct (_ =? 0); [eexists _, _; reflexivity|].
  destruct (Z.ltb_spec i 0) as [|Hi0]; [eexists _, _; reflexivity|].
  destruct (Z.geb_spec i (Z.of_nat MFAT_NUM_PARTITIONS)) as [|Hi];
    [eexists _, _; reflexivity|]. cbn [orb].
  destruct (lookup_lt_is_Some_2 (partition s) (Z.to_nat i)) as [p Hp];
    [rewrite Hlen; lia|].
  rewrite (bind_eq _ _ s p s).
  2:{ unfold get_partition, arr_get. destruct (Z.ltb_spec i 0); [lia|].
      rewrite Hp. reflexivity. }
  destruct (_ =? _); eexists _, _; reflexivity.
Qed.

(** In every state reached through the API, every call whose arguments
    are in range returns: no array index is out of bounds, no divisor is
    zero and every loop ends, whatever the device holds and whether its
    reads succeed or fail.  The state it leaves is again such a state,
    so this holds along any sequence of calls that follows a successful
    [mfat_mount]. *)
Theorem api_calls_return c s :
  reachable s -> call_in_range c ->
  exists r s', run_api c s = Some (r, s') /\ reachable s'.
Proof.
  intros Hreach Hc.
  assert (Hnm : forall rf wf, c <> call_mount rf wf)
    by (intros rf wf ->; exact Hc).
  enough (Hret : exists r s', run_api c s = Some (r, s')).
  { destruct Hret as (r & s' & Hrun). exists r, s'. split; [exact Hrun|].
    eapply reachable_call; eauto. }
  destruct (reachable_facts s Hreach)
    as (dev & Hdc & Hlen & Hplen & _ & Hfiles).
  pose proof Hdc as (Hci & _ & Hcl & _).
  pose proof (sync_impl_noop s Hci Hcl) as Hsync.
  destruct c as [rf wf| |i| |fd|p n|p fl|fd|fd n|fd b n|fd off wh];
    cbn [run_api call_in_range] in *.
  - destruct Hc.
  - rewrite (bind_eq _ _ s tt (set_initialized 0 s))
      by (unfold mfat_unmount; rewrite (bind_eq _ _ s tt s Hsync);
          reflexivity).
    eexists _, _. reflexivity.
  - apply mfat_select_partition_defined, Hplen.
  - unfold mfat_sync. rewrite (bind_eq _ _ s tt s).
    + eexists _, _. reflexivity.
    + rewrite (bind_eq _ _ s s s) by reflexivity.
      destruct (_ =? 0); [reflexivity|exact Hsync].
  - enough (H : exists r s', mfat_fstat fd s = Some (r, s')).
    { destruct H as (r & s' & H). rewrite (bind_eq _ _ s r s' H).
      eexists _, _. reflexivity. }
    unfold mfat_fstat. rewrite (bind_eq _ _ s s s) by reflexivity.
    destruct (_ =? 0); [eexists _, _; reflexivity|].
    destruct (get_file_cases fd s Hlen) as [Hg|(Hg & f & Hf & Hopen)].
    + rewrite (bind_eq _ _ s None s Hg). eexists _, _. reflexivity.
    + rewrite (bind_eq _ _ s (Some fd) s Hg).
      rewrite (bind_eq _ _ s f s)
        by (unfold get_file_at; rewrite Hf; reflexivity).
      apply (fstat_impl_defined dev), Hdc.
  - destruct (mfat_stat_defined p n s Hreach) as (r & s' & H).
    { destruct p; [exact Hc|exact I]. }
    rewrite (bind_eq _ _ s r s' H). eexists _, _. reflexivity.
  - apply mfat_open_defined; [exact Hreach|].
    destruct p; [exact Hc|exact I].
  - unfold mfat_close. rewrite (bind_eq _ _ s s s) by reflexivity.
    destruct (_ =? 0); [eexists _, _; reflexivity|].
    destruct (get_file_cases fd s Hlen) as [Hg|(Hg & f & Hf & Hopen)].
    + rewrite (bind_eq _ _ s None s Hg). eexists _, _. reflexivity.
    + rewrite (bind_eq _ _ s (Some fd) s Hg). unfold _mfat_close_impl.
      rewrite (bind_eq _ _ s f s)
        by (unfold get_file_at; rewrite Hf; reflexivity).
      rewrite (bind_eq _ _ s tt s)
        by (destruct (negb _); [exact Hsync|reflexivity]).
      eexists _, _. reflexivity.
  - enough (H : exists r s', mfat_read fd (u32 n) s = Some (r, s')).
    { destruct H as (r & s' & H). rewrite (bind_eq _ _ s r s' H).
      eexists _, _. reflexivity. }
    unfold mfat_read. rewrite (bind_eq _ _ s s s) by reflexivity.
    destruct (_ =? 0); [eexists _, _; reflexivity|].
    destruct (get_file_cases fd s Hlen) as [Hg|(Hg & f & Hf & Hopen)].
    + rewrite (bind_eq _ _ s None s Hg). eexists _, _. reflexivity.
    + rewrite (bind_eq _ _ s (Some fd) s Hg).
      destruct (Hfiles fd f Hf Hopen) as (Hoff & Hsize & part & Hpart & Hbpc).
      eapply read_impl_defined; eauto. apply u32_range.
  - unfold mfat_write. rewrite (bind_eq _ _ s s s) by reflexivity.
    destruct (_ =? 0); [eexists _, _; reflexivity|].
    destruct (get_file_cases fd s Hlen) as [Hg|(Hg & f & Hf & Hopen)].
    + rewrite (bind_eq _ _ s None s Hg). eexists _, _. reflexivity.
    + rewrite (bind_eq _ _ s (Some fd) s Hg). unfold _mfat_write_impl.
      rewrite (bind_eq _ _ s f s)
        by (unfold get_file_at; rewrite Hf; reflexivity).
      destruct (_ =? 0); eexists _, _; reflexivity.
  - unfold mfat_lseek. rewrite (bind_eq _ _ s s s) by reflexivity.
    destruct (_ =? 0); [eexists _, _; reflexivity|].
    destruct (get_file_cases fd s Hlen) as [Hg|(Hg & f & Hf & Hopen)].
    + rewrite (bind_eq _ _ s None s Hg). eexists _, _. reflexivity.
    + rewrite (bind_eq _ _ s (Some fd) s Hg).
      destruct (Hfiles fd f Hf Hopen) as (Hoff & Hsize & part & Hpart & Hbpc).
      eapply lseek_impl_defined; eauto.
Qed.

Lemma api_calls_return_witness :
  exists r s',
    run_api (call_open (Some (text "/NOPE/HELLO.TXT")) MFAT_O_RDONLY)
      fat32_mounted = Some (r, s') /\ reachable s'.
Proof.
  apply (api_calls_return
           (call_open (Some (text "/NOPE/HELLO.TXT")) MFAT_O_RDONLY)
           fat32_mounted fat32_mounted_reachable).
  vm_compute. reflexivity.
Defined.


(** ** The bytes of a read and the cluster chain of the file *)

Lemma chain_cluster_walk dev part n c c' :
  chain_cluster dev part n c = Some c' -> walk dev part n c = Some c'.
Proof.
  revert c'. induction n as [|n IH]; intros c' H; simpl in *.
  - destruct (_mfat_is_eoc c); [discriminate|exact H].
  - destruct (chain_cluster dev part n c) as [c1|]; [|discriminate].
    rewrite (IH c1 eq_refl).
    destruct (fat_next dev part c1) as [c2|]; [|discriminate].
    destruct (_mfat_is_eoc c2); [discriminate|exact H].
Qed.

Lemma file_byte_cursor_byte dev part first k b :
  file_byte dev part first k = Some b -> cursor_byte dev part first k = Some b.
Proof.
  unfold file_byte, cursor_byte. intros H.
  destruct (chain_cluster dev part _ first) as [c|] eqn:Hc; [|discriminate].
  rewrite (chain_cluster_walk _ _ _ _ _ Hc). exact H.
Qed.

Lemma chain_covers_chain_cluster dev part first o n :
  0 < bytes_per_cluster part ->
  chain_covers dev part first o n ->
  forall m : nat, Z.of_nat m * bytes_per_cluster part < o + n ->
    chain_cluster dev part m first = walk dev part m first.
Proof.
  intros Hbpc Hcov m. induction m as [|m IH]; intros Hm.
  - destruct (Hcov 0) as (c & Hw & He); [lia| |].
    { apply Z.div_le_lower_bound; lia. }
    simpl in Hw. inversion Hw; subst c. simpl. rewrite He by lia. reflexivity.
  - destruct (Hcov (Z.of_nat (S m))) as (c & Hw & He); [lia| |].
    { apply Z.div_le_lower_bound; lia. }
    rewrite Nat2Z.id in Hw. specialize (He Hm).
    change (chain_cluster dev part (S m) first)
      with (match chain_cluster dev part m first with
            | Some c' =>
                match fat_next dev part c' with
                | Some c'' => if _mfat_is_eoc c'' then None else Some c''
                | None => None
                end
            | None => None
            end).
    rewrite IH by lia. rewrite Hw. simpl in Hw.
    destruct (walk dev part m first) as [c1|]; [|discriminate].
    rewrite Hw, He. reflexivity.
Qed.

(** The bytes of a read and the file: when [mfat_read] on a mounted
    volume returns a count [r] other than [-1], it has stored exactly [r]
    bytes.  Wherever the file has a byte at position [offset + j], that
    is, wherever the cluster chain of the file reaches the cluster of that
    position before an End-of-Chain mark, byte [j] of the result is that
    byte as the device holds it; and where the chain covers the range
    read, every one of the [r] bytes is the file's.  Nothing is said of a
    position beyond the end of the chain: there the code reads the block
    that the End-of-Chain mark, taken for a cluster number, addresses. *)
Theorem read_returns_file_bytes fd nbyte s r data s' f dev part :
  reachable s -> 0 <= nbyte < 2 ^ 32 ->
  arr_get (file s) fd = Some f -> read s = Some dev ->
  arr_get (partition s) (part_no (info f)) = Some part ->
  mfat_read fd nbyte s = Some ((r, data), s') -> r <> -1 ->
  length data = Z.to_nat r /\
  (forall j b, 0 <= j < r ->
     file_byte dev part (first_cluster (info f)) (offset f + j) = Some b ->
     byte_at data j = b) /\
  (chain_covers dev part (first_cluster (info f)) (offset f) r ->
   forall j, 0 <= j < r ->
     file_byte dev part (first_cluster (info f)) (offset f + j)
     = Some (byte_at data j)).
Proof.
  intros Hreach Hnb Hf Hdev Hp H Hr.
  destruct (reachable_mounted_inv s Hreach) as (_ & Hcoh & _ & Hparts & Hfds).
  destruct (reachable_facts s Hreach) as (_ & _ & _ & _ & _ & Hfiles).
  unfold mfat_read in H. rewrite (bind_eq _ _ s s s) in H by reflexivity.
  destruct (initialized s =? 0).
  { apply ret_Some in H as [H _]. inversion H. contradiction. }
  apply bind_Some in H as (g & s0 & Hg & H).
  destruct g as [fd'|]; [|apply ret_Some in H as [H _]; inversion H; contradiction].
  apply get_file_Some in Hg as (-> & -> & f0 & Hf0 & Hopen).
  rewrite Hf in Hf0. inversion Hf0; subst f0.
  pose proof (arr_get_lookup _ _ _ Hf) as [Hlk _].
  destruct (Hfiles fd f Hf Hopen) as (Hoff & _ & part' & Hp' & Hbpc).
  rewrite Hp in Hp'. inversion Hp'; subst part'.
  assert (Hdata : length data = Z.to_nat r /\
                  forall j, 0 <= j < r ->
                    cursor_byte dev part (first_cluster (info f)) (offset f + j)
                    = Some (byte_at data j)).
  { eapply read_impl_data; eauto. lia. }
  destruct Hdata as [Hlen Hbytes].
  split; [exact Hlen|]. split.
  - intros j b Hj Hb. apply file_byte_cursor_byte in Hb.
    rewrite (Hbytes j Hj) in Hb. inversion Hb. reflexivity.
  - intros Hcov j Hj.
    assert (Hpos : 0 < bytes_per_cluster part).
    { unfold bytes_per_cluster. change MFAT_BLOCK_SIZE with 512. lia. }
    specialize (Hbytes j Hj). unfold cursor_byte in Hbytes. unfold file_byte.
    rewrite (chain_covers_chain_cluster dev part _ _ _ Hpos Hcov).
    + exact Hbytes.
    + rewrite Z2Nat.id by (apply Z.div_pos; lia).
      pose proof (Z.mul_div_le (offset f + j) (bytes_per_cluster part) Hpos).
      lia.
Qed.

Lemma chain_read_covers : chain_covers chain_disk chain_part 2 600 700.
Proof.
  intros k Hk0 Hk.
  assert (Hb : k <= 2) by (revert Hk; vm_compute; auto).
  assert (Hcases : k = 0 \/ k = 1 \/ k = 2) by lia.
  destruct Hcases as [ -> | [ -> | -> ] ]; eexists;
    (split; [vm_compute; reflexivity|]); reflexivity.
Qed.

Lemma read_returns_file_bytes_witness :
  exists data s',
    mfat_read 0 700 chain_read = Some ((700, data), s') /\
    length data = 700%nat /\
    file_byte chain_disk chain_part 2 (600 + 699) = Some (byte_at data 699).
Proof.
  destruct (mfat_read 0 700 chain_read) as [[[r data] s']|] eqn:E.
  - assert (Hr : r = 700).
    { revert E. vm_compute. intros E. inversion E. reflexivity. }
    subst r. exists data, s'. split; [reflexivity|].
    destruct (read_returns_file_bytes 0 700 chain_read 700 data s' chain_file
                chain_disk chain_part chain_read_reachable)
      as (Hlen & _ & Hbytes).
    + lia.
    + vm_compute; reflexivity.
    + vm_compute; reflexivity.
    + vm_compute; reflexivity.
    + exact E.
    + lia.
    + split; [exact Hlen|]. apply (Hbytes chain_read_covers). lia.
  - exfalso. revert E. vm_compute. discriminate.
Defined.

(** Beyond the end of the chain the bytes of a read are not bytes of the
    file.  On [short_disk] the chain of HELLO.TXT ends after cluster 2,
    that is, after 512 bytes, while the directory entry says 1300: after
    a seek to offset 600 a read of 10 bytes returns 10 bytes, though the
    file has no byte at offset 600. *)
Example read_beyond_chain_end :
  mfat_lseek 0 600 MFAT_SEEK_SET short_opened = Some (600, short_seeked) /\
  file_byte short_disk short_part
    (first_cluster (info short_open_file)) 600 = None /\
  exists data s',
    mfat_read 0 10 short_seeked = Some ((10, data), s').
Proof.
  split; [vm_compute; reflexivity|]. split; [vm_compute; reflexivity|].
  destruct (mfat_read 0 10 short_seeked) as [[[r data] s']|] eqn:E.
  - exists data, s'. revert E. vm_compute. intros E. inversion E. reflexivity.
  - exfalso. revert E. vm_compute. discriminate.
Qed.



(* ------------------------------------------------------------------ *)
(** ** A read returns the clamped count *)

Lemma advanced_none dev part cpos :
  advanced dev part cpos = None ->
  add32 (block_in_cluster cpos) 1 = blocks_per_cluster part /\
  fat_next dev part (cluster_no cpos) = None.
Proof.
  unfold advanced. cbv zeta.
  destruct (Z.eqb_spec (add32 (block_in_cluster cpos) 1)
              (blocks_per_cluster part)) as [E|_]; [|discriminate].
  destruct (fat_next dev part (cluster_no cpos)); [discriminate|].
  intros _. split; [exact E|reflexivity].
Qed.

Lemma advanced_start_ok dev part cpos cpos' :
  cpos_start_ok part cpos -> advanced dev part cpos = Some cpos' ->
  cpos_start_ok part cpos'.
Proof.
  unfold advanced. cbv zeta. intros Hok H.
  destruct (_ =? _).
  - destruct (fat_next dev part (cluster_no cpos)); [|discriminate].
    inversion H; subst. reflexivity.
  - inversion H; subst. exact Hok.
Qed.

Lemma min_is_first a b : _mfat_min a b = a -> a <= b.
Proof. unfold _mfat_min. destruct (Z.ltb_spec a b); lia. Qed.

Section ReadReturns.
Variable dev : mfat_read_block_fun_t.
Variable part : mfat_partition_t.
Variables first o n : Z.
Hypothesis Hbpc : 0 < blocks_per_cluster part < 256.
Hypothesis Ho : 0 <= o.
Hypothesis Hn : 0 < n.
Hypothesis Hon : o + n < 2 ^ 32.
Hypothesis Hchain : chain_covers dev part first o n.
Hypothesis Hdata : data_readable dev part first o n.

Lemma cursor_block_in_cluster cpos B :
  0 <= B -> cursor_at dev part first cpos B ->
  add32 (block_in_cluster cpos) 1 = blocks_per_cluster part ->
  B mod blocks_per_cluster part + 1 = blocks_per_cluster part.
Proof.
  intros HB [_ Hbic] Hadd. rewrite <- Hbic.
  pose proof (Z.mod_pos_bound B (blocks_per_cluster part) ltac:(lia)).
  unfold add32 in Hadd. rewrite u32_small in Hadd by lia. exact Hadd.
Qed.

Lemma cursor_block_readable cpos B :
  o / 512 <= B -> B * 512 < o + n ->
  cursor_at dev part first cpos B -> cpos_start_ok part cpos ->
  exists blk, dev (_mfat_cluster_pos_blk_no cpos) = Some blk.
Proof.
  intros HB Hlt [Hwalk Hbic] Hstart.
  pose proof (Hdata B (cluster_no cpos) HB Hlt Hwalk) as Hd.
  rewrite <- Hbic, <- Hstart in Hd.
  change (add32 (cluster_start_blk cpos) (block_in_cluster cpos))
    with (_mfat_cluster_pos_blk_no cpos) in Hd.
  destruct (dev (_mfat_cluster_pos_blk_no cpos)) as [blk|];
    [exists blk; reflexivity|contradiction].
Qed.

Lemma read_body_step_returns st s :
  returns_inv dev part first o n st s ->
  exists x s',
    read_body_step part n st s = Some (x, s') /\
    match x with
    | inl st' => returns_inv dev part first o n st' s' /\
                 0 <= n - snd (fst st') < n - snd (fst st)
    | inr r => exists st', r = Some st' /\
                           returns_inv dev part first o n st' s' /\
                           n - snd (fst st') < 512
    end.
Proof.
  destruct st as [[cpos br] data]. intros (Hdc & Hinv & Hstart).
  cbn [fst snd] in Hstart.
  pose proof Hinv as (Hcoh & Hr & Hbr & Hcur & Hal).
  assert (Hstep : exists x s',
    read_body_step part n (cpos, br, data) s = Some (x, s') /\
    device_cached dev s' /\ x <> inr None /\
    (forall st', x = inl st' ->
       snd (fst st') = br + 512 /\ br + 512 <= n /\
       cpos_start_ok part (fst (fst st'))) /\
    (forall st', x = inr (Some st') -> cpos_start_ok part (fst (fst st')))).
  { unfold read_body_step, sub32. change MFAT_BLOCK_SIZE with 512.
    rewrite (u32_small (n - br)) by lia.
    destruct (Z.geb_spec (n - br) 512) as [Hge|Hlt]; cbn [negb].
    2:{ eexists _, s. split; [reflexivity|]. split; [exact Hdc|].
        split; [discriminate|]. split; [discriminate|].
        intros st' E. inversion E. exact Hstart. }
    assert (Hal' : (o + br) mod 512 = 0) by (destruct Hal; [assumption|lia]).
    pose proof (Z.div_mod (o + br) 512 ltac:(lia)) as Hdm.
    assert (HB : 0 <= (o + br) / 512) by (apply Z.div_pos; lia).
    assert (HoB : o / 512 <= (o + br) / 512)
      by (apply Z.div_le_mono; lia).
    rewrite (chain_not_eoc dev part first o n cpos ((o + br) / 512))
      by (try assumption; lia).
    rewrite (bind_eq _ _ s (dev (_mfat_cluster_pos_blk_no cpos)) s)
      by (unfold call_read; rewrite Hr; reflexivity).
    destruct (cursor_block_readable cpos ((o + br) / 512) HoB ltac:(lia)
                Hcur Hstart) as (blk & Hblk).
    rewrite Hblk.
    destruct (cluster_pos_advance_value dev cpos part s Hdc)
      as (s' & Hadv & Hdc').
    rewrite (bind_eq _ _ s _ s' Hadv).
    destruct (advanced dev part cpos) as [cpos'|] eqn:Ha.
    - eexists _, s'. split; [reflexivity|]. split; [exact Hdc'|].
      split; [discriminate|]. split; [|discriminate].
      intros st' E. inversion E. cbn [fst snd].
      unfold add32. rewrite u32_small by lia.
      split; [lia|]. split; [lia|].
      eapply advanced_start_ok; eauto.
    - exfalso. destruct (advanced_none _ _ _ Ha) as [Hadd Hnext].
      apply (chain_has_next dev part first o n cpos ((o + br) / 512));
        try assumption; try lia.
      eapply cursor_block_in_cluster; eauto. }
  destruct Hstep as (x & s' & Hrun & Hdc' & Hx & Hbr' & Hst').
  exists x, s'. split; [exact Hrun|].
  pose proof (read_body_step_cursor dev part first o n Hbpc Ho Hon n
                (cpos, br, data) s x s' eq_refl Hinv Hrun) as Hpost.
  destruct x as [st'|[st'|]].
  - destruct (Hbr' st' eq_refl) as (Hsnd & Hle & Hok).
    split; [split; [exact Hdc'|]; split; [exact Hpost|exact Hok]|].
    cbn [fst snd]. rewrite Hsnd. lia.
  - exists st'. split; [reflexivity|].
    destruct Hpost as [_ Hpost]. destruct (Hpost st' eq_refl) as [Hinv' Hlt].
    split; [|exact Hlt].
    split; [exact Hdc'|]. split; [exact Hinv'|apply Hst'; reflexivity].
  - contradiction Hx. reflexivity.
Qed.

Lemma read_body_returns st s :
  returns_inv dev part first o n st s ->
  exists st' s',
    while_loop (read_body_step part n) st s = Some (Some st', s') /\
    returns_inv dev part first o n st' s' /\ n - snd (fst st') < 512.
Proof.
  intros Hinv.
  destruct (while_loop_total (returns_inv dev part first o n)
              (fun r s' => exists st', r = Some st' /\
                                       returns_inv dev part first o n st' s' /\
                                       n - snd (fst st') < 512)
              (fun st => n - snd (fst st))
              (read_body_step part n) read_body_step_returns st s)
    as (r & s' & Hrun & st' & -> & Hinv' & Hlt).
  - exact Hinv.
  - destruct st as [[cpos br] data].
    destruct Hinv as (_ & (_ & _ & Hbr & _) & _). cbn [fst snd]. lia.
  - exists st', s'. auto.
Qed.

Lemma read_head_returns f cpos s :
  offset f = o -> device_cached dev s ->
  cursor_at dev part first cpos (o / 512) -> cpos_start_ok part cpos ->
  exists st s',
    read_head part f cpos n s = Some (Some st, s') /\
    returns_inv dev part first o n st s'.
Proof.
  intros Hoff Hdc Hcur Hstart.
  assert (Hstep : exists st s',
    read_head part f cpos n s = Some (Some st, s') /\ device_cached dev s' /\
    cpos_start_ok part (fst (fst st))).
  { unfold read_head. rewrite Hoff. change MFAT_BLOCK_SIZE with 512.
    cbv zeta. destruct (negb (o mod 512 =? 0)).
    2:{ eexists _, s. split; [reflexivity|]. split; [exact Hdc|exact Hstart]. }
    pose proof (Z.div_mod o 512 ltac:(lia)) as Hdm.
    pose proof (Z.mod_pos_bound o 512 ltac:(lia)) as Hmod.
    destruct (cursor_block_readable cpos (o / 512) ltac:(lia) ltac:(lia)
                Hcur Hstart) as (blk & Hblk).
    destruct (read_block_defined dev (_mfat_cluster_pos_blk_no cpos)
                MFAT_CACHE_DATA s Hdc ltac:(cbv; lia))
      as (rb & s1 & Hrun & Hdc1 & Hres).
    rewrite Hblk in Hres. destruct Hres as (p & cb & -> & Hgb & _).
    rewrite (bind_eq _ _ s (Some p) s1 Hrun).
    rewrite (bind_eq _ _ s1 cb s1 Hgb).
    assert (Hsub : sub32 512 (o mod 512) = 512 - o mod 512)
      by (apply u32_small; lia).
    rewrite Hsub.
    destruct (Z.eqb_spec (_mfat_min (512 - o mod 512) n) (512 - o mod 512))
      as [Hmin|_].
    2:{ eexists _, s1. split; [reflexivity|].
        split; [exact Hdc1|exact Hstart]. }
    apply min_is_first in Hmin.
    destruct (cluster_pos_advance_value dev cpos part s1 Hdc1)
      as (s' & Hadv & Hdc').
    rewrite (bind_eq _ _ s1 _ s' Hadv).
    destruct (advanced dev part cpos) as [cpos'|] eqn:Ha.
    - eexists _, s'. split; [reflexivity|]. split; [exact Hdc'|].
      cbn [fst snd]. eapply advanced_start_ok; eauto.
    - exfalso. destruct (advanced_none _ _ _ Ha) as [Hadd Hnext].
      assert (HB : 0 <= o / 512) by (apply Z.div_pos; lia).
      apply (chain_has_next dev part first o n cpos (o / 512));
        try assumption; try lia.
      eapply cursor_block_in_cluster; eauto. }
  destruct Hstep as (st & s' & Hrun & Hdc' & Hok).
  exists st, s'. split; [exact Hrun|]. split; [exact Hdc'|].
  split; [|exact Hok].
  destruct Hdc as (_ & Hcoh & _ & Hr).
  destruct (read_head_cursor dev part first o n Hbpc Ho ltac:(lia) f cpos s
              (Some st) s' Hoff Hcoh Hr Hcur Hrun) as (_ & _ & Hinv).
  apply Hinv. reflexivity.
Qed.

Lemma read_tail_returns st s :
  returns_inv dev part first o n st s -> n - snd (fst st) < 512 ->
  exists st' s',
    read_tail n st s = Some (Some st', s') /\ snd (fst st') = n.
Proof.
  intros (Hdc & Hinv & Hstart) Hlt.
  assert (Hstep : exists st' s', read_tail n st s = Some (Some st', s')).
  { destruct st as [[cpos br] data]. cbn [fst snd] in Hstart.
    destruct Hinv as (Hcoh & Hr & Hbr & Hcur & Hal).
    unfold read_tail. destruct (Z.ltb_spec br n) as [Hlt'|_].
    2:{ eexists _, s. reflexivity. }
    pose proof (Z.div_mod (o + br) 512 ltac:(lia)) as Hdm.
    pose proof (Z.mod_pos_bound (o + br) 512 ltac:(lia)) as Hmod.
    assert (HB : 0 <= (o + br) / 512) by (apply Z.div_pos; lia).
    assert (HoB : o / 512 <= (o + br) / 512)
      by (apply Z.div_le_mono; lia).
    rewrite (chain_not_eoc dev part first o n cpos ((o + br) / 512))
      by (try assumption; lia).
    destruct (cursor_block_readable cpos ((o + br) / 512) HoB ltac:(lia)
                Hcur Hstart) as (blk & Hblk).
    destruct (read_block_defined dev (_mfat_cluster_pos_blk_no cpos)
                MFAT_CACHE_DATA s Hdc ltac:(cbv; lia))
      as (rb & s1 & Hrun & Hdc1 & Hres).
    rewrite Hblk in Hres. destruct Hres as (p & cb & -> & Hgb & _).
    rewrite (bind_eq _ _ s (Some p) s1 Hrun).
    rewrite (bind_eq _ _ s1 cb s1 Hgb).
    eexists _, s1. reflexivity. }
  destruct Hstep as (st' & s' & Hrun).
  exists st', s'. split; [exact Hrun|].
  destruct (read_tail_cursor dev part first o n Ho ltac:(lia) Hon st s
              (Some st') s' Hinv Hlt Hrun) as (_ & _ & Hpost).
  apply Hpost. reflexivity.
Qed.
End ReadReturns.

(** [_mfat_read_impl] for a file whose chain covers the bytes to read,
    on a device that holds the blocks of these bytes: it returns, and
    what it returns is the clamped count. *)
Lemma read_impl_returns fd nbyte s f dev part :
  device_cached dev s ->
  arr_get (file s) fd = Some f -> fd_ok s f ->
  Z.land (oflag f) MFAT_O_RDONLY <> 0 ->
  arr_get (partition s) (part_no (info f)) = Some part ->
  0 < blocks_per_cluster part < 256 ->
  0 <= nbyte < 2 ^ 32 ->
  chain_covers dev part (first_cluster (info f)) (offset f)
    (Z.min nbyte (size (info f) - offset f)) ->
  data_readable dev part (first_cluster (info f)) (offset f)
    (Z.min nbyte (size (info f) - offset f)) ->
  exists data s',
    _mfat_read_impl fd nbyte s
    = Some ((Z.min nbyte (size (info f) - offset f), data), s').
Proof.
  intros Hdc Hf Hok Hflag Hp Hbpc Hnb Hchain Hdata.
  pose proof Hok as (Ho & Hsz & Hwalk).
  pose proof Hdc as (_ & _ & _ & Hr).
  unfold _mfat_read_impl.
  rewrite (bind_eq _ _ s f s) by (unfold get_file_at; rewrite Hf; reflexivity).
  destruct (Z.eqb_spec (Z.land (oflag f) MFAT_O_RDONLY) 0) as [E|_];
    [contradiction|].
  assert (Hsub : sub32 (size (info f)) (offset f) = size (info f) - offset f)
    by (apply u32_small; lia).
  rewrite Hsub.
  assert (Hn : (if nbyte >? size (info f) - offset f
                then size (info f) - offset f else nbyte)
               = Z.min nbyte (size (info f) - offset f)).
  { destruct (Z.gtb_spec nbyte (size (info f) - offset f)); lia. }
  rewrite Hn. clear Hn.
  set (n := Z.min nbyte (size (info f) - offset f)) in *.
  assert (Hn0 : 0 <= n) by lia.
  destruct (Z.eqb_spec n 0) as [->|Hnz]; [eexists _, s; reflexivity|].
  rewrite (bind_eq _ _ s part s)
    by (unfold get_partition; rewrite Hp; reflexivity).
  assert (Hmul : mul32 (blocks_per_cluster part) MFAT_BLOCK_SIZE
                 = blocks_per_cluster part * 512).
  { apply u32_small. change MFAT_BLOCK_SIZE with 512. lia. }
  set (cpos := mk_cpos (current_cluster f)
                 ((offset f mod (blocks_per_cluster part * 512)) / 512)
                 (_mfat_first_block_of_cluster part (current_cluster f))).
  rewrite (bind_eq _ _ s cpos s).
  2:{ unfold lift, _mfat_cluster_pos_init_from_file, _mfat_cluster_pos_init.
      rewrite Hmul.
      destruct (Z.eqb_spec (blocks_per_cluster part * 512) 0); [lia|].
      reflexivity. }
  destruct (cluster_of_block (offset f) (blocks_per_cluster part))
    as [Hbic Hidx]; [lia|].
  assert (Hcur : cursor_at dev part (first_cluster (info f)) cpos
                   (offset f / 512)).
  { split; cbn.
    - rewrite <- Hidx. apply Hwalk; assumption.
    - exact Hbic. }
  assert (Hstart : cpos_start_ok part cpos) by reflexivity.
  assert (Hon : offset f + n < 2 ^ 32) by lia.
  assert (Hnpos : 0 < n) by lia.
  destruct (read_head_returns dev part (first_cluster (info f)) (offset f) n
              Hbpc (proj1 Ho) Hnpos Hchain Hdata f cpos s eq_refl Hdc Hcur
              Hstart)
    as (st1 & s1 & Hrun1 & Hinv1).
  rewrite (bind_eq _ _ s (Some st1) s1 Hrun1).
  destruct (read_body_returns dev part (first_cluster (info f)) (offset f) n
              Hbpc (proj1 Ho) Hon Hchain Hdata st1 s1 Hinv1)
    as (st2 & s2 & Hrun2 & Hinv2 & Hlt2).
  rewrite (bind_eq _ _ s1 (Some st2) s2 Hrun2).
  destruct (read_tail_returns dev part (first_cluster (info f)) (offset f) n
              Hbpc (proj1 Ho) Hnpos Hon Hchain Hdata st2 s2 Hinv2 Hlt2)
    as ([[cpos3 br3] data3] & s3 & Hrun3 & Hbr3).
  rewrite (bind_eq _ _ s2 _ s3 Hrun3).
  cbn [fst snd] in Hbr3. subst br3.
  eexists _, _. reflexivity.
Qed.

(** C1, amended: in a state reached from a successful mount and still
    mounted, for an open file descriptor with the read flag, when the
    FAT chain of the file covers the bytes from the offset to the end of
    the clamped request and the device holds the blocks of these bytes
    (so that no call of the read callback fails; the write callback is
    not called), [mfat_read] returns, and returns exactly
    [min n (size - offset)]. *)
Theorem read_returns_clamped_count s fd nbyte f dev part :
  reachable s -> initialized s <> 0 ->
  arr_get (file s) fd = Some f -> open f <> 0 ->
  Z.land (oflag f) MFAT_O_RDONLY <> 0 ->
  read s = Some dev ->
  arr_get (partition s) (part_no (info f)) = Some part ->
  0 <= nbyte < 2 ^ 32 ->
  chain_covers dev part (first_cluster (info f)) (offset f)
    (Z.min nbyte (size (info f) - offset f)) ->
  data_readable dev part (first_cluster (info f)) (offset f)
    (Z.min nbyte (size (info f) - offset f)) ->
  exists data s',
    mfat_read fd nbyte s
    = Some ((Z.min nbyte (size (info f) - offset f), data), s').
Proof.
  intros Hreach Hinit Hf Hopen Hflag Hr Hp Hnb Hchain Hdata.
  destruct (reachable_mounted_inv s Hreach) as (_ & _ & _ & _ & Hfds).
  destruct (reachable_facts s Hreach)
    as (dev' & Hdc & Hlen & _ & _ & Hfiles).
  assert (dev' = dev).
  { destruct Hdc as (_ & _ & _ & Hr'). congruence. }
  subst dev'.
  pose proof (arr_get_lookup _ _ _ Hf) as [Hlk Hfd].
  destruct (Hfiles fd f Hf Hopen) as (_ & _ & part' & Hp' & Hbpc).
  rewrite Hp in Hp'. inversion Hp'; subst part'.
  destruct (read_impl_returns fd nbyte s f dev part Hdc Hf
              (Hfds _ _ Hlk Hopen) Hflag Hp Hbpc Hnb Hchain Hdata)
    as (data & s' & Hrun).
  exists data, s'. unfold mfat_read.
  rewrite (bind_eq _ _ s s s) by reflexivity.
  destruct (Z.eqb_spec (initialized s) 0) as [E|_]; [contradiction|].
  rewrite (bind_eq _ _ s (Some fd) s); [exact Hrun|].
  apply (get_file_open fd s f Hlen Hf Hopen).
Qed.

Lemma small_chain_opened_reachable : reachable small_chain_opened.
Proof.
  apply (reachable_call small_chain_mounted
           (call_open (Some (text "/HELLO.TXT")) MFAT_O_RDONLY) 0).
  - apply (reachable_mount zero_ctx (Some small_chain_disk)
             (Some accept_writes)).
    vm_compute. reflexivity.
  - discriminate.
  - vm_compute. reflexivity.
Qed.

Lemma small_chain_covers :
  chain_covers small_chain_disk small_chain_part 2 0 1300.
Proof.
  intros k Hk0 Hk.
  assert (Hb : k <= 2) by (revert Hk; vm_compute; auto).
  assert (Hcases : k = 0 \/ k = 1 \/ k = 2) by lia.
  destruct Hcases as [ -> | [ -> | -> ] ]; eexists;
    (split; [vm_compute; reflexivity|]); reflexivity.
Qed.

Lemma small_chain_readable :
  data_readable small_chain_disk small_chain_part 2 0 1300.
Proof.
  intros B c HB Hlt Hw. change (0 / 512) with 0 in HB.
  assert (Hcases : B = 0 \/ B = 1 \/ B = 2) by lia.
  destruct Hcases as [ -> | [ -> | -> ] ]; vm_compute in Hw;
    inversion Hw; subst c; vm_compute; discriminate.
Qed.

Lemma read_returns_clamped_count_witness :
  exists data s',
    mfat_read 0 2000 small_chain_opened
    = Some ((Z.min 2000 (size (info small_chain_file)
                         - offset small_chain_file), data), s').
Proof.
  apply (read_returns_clamped_count small_chain_opened 0 2000 small_chain_file
           small_chain_disk small_chain_part).
  - apply small_chain_opened_reachable.
  - vm_compute. discriminate.
  - vm_compute. reflexivity.
  - vm_compute. discriminate.
  - vm_compute. discriminate.
  - vm_compute. reflexivity.
  - vm_compute. reflexivity.
  - lia.
  - exact small_chain_covers.
  - exact small_chain_readable.
Defined.


(* ------------------------------------------------------------------ *)
(** ** The end of a directory *)

(** The loop over the blocks of a directory, at a block whose scan meets
    an entry that starts with [0x00] before a match: the cursor moves on
    by one block and the loop ends there, without a file entry. *)
Lemma dir_block_loop_ends dev part fname dir st s data :
  device_cached dev s ->
  fs_file_entry st = None -> fs_no_more_entries st = false ->
  0 < fs_blocks_left st ->
  dev (_mfat_cluster_pos_blk_no (fs_cpos st)) = Some data ->
  scan_dir_block data fname 0 16 = no_more_entries ->
  exists r s',
    while_loop (find_file_block_step part fname dir) st s = Some (r, s') /\
    device_cached dev s' /\
    match next_dir_block dev part (fs_cpos st) with
    | Some cpos' =>
        exists p, r = Some (mk_find_state cpos' (add32 (fs_blocks_left st) 1)
                                          (Some p) None true)
    | None => r = None
    end.
Proof.
  intros Hdc Hnone Hmore Hleft Hdata Hscan.
  apply (while_loop_total
    (fun st1 y =>
       device_cached dev y /\
       (st1 = st \/
        exists cpos' p,
          next_dir_block dev part (fs_cpos st) = Some cpos' /\
          st1 = mk_find_state cpos' (add32 (fs_blocks_left st) 1) (Some p)
                              None true))
    (fun r y =>
       device_cached dev y /\
       match next_dir_block dev part (fs_cpos st) with
       | Some cpos' =>
           exists p, r = Some (mk_find_state cpos' (add32 (fs_blocks_left st) 1)
                                             (Some p) None true)
       | None => r = None
       end)
    (fun st1 => if fs_no_more_entries st1 then 0 else 1)).
  3:{ rewrite Hmore. lia. }
  2:{ split; [exact Hdc|]. left. reflexivity. }
  intros st1 y [Hy [->|(cpos' & p & Hnext & ->)]]; unfold find_file_block_step.
  - rewrite Hnone, Hmore. cbn [negb andb].
    destruct (Z.gtb_spec (fs_blocks_left st) 0) as [_|]; [|lia]. cbn [negb].
    destruct (read_block_defined dev (_mfat_cluster_pos_blk_no (fs_cpos st))
                MFAT_CACHE_DATA y Hy ltac:(cbv; lia))
      as (rb & y' & Hrd & Hy' & Hres).
    rewrite (bind_eq _ _ y rb y' Hrd). rewrite Hdata in Hres.
    destruct Hres as (p & cb & -> & Hget & _ & Hbuf).
    rewrite (bind_eq _ _ y' cb y' Hget). cbv zeta.
    rewrite Hbuf, Hscan. unfold next_dir_block.
    destruct (negb (cluster_no (fs_cpos st) =? 0)).
    + destruct (cluster_pos_advance_value dev (fs_cpos st) part y' Hy')
        as (y2 & Hadv & Hy2).
      rewrite (bind_eq _ _ y' _ y2 Hadv).
      destruct (advanced dev part (fs_cpos st)) as [c|];
        eexists _, y2; (split; [reflexivity|]).
      * split; [|cbn [fs_no_more_entries]; lia].
        split; [exact Hy2|]. right. exists c, p. auto.
      * split; [exact Hy2|reflexivity].
    + eexists _, y'. split; [reflexivity|].
      split; [|cbn [fs_no_more_entries]; lia].
      split; [exact Hy'|]. right. eexists _, p. auto.
  - cbn [fs_file_entry fs_no_more_entries negb andb].
    eexists _, y. split; [reflexivity|]. split; [exact Hy|].
    rewrite Hnext. exists p. reflexivity.
Qed.

(** One step of the loop over the path, at a directory block whose scan
    meets an entry that starts with [0x00] before a match: the step ends
    the loop over the path, without a file entry. *)
Lemma dir_path_step_ends dev part whole pp st s idx fname data :
  device_cached dev s -> 0 <= pp ->
  _mfat_canonicalize_fname (drop (Z.to_nat pp) whole) = Some (idx, fname) ->
  fs_file_entry st = None ->
  (cluster_no (fs_cpos st) = 0 -> 0 < fs_blocks_left st) ->
  dev (_mfat_cluster_pos_blk_no (fs_cpos st)) = Some data ->
  scan_dir_block data fname 0 16 = no_more_entries ->
  exists r s',
    find_file_path_step part whole (pp, st) s = Some (inr r, s') /\
    device_cached dev s' /\
    forall st', r = Some st' ->
      fs_file_entry st' = None /\ fs_no_more_entries st' = true.
Proof.
  intros Hdc Hpp Hcan Hnone Hleft Hdata Hscan. unfold find_file_path_step.
  destruct (Z.geb_spec pp 0) as [_|]; [|lia]. cbn [negb].
  rewrite (bind_eq _ _ s (idx, fname) s)
    by (unfold lift; rewrite Hcan; reflexivity).
  cbv zeta beta iota.
  set (st0 := mk_find_state _ _ _ _ false).
  destruct (dir_block_loop_ends dev part fname (idx >=? 0) st0 s data Hdc)
    as (r & s' & Hrun & Hdc' & Hr).
  - exact Hnone.
  - reflexivity.
  - cbn [st0 fs_blocks_left fs_cpos].
    destruct (Z.eqb_spec (cluster_no (fs_cpos st)) 0) as [E|_]; cbn [negb];
      [apply Hleft, E|lia].
  - exact Hdata.
  - exact Hscan.
  - rewrite (bind_eq _ _ s r s' Hrun).
    destruct (next_dir_block dev part (fs_cpos st0)) as [cpos'|].
    + destruct Hr as (p & ->). cbn [fs_no_more_entries].
      eexists _, s'. split; [reflexivity|]. split; [exact Hdc'|].
      intros st' Hst'. inversion Hst'; subst. auto.
    + subst r. eexists _, s'. split; [reflexivity|]. split; [exact Hdc'|].
      intros st' Hst'. discriminate Hst'.
Qed.

(** The lookup of a path whose first name meets, in the first block of
    the root directory, an entry that starts with [0x00] before a match:
    [_mfat_find_file] returns [false]. *)
Lemma find_file_ends dev pno path s part idx fname cpos bl data :
  device_cached dev s ->
  arr_get (partition s) pno = Some part ->
  _mfat_canonicalize_fname path = Some (idx, fname) ->
  root_dir_start part = Some (cpos, bl) ->
  (cluster_no cpos = 0 -> 0 < bl) ->
  dev (_mfat_cluster_pos_blk_no cpos) = Some data ->
  scan_dir_block data fname 0 16 = no_more_entries ->
  exists s', _mfat_find_file pno path s = Some (None, s').
Proof.
  intros Hdc Hpart Hcan Hstart Hleft Hdata Hscan.
  set (st0 := mk_find_state cpos bl None None false).
  destruct (dir_path_step_ends dev part path 0 st0 s idx fname data Hdc
              ltac:(lia) Hcan eq_refl Hleft Hdata Hscan)
    as (r & s' & Hstep & _ & Hr).
  apply while_loop_exit in Hstep.
  exists s'. unfold _mfat_find_file.
  rewrite (bind_eq _ _ s part s)
    by (unfold get_partition; rewrite Hpart; reflexivity).
  rewrite (bind_eq _ _ s (cpos, bl) s).
  2:{ unfold root_dir_start in Hstart. destruct (type part =? MFAT_TYPE_FAT32).
      - unfold bind, lift.
        destruct (_mfat_cluster_pos_init part (root_dir_cluster part) 0);
          [|discriminate].
        inversion Hstart; subst. reflexivity.
      - inversion Hstart; subst. reflexivity. }
  cbn [fst snd]. fold st0.
  rewrite (bind_eq _ _ s r s' Hstep).
  destruct r as [st'|]; [|reflexivity].
  destruct (Hr st' eq_refl) as [-> _]. reflexivity.
Qed.

(** C4, as the code behaves.  In the scan of a directory block for a
    canonicalized name: an entry whose first byte is [0x00] ends the
    scan of the block; an entry whose first byte is [0xE5] is skipped; an
    entry whose attribute byte is [0x0F] is treated like any other entry,
    that is, skipped when one of its first eleven bytes differs from the
    target, and returned as the match when all eleven are equal.  A
    match never starts with [0x00] or [0xE5], whatever the block
    holds.

    An entry that starts with [0x00] also ends the scan of the
    directory, and the lookup.  When the scan of a block of a directory
    meets such an entry before a match, the loop of [_mfat_find_file]
    over the blocks of the directory moves the cursor on by one block
    and ends, without a file entry and with [no_more_entries] set, or
    the function returns [false] because the cursor cannot move on (no
    further block is scanned in either case); the loop over the path
    ends with this step; and when the block is the first of the root
    directory, [_mfat_find_file] returns [false]. *)
Theorem dir_scan_entries buf path idx fname offs n :
  _mfat_canonicalize_fname path = Some (idx, fname) ->
  (byte_at buf offs = 0x00 ->
   scan_dir_block buf fname offs (S n) = no_more_entries) /\
  (byte_at buf offs = 0xE5 ->
   scan_dir_block buf fname offs (S n)
   = scan_dir_block buf fname (offs + 32) n) /\
  (byte_at buf (offs + 11) = 0x0F -> byte_at buf offs <> 0x00 ->
   (exists k, 0 <= k < 11 /\ byte_at buf (offs + k) <> byte_at fname k) ->
   scan_dir_block buf fname offs (S n)
   = scan_dir_block buf fname (offs + 32) n) /\
  (byte_at buf (offs + 11) = 0x0F -> byte_at buf offs <> 0x00 ->
   (forall k, 0 <= k < 11 -> byte_at buf (offs + k) = byte_at fname k) ->
   scan_dir_block buf fname offs (S n) = found_entry offs) /\
  (forall e, scan_dir_block buf fname offs n = found_entry e ->
             byte_at buf e <> 0x00 /\ byte_at buf e <> 0xE5) /\
  (forall dev part dir st s,
     device_cached dev s ->
     fs_file_entry st = None -> fs_no_more_entries st = false ->
     0 < fs_blocks_left st ->
     dev (_mfat_cluster_pos_blk_no (fs_cpos st)) = Some buf ->
     scan_dir_block buf fname 0 16 = no_more_entries ->
     exists r s',
       while_loop (find_file_block_step part fname dir) st s = Some (r, s') /\
       match next_dir_block dev part (fs_cpos st) with
       | Some cpos' =>
           exists p,
             r = Some (mk_find_state cpos' (add32 (fs_blocks_left st) 1)
                                     (Some p) None true)
       | None => r = None
       end) /\
  (forall dev part whole pp st s,
     device_cached dev s -> 0 <= pp ->
     drop (Z.to_nat pp) whole = path ->
     fs_file_entry st = None ->
     (cluster_no (fs_cpos st) = 0 -> 0 < fs_blocks_left st) ->
     dev (_mfat_cluster_pos_blk_no (fs_cpos st)) = Some buf ->
     scan_dir_block buf fname 0 16 = no_more_entries ->
     exists r s',
       find_file_path_step part whole (pp, st) s = Some (inr r, s') /\
       forall st', r = Some st' ->
         fs_file_entry st' = None /\ fs_no_more_entries st' = true) /\
  (forall dev pno part s cpos bl,
     reachable s -> read s = Some dev ->
     arr_get (partition s) pno = Some part ->
     root_dir_start part = Some (cpos, bl) ->
     (cluster_no cpos = 0 -> 0 < bl) ->
     dev (_mfat_cluster_pos_blk_no cpos) = Some buf ->
     scan_dir_block buf fname 0 16 = no_more_entries ->
     exists s', _mfat_find_file pno path s = Some (None, s')).
Proof.
  intros Hc.
  destruct (canonicalize_fname_total path) as (idx' & fname' & Hc' & Hn & Hl).
  rewrite Hc in Hc'. inversion Hc'; subst idx' fname'. clear Hc'.
  destruct (byte_at_name_byte fname Hn Hl) as [He5 H0].
  split; [|split; [|split; [|split; [|split; [|split; [|split]]]]]].
  - intros H. cbn [scan_dir_block]. rewrite H. reflexivity.
  - intros H. cbn [scan_dir_block]. rewrite H.
    change (0xE5 =? 0x00) with false. cbv iota.
    destruct (_mfat_cmpbuf buf offs fname 0 11) eqn:E; [|reflexivity].
    exfalso. unfold _mfat_cmpbuf in E.
    rewrite cmpbuf_from_spec in E. specialize (E 0 ltac:(lia)).
    rewrite Z.add_0_r in E. rewrite H in E. apply He5. symmetry. exact E.
  - intros _ Hnz (k & Hk & Hdiff). cbn [scan_dir_block].
    apply Z.eqb_neq in Hnz. rewrite Hnz.
    destruct (_mfat_cmpbuf buf offs fname 0 11) eqn:E; [|reflexivity].
    exfalso. unfold _mfat_cmpbuf in E.
    rewrite cmpbuf_from_spec in E. apply Hdiff. apply (E k). lia.
  - intros _ Hnz Hall. cbn [scan_dir_block].
    apply Z.eqb_neq in Hnz. rewrite Hnz.
    assert (E : _mfat_cmpbuf buf offs fname 0 11 = true).
    { unfold _mfat_cmpbuf. apply cmpbuf_from_spec. intros k Hk.
      apply Hall. lia. }
    rewrite E. reflexivity.
  - intros e H. apply scan_dir_block_found in H as [Hnz E].
    split; [exact Hnz|]. intros He. apply He5.
    unfold _mfat_cmpbuf in E. rewrite cmpbuf_from_spec in E.
    specialize (E 0 ltac:(lia)). rewrite Z.add_0_r, He in E.
    symmetry. exact E.
  - intros dev part dir st s Hdc Hnone Hmore Hleft Hdata Hscan.
    destruct (dir_block_loop_ends dev part fname dir st s buf Hdc Hnone Hmore
                Hleft Hdata Hscan) as (r & s' & Hrun & _ & Hr).
    exists r, s'. auto.
  - intros dev part whole pp st s Hdc Hpp Hdrop Hnone Hleft Hdata Hscan.
    rewrite <- Hdrop in Hc.
    destruct (dir_path_step_ends dev part whole pp st s idx fname buf Hdc Hpp
                Hc Hnone Hleft Hdata Hscan) as (r & s' & Hrun & _ & Hr).
    exists r, s'. auto.
  - intros dev pno part s cpos bl Hreach Hdev Hpart Hstart Hleft Hdata Hscan.
    apply (find_file_ends dev pno path s part idx fname cpos bl buf); auto.
    apply reachable_device_cached; assumption.
Qed.

Lemma dir_scan_entries_witness :
  scan_dir_block hello_root (text "NOPE    TXT") 32 15 = no_more_entries /\
  scan_dir_block hello_root (text "NOPE    TXT") 0 16 = no_more_entries /\
  exists s',
    _mfat_find_file 0 (text "/NOPE.TXT") hello_mounted = Some (None, s').
Proof.
  assert (Hc : _mfat_canonicalize_fname (text "/NOPE.TXT")
               = Some (-1, text "NOPE    TXT")) by reflexivity.
  destruct (dir_scan_entries hello_root (text "/NOPE.TXT") (-1)
              (text "NOPE    TXT") 32 14 Hc)
    as (Hzero & _ & _ & _ & _ & _ & _ & Hfind).
  assert (Hscan : scan_dir_block hello_root (text "NOPE    TXT") 0 16
                  = no_more_entries) by (vm_compute; reflexivity).
  split; [apply Hzero; reflexivity|]. split; [exact Hscan|].
  apply (Hfind hello_disk 0 hello_part hello_mounted
           (mk_cpos 0 0 (root_dir_block hello_part))
           (blocks_in_root_dir hello_part)).
  - apply hello_mounted_reachable.
  - vm_compute. reflexivity.
  - vm_compute. reflexivity.
  - vm_compute. reflexivity.
  - intros _. vm_compute. reflexivity.
  - vm_compute. reflexivity.
  - exact Hscan.
Defined.


(* ------------------------------------------------------------------ *)
(** ** [mfat_fstat] and the descriptor, on a device that may fail *)

(** [_mfat_get_cached_block] does not call the read callback. *)
Lemma get_cached_block_set_read v blk ct s :
  _mfat_get_cached_block blk ct (set_read v s)
  = match _mfat_get_cached_block blk ct s with
    | Some (r, s') => Some (r, set_read v s')
    | None => None
    end.
Proof.
  destruct s as [i a r w pa fi ca].
  unfold _mfat_get_cached_block, put_block, put_cache, call_write, modify,
    get_cache, lift, bind, ret, set_read, set_cache.
  cbv beta iota zeta
    delta [cache write read initialized active_partition partition file
           fst snd].
  destruct (ca !! ct) as [c|]; [|reflexivity].
  destruct (pri c !! _) as [lru|]; [|reflexivity].
  destruct (arr_get (block c) _) as [cb|]; [|reflexivity].
  destruct (negb (blk_no cb =? blk)); [|reflexivity].
  destruct (state cb =? MFAT_DIRTY).
  - destruct w as [w|]; [|reflexivity].
    destruct (negb (w (buf cb) (blk_no cb) =? -1)); [|reflexivity].
    destruct (_ !! ct); reflexivity.
  - destruct (_ !! ct); reflexivity.
Qed.

(** [_mfat_read_block] in a state without dirty blocks whose cached
    blocks are copies of blocks of [dev], when the read callback answers
    as [dev']: it returns; the block it yields is a copy of the block on
    [dev] when [dev'] returns what [dev] holds; and it fails only when
    [dev'] fails for the block. *)
Lemma read_block_on_failing_device dev dev' blk ct s :
  device_cached dev s -> (ct < MFAT_NUM_CACHES)%nat ->
  (forall b data, dev' b = Some data -> dev b = Some data) ->
  exists r s',
    _mfat_read_block blk ct (set_read (Some dev') s) = Some (r, s') /\
    file s' = file s /\
    match r with
    | Some p => exists cb, get_block p s' = Some (cb, s') /\
                           dev blk = Some (buf cb)
    | None => dev' blk = None
    end.
Proof.
  intros (Hci & Hcoh & Hcl & Hr) Hct Hagree.
  destruct (get_cached_block_succeeds blk ct s Hci Hcl Hct)
    as (p & s1 & Hget).
  pose proof (get_cached_block_frame _ _ _ _ _ Hget) as Hfr.
  destruct (get_cached_block_coherent _ _ _ _ _ Hcoh Hget) as (Hcoh1 & Hslot).
  destruct (Hslot p eq_refl) as (Hp1 & c & cb & Hc & Hcb & Hblk).
  assert (Hr1 : read s1 = Some dev).
  { destruct Hfr as (_ & _ & Hr1 & _). congruence. }
  assert (Hfile : file s1 = file s) by apply Hfr.
  unfold _mfat_read_block.
  rewrite (bind_eq _ _ _ (Some p) (set_read (Some dev') s1))
    by (rewrite get_cached_block_set_read, Hget; reflexivity).
  assert (Hgb : get_block p (set_read (Some dev') s1)
                = Some (cb, set_read (Some dev') s1)).
  { unfold get_block, bind, get_cache, lift.
    change (cache (set_read (Some dev') s1)) with (cache s1).
    rewrite Hp1, Hc, Hcb. reflexivity. }
  rewrite (bind_eq _ _ _ cb _ Hgb).
  destruct (Z.eqb_spec (state cb) MFAT_INVALID) as [Hs|Hs].
  - rewrite (bind_eq _ _ _ (dev' blk) (set_read (Some dev') s1))
      by reflexivity.
    destruct (dev' blk) as [data|] eqn:Hdata.
    + set (cb' := mk_cached_block MFAT_VALID (blk_no cb) data).
      set (s2 := set_cache
                   (<[ct := mk_cache (<[snd p := cb']> (block c)) (pri c)]>
                      (cache s1)) (set_read (Some dev') s1)).
      assert (Hput : put_block p cb' (set_read (Some dev') s1)
                     = Some (tt, s2)).
      { unfold put_block, bind, get_cache, put_cache, modify.
        change (cache (set_read (Some dev') s1)) with (cache s1).
        rewrite Hp1, Hc. reflexivity. }
      rewrite (bind_eq _ _ _ tt s2 Hput).
      exists (Some p), s2. split; [reflexivity|]. split; [exact Hfile|].
      exists cb'. split; [|apply Hagree, Hdata].
      unfold get_block, bind, get_cache, lift. rewrite Hp1.
      change (cache s2)
        with (<[ct := mk_cache (<[snd p := cb']> (block c)) (pri c)]>
                (cache s1)).
      rewrite list_lookup_insert_eq by (eapply lookup_lt_Some, Hc).
      cbn [block]. rewrite list_lookup_insert_eq by (eapply lookup_lt_Some, Hcb).
      reflexivity.
    + exists None, (set_read (Some dev') s1).
      split; [reflexivity|]. split; [exact Hfile|reflexivity].
  - exists (Some p), (set_read (Some dev') s1).
    split; [reflexivity|]. split; [exact Hfile|].
    exists cb. split; [exact Hgb|].
    rewrite <- Hblk. eapply Hcoh1; eauto.
Qed.

(** [mfat_fstat] on an open descriptor of a mounted volume, in a state
    reached while the device answered as [dev], called when the read
    callback answers as [dev'], a device that may fail for any block and
    otherwise returns what [dev] holds.  The call returns, and leaves
    the descriptor table as it is.  Either it
    returns [0], and then it agrees with the descriptor: the size it
    reports is the size that [mfat_read] and [mfat_lseek] use for the
    descriptor, and the mode is that of a regular file, never of a
    directory.  Or it returns [-1], and then the callback fails for the
    block of the directory entry, which [mfat_fstat] reads again when it
    is no longer in the cache. *)
Theorem fstat_agrees_with_descriptor fd s f dev dev' :
  reachable s -> initialized s <> 0 -> read s = Some dev ->
  arr_get (file s) fd = Some f -> open f <> 0 ->
  (forall b data, dev' b = Some data -> dev b = Some data) ->
  exists r st s',
    mfat_fstat fd (set_read (Some dev') s) = Some ((r, st), s') /\
    file s' = file s /\
    ((r = 0 /\
      exists x, st = Some x /\ st_size x = size (info f) /\
        Z.land (st_mode x) (Z.lor MFAT_S_IFDIR MFAT_S_IFREG) = MFAT_S_IFREG) \/
     (r = -1 /\ st = None /\ dev' (dir_entry_block (info f)) = None)).
Proof.
  intros Hreach Hinit Hr Hf Hopen Hagree.
  pose proof (reachable_device_cached dev s Hreach Hr) as Hdc.
  pose proof (reachable_num_fds s Hreach) as Hlen.
  assert (Hfl : file s !! Z.to_nat fd = Some f).
  { apply arr_get_lookup in Hf as [Hf _]. exact Hf. }
  destruct (reachable_entries_inv s Hreach _ f dev Hfl Hopen Hr)
    as [(data & Hdata & Hsize & _) Hdir].
  specialize (Hdir data Hdata).
  destruct (read_block_on_failing_device dev dev' (dir_entry_block (info f))
              MFAT_CACHE_DATA s Hdc ltac:(cbv; lia) Hagree)
    as (rb & s' & Hrun & Hfile & Hres).
  set (s0 := set_read (Some dev') s) in *.
  assert (Hfstat : mfat_fstat fd s0 = _mfat_fstat_impl (info f) s0).
  { unfold mfat_fstat. rewrite (bind_eq _ _ s0 s0 s0) by reflexivity.
    change (initialized s0) with (initialized s).
    destruct (Z.eqb_spec (initialized s) 0) as [E|_]; [contradiction|].
    rewrite (bind_eq _ _ s0 (Some fd) s0 (get_file_open fd s0 f Hlen Hf Hopen)).
    rewrite (bind_eq _ _ s0 f s0)
      by (unfold get_file_at; change (file s0) with (file s); rewrite Hf;
          reflexivity).
    reflexivity. }
  rewrite Hfstat. unfold _mfat_fstat_impl.
  rewrite (bind_eq _ _ s0 rb s' Hrun).
  destruct rb as [p|].
  - destruct Hres as (cb & Hget & Hbuf).
    rewrite Hdata in Hbuf. inversion Hbuf as [Hbuf']. clear Hbuf.
    rewrite (bind_eq _ _ s' cb s' Hget).
    eexists 0, _, s'. split; [reflexivity|]. split; [exact Hfile|].
    left. split; [reflexivity|]. eexists. split; [reflexivity|].
    rewrite <- Hbuf'. split.
    + unfold _mfat_dir_entry_to_stat. cbn [st_size]. symmetry. exact Hsize.
    + unfold _mfat_dir_entry_to_stat. cbn [st_mode]. rewrite Hdir.
      change (0 =? 0) with true. cbn [negb].
      destruct (Z.land _ MFAT_ATTR_READ_ONLY =? 0); vm_compute; reflexivity.
  - exists (-1), None, s'. split; [reflexivity|]. split; [exact Hfile|].
    right. auto.
Qed.

Lemma fstat_agrees_with_descriptor_witness :
  exists r st s',
    mfat_fstat 0 (set_read (Some small_chain_disk) chain_read)
    = Some ((r, st), s') /\
    file s' = file chain_read /\
    ((r = 0 /\
      exists x, st = Some x /\ st_size x = size (info chain_file) /\
        Z.land (st_mode x) (Z.lor MFAT_S_IFDIR MFAT_S_IFREG) = MFAT_S_IFREG) \/
     (r = -1 /\ st = None /\
      small_chain_disk (dir_entry_block (info chain_file)) = None)).
Proof.
  apply (fstat_agrees_with_descriptor 0 chain_read chain_file chain_disk
           small_chain_disk chain_read_reachable).
  - vm_compute. discriminate.
  - vm_compute. reflexivity.
  - vm_compute. reflexivity.
  - vm_compute. discriminate.
  - intros b data. unfold small_chain_disk.
    destruct (_ && _); [auto|discriminate].
Defined.
